(* ===== verification/_CoqProject ===== *)
-Q . S2P
Prelude.v
GoLib.v
Hlc.v
Float64.v
Metrics.v
Storage.v
Staleness.v
Ring.v
WriteLog.v
Reconcile.v
GoParse.v
Config.v
Quorum.v
MetricsReader.v
Ccs.v
Adjuster.v
Api.v
Coordinator.v
Server.v
Cluster.v
ServerSpec.v
Health.v
Interleaving.v
Node.v
YcsbUtil.v
Json.v
Clients.v
Bench.v
Generators.v
AckCounter.v
Ycsb.v
Workload.v
YcsbClient.v
YcsbAcp.v
ConcMap.v
BenchRun.v
TableDb.v
KvStore.v
DocStore.v
KvBindings.v
TikvBindings.v
DocBindings.v
EtcdAerospike.v
CloudBindings.v
FdbBinding.v
DbConfig.v
BasicDb.v
KvRun.v
DocRun.v
CloudRun.v
Sql.v
SqlText.v
SqlBindings.v
SqlRun.v
StoreConfig.v
Cassandra.v
Spanner.v
Report.v
Process.v
YcsbCommand.v
System.v
NodeMain.v
