(* ===== verification/Prelude.v ===== *)
(** * ACP-KV: a verification development

    ACP-KV (src/) is a replicated in-memory key-value store in Go.  Every node
    keeps all keys; a write is sent to every peer and succeeds when W nodes have
    it, a read asks the peers and succeeds when R nodes answer, and values carry
    hybrid-logical-clock (HLC) timestamps.  A controller moves R and W while the
    node runs, following a "consistency confidence score" computed from metrics.
    A health probe watches the peers and tells a reconciliation engine when one
    comes back.

    ** How the parts interact

    [main] (src/cmd/acp-node) reads the configuration, builds the parts and
    shares them: the server's handlers use the clock, the store, the staleness
    detector, the coordinator (calls to the peers), a quorum provider (the static
    configuration or the adaptive quorum) and, when enabled, the reconciliation
    engine's log.  The engine works on the server's store; the probe notifies the
    engine; the adjuster reads the metrics the handlers and the probe write and
    changes the quorum the handlers read.  Peer discovery changes the peers of
    coordinator and probe.  Clients (a library, a command line tool, a benchmark
    and a YCSB binding) call a node through gRPC.

    The vendored YCSB framework (src/go-ycsb-vendor) drives databases: its client
    starts worker threads, each of which asks the core workload for operations; the
    workload draws keys and values from the generators, inserts through the
    acknowledged counter, and calls the database through a wrapper that measures
    it.  A database is an instance of the class [YcsbDB]; every binding of the
    repository is one.  Client theorems are proved against contracts and the
    bindings' theorems discharge them: [ValueDB] (the values a database answers are
    ones that were written), [TableDB] with [table_refines] (a database answers as a
    map from keys to rows), [DocDB] and [RowStore].  A driver of a third-party
    store is a class of operations with the laws its documentation gives, and has
    an instance in memory that satisfies them.

    ** Files

    Shared
    - [Prelude]: this header, tactics, lemmas on finite sets and lists.
    - [GoLib]: Go's int64 as [Z] with explicit wrap-around, time, errors, bytes.
    - [GoParse]: [strconv.Atoi], [ParseBool], [time.ParseDuration],
      [strings.Split] and [TrimSpace], as the configuration uses them.
    - [Float64]: Go's float64 as IEEE 754 binary64, executable ([SpecFloat]).
    - [Ring]: the circular buffer that the write log and the sliding windows
      both implement, and its specification (the last [size] elements pushed).

    Components, with the source each one translates
    - [Hlc]: internal/hlc/clock.go, proto.go.  [HLC], [Clock], [Clock_Now],
      [Clock_Update] and the comparison methods.
    - [Metrics]: internal/metrics/metrics.go.  The registered metrics; the state
      monad [GoM] in which handlers run, which threads the readings of
      [time.Now()] and the sequence of metric updates.
    - [Storage]: internal/storage/store.go.  The map as a [gmap].
    - [Staleness]: internal/staleness/detector.go.
    - [WriteLog], [Reconcile]: internal/reconcile/log.go and engine.go.
    - [Config]: internal/config/config.go.
    - [Quorum], [Ccs], [Adjuster]: internal/adaptive.  [QuorumProvider] is the
      interface of the source as a class, with one instance for the
      configuration, one for the adaptive quorum and one for the running node.
    - [MetricsReader]: internal/metrics/reader.go.
    - [Api]: api/proto/acp.proto.  The class [Network] has one operation per
      remote call; [ReplicaNetwork] states what a caller may rely on (a
      successful replication is stored at the target, a local read returns what
      the target holds).  The theorems on coordinator and server are proved
      against these classes.
    - [Coordinator]: internal/replication/coordinator.go.
    - [Server], [ServerSpec]: internal/server/server.go and what a client of one
      node may rely on.
    - [Cluster]: the instance of [Network] and [ReplicaNetwork] in which a call
      runs the handler of the node behind the address, unless a fault loses the
      request or the reply; runs of a whole cluster as [cluster_step].
    - [Health]: internal/health/probe.go, with its goroutines as a step relation.
    - [Interleaving]: the atomic steps of concurrent handlers of one node.
    - [Node]: cmd/acp-node/main.go, and everything that runs in a node as one
      step relation; [NodeMain]: the process around it (listeners, signal, graceful
      stop, deferred calls); [System]: runs of a cluster of whole nodes from their
      start.
    - [Clients]: pkg/client, cmd/acp-cli, benchmark/adaptive/client_pool.go and
      go-ycsb-vendor/db/acp.
    - [Bench]: the operations of cmd/acp-adaptive-bench and of
      benchmark/adaptive/metrics.go; [BenchRun]: a whole run of the benchmark
      with the state and the report of its collector.
    - [YcsbUtil]: go-ycsb-vendor/pkg/util (hashes, varints, the row codec) and
      the type [Outcome] of a computation that may panic or end the process.
    - [Generators], [AckCounter]: go-ycsb-vendor/pkg/generator; the acknowledged
      counter has a file of its own, with its threads as a step relation.
    - [Ycsb]: pkg/ycsb (the interfaces), pkg/measurement and the measuring
      wrapper pkg/client/dbwrapper.go.
    - [Workload]: pkg/workload/core.go.
    - [YcsbClient]: pkg/client/client.go, its workers as a step relation.
    - [YcsbAcp]: the ACP binding as an instance of [YcsbDB] and [ValueDB].
    - [ConcMap]: pkg/util/concurrent_map.go, the sharded map.
    - [Json]: encoding/json for the maps the bindings store, encoder and decoder.
    - [Report], [Process]: pkg/measurement, pkg/util/output.go, tool/report.go, and
      the process of a benchmark (warm-up, summaries, join, output, signals).
    - [YcsbCommand]: cmd/go-ycsb (the commands and the shell).

    Bindings (db/) and what they share
    - [TableDb]: databases as maps from keys to rows, and what it means to refine one.
    - [KvStore], [KvBindings] (badger, boltdb, rocksdb), [TikvBindings] (tikv/raw.go,
      tikv/txn.go), [FdbBinding] (foundationdb), [KvRun] (their properties).
    - [DocStore], [DocBindings] (mongodb, redis), [EtcdAerospike] (etcd, aerospike),
      [DocRun] (their properties).
    - [CloudBindings] (dynamodb, minio, elasticsearch, pegasus), [CloudRun].
    - [Sql], [SqlText], [SqlBindings], [SqlRun]: the part of SQL the texts use
      (tokens, grammar, meaning), the texts, the mysql, pg and sqlite bindings.
    - [Cassandra], [Spanner]: these two bindings with their CQL, DDL and mutations.
    - [DbConfig], [StoreConfig]: creation from the properties, options, data source
      names, TLS; [BasicDb]: db/basic.

    ** How code is translated

    A method on a struct is a function on a record; a handler is a computation
    in [GoM S A], i.e. a function of the state and of the [World] of clock
    readings and metric events.  [time.Now()] returns the next reading of an
    arbitrary sequence, so theorems hold for clocks that stand still or go back.
    Errors are values ([option error], or a sum); a run-time panic (an index out
    of range) is [None], and the invariants exclude it.  Goroutines of one
    fan-out ([Replicate], [QueryReplicas]) finish in the order an arbitrary
    [schedule] gives, a map iteration included; [fair_schedule] says only that
    the schedule is a permutation.  Longer-lived goroutines are threads of a
    step relation.  The YCSB code panics and ends the process, so it runs in
    [PM S A], whose results are an [Outcome]: a value, a panic, an exit or (for
    loops that random draws alone bound) exhausted fuel; panic and exit
    messages keep the fixed start of the text.  Where several parts share a mutable object (the store, the
    engine, the quorum), it is one component of the shared state.

    ** What is proved

    - Replication and reads ([Cluster], [ServerSpec], [Coordinator]): a quorum
      read that starts after an acknowledged quorum write returns that write or a
      newer one (or an error), for the W of the write and the R of the read
      together exceeding N, when later writes to the key carry timestamps that
      are not older; the exact outcome of [Put] and [Get] on every branch; the
      acknowledgement count; the newest value of a set of replies.
    - Time ([Hlc], [Interleaving]): timestamps of a clock strictly increase under
      any mix of [Now] and [Update], their physical part stays within the
      readings and the accepted remote times, concurrent handlers never share a
      timestamp, and a write after a replicated one is stamped later.
    - Adaptation ([Quorum], [Ccs], [Adjuster]): [SetQuorum] on every branch, the
      hysteresis, R + W > N under every sequence of changes and adjustment
      cycles, and which adjustment a cycle makes.
    - Reconciliation ([WriteLog], [Reconcile]): the log refines "the last
      [maxSize] writes"; reconciliation is last-writer-wins, independent of the
      order of the log; the engine never panics.
    - Membership and health ([Coordinator], [Health], [Config]): discovery,
      exact reconciliation of the peer set, healing events exactly at rising
      edges, an invariant of the probe under every interleaving.
    - The running node ([Node], [NodeMain]): every state reachable from a successful
      start satisfies the invariants of all parts together; a node that is told to
      stop answers every request it has accepted before its connections close.
    - The whole system ([System]): in a cluster whose nodes were started from their
      environments, whatever requests, probes, adjusters, engines and discovery do,
      a quorum read sees the acknowledged writes.
    - Clients ([Clients], [Bench], [BenchRun]): round trips through a cluster,
      exit status of the tool, round robin, the compare-and-swap minimum, and
      that the report of a benchmark run adds up to the operations it made.
    - YCSB ([AckCounter], [Workload], [YcsbClient], [YcsbAcp], [ConcMap] and
      others): with data integrity on, no interleaving of the workers over a
      cluster of nodes ever finds a value that was not written; a load inserts
      every key exactly once and every run of the client ends; retries of an
      insert are bounded; requests of the uniform and sequential distributions
      stay in the loaded range; the acknowledged counter reports a prefix of acknowledged
      keys under every interleaving and catches up once they are all
      acknowledged; the sharded map refines one map; rows decode to what was
      encoded; the wrapper measures a call exactly once and changes nothing
      else.
    - The command and its reports ([YcsbCommand], [Process], [Report]): a load
      command inserts exactly its records; the shell refines a map of rows; the
      process ends and outputs after all workers have ended; the tool reads back
      what a run printed.
    - Bindings ([KvRun], [DocRun], [SqlRun], [Spanner], [CloudRun]): over drivers
      that obey their laws the key-value, document, SQL, Cassandra and Spanner
      bindings refine tables, and benchmark runs over key-value and document
      stores keep data integrity; every SQL text parses to the statement it
      means; JSON decodes to what was encoded; DynamoDB's table exists when it is
      needed.
    - Behaviours of the code that differ from what its comments or its README
      say are theorems too, with concrete runs: [adaptive_change_loses_write],
      [concurrent_puts_store_older], [quorum_read_missing_key_fails],
      [replicate_overwrites_newer], [cancel_entry_can_be_lost],
      [acp_update_drops_fields], [batch_load_overshoots],
      [zipfian_requests_unloaded], [batch_rmw_does_nothing],
      [ccs_threshold_ignored], [average_exceeds_maximum],
      [metrics_failure_drops_requests], [sqlite_batch_read_repeats],
      [warm_up_outlives_run], [load_can_miss_operations] and others.

    ** Parameters and bounds

    Third-party code is a parameter: the gRPC transport (classes [Network] and
    [Service]), DNS lookups, the Prometheus registry and HTTP API, the drivers of
    the databases, the HDR histogram and [strconv.ParseFloat].  A hypothesis on one of them states documented
    behaviour (looking up a labelled metric creates it; a graceful stop waits for the
    pending requests; a transaction that commits has all its writes) and has a concrete instance in a witness.  Random draws are inputs; for
    the YCSB generators they come from the class [Rand], and [math.Pow],
    [math.Log], the getters of the properties package, Unicode lower-casing and
    the iteration order of maps are arguments.
    Integers are 64 bits wide and wrap; theorems that need the absence of
    overflow say so with explicit bounds on their inputs.  Recursion is
    structural except for these loops.  [time.ParseDuration] has the length of
    the input as fuel: every round of the loop consumes a byte, and
    [parse_duration_fuel] shows that more fuel changes nothing.  The same holds
    of [DecodeRow].  The loop of the acknowledged counter clears one set slot a
    round and has the number of set slots as fuel; the loop that builds a
    deterministic value appends a byte or more a round and has that value's
    size ([det_loop_exits] shows it leaves by its own condition); the insert
    retries have their limit.  The rejection loop of the exponential generator
    is not bounded by the code: it takes its fuel as an argument and answers
    [OutOfFuel] when that is spent.  So does the retry loop of the SQLite binding;
    its theorem asks for more fuel than the driver is busy.  The parser of SQL
    lists has the number of tokens as fuel and the JSON decoder the length of the
    text, next to Go's own limit of ten thousand levels.

    ** Not modelled

    Logging and [HLC.String]; wire encoding and dial options (the stubs protoc
    generates are not in the repository); deployment files and scripts, which hold
    no program logic.  Of the vendored framework: the HDR histogram and the
    registration of the TiDB driver with [database/sql] (third-party code), the
    profiling server, verbose output, and [Close] of bindings where it changes no
    modelled state.  The JSON module of Redis is a driver without laws: its
    commands are modelled, their results are not related to a table.  Elasticsearch,
    MinIO and Pegasus have no refinement theorem, because their reads do not give
    back what was written; theorems say what they give instead. *)

From Stdlib Require Export ZArith Lia Permutation Sorted.
From stdpp Require Export base strings gmap list sets pretty.

#[export] Set Default Goal Selector "!".

Declare Scope acp_scope.
Delimit Scope acp_scope with acp.

Open Scope Z_scope.

(** ** Automation shared by every component *)

Create HintDb acp.

(** Case analysis on the boolean conditions of the code, followed by [lia]
    on the integer facts they stand for. *)
Ltac split_ifs :=
  repeat match goal with
    | |- context [if ?b then _ else _] => destruct b eqn:?
    | H : context [if ?b then _ else _] |- _ => destruct b eqn:?
    end.

Ltac bool_lia := split_ifs; simplify_eq/=; try lia.

(** Turn boolean connectives in hypotheses and goal into propositions. *)
Ltac bool_prop :=
  repeat match goal with
    | H : context [_ && _ = true] |- _ => rewrite andb_true_iff in H
    | H : context [_ && _ = false] |- _ => rewrite andb_false_iff in H
    | H : context [_ || _ = true] |- _ => rewrite orb_true_iff in H
    | H : context [_ || _ = false] |- _ => rewrite orb_false_iff in H
    | H : context [negb _ = true] |- _ => rewrite negb_true_iff in H
    | H : context [negb _ = false] |- _ => rewrite negb_false_iff in H
    | |- context [_ && _ = true] => rewrite andb_true_iff
    | |- context [_ && _ = false] => rewrite andb_false_iff
    | |- context [_ || _ = true] => rewrite orb_true_iff
    | |- context [_ || _ = false] => rewrite orb_false_iff
    | |- context [negb _ = true] => rewrite negb_true_iff
    | |- context [negb _ = false] => rewrite negb_false_iff
    end.

(** ** Finite sets: the counting argument behind quorums *)

Section Quorums.
Context {A : Type} `{Countable A}.
Implicit Types U X Y : gset A.

Lemma size_union_le X Y : (size (X ∪ Y) <= size X + size Y)%nat.
Proof.
  rewrite size_union_alt. pose proof (subseteq_size (Y ∖ X) Y).
  assert (Y ∖ X ⊆ Y) by set_solver. naive_solver lia.
Qed.

(** Two subsets whose sizes add up to more than the universe intersect. *)
Lemma quorum_intersect U X Y :
  X ⊆ U → Y ⊆ U → (size U < size X + size Y)%nat → ∃ a, a ∈ X ∧ a ∈ Y.
Proof.
  intros HX HY Hlt.
  destruct (decide (X ∩ Y = ∅)) as [Hd|Hne].
  - exfalso. assert (X ## Y) as Hdisj by set_solver.
    pose proof (size_union X Y Hdisj).
    assert (size (X ∪ Y) <= size U)%nat by (apply subseteq_size; set_solver).
    lia.
  - apply set_choose_L in Hne as [a Ha]. set_solver.
Qed.

Lemma size_le_1 U a : U ∖ {[a]} = ∅ → (size U <= 1)%nat.
Proof.
  intros He. rewrite <- (size_singleton (C := gset A) a). apply subseteq_size.
  intros x Hx. destruct (decide (x = a)); set_solver.
Qed.

Lemma size_add_1 X Y a : X ⊆ Y ∖ {[a]} → size ({[a]} ∪ X) = S (size X).
Proof. intros. rewrite size_union, size_singleton by set_solver. lia. Qed.
End Quorums.

(** ** Lists *)

Section Lists.
Context {A B : Type}.

Lemma fold_left_inv (f : B → A → B) (P : B → Prop) (l : list A) (b : B) :
  P b → (∀ b a, a ∈ l → P b → P (f b a)) → P (fold_left f l b).
Proof.
  revert b. induction l as [|a l IH]; intros b Hb Hf; [done|]. simpl.
  apply IH; [apply Hf; [set_solver|done]|]. intros; apply Hf; set_solver.
Qed.

(** [List.filter] (boolean predicates, as the code writes its guards). *)
Lemma length_filter_le (p : A → bool) (l : list A) :
  (length (List.filter p l) <= length l)%nat.
Proof. induction l as [|a l IH]; simpl; [lia|]. destruct (p a); simpl; lia. Qed.

Lemma elem_of_bfilter (p : A → bool) (l : list A) (x : A) :
  x ∈ List.filter p l ↔ x ∈ l ∧ p x = true.
Proof. rewrite !list_elem_of_In. apply filter_In. Qed.

Lemma length_filter_split (p : A → bool) (l : list A) :
  (length (List.filter p l) + length (List.filter (λ a, negb (p a)) l) = length l)%nat.
Proof. induction l as [|a l IH]; simpl; [lia|]. destruct (p a); simpl; lia. Qed.
End Lists.

Lemma replicate_lookup_None_or {A} (n i : nat) (x y : A) :
  replicate n x !! i = Some y → y = x.
Proof. intros [? _]%lookup_replicate. done. Qed.

(** ** Round robin *)

Lemma mod_window_inj (m a i j : nat) :
  (a <= i < a + m)%nat → (a <= j < a + m)%nat → (i mod m = j mod m)%nat → i = j.
Proof.
  intros Hi Hj Heq. assert (m ≠ 0)%nat by lia.
  pose proof (Nat.div_mod i m) as Hdi. pose proof (Nat.div_mod j m) as Hdj. rewrite Heq in Hdi.
  assert (i / m = j / m)%nat; [|nia].
  destruct (Nat.lt_trichotomy (i / m) (j / m)) as [?|[?|?]]; [nia|done|nia].
Qed.

(** [m] consecutive numbers have all residues modulo [m]. *)
Lemma seq_mod_perm (m a : nat) : (0 < m)%nat → map (λ i, i mod m)%nat (seq a m) ≡ₚ seq 0 m.
Proof.
  intros Hm. apply NoDup_Permutation_bis.
  - apply NoDup_ListNoDup. apply NoDup_fmap_2_strong; [|apply NoDup_seq].
    intros i j Hi%elem_of_seq Hj%elem_of_seq. by apply mod_window_inj with (a := a).
  - rewrite length_map, !length_seq. done.
  - intros x (i & <- & Hi)%in_map_iff. apply in_seq. pose proof (Nat.mod_upper_bound i m). lia.
Qed.

Lemma map_lookup_seq {A} (l : list A) : map (λ i, l !! i) (seq 0 (length l)) = map Some l.
Proof.
  apply list_eq. intros i. change (map ?f ?x) with (f <$> x). rewrite !list_lookup_fmap.
  destruct (decide (i < length l)%nat).
  - rewrite lookup_seq_lt by done. simpl. by destruct (l !! i) eqn:E; [|apply lookup_ge_None in E; lia].
  - rewrite lookup_seq_ge by lia. rewrite lookup_ge_None_2 by lia. done.
Qed.
