(* ===== verification/GoLib.v ===== *)
(** * GoLib: the part of Go and of its standard library the program uses

    Fixed-width integers as [Z] with explicit wrap-around, [time.Time] and
    [time.Duration], [error] values, strings and the [strings]/[strconv]
    functions of the configuration code. *)

From S2P Require Import Prelude.

Open Scope Z_scope.

(** ** int64 / int arithmetic (two's complement, silent wrap-around) *)

Definition wrap64 (z : Z) : Z := (z + 2 ^ 63) mod 2 ^ 64 - 2 ^ 63.
Definition in_int64 (z : Z) : Prop := - 2 ^ 63 <= z < 2 ^ 63.
#[export] Instance in_int64_dec z : Decision (in_int64 z).
Proof. unfold in_int64. apply _. Defined.
Definition max_int64 : Z := 2 ^ 63 - 1.
Definition min_int64 : Z := - 2 ^ 63.

Definition wrap32 (z : Z) : Z := z mod 2 ^ 32.
Definition wrapu64 (z : Z) : Z := z mod 2 ^ 64.

Lemma wrap64_id z : in_int64 z → wrap64 z = z.
Proof. unfold in_int64, wrap64. intros. rewrite Z.mod_small; lia. Qed.

Lemma wrap64_range z : in_int64 (wrap64 z).
Proof.
  unfold in_int64, wrap64. pose proof (Z.mod_pos_bound (z + 2 ^ 63) (2 ^ 64)). lia.
Qed.

Lemma wrap64_idemp z : wrap64 (wrap64 z) = wrap64 z.
Proof. apply wrap64_id, wrap64_range. Qed.

#[export] Hint Resolve wrap64_range : acp.
#[export] Hint Rewrite wrap64_id using (unfold in_int64 in *; lia) : acp.

(** Replace every in-range [wrap64] by its argument, then call [lia]. *)
Ltac wrap_lia :=
  unfold in_int64 in *;
  repeat match goal with
    | |- context [wrap64 ?z] => rewrite (wrap64_id z) by (unfold in_int64; lia)
    | H : context [wrap64 ?z] |- _ => rewrite (wrap64_id z) in H by (unfold in_int64; lia)
    end; lia.

(** Signed integer division and remainder of Go truncate toward zero. *)
Definition go_div (a b : Z) : Z := wrap64 (Z.quot a b).
Definition go_rem (a b : Z) : Z := Z.rem a b.

(** ** Errors: an [error] is [nil] ([None]) or a value known by its message *)

Definition error := string.
Definition is_nil {A} (e : option A) : bool := match e with None => true | Some _ => false end.

(** ** Strings: Go strings are byte sequences compared byte-wise *)

Definition go_string_lt (a b : string) : bool :=
  match String.compare a b with Lt => true | _ => false end.
Definition go_string_gt (a b : string) : bool := go_string_lt b a.

Lemma ascii_compare_lt_trans (a b c : Ascii.ascii) :
  Ascii.compare a b = Lt → Ascii.compare b c = Lt → Ascii.compare a c = Lt.
Proof. unfold Ascii.compare. rewrite !N.compare_lt_iff. lia. Qed.

Lemma ascii_compare_refl (a : Ascii.ascii) : Ascii.compare a a = Eq.
Proof. apply N.compare_refl. Qed.

Lemma string_compare_refl (s : string) : String.compare s s = Eq.
Proof. induction s as [|a s IH]; simpl; [done|]. by rewrite ascii_compare_refl. Qed.

Lemma go_string_lt_irrefl s : go_string_lt s s = false.
Proof. unfold go_string_lt. by rewrite string_compare_refl. Qed.

Lemma go_string_lt_trans a b c :
  go_string_lt a b = true → go_string_lt b c = true → go_string_lt a c = true.
Proof.
  unfold go_string_lt. revert b c.
  induction a as [|x a IH]; intros [|y b] [|z c]; simpl; try done.
  destruct (Ascii.compare x y) eqn:Hxy; try done;
    destruct (Ascii.compare y z) eqn:Hyz; try done.
  - apply Ascii.compare_eq_iff in Hxy, Hyz as ->; subst.
    rewrite ascii_compare_refl. apply IH.
  - apply Ascii.compare_eq_iff in Hxy as ->. by rewrite Hyz.
  - apply Ascii.compare_eq_iff in Hyz as ->. by rewrite Hxy.
  - by rewrite (ascii_compare_lt_trans x y z).
Qed.

Lemma go_string_lt_total a b :
  go_string_lt a b = false → go_string_lt b a = false → a = b.
Proof.
  unfold go_string_lt. rewrite (String.compare_antisym b a).
  destruct (String.compare a b) eqn:E; try done. intros _ _. by apply String.compare_eq_iff.
Qed.

Lemma go_string_lt_asym a b : go_string_lt a b = true → go_string_lt b a = false.
Proof.
  unfold go_string_lt. rewrite (String.compare_antisym b a).
  by destruct (String.compare a b).
Qed.

(** [fmt]'s %d *)
Definition itoa (z : Z) : string := pretty z.

(** ** time.Time and time.Duration *)

(** A reading of [time.Now()] carries a wall clock (nanoseconds since the Unix
    epoch) and a monotonic clock reading; a zero [time.Time] has only a wall. *)
Record Time := mkTime { t_wall : Z; t_mono : option Z }.

Definition Duration := Z.
Definition Nanosecond : Duration := 1.
Definition Microsecond : Duration := 1000 * Nanosecond.
Definition Millisecond : Duration := 1000 * Microsecond.
Definition Second : Duration := 1000 * Millisecond.
Definition Minute : Duration := 60 * Second.
Definition Hour : Duration := 60 * Minute.

(** January 1, year 1, 00:00:00 UTC. *)
Definition zero_time : Time := mkTime (- 62135596800 * 10 ^ 9) None.

Definition UnixNano (t : Time) : Z := wrap64 (t_wall t).

Definition sat64 (z : Z) : Z := Z.max min_int64 (Z.min max_int64 z).

(** [t.Sub(u)]: monotonic readings when both have one, saturating. *)
Definition Time_Sub (t u : Time) : Duration :=
  match t_mono t, t_mono u with
  | Some a, Some b => sat64 (a - b)
  | _, _ => sat64 (t_wall t - t_wall u)
  end.

(** [time.Since(u)] evaluated when the clock reads [now]. *)
Definition Since (now u : Time) : Duration := Time_Sub now u.

Definition Duration_Nanoseconds (d : Duration) : Z := d.

Lemma sat64_id z : in_int64 z → sat64 z = z.
Proof. unfold in_int64, sat64, min_int64, max_int64. lia. Qed.

(** [fmtFrac] of package time: print [v / 10^prec]'s fraction without trailing
    zeros in front of [acc], and return the integer part. *)
Fixpoint fmt_frac (prec : nat) (v : Z) (print : bool) (acc : string) : string * Z :=
  match prec with
  | O => (if print then "." +:+ acc else acc, v)
  | S prec =>
      let digit := v mod 10 in
      let print := print || negb (digit =? 0) in
      fmt_frac prec (v / 10) print (if print then itoa digit +:+ acc else acc)
  end.

(** [Duration.String()], the text of [%v]. *)
Definition Duration_String (d : Duration) : string :=
  let u := Z.abs d in
  let body :=
    if u <? Second then
      if u =? 0 then "0s"
      else
        let '(prec, unit) :=
          if u <? Microsecond then (0%nat, "ns")
          else if u <? Millisecond then (3%nat, "µs")
          else (6%nat, "ms") in
        let '(frac, v) := fmt_frac prec u false "" in
        itoa v +:+ frac +:+ unit
    else
      let '(frac, secs) := fmt_frac 9 u false "" in
      let s := itoa (secs mod 60) +:+ frac +:+ "s" in
      let mins := secs / 60 in
      if 0 <? mins then
        let m := itoa (mins mod 60) +:+ "m" +:+ s in
        let hours := mins / 60 in
        if 0 <? hours then itoa hours +:+ "h" +:+ m else m
      else s
  in
  if d <? 0 then "-" +:+ body else body.

Example duration_string_ex :
  map Duration_String [500 * Millisecond; 0; 1500 * Microsecond; 90 * Second; 3661 * Second + 5;
                       -1; 1234]
  = ["500ms"; "0s"; "1.5ms"; "1m30s"; "1h1m1.000000005s"; "-1ns"; "1.234µs"].
Proof. vm_compute. reflexivity. Qed.

(** A reading whose wall and monotonic parts agree, for examples. *)
Definition tm (n : Z) : Time := mkTime n (Some n).
