(* ===== verification/Hlc.v ===== *)
(** * Hlc: the hybrid logical clock (src/internal/hlc/clock.go, proto.go)

    [HLC] timestamps with their comparison methods, the mutable [Clock] as a
    record with one function per method.  A method that reads [time.Now()]
    takes the reading as an argument, so that a theorem quantifies over every
    behaviour of the wall clock (standing still and going backwards included). *)

From S2P Require Import Prelude GoLib.

Open Scope Z_scope.

(** ** Data *)

Record HLC := mkHLC {
  hlc_Physical : Z;        (* int64, nanoseconds *)
  hlc_Logical : Z;         (* int64 *)
  hlc_NodeID : string;
}.

Record Clock := mkClock {
  clk_physical : Z;
  clk_logical : Z;
  clk_nodeID : string;
  clk_maxDrift : Duration;
}.

#[export] Instance HLC_eq_dec : EqDecision HLC.
Proof. solve_decision. Defined.

(** The zero value [HLC{}]. *)
Definition zero_HLC : HLC := mkHLC 0 0 "".

(** ** Comparison of timestamps *)

Definition HLC_HappensBefore (h other : HLC) : bool :=
  if hlc_Physical h <? hlc_Physical other then true
  else if (hlc_Physical h =? hlc_Physical other) && (hlc_Logical h <? hlc_Logical other)
  then true
  else false.

Definition HLC_HappensAfter (h other : HLC) : bool := HLC_HappensBefore other h.

Definition HLC_IsConcurrentWith (h other : HLC) : bool :=
  negb (HLC_HappensBefore h other) && negb (HLC_HappensAfter h other).

Definition HLC_Equal (h other : HLC) : bool :=
  (hlc_Physical h =? hlc_Physical other) && (hlc_Logical h =? hlc_Logical other).

Definition HLC_Compare (h other : HLC) : Z :=
  if HLC_HappensBefore h other then -1
  else if HLC_HappensAfter h other then 1
  else 0.

Definition HLC_Age (h : HLC) (now : Z) : Duration :=
  if now >? hlc_Physical h then wrap64 (now - hlc_Physical h) else 0.

Definition HLC_IsZero (h : HLC) : bool :=
  (hlc_Physical h =? 0) && (hlc_Logical h =? 0).

Definition HLC_ToNanos (h : HLC) : Z := hlc_Physical h.

(** ** The clock *)

Definition NewClock (now : Time) (nodeID : string) (maxDrift : Duration) : Clock :=
  mkClock (UnixNano now) 0 nodeID maxDrift.

(** [(c *Clock) Now()]: the timestamp and the clock afterwards. *)
Definition Clock_Now (now : Time) (c : Clock) : HLC * Clock :=
  let physicalNow := UnixNano now in
  let c' :=
    if physicalNow >? clk_physical c then
      mkClock physicalNow 0 (clk_nodeID c) (clk_maxDrift c)
    else
      mkClock (clk_physical c) (wrap64 (clk_logical c + 1)) (clk_nodeID c) (clk_maxDrift c)
  in
  (mkHLC (clk_physical c') (clk_logical c') (clk_nodeID c'), c').

Definition drift_error (remote : HLC) (physicalNow : Z) (maxDrift : Duration) : error :=
  "clock drift too large: remote " +:+ itoa (hlc_Physical remote) +:+
  " ahead of local " +:+ itoa physicalNow +:+ " (max: " +:+ Duration_String maxDrift +:+ ")".

(** [(c *Clock) Update(remote)]: [Some err] when the remote timestamp is too far
    ahead of the local wall clock, in which case the clock is left alone. *)
Definition Clock_Update (now : Time) (remote : HLC) (c : Clock) : option error * Clock :=
  let physicalNow := UnixNano now in
  let drift := wrap64 (hlc_Physical remote - physicalNow) in
  if drift >? Duration_Nanoseconds (clk_maxDrift c) then
    (Some (drift_error remote physicalNow (clk_maxDrift c)), c)
  else
    let c1 :=
      if hlc_Physical remote >? clk_physical c then
        mkClock (hlc_Physical remote) (wrap64 (hlc_Logical remote + 1))
          (clk_nodeID c) (clk_maxDrift c)
      else if hlc_Physical remote =? clk_physical c then
        if hlc_Logical remote >? clk_logical c then
          mkClock (clk_physical c) (wrap64 (hlc_Logical remote + 1))
            (clk_nodeID c) (clk_maxDrift c)
        else
          mkClock (clk_physical c) (wrap64 (clk_logical c + 1))
            (clk_nodeID c) (clk_maxDrift c)
      else
        mkClock (clk_physical c) (wrap64 (clk_logical c + 1))
          (clk_nodeID c) (clk_maxDrift c)
    in
    let c2 :=
      if physicalNow >? clk_physical c1 then
        mkClock physicalNow 0 (clk_nodeID c1) (clk_maxDrift c1)
      else c1
    in
    (None, c2).

(** ** Wire format: the message type of src/api/proto/acp.proto *)

Record ProtoHLC := mkProtoHLC {
  phlc_Physical : Z;
  phlc_Logical : Z;
  phlc_NodeId : string;
}.

Definition HLC_ToProto (h : HLC) : ProtoHLC :=
  mkProtoHLC (hlc_Physical h) (hlc_Logical h) (hlc_NodeID h).

(** The argument is a pointer: [None] is nil. *)
Definition FromProto (p : option ProtoHLC) : HLC :=
  match p with
  | None => zero_HLC
  | Some p => mkHLC (phlc_Physical p) (phlc_Logical p) (phlc_NodeId p)
  end.

(** ** The order on timestamps *)

Definition hlc_lt (a b : HLC) : Prop := HLC_HappensBefore a b = true.
Definition hlc_le (a b : HLC) : Prop := HLC_HappensBefore b a = false.

Infix "≺" := hlc_lt (at level 70, no associativity) : acp_scope.
Infix "≼h" := hlc_le (at level 70, no associativity) : acp_scope.
Open Scope acp_scope.

Lemma happens_before_spec a b :
  HLC_HappensBefore a b = true ↔
  hlc_Physical a < hlc_Physical b ∨
  hlc_Physical a = hlc_Physical b ∧ hlc_Logical a < hlc_Logical b.
Proof. unfold HLC_HappensBefore. bool_lia. Qed.

Lemma hlc_lt_spec a b :
  a ≺ b ↔ hlc_Physical a < hlc_Physical b ∨
          hlc_Physical a = hlc_Physical b ∧ hlc_Logical a < hlc_Logical b.
Proof. apply happens_before_spec. Qed.

Lemma hlc_le_spec a b :
  a ≼h b ↔ hlc_Physical a < hlc_Physical b ∨
           hlc_Physical a = hlc_Physical b ∧ hlc_Logical a <= hlc_Logical b.
Proof. unfold hlc_le, HLC_HappensBefore. bool_lia. Qed.

(** Solve goals about the timestamp order by arithmetic. *)
Ltac hlc_order :=
  repeat match goal with
    | H : HLC_HappensAfter _ _ = _ |- _ => unfold HLC_HappensAfter in H
    | H : HLC_HappensBefore _ _ = true |- _ => apply hlc_lt_spec in H
    | H : HLC_HappensBefore _ _ = false |- _ => apply hlc_le_spec in H
    | H : _ ≺ _ |- _ => apply hlc_lt_spec in H
    | H : _ ≼h _ |- _ => apply hlc_le_spec in H
    | |- HLC_HappensAfter _ _ = _ => unfold HLC_HappensAfter
    | |- HLC_HappensBefore _ _ = true => apply hlc_lt_spec
    | |- HLC_HappensBefore _ _ = false => apply hlc_le_spec
    | |- _ ≺ _ => apply hlc_lt_spec
    | |- _ ≼h _ => apply hlc_le_spec
    end; simpl in *; try lia.

#[export] Instance hlc_lt_dec a b : Decision (hlc_lt a b).
Proof. unfold hlc_lt. apply _. Defined.
#[export] Instance hlc_lt_strict : StrictOrder hlc_lt.
Proof.
  split; [intros a H; hlc_order | intros a b c H1 H2; hlc_order].
Qed.
#[export] Instance hlc_le_preorder : PreOrder hlc_le.
Proof. split; [intros a; hlc_order | intros a b c H1 H2; hlc_order]. Qed.

Lemma hlc_le_lt_trans a b c : a ≼h b → b ≺ c → a ≺ c.
Proof. intros; hlc_order. Qed.
Lemma hlc_lt_le_trans a b c : a ≺ b → b ≼h c → a ≺ c.
Proof. intros; hlc_order. Qed.
Lemma hlc_lt_le a b : a ≺ b → a ≼h b.
Proof. intros; hlc_order. Qed.
Lemma hlc_le_total a b : a ≼h b ∨ b ≺ a.
Proof.
  destruct (HLC_HappensBefore b a) eqn:E; [by right|by left].
Qed.

#[export] Hint Resolve hlc_lt_le hlc_le_lt_trans hlc_lt_le_trans : acp.

Lemma hlc_equal_spec a b :
  HLC_Equal a b = true ↔ hlc_Physical a = hlc_Physical b ∧ hlc_Logical a = hlc_Logical b.
Proof. unfold HLC_Equal. bool_prop. lia. Qed.

Lemma hlc_concurrent_equal a b : HLC_IsConcurrentWith a b = HLC_Equal a b.
Proof.
  unfold HLC_IsConcurrentWith, HLC_HappensAfter. apply eq_true_iff_eq.
  rewrite hlc_equal_spec. bool_prop. split; [intros [? ?]|intros [? ?]; split]; hlc_order.
Qed.

Lemma hlc_compare_before a b : HLC_Compare a b = -1 ↔ a ≺ b.
Proof. unfold HLC_Compare, hlc_lt. split_ifs; done. Qed.

Lemma hlc_compare_antisym a b : HLC_Compare b a = - HLC_Compare a b.
Proof.
  unfold HLC_Compare, HLC_HappensAfter.
  destruct (HLC_HappensBefore a b) eqn:E1, (HLC_HappensBefore b a) eqn:E2; try done. hlc_order.
Qed.

(** ** Clock lemmas *)

(** What the clock would stamp without advancing. *)
Definition clock_stamp (c : Clock) : HLC :=
  mkHLC (clk_physical c) (clk_logical c) (clk_nodeID c).

(** No int64 overflow of the logical counter in the next step. *)
Definition logical_room (l : Z) : Prop := - 2 ^ 63 <= l < max_int64.

Lemma wrap_succ l : logical_room l → wrap64 (l + 1) = l + 1.
Proof. unfold logical_room, max_int64. intros. wrap_lia. Qed.

Lemma clock_now_stamp now c : (Clock_Now now c).1 = clock_stamp (Clock_Now now c).2.
Proof. done. Qed.

Lemma clock_now_advances now c :
  logical_room (clk_logical c) → clock_stamp c ≺ clock_stamp (Clock_Now now c).2.
Proof.
  intros Hr. unfold Clock_Now. destruct (UnixNano now >? clk_physical c) eqn:E; hlc_order.
  rewrite wrap_succ by done. lia.
Qed.

Lemma clock_now_node now c : hlc_NodeID (Clock_Now now c).1 = clk_nodeID c.
Proof. unfold Clock_Now. simpl. by split_ifs. Qed.

Lemma clock_now_ids now c :
  clk_nodeID (Clock_Now now c).2 = clk_nodeID c ∧
  clk_maxDrift (Clock_Now now c).2 = clk_maxDrift c.
Proof. unfold Clock_Now. simpl. by split_ifs. Qed.

Lemma clock_update_err now remote c e c' :
  Clock_Update now remote c = (Some e, c') → c' = c.
Proof. unfold Clock_Update. intros. split_ifs; by simplify_eq. Qed.

Lemma clock_update_advances now remote c c' :
  logical_room (clk_logical c) → logical_room (hlc_Logical remote) →
  Clock_Update now remote c = (None, c') →
  clock_stamp c ≺ clock_stamp c' ∧ remote ≺ clock_stamp c'.
Proof.
  intros Hr Hrem. unfold Clock_Update. cbv zeta.
  rewrite (wrap_succ _ Hr), (wrap_succ _ Hrem).
  intros H. split_ifs; simplify_eq/=; split; hlc_order.
Qed.

Lemma clock_update_ids now remote c :
  clk_nodeID (Clock_Update now remote c).2 = clk_nodeID c ∧
  clk_maxDrift (Clock_Update now remote c).2 = clk_maxDrift c.
Proof. unfold Clock_Update. cbv zeta. by split_ifs. Qed.

Lemma clock_update_ge now remote c :
  logical_room (clk_logical c) → logical_room (hlc_Logical remote) →
  clock_stamp c ≼h clock_stamp (Clock_Update now remote c).2.
Proof.
  intros. destruct (Clock_Update now remote c) as [[e|] c'] eqn:E; simpl.
  - apply clock_update_err in E as ->. reflexivity.
  - eapply clock_update_advances in E as [? _]; eauto with acp.
Qed.

(** ** Runs of a clock *)

(** The operations a node performs on its clock, each with its wall reading. *)
Inductive clock_op :=
  | OpNow (now : Time)
  | OpUpdate (now : Time) (remote : HLC).

Definition clock_step (c : Clock) (op : clock_op) : list HLC * Clock :=
  match op with
  | OpNow now => let '(ts, c') := Clock_Now now c in ([ts], c')
  | OpUpdate now remote => ([], (Clock_Update now remote c).2)
  end.

Fixpoint clock_run (c : Clock) (ops : list clock_op) : list HLC * Clock :=
  match ops with
  | [] => ([], c)
  | op :: ops =>
      let '(ts, c1) := clock_step c op in
      let '(tss, c2) := clock_run c1 ops in
      (ts ++ tss, c2)
  end.

Definition op_logical_le (B : Z) (op : clock_op) : Prop :=
  match op with
  | OpNow _ => True
  | OpUpdate _ remote => - 2 ^ 63 <= hlc_Logical remote <= B
  end.

Lemma clock_step_logical B c op :
  0 <= B < max_int64 → - 2 ^ 63 <= clk_logical c <= B → op_logical_le B op →
  - 2 ^ 63 <= clk_logical (clock_step c op).2 <= B + 1.
Proof.
  intros HB Hc Hop. assert (logical_room (clk_logical c)) by (unfold logical_room; lia).
  destruct op as [now|now remote]; simpl.
  - unfold Clock_Now. split_ifs; simpl; rewrite ?wrap_succ by done; lia.
  - simpl in Hop. assert (logical_room (hlc_Logical remote)) by (unfold logical_room; lia).
    unfold Clock_Update. cbv zeta. rewrite !wrap_succ by done.
    split_ifs; simpl in *; lia.
Qed.

Lemma clock_step_le c op :
  logical_room (clk_logical c) → (∀ B, op_logical_le B op → B < max_int64 →
  clock_stamp c ≼h clock_stamp (clock_step c op).2).
Proof.
  intros Hr B Hop HB. destruct op as [now|now remote]; simpl.
  - by apply hlc_lt_le, clock_now_advances.
  - apply clock_update_ge; [done|]. simpl in Hop. unfold logical_room. lia.
Qed.

(** Every timestamp of a run lies strictly above the stamp the clock had
    before, and the timestamps increase strictly. *)
(** A received timestamp and everything issued before precede the next [Now]. *)
Lemma clock_update_now t1 t2 remote c c' :
  - 2 ^ 63 <= clk_logical c < max_int64 - 1 →
  - 2 ^ 63 <= hlc_Logical remote < max_int64 - 1 →
  Clock_Update t1 remote c = (None, c') →
  remote ≺ (Clock_Now t2 c').1 ∧ clock_stamp c ≺ (Clock_Now t2 c').1.
Proof.
  intros Hc Hrem Hup.
  assert (logical_room (clk_logical c') ∧ clock_stamp c ≺ clock_stamp c' ∧ remote ≺ clock_stamp c')
    as (Hr & H1 & H2).
  { split; [|apply (clock_update_advances t1); unfold logical_room; auto; lia].
    pose proof (clock_step_logical (max_int64 - 2) c (OpUpdate t1 remote)) as Hl.
    unfold max_int64 in *. simpl in Hl. rewrite Hup in Hl. simpl in Hl.
    unfold logical_room, max_int64. lia. }
  rewrite clock_now_stamp. pose proof (clock_now_advances t2 c' Hr).
  split; etransitivity; eauto.
Qed.

Lemma clock_run_sorted ops : ∀ B c,
  0 <= B → B + Z.of_nat (length ops) <= max_int64 →
  - 2 ^ 63 <= clk_logical c <= B → Forall (op_logical_le B) ops →
  Forall (hlc_lt (clock_stamp c)) (clock_run c ops).1 ∧
  StronglySorted hlc_lt (clock_run c ops).1.
Proof.
  induction ops as [|op ops IH]; intros B c HB Hlen Hc Hops; simpl.
  { split; constructor. }
  apply Forall_cons in Hops as [Hop Hops]. simpl in Hlen.
  assert (logical_room (clk_logical c)) as Hr by (unfold logical_room; lia).
  pose proof (clock_step_logical B c op ltac:(lia) Hc Hop) as Hc1.
  pose proof (clock_step_le c op Hr B Hop ltac:(lia)) as Hle.
  destruct (IH (B + 1) (clock_step c op).2) as [Hall Hsort]; [lia..| |].
  { eapply Forall_impl; [exact Hops|]. intros [|? r]; simpl; [done|lia]. }
  assert (Forall (hlc_lt (clock_stamp c)) (clock_run (clock_step c op).2 ops).1) as Hall'.
  { eapply Forall_impl; [exact Hall|]. intros h ?. by eapply hlc_le_lt_trans. }
  destruct op as [now|now remote]; simpl in *.
  - destruct (clock_run _ ops) as [tss c2]; simpl in *.
    pose proof (clock_now_advances now c Hr) as Hadv.
    split; constructor; done.
  - by destruct (clock_run _ ops) as [tss c2].
Qed.

(** The physical part of the clock under one operation. *)
Lemma clock_step_physical M c op :
  0 <= clk_maxDrift c → M + clk_maxDrift c <= max_int64 →
  match op with
  | OpNow now => 0 <= UnixNano now <= M
  | OpUpdate now remote => 0 <= UnixNano now <= M ∧ 0 <= hlc_Physical remote <= max_int64
  end →
  clk_physical c <= M + clk_maxDrift c →
  clk_physical c <= clk_physical (clock_step c op).2 <= M + clk_maxDrift c ∧
  clk_maxDrift (clock_step c op).2 = clk_maxDrift c.
Proof.
  intros Hd HM Hop Hc. destruct op as [now|now remote]; simpl.
  - unfold Clock_Now. split_ifs; simpl; lia.
  - destruct Hop as [Hn Hrem]. unfold Clock_Update. cbv zeta.
    unfold max_int64 in *. rewrite wrap64_id by (unfold in_int64; lia).
    unfold Duration_Nanoseconds. split_ifs; simpl in *; lia.
Qed.

Definition op_reading_ok (M : Z) (op : clock_op) : Prop :=
  match op with
  | OpNow now => 0 <= UnixNano now <= M
  | OpUpdate now remote => 0 <= UnixNano now <= M ∧ 0 <= hlc_Physical remote <= max_int64
  end.

(** ** Properties *)

(** C5: timestamps produced by one clock increase strictly, whatever the wall
    clock does and whatever remote timestamps are merged in between, as long
    as the logical counters stay away from the int64 limit (bound [B] plus one
    per operation). *)
Theorem clock_timestamps_strictly_increase (B : Z) (c : Clock) (ops : list clock_op) :
  0 <= B → B + Z.of_nat (length ops) <= max_int64 →
  0 <= clk_logical c <= B → Forall (op_logical_le B) ops →
  StronglySorted hlc_lt (clock_run c ops).1 ∧
  Forall (hlc_lt (clock_stamp c)) (clock_run c ops).1.
Proof.
  intros HB Hlen Hc Hops.
  destruct (clock_run_sorted ops B c HB Hlen ltac:(lia) Hops). done.
Qed.



Lemma clock_timestamps_strictly_increase_witness :
  let ops := [OpNow (tm 100); OpNow (tm 90); OpUpdate (tm 95) (mkHLC 300 7 "n2"); OpNow (tm 96)] in
  (clock_run (mkClock 50 0 "n1" 500) ops).1
    = [mkHLC 100 0 "n1"; mkHLC 100 1 "n1"; mkHLC 300 9 "n1"] ∧
  StronglySorted hlc_lt (clock_run (mkClock 50 0 "n1" 500) ops).1.
Proof.
  cbv zeta. split; [reflexivity|].
  refine (proj1 (clock_timestamps_strictly_increase 7 (mkClock 50 0 "n1" 500)
    [OpNow (tm 100); OpNow (tm 90); OpUpdate (tm 95) (mkHLC 300 7 "n2"); OpNow (tm 96)] _ _ _ _)).
  - lia.
  - unfold max_int64. simpl. lia.
  - simpl. lia.
  - repeat constructor; simpl; lia.
Defined.

(** receiving a timestamp is a causal step: after a successful [Update],
    the next [Now] is after the received timestamp and after everything the
    receiving clock issued before. *)
Theorem clock_update_then_now_after_remote (t1 t2 : Time) (remote : HLC) (c c' : Clock) :
  - 2 ^ 63 <= clk_logical c < max_int64 - 1 →
  - 2 ^ 63 <= hlc_Logical remote < max_int64 - 1 →
  Clock_Update t1 remote c = (None, c') →
  remote ≺ (Clock_Now t2 c').1 ∧ clock_stamp c ≺ (Clock_Now t2 c').1.
Proof. apply clock_update_now. Qed.

Lemma clock_update_then_now_after_remote_witness :
  mkHLC 300 7 "n2" ≺ (Clock_Now (tm 10) (Clock_Update (tm 95) (mkHLC 300 7 "n2") (mkClock 50 0 "n1" 500)).2).1.
Proof.
  refine (proj1 (clock_update_then_now_after_remote (tm 95) (tm 10) (mkHLC 300 7 "n2")
                   (mkClock 50 0 "n1" 500) _ _ _ _)).
  - unfold max_int64; simpl; lia.
  - unfold max_int64; simpl; lia.
  - reflexivity.
Defined.

(** C32: bounded drift: if every local reading is at most [M], the physical
    part of the clock never exceeds [M + maxDrift], and it never goes back. *)
Theorem clock_physical_bounded (M : Z) (c : Clock) (ops : list clock_op) :
  0 <= clk_maxDrift c → M + clk_maxDrift c <= max_int64 →
  clk_physical c <= M + clk_maxDrift c → Forall (op_reading_ok M) ops →
  clk_physical c <= clk_physical (clock_run c ops).2 <= M + clk_maxDrift c.
Proof.
  intros Hd HM. revert c Hd HM. induction ops as [|op ops IH]; intros c Hd HM Hc Hops; simpl.
  { lia. }
  apply Forall_cons in Hops as [Hop Hops].
  destruct (clock_step_physical M c op Hd HM Hop Hc) as [Hp Hdr].
  specialize (IH (clock_step c op).2). rewrite Hdr in IH.
  destruct (clock_step c op) as [ts c1]; simpl in *.
  specialize (IH Hd HM ltac:(lia) Hops). destruct (clock_run c1 ops); simpl in *. lia.
Qed.

Lemma clock_physical_bounded_witness :
  let c := mkClock 50 0 "n1" 500 in
  clk_physical (clock_run c [OpNow (tm 100); OpUpdate (tm 95) (mkHLC 300 7 "n2")]).2 = 300 ∧
  clk_physical c <= clk_physical (clock_run c [OpNow (tm 100); OpUpdate (tm 95) (mkHLC 300 7 "n2")]).2
    <= 100 + 500.
Proof.
  cbv zeta. split; [reflexivity|].
  refine (clock_physical_bounded 100 (mkClock 50 0 "n1" 500)
            [OpNow (tm 100); OpUpdate (tm 95) (mkHLC 300 7 "n2")] _ _ _ _).
  - simpl; lia.
  - unfold max_int64; simpl; lia.
  - simpl; lia.
  - repeat constructor; vm_compute; congruence.
Defined.

(** [Update] fails exactly when the remote physical time is more than
    [maxDrift] ahead of the local reading (in int64 arithmetic), and then the
    clock does not change. *)
Theorem clock_update_error_iff (now : Time) (remote : HLC) (c : Clock) :
  (is_nil (Clock_Update now remote c).1 = false ↔
     clk_maxDrift c < wrap64 (hlc_Physical remote - UnixNano now)) ∧
  (is_nil (Clock_Update now remote c).1 = false → (Clock_Update now remote c).2 = c).
Proof.
  unfold Clock_Update, Duration_Nanoseconds. cbv zeta. split; split_ifs; simpl; try done; lia.
Qed.

(** [Compare] is the three-way test of one total preorder: it is 0 exactly
    for concurrent timestamps, which are exactly the [Equal] ones (the node id
    takes no part), it is antisymmetric, and -1 is transitive. *)
Theorem hlc_compare_total_preorder (a b c : HLC) :
  (HLC_Compare a b = 0 ↔ HLC_IsConcurrentWith a b = true) ∧
  (HLC_IsConcurrentWith a b = HLC_Equal a b) ∧
  HLC_Compare b a = - HLC_Compare a b ∧
  (HLC_Compare a b = -1 ∧ HLC_Compare b c = -1 → HLC_Compare a c = -1).
Proof.
  split_and!; [| |apply hlc_compare_antisym|].
  - unfold HLC_Compare, HLC_IsConcurrentWith, HLC_HappensAfter. split_ifs; simpl; done.
  - apply hlc_concurrent_equal.
  - rewrite !hlc_compare_before. intros [H1 H2]. by transitivity b.
Qed.

(** Encoding a timestamp for the wire and decoding it gives it back, and a
    missing message decodes to the zero timestamp. *)
Theorem hlc_proto_roundtrip (h : HLC) :
  FromProto (Some (HLC_ToProto h)) = h ∧ HLC_IsZero (FromProto None) = true.
Proof. by destruct h. Qed.

(** Int64 overflow breaks causality: merging a remote timestamp whose
    logical counter is the largest int64 (and whose physical time leads) wraps
    the local counter, and the next local timestamp is before the remote one. *)
Theorem clock_logical_overflow (t1 t2 : Time) (p : Z) (n : string) (c : Clock) :
  clk_physical c < p <= max_int64 → UnixNano t1 <= p → UnixNano t2 <= p →
  in_int64 (p - UnixNano t1) → p - UnixNano t1 <= clk_maxDrift c →
  (Clock_Update t1 (mkHLC p max_int64 n) c).1 = None ∧
  (Clock_Now t2 (Clock_Update t1 (mkHLC p max_int64 n) c).2).1 ≺ mkHLC p max_int64 n.
Proof.
  intros Hp H1 H2 Hi Hd. unfold Clock_Update, Duration_Nanoseconds. cbv zeta. simpl.
  rewrite (wrap64_id _ Hi).
  assert (wrap64 (max_int64 + 1) = min_int64) as -> by reflexivity.
  destruct (_ >? clk_maxDrift c) eqn:E1; [lia|].
  destruct (p >? clk_physical c) eqn:E2; [|lia]. simpl.
  destruct (UnixNano t1 >? p) eqn:E3; [lia|]. split; [done|].
  unfold Clock_Now; simpl. destruct (UnixNano t2 >? p) eqn:E4; [lia|].
  hlc_order. right. split; [done|]. vm_compute. done.
Qed.

Lemma clock_logical_overflow_witness :
  (Clock_Now (tm 100) (Clock_Update (tm 100) (mkHLC 200 max_int64 "evil") (mkClock 100 3 "n1" 500)).2).1
    ≺ mkHLC 200 max_int64 "evil".
Proof.
  refine (proj2 (clock_logical_overflow (tm 100) (tm 100) 200 "evil" (mkClock 100 3 "n1" 500)
                   _ _ _ _ _)); vm_compute; try split; congruence.
Defined.
