(* ===== verification/Float64.v ===== *)
(** * Float64: Go's float64 as IEEE 754 binary64

    The Standard Library's [SpecFloat] is an executable specification of IEEE
    arithmetic with rounding to nearest even; precision 53 and exponent bound
    1024 give binary64, which is what the Go compiler emits for float64 (no
    fused multiply-add is assumed).  NaN payloads are not distinguished, as
    nothing in the program can observe them. *)

From Stdlib Require Export SpecFloat.
From S2P Require Import Prelude GoLib.

Open Scope Z_scope.

Abbreviation float64 := spec_float.

Definition prec : Z := 53.
Definition emax : Z := 1024.

Definition f64_add (x y : float64) : float64 := SFadd prec emax x y.
Definition f64_sub (x y : float64) : float64 := SFsub prec emax x y.
Definition f64_mul (x y : float64) : float64 := SFmul prec emax x y.
Definition f64_div (x y : float64) : float64 := SFdiv prec emax x y.
Definition f64_lt (x y : float64) : bool := SFltb x y.
Definition f64_le (x y : float64) : bool := SFleb x y.
Definition f64_gt (x y : float64) : bool := SFltb y x.
Definition f64_ge (x y : float64) : bool := SFleb y x.
Definition f64_eq (x y : float64) : bool := SFeqb x y.

(** The conversion [float64(n)] of an integer. *)
Definition f64_of_Z (z : Z) : float64 := binary_normalize prec emax z 0 false.

(** The conversion [int(x)] of a float: truncation toward zero.  A NaN, an
    infinity or a value outside int64 is implementation-defined in Go: amd64
    produces the smallest int64. *)
Definition f64_to_int (x : float64) : Z :=
  match x with
  | S754_zero _ => 0
  | S754_finite s m e =>
      let a := Z.shiftl (Zpos m) e in
      let v := if s then - a else a in
      if (min_int64 <=? v) && (v <=? max_int64) then v else min_int64
  | _ => min_int64
  end.

(** A decimal constant [n/d] of the source: the nearest float64 (both integers
    are exact below 2^53, and division is correctly rounded). *)
Definition f64_lit (n d : Z) : float64 := f64_div (f64_of_Z n) (f64_of_Z d).

Definition f64_zero : float64 := S754_zero false.
Definition f64_one : float64 := f64_of_Z 1.
Definition f64_nan : float64 := S754_nan.

Definition is_nan (x : float64) : bool := match x with S754_nan => true | _ => false end.

(** [math.Min]: NaN if an argument is NaN (an infinity of sign minus first),
    and -0 below +0. *)
Definition f64_Min (x y : float64) : float64 :=
  match x, y with
  | S754_infinity true, _ => x
  | _, S754_infinity true => y
  | S754_nan, _ | _, S754_nan => S754_nan
  | S754_zero true, S754_zero _ => x
  | S754_zero false, S754_zero _ => y
  | _, _ => if f64_lt x y then x else y
  end.

(** [Duration.Seconds()]. *)
Definition Duration_Seconds (d : Duration) : float64 :=
  f64_add (f64_of_Z (Z.quot d Second)) (f64_div (f64_of_Z (Z.rem d Second)) (f64_lit (10 ^ 9) 1)).

#[global] Arguments Duration_Seconds : simpl never.
#[global] Arguments f64_add : simpl never.
#[global] Arguments f64_sub : simpl never.
#[global] Arguments f64_mul : simpl never.
#[global] Arguments f64_div : simpl never.
#[global] Arguments f64_lt : simpl never.
#[global] Arguments f64_gt : simpl never.
#[global] Arguments f64_le : simpl never.
#[global] Arguments f64_ge : simpl never.
#[global] Arguments f64_eq : simpl never.
#[global] Arguments f64_of_Z : simpl never.
#[global] Arguments f64_lit : simpl never.
#[global] Arguments f64_Min : simpl never.

(** Values. *)
Example f64_ex_third : f64_div (f64_of_Z 1) (f64_of_Z 3) = S754_finite false 6004799503160661 (-54).
Proof. reflexivity. Qed.
Example f64_ex_tenths :
  f64_eq (f64_add (f64_lit 1 10) (f64_lit 2 10)) (f64_lit 3 10) = false.
Proof. reflexivity. Qed.
Example f64_ex_seconds : Duration_Seconds (1500 * Millisecond) = f64_lit 3 2.
Proof. vm_compute. reflexivity. Qed.

(** ** NaN: it absorbs arithmetic and fails every comparison *)

Lemma f64_add_nan_r x : f64_add x S754_nan = S754_nan.
Proof. by destruct x as [| | |]. Qed.
Lemma f64_add_nan_l x : f64_add S754_nan x = S754_nan.
Proof. done. Qed.
Lemma f64_mul_nan_r x : f64_mul x S754_nan = S754_nan.
Proof. by destruct x. Qed.
Lemma f64_mul_nan_l x : f64_mul S754_nan x = S754_nan.
Proof. done. Qed.
Lemma f64_sub_nan_r x : f64_sub x S754_nan = S754_nan.
Proof. by destruct x. Qed.
Lemma f64_div_nan_l x : f64_div S754_nan x = S754_nan.
Proof. done. Qed.
Lemma f64_lt_nan_r x : f64_lt x S754_nan = false.
Proof. by destruct x. Qed.
Lemma f64_lt_nan_l x : f64_lt S754_nan x = false.
Proof. done. Qed.

#[export] Hint Rewrite f64_add_nan_r f64_add_nan_l f64_mul_nan_r f64_mul_nan_l
  f64_sub_nan_r f64_div_nan_l f64_lt_nan_r f64_lt_nan_l : acp.

Lemma fold_add_nan (l : list float64) : fold_left f64_add l S754_nan = S754_nan.
Proof. by induction l. Qed.

Lemma fold_add_nan_in (l : list float64) (x : float64) :
  S754_nan ∈ l → fold_left f64_add l x = S754_nan.
Proof.
  revert x. induction l as [|a l IH]; intros x Hin; [set_solver|].
  cbn [fold_left].
  apply elem_of_cons in Hin as [<-|Hin]; [|by apply IH].
  rewrite f64_add_nan_r. apply fold_add_nan.
Qed.
