(* ===== verification/Metrics.v ===== *)
(** * Metrics: the Prometheus metrics of a node (src/internal/metrics/metrics.go)

    The client library is third-party code: the program only calls [Inc], [Set]
    and [Observe] on it, so a component's use of metrics is modelled as the
    sequence of those calls ([metric_event]).  [World] threads that sequence
    together with the readings of [time.Now()] through the handlers, in a small
    state monad. *)

From S2P Require Import Prelude GoLib Float64.

Open Scope Z_scope.

(** ** The fields of the [Metrics] struct, by kind *)

Inductive counter :=
  | WriteSuccessTotal | WriteFailureTotal | ReadSuccessTotal | ReadFailureTotal
  | WriteOpsTotal | QuorumAdjustments | StalenessViolations | StaleReadsRejected
  | ConflictsDetected | ConflictsResolved | ReconciliationRuns | PartitionHealing
  | ReadRepair.

Inductive counter_vec := ReplicateAcks | Errors | QuorumAdjustmentReason.

Inductive gauge :=
  | CurrentR | CurrentW | CCSRaw | CCSSmoothed | CCSComponentRTT | CCSComponentAvail
  | CCSComponentVar | CCSComponentError | CCSComponentClock | HysteresisActive.

Inductive gauge_vec := HealthRTT | RTTVariance | HLCDrift.

Inductive histogram := PutLatency | GetLatency | DataAge | ReconciliationKeys | ReconciliationLatency.

Inductive histogram_vec := ReplicateLatency.

Inductive metric_id :=
  | MCounter (c : counter) | MCounterVec (c : counter_vec)
  | MGauge (g : gauge) | MGaugeVec (g : gauge_vec)
  | MHistogram (h : histogram) | MHistogramVec (h : histogram_vec).

#[export] Instance counter_eq_dec : EqDecision counter.
Proof. solve_decision. Defined.
#[export] Instance counter_vec_eq_dec : EqDecision counter_vec.
Proof. solve_decision. Defined.
#[export] Instance gauge_eq_dec : EqDecision gauge.
Proof. solve_decision. Defined.
#[export] Instance gauge_vec_eq_dec : EqDecision gauge_vec.
Proof. solve_decision. Defined.
#[export] Instance histogram_eq_dec : EqDecision histogram.
Proof. solve_decision. Defined.
#[export] Instance histogram_vec_eq_dec : EqDecision histogram_vec.
Proof. solve_decision. Defined.
#[export] Instance metric_id_eq_dec : EqDecision metric_id.
Proof. solve_decision. Defined.
#[export] Instance float64_eq_dec : EqDecision float64.
Proof. solve_decision. Defined.

(** ** Registration ([NewMetrics]) *)

Inductive bucket_spec :=
  | DefBuckets                                     (* prometheus.DefBuckets *)
  | LinearBuckets (start width : Z) (count : nat)  (* prometheus.LinearBuckets *)
  | ListBuckets (l : list float64).

Record metric_desc := mkDesc {
  md_field : metric_id;
  md_Name : string;
  md_Help : string;
  md_Buckets : option bucket_spec;
  md_labels : list string;
}.

(** The registrations of [NewMetrics], in the order of the struct literal: those
    of the operations and quorums, then those of the adaptive layer, the clock
    and reconciliation. *)
Definition core_metrics : list metric_desc := [
  mkDesc (MHistogram PutLatency) "put_latency_seconds" "Latency of PUT operations" (Some DefBuckets) [];
  mkDesc (MHistogram GetLatency) "get_latency_seconds" "Latency of GET operations" (Some DefBuckets) [];
  mkDesc (MHistogramVec ReplicateLatency) "replicate_ack_latency_seconds"
    "Latency of replication acknowledgements per peer" (Some DefBuckets) ["peer"];
  mkDesc (MCounterVec ReplicateAcks) "replicate_acks_total" "Total replication acknowledgements" None ["result"];
  mkDesc (MCounterVec Errors) "errors_total" "Total errors by type" None ["type"];
  mkDesc (MCounter WriteSuccessTotal) "write_success_total" "Total successful write operations" None [];
  mkDesc (MCounter WriteFailureTotal) "write_failure_total" "Total failed write operations" None [];
  mkDesc (MCounter ReadSuccessTotal) "read_success_total" "Total successful read operations" None [];
  mkDesc (MCounter ReadFailureTotal) "read_failure_total" "Total failed read operations" None [];
  mkDesc (MGauge CurrentR) "current_r" "Current read quorum size" None [];
  mkDesc (MGauge CurrentW) "current_w" "Current write quorum size" None [];
  mkDesc (MGaugeVec HealthRTT) "health_rtt_seconds" "Round trip time to peers" None ["peer"];
  mkDesc (MGaugeVec RTTVariance) "rtt_variance_ms2" "RTT variance per peer in milliseconds squared" None ["peer"];
  mkDesc (MCounter WriteOpsTotal) "write_ops_total" "Total write operations" None []
].

Definition adaptive_metrics : list metric_desc := [
  mkDesc (MGauge CCSRaw) "ccs_raw" "Raw consistency confidence score" None [];
  mkDesc (MGauge CCSSmoothed) "ccs_smoothed"
    "Smoothed consistency confidence score (10-sample moving average)" None [];
  mkDesc (MGauge CCSComponentRTT) "ccs_component_rtt" "RTT health component of CCS" None [];
  mkDesc (MGauge CCSComponentAvail) "ccs_component_avail" "Availability health component of CCS" None [];
  mkDesc (MGauge CCSComponentVar) "ccs_component_var" "Variance health component of CCS" None [];
  mkDesc (MGauge CCSComponentError) "ccs_component_error" "Error health component of CCS" None [];
  mkDesc (MCounter QuorumAdjustments) "quorum_adjustments_total" "Total number of quorum adjustments" None [];
  mkDesc (MCounterVec QuorumAdjustmentReason) "quorum_adjustment_reason_total"
    "Total number of quorum adjustments by reason" None ["reason"];
  mkDesc (MGauge HysteresisActive) "hysteresis_active"
    "Whether hysteresis lockout is currently active (1=active, 0=inactive)" None [];
  mkDesc (MGaugeVec HLCDrift) "hlc_drift_milliseconds" "Clock drift per peer in milliseconds" None ["peer"];
  mkDesc (MCounter StalenessViolations) "staleness_violations_total"
    "Total staleness bound violations detected" None [];
  mkDesc (MCounter StaleReadsRejected) "stale_reads_rejected_total"
    "Total read operations rejected due to staleness" None [];
  mkDesc (MHistogram DataAge) "data_age_seconds" "Distribution of data age on reads"
    (Some (ListBuckets [f64_lit 1 10; f64_lit 1 2; f64_lit 1 1; f64_lit 2 1; f64_lit 3 1; f64_lit 5 1;
                        f64_lit 10 1])) [];
  mkDesc (MCounter ConflictsDetected) "conflicts_detected_total"
    "Total conflicts detected during reads or reconciliation" None [];
  mkDesc (MCounter ConflictsResolved) "conflicts_resolved_total" "Total conflicts resolved using LWW" None [];
  mkDesc (MCounter ReconciliationRuns) "reconciliation_runs_total" "Total reconciliation runs executed" None [];
  mkDesc (MHistogram ReconciliationKeys) "reconciliation_keys" "Number of keys reconciled per run"
    (Some (LinearBuckets 0 10 10)) [];
  mkDesc (MHistogram ReconciliationLatency) "reconciliation_latency_seconds"
    "Duration of reconciliation operations" (Some DefBuckets) [];
  mkDesc (MCounter PartitionHealing) "partition_healing_total"
    "Partition healing events detected (peer reconnections)" None [];
  mkDesc (MCounter ReadRepair) "read_repair_total" "Read repair operations performed" None [];
  mkDesc (MGauge CCSComponentClock) "ccs_component_clock" "Clock health component of CCS" None []
].

Definition NewMetrics : list metric_desc := core_metrics ++ adaptive_metrics.

(** The name a descriptor is registered under: [BuildFQName(namespace, "", name)]. *)
Definition fq_name (namespace : string) (d : metric_desc) : string :=
  if decide (md_Name d = "") then ""
  else if decide (namespace = "") then md_Name d
  else namespace +:+ "_" +:+ md_Name d.

(** ** Events: the calls on the client library *)

Inductive metric_event :=
  | CInc (c : counter)
  | CVInc (c : counter_vec) (label : string)
  | GSet (g : gauge) (v : float64)
  | GVSet (g : gauge_vec) (label : string) (v : float64)
  | HObserve (h : histogram) (v : float64)
  | HVObserve (h : histogram_vec) (label : string) (v : float64).

#[export] Instance metric_event_eq_dec : EqDecision metric_event.
Proof. solve_decision. Defined.

Definition RecordWriteSuccess : list metric_event := [CInc WriteSuccessTotal; CInc WriteOpsTotal].
Definition RecordWriteFailure : list metric_event := [CInc WriteFailureTotal; CInc WriteOpsTotal].
Definition RecordReadSuccess : list metric_event := [CInc ReadSuccessTotal].
Definition RecordReadFailure : list metric_event := [CInc ReadFailureTotal].

(** Number of [Inc] calls on a counter in a trace of events. *)
Definition count_inc (c : counter) (evs : list metric_event) : nat :=
  length (List.filter (λ e, bool_decide (e = CInc c)) evs).

Lemma count_inc_app c l1 l2 : count_inc c (l1 ++ l2) = (count_inc c l1 + count_inc c l2)%nat.
Proof. unfold count_inc. rewrite List.filter_app. apply length_app. Qed.

(** ** The environment of a handler: clock readings and metric calls *)

Record World := mkWorld {
  w_clock : nat → Time;             (* the readings of time.Now(), in order *)
  w_tick : nat;                     (* how many have been taken *)
  w_events : list metric_event;     (* metric calls made so far, oldest first *)
}.

Definition GoM (S A : Type) : Type := S → World → A * S * World.

Definition ret {S A} (a : A) : GoM S A := λ s w, (a, s, w).
Definition bind {S A B} (m : GoM S A) (f : A → GoM S B) : GoM S B :=
  λ s w, let '(a, s', w') := m s w in f a s' w'.
Definition time_now {S} : GoM S Time :=
  λ s w, (w_clock w (w_tick w), s, mkWorld (w_clock w) (w_tick w + 1) (w_events w)).
Definition emit {S} (evs : list metric_event) : GoM S unit :=
  λ s w, (tt, s, mkWorld (w_clock w) (w_tick w) (w_events w ++ evs)).
Definition get {S} : GoM S S := λ s w, (s, s, w).
Definition modify {S} (f : S → S) : GoM S unit := λ s w, (tt, f s, w).

Notation "x <- m ;; k" := (bind m (λ x, k))
  (at level 100, m at next level, right associativity) : acp_scope.
Notation "m ;;; k" := (bind m (λ _, k))
  (at level 100, right associativity) : acp_scope.
Open Scope acp_scope.

(** Run a computation on a part of the state. *)
Definition focus {S T A} (view : S → T) (upd : T → S → S) (m : GoM T A) : GoM S A :=
  λ s w, let '(a, t, w') := m (view s) w in (a, upd t s, w').

Section Monad.
Context {S A B C : Type}.

Lemma bind_ret_l (a : A) (f : A → GoM S B) s w : bind (ret a) f s w = f a s w.
Proof. done. Qed.
Lemma bind_ret_r (m : GoM S A) s w : bind m ret s w = m s w.
Proof. unfold bind, ret. by destruct (m s w) as [[??]?]. Qed.
Lemma bind_assoc (m : GoM S A) (f : A → GoM S B) (g : B → GoM S C) s w :
  bind (bind m f) g s w = bind m (λ a, bind (f a) g) s w.
Proof. unfold bind. by destruct (m s w) as [[??]?]. Qed.
End Monad.

(** A [for _, a := range l] loop carrying an accumulator. *)
Fixpoint foldM {S A B} (f : B → A → GoM S B) (l : list A) (b : B) : GoM S B :=
  match l with
  | [] => ret b
  | a :: l => b' <- f b a ;; foldM f l b'
  end.

(** Loop invariants: [P] relates accumulator and state, whatever the clock
    reads, and holds after the loop if each iteration keeps it. *)
Lemma foldM_inv {S A B} (f : B → A → GoM S B) (P : B → S → Prop) l b s w :
  P b s →
  (∀ b s w a, a ∈ l → P b s → P (f b a s w).1.1 (f b a s w).1.2) →
  P (foldM f l b s w).1.1 (foldM f l b s w).1.2.
Proof.
  revert b s w. induction l as [|a l IH]; intros b s w HP Hf; [done|].
  simpl. unfold bind. pose proof (Hf b s w a ltac:(set_solver) HP) as HP'.
  destruct (f b a s w) as [[b' s'] w']; simpl in *.
  apply IH; [done|]. intros; apply Hf; set_solver.
Qed.

(** The events a computation adds to the trace. *)
Definition new_events {S A} (m : GoM S A) (s : S) (w : World) : list metric_event :=
  drop (length (w_events w)) (w_events (m s w).2).

(** ** Properties *)

Definition fq_names (namespace : string) : list string := map (fq_name namespace) NewMetrics.

Lemma append_inj_l (s a b : string) : s +:+ a = s +:+ b → a = b.
Proof. apply (inj (String.append s)). Qed.

Lemma fq_name_inj ns d1 d2 :
  md_Name d1 ≠ "" → md_Name d2 ≠ "" → fq_name ns d1 = fq_name ns d2 → md_Name d1 = md_Name d2.
Proof.
  intros H1 H2. unfold fq_name. repeat case_decide; try done.
  by intros ?%append_inj_l%append_inj_l.
Qed.

(** registering the metrics never meets a duplicate: for every namespace
    the fully qualified names of all descriptors are pairwise distinct, and
    every field of the struct is registered once. *)
Theorem new_metrics_no_duplicate_registration (namespace : string) :
  NoDup (fq_names namespace) ∧ NoDup (map md_field NewMetrics).
Proof.
  split.
  - assert (NoDup (map md_Name NewMetrics)) as Hnd.
    { apply (bool_decide_unpack _). vm_compute. done. }
    assert (Forall (λ d, md_Name d ≠ "") NewMetrics) as Hne.
    { repeat constructor; discriminate. }
    unfold fq_names. revert Hnd Hne. generalize NewMetrics as l.
    induction l as [|d l IH]; simpl; [constructor|].
    intros [Hni Hnd]%NoDup_cons [Hd Hl]%Forall_cons.
    apply NoDup_cons. split; [|auto].
    intros (d' & Heq & Hin)%list_elem_of_In%in_map_iff. apply Hni.
    rewrite Forall_forall in Hl. apply list_elem_of_In in Hin.
    rewrite <- (fq_name_inj namespace d' d); auto.
    apply list_elem_of_In, in_map, list_elem_of_In, Hin.
  - apply (bool_decide_unpack _). vm_compute. done.
Qed.

(** The names the README lists for the operation counters, which the
    benchmark's collector queries, are not registered by the node. *)
Theorem documented_counters_not_registered :
  Forall (λ n, n ∉ fq_names "acp")
    ["acp_gets_total"; "acp_puts_total"; "acp_reads_success_total"; "acp_writes_success_total";
     "acp_reads_failure_total"; "acp_writes_failure_total"] ∧
  "acp_write_success_total" ∈ fq_names "acp".
Proof.
  split; [repeat constructor; apply (bool_decide_unpack _); vm_compute; done|].
  apply (bool_decide_unpack _). vm_compute. done.
Qed.
