(* ===== verification/Storage.v ===== *)
(** * Storage: the in-memory store of a node (src/internal/storage/store.go) *)

From S2P Require Import Prelude GoLib Hlc.

Open Scope Z_scope.

(** A [[]byte] value. *)
Abbreviation bytes := (list Byte.byte).
#[export] Instance byte_eq_dec : EqDecision Byte.byte := Byte.byte_eq_dec.

(** [[]byte("...")]. *)
Definition go_bytes (s : string) : bytes := String.list_byte_of_string s.

Record VersionedValue := mkVV {
  vv_Value : bytes;
  vv_Version : Z;
  vv_Timestamp : Z;
  vv_NodeID : string;
  vv_HLC : HLC;
  vv_ReceivedAt : Z;
  vv_IsLocal : bool;
}.

#[export] Instance VersionedValue_eq_dec : EqDecision VersionedValue.
Proof. solve_decision. Defined.

Definition zero_VV : VersionedValue := mkVV [] 0 0 "" zero_HLC 0 false.

Abbreviation Store := (gmap string VersionedValue).

Definition NewStore : Store := ∅.

Definition Store_Put (now : Time) (key : string) (value : bytes) (nodeID : string) (s : Store) :
    VersionedValue * Store :=
  let now := UnixNano now in
  let version := now in
  let vv := mkVV value version now nodeID zero_HLC 0 false in
  (vv, <[key := vv]> s).

Definition Store_Get (key : string) (s : Store) : VersionedValue * bool :=
  match s !! key with
  | Some vv => (vv, true)
  | None => (zero_VV, false)
  end.

Definition Store_GetAll (key : string) (s : Store) : list VersionedValue :=
  match s !! key with Some vv => [vv] | None => [] end.

Definition Store_Size (s : Store) : nat := size s.

Definition Store_PutWithHLC (now : Time) (key : string) (value : bytes) (nodeID : string)
    (timestamp : HLC) (s : Store) : VersionedValue * Store :=
  let now := UnixNano now in
  let vv := mkVV value (hlc_Physical timestamp) (hlc_Physical timestamp) nodeID timestamp now
              (bool_decide (nodeID = hlc_NodeID timestamp)) in
  (vv, <[key := vv]> s).

(** (value, found, isStale) *)
Definition Store_GetWithStaleness (now : Time) (key : string) (maxAge : Duration) (s : Store) :
    VersionedValue * bool * bool :=
  match s !! key with
  | None => (zero_VV, false, false)
  | Some vv =>
      let now := UnixNano now in
      let age := HLC_Age (vv_HLC vv) now in
      let isStale := age >? maxAge in
      (vv, true, isStale)
  end.

Definition Store_GetConflicts (key : string) (s : Store) : list VersionedValue :=
  match s !! key with Some vv => [vv] | None => [] end.

(** ** Lemmas *)

Lemma store_get_found key s vv : s !! key = Some vv → Store_Get key s = (vv, true).
Proof. unfold Store_Get. by intros ->. Qed.

Lemma store_get_true key s vv : Store_Get key s = (vv, true) ↔ s !! key = Some vv.
Proof. unfold Store_Get. destruct (s !! key); split; intros; by simplify_eq. Qed.

Lemma store_get_false key s vv : Store_Get key s = (vv, false) → s !! key = None.
Proof. unfold Store_Get. by destruct (s !! key). Qed.

Lemma put_with_hlc_lookup now key value nodeID ts s :
  (Store_PutWithHLC now key value nodeID ts s).2 !! key
  = Some (Store_PutWithHLC now key value nodeID ts s).1.
Proof. apply lookup_insert_eq. Qed.

Lemma put_with_hlc_lookup_ne now key key' value nodeID ts s :
  key ≠ key' → (Store_PutWithHLC now key value nodeID ts s).2 !! key' = s !! key'.
Proof. intros. by apply lookup_insert_ne. Qed.

Lemma put_with_hlc_stamp now key value nodeID ts s :
  vv_HLC (Store_PutWithHLC now key value nodeID ts s).1 = ts ∧
  vv_NodeID (Store_PutWithHLC now key value nodeID ts s).1 = nodeID ∧
  vv_Value (Store_PutWithHLC now key value nodeID ts s).1 = value ∧
  vv_Version (Store_PutWithHLC now key value nodeID ts s).1 = hlc_Physical ts.
Proof. done. Qed.

#[export] Hint Rewrite put_with_hlc_lookup : acp.

(** ** Sequences of writes against their specification *)

(** The two write operations with the clock reading they use. *)
Inductive store_op :=
  | SPut (now : Time) (key : string) (value : bytes) (nodeID : string)
  | SPutHLC (now : Time) (key : string) (value : bytes) (nodeID : string) (ts : HLC).

Definition op_key (op : store_op) : string :=
  match op with SPut _ k _ _ | SPutHLC _ k _ _ _ => k end.

Definition store_exec (s : Store) (op : store_op) : Store :=
  match op with
  | SPut now k v n => (Store_Put now k v n s).2
  | SPutHLC now k v n ts => (Store_PutWithHLC now k v n ts s).2
  end.

(** What an operation returns (and stores), independent of the store. *)
Definition op_value (op : store_op) : VersionedValue :=
  match op with
  | SPut now k v n => (Store_Put now k v n ∅).1
  | SPutHLC now k v n ts => (Store_PutWithHLC now k v n ts ∅).1
  end.

(** Specification: the last write to the key in arrival order. *)
Definition last_write (key : string) (ops : list store_op) : option VersionedValue :=
  op_value <$> List.find (λ op, bool_decide (op_key op = key)) (reverse ops).

Lemma store_exec_insert s op : store_exec s op = <[op_key op := op_value op]> s.
Proof. by destruct op. Qed.

Lemma last_write_snoc key ops op :
  last_write key (ops ++ [op]) =
  if decide (op_key op = key) then Some (op_value op) else last_write key ops.
Proof.
  unfold last_write. rewrite reverse_app. simpl.
  destruct (decide (op_key op = key)); [by rewrite bool_decide_true|by rewrite bool_decide_false].
Qed.


(** A write is visible, in all three read operations, with exactly the
    timestamp it carried, and no other key is touched. *)
Theorem put_with_hlc_then_get (now : Time) (key key' : string) (value : bytes)
    (nodeID : string) (ts : HLC) (s : Store) :
  let '(vv, s') := Store_PutWithHLC now key value nodeID ts s in
  Store_Get key s' = (vv, true) ∧
  Store_GetAll key s' = [vv] ∧ Store_GetConflicts key s' = [vv] ∧
  vv_Value vv = value ∧ vv_HLC vv = ts ∧ vv_Version vv = hlc_Physical ts ∧
  (vv_IsLocal vv = true ↔ nodeID = hlc_NodeID ts) ∧
  (key' ≠ key → Store_Get key' s' = Store_Get key' s).
Proof.
  unfold Store_PutWithHLC, Store_Get, Store_GetAll, Store_GetConflicts. rewrite lookup_insert_eq.
  split_and!; try done; [apply bool_decide_eq_true|]. intros. by rewrite lookup_insert_ne.
Qed.
