(* ===== verification/Staleness.v ===== *)
(** * Staleness: the staleness detector (src/internal/staleness/detector.go) *)

From S2P Require Import Prelude GoLib Float64 Metrics Hlc Storage.

Open Scope Z_scope.

Record Detector := mkDetector { d_maxAge : Duration }.

Definition NewDetector (maxAge : Duration) : Detector := mkDetector maxAge.

Definition Detector_IsStale (d : Detector) (timestamp : HLC) (now : Z) : bool :=
  let age := HLC_Age timestamp now in
  age >? d_maxAge d.

Definition Detector_Age (timestamp : HLC) (now : Z) : Duration := HLC_Age timestamp now.

Definition staleness_error (age maxAge : Duration) : error :=
  "staleness bound exceeded: data age " +:+ Duration_String age +:+ " > max " +:+
  Duration_String maxAge.

(** [CheckStrict], with the metric calls it makes. *)
Definition Detector_CheckStrict {S} (d : Detector) (value : VersionedValue) : GoM S (option error) :=
  t <- time_now ;;
  let now := UnixNano t in
  let age := HLC_Age (vv_HLC value) now in
  if age >? d_maxAge d then
    emit [CInc StaleReadsRejected; CInc StalenessViolations] ;;;
    ret (Some (staleness_error age (d_maxAge d)))
  else ret None.

(** The loop of [CheckMultiple]: (fresh, stale) so far. *)
Definition check_multiple_step (d : Detector) (now : Z)
    (acc : list VersionedValue * list VersionedValue) (v : VersionedValue) :=
  let '(fresh, stale) := acc in
  if Detector_IsStale d (vv_HLC v) now then (fresh, stale ++ [v]) else (fresh ++ [v], stale).

Definition Detector_CheckMultiple {S} (d : Detector) (values : list VersionedValue) :
    GoM S (list VersionedValue * list VersionedValue) :=
  t <- time_now ;;
  let now := UnixNano t in
  ret (fold_left (check_multiple_step d now) values ([], [])).

(** ** Lemmas *)

Lemma age_spec ts now :
  0 <= hlc_Physical ts → now <= max_int64 → HLC_Age ts now = Z.max 0 (now - hlc_Physical ts).
Proof.
  intros. unfold HLC_Age, max_int64 in *. destruct (now >? hlc_Physical ts) eqn:E; [|lia].
  rewrite wrap64_id; unfold in_int64; lia.
Qed.

Lemma check_multiple_fold d now values f s :
  fold_left (check_multiple_step d now) values (f, s) =
  (f ++ List.filter (λ v, negb (Detector_IsStale d (vv_HLC v) now)) values,
   s ++ List.filter (λ v, Detector_IsStale d (vv_HLC v) now) values).
Proof.
  revert f s. induction values as [|v values IH]; intros f s; simpl; [by rewrite !app_nil_r|].
  destruct (Detector_IsStale d (vv_HLC v) now); simpl; rewrite IH, <- ?app_assoc; done.
Qed.

(** ** Properties *)

(** for timestamps and readings of this century (non-negative, no int64
    overflow) a value is stale exactly when it is older than the bound; it
    then stays stale, and a timestamp from the future is never stale. *)
Theorem is_stale_exact (d : Detector) (ts : HLC) (now later : Z) :
  0 <= d_maxAge d → 0 <= hlc_Physical ts → now <= later <= max_int64 →
  (Detector_IsStale d ts now = true ↔ d_maxAge d < now - hlc_Physical ts) ∧
  (Detector_IsStale d ts now = true → Detector_IsStale d ts later = true) ∧
  (now <= hlc_Physical ts → Detector_IsStale d ts now = false).
Proof.
  intros Hd Hp Hn. unfold Detector_IsStale. rewrite !age_spec by lia.
  repeat split; intros; lia.
Qed.

Lemma is_stale_exact_witness :
  Detector_IsStale (NewDetector (3 * Second)) (mkHLC 1000 0 "n1") (1000 + 4 * Second) = true ∧
  (Detector_IsStale (NewDetector (3 * Second)) (mkHLC 1000 0 "n1") (1000 + 4 * Second) = true →
   Detector_IsStale (NewDetector (3 * Second)) (mkHLC 1000 0 "n1") (1000 + 9 * Second) = true).
Proof.
  split; [reflexivity|].
  refine (proj1 (proj2 (is_stale_exact (NewDetector (3 * Second)) (mkHLC 1000 0 "n1")
    (1000 + 4 * Second) (1000 + 9 * Second) _ _ _))); vm_compute; try split; congruence.
Defined.

(** [CheckStrict] rejects exactly the values [IsStale] marks at the same
    reading; a rejection counts one rejected read and one violation, and an
    accepted value touches no metric.  [GetWithStaleness] of the store uses the
    same test. *)
Theorem check_strict_iff_stale {S} (d : Detector) (value : VersionedValue) (s : S) (w : World) :
  let now := UnixNano (w_clock w (w_tick w)) in
  let '(r, s', w') := Detector_CheckStrict d value s w in
  s' = s ∧
  (r = if Detector_IsStale d (vv_HLC value) now
       then Some (staleness_error (HLC_Age (vv_HLC value) now) (d_maxAge d)) else None) ∧
  w_events w' = w_events w ++
    (if Detector_IsStale d (vv_HLC value) now
     then [CInc StaleReadsRejected; CInc StalenessViolations] else []) ∧
  (∀ key st, st !! key = Some value →
     Store_GetWithStaleness (w_clock w (w_tick w)) key (d_maxAge d) st
     = (value, true, Detector_IsStale d (vv_HLC value) now)).
Proof.
  cbv zeta. unfold Detector_CheckStrict, Detector_IsStale, bind, time_now.
  destruct (_ >? _) eqn:E; simpl; split_and!; try done; rewrite ?app_nil_r; try done;
    intros key st Hk; unfold Store_GetWithStaleness; rewrite Hk; cbv zeta; by rewrite E.
Qed.

(** [CheckMultiple] splits its input into the fresh and the stale values,
    both in input order, losing and duplicating nothing. *)
Theorem check_multiple_partition {S} (d : Detector) (values : list VersionedValue) (s : S) (w : World) :
  let now := UnixNano (w_clock w (w_tick w)) in
  let '(fresh, stale) := (Detector_CheckMultiple d values s w).1.1 in
  fresh = List.filter (λ v, negb (Detector_IsStale d (vv_HLC v) now)) values ∧
  stale = List.filter (λ v, Detector_IsStale d (vv_HLC v) now) values ∧
  fresh ++ stale ≡ₚ values.
Proof.
  cbv zeta. unfold Detector_CheckMultiple, bind, time_now, ret. simpl.
  rewrite check_multiple_fold. simpl. split_and!; [done..|].
  induction values as [|v values IH]; simpl; [done|].
  destruct (Detector_IsStale d (vv_HLC v) _); simpl; [|by rewrite IH].
  rewrite <- Permutation_middle. by rewrite IH.
Qed.

(** The age computation wraps: a value stamped before [now - max_int64]
    (a negative physical time) has a negative age and passes as fresh. *)
Theorem stale_overflow_is_fresh (d : Detector) (ts : HLC) (now : Z) :
  0 <= d_maxAge d → in_int64 now → in_int64 (hlc_Physical ts) →
  max_int64 < now - hlc_Physical ts → Detector_IsStale d ts now = false.
Proof.
  intros Hd Hn Hp Hov. unfold Detector_IsStale, HLC_Age, in_int64, max_int64 in *.
  destruct (now >? hlc_Physical ts) eqn:E; [|lia].
  assert (wrap64 (now - hlc_Physical ts) = now - hlc_Physical ts - 2 ^ 64) as ->; [|lia].
  unfold wrap64. rewrite <- (Z.mod_unique_pos (now - hlc_Physical ts + 2 ^ 63) (2 ^ 64) 1
    (now - hlc_Physical ts - 2 ^ 63)); lia.
Qed.

Lemma stale_overflow_is_fresh_witness :
  Detector_IsStale (NewDetector (3 * Second)) (mkHLC (- 2 ^ 63) 0 "n1") (1700000000 * Second) = false.
Proof.
  refine (stale_overflow_is_fresh (NewDetector (3 * Second)) (mkHLC (- 2 ^ 63) 0 "n1")
            (1700000000 * Second) _ _ _ _); vm_compute; try split; congruence.
Defined.
