(* ===== verification/Ring.v ===== *)
(** * Ring: circular buffers

    Two components keep a fixed-size array with a write index and a count: the
    recent-write log of the reconciliation engine and the sliding windows of
    the CCS computation.  Their common update and its specification: the buffer
    holds the last [size] elements pushed. *)

From S2P Require Import Prelude.

Open Scope nat_scope.

Section Ring.
Context {A : Type}.

(** Slots, index of the next write, number of slots in use. *)
Record ring := mkRing { r_slots : list A; r_index : nat; r_count : nat }.

(** [slots[index] = x; index = (index + 1) % size; if count < size then count++].
    [None] is the run-time panic of an index out of range. *)
Definition ring_push (x : A) (r : ring) : option ring :=
  if r_index r <? length (r_slots r) then
    Some (mkRing (<[r_index r := x]> (r_slots r))
            ((r_index r + 1) mod length (r_slots r))
            (if r_count r <? length (r_slots r) then r_count r + 1 else r_count r))
  else None.

Record ring_wf (r : ring) : Prop := {
  ring_size_pos : 0 < length (r_slots r);
  ring_index_lt : r_index r < length (r_slots r);
  ring_count_le : r_count r <= length (r_slots r);
  ring_filling : r_count r < length (r_slots r) → r_index r = r_count r;
}.

(** The elements held, oldest first. *)
Definition ring_contents (r : ring) : list A :=
  if r_count r <? length (r_slots r) then take (r_count r) (r_slots r)
  else drop (r_index r) (r_slots r) ++ take (r_index r) (r_slots r).

(** The slots in use, in slot order (the order the code iterates in). *)
Definition ring_slots_used (r : ring) : list A := take (r_count r) (r_slots r).

Definition lastn (n : nat) (l : list A) : list A := drop (length l - n) l.

Lemma lastn_all n l : length l <= n → lastn n l = l.
Proof. intros. unfold lastn. by replace (length l - n) with 0 by lia. Qed.

Lemma length_lastn n l : length (lastn n l) = Nat.min n (length l).
Proof. unfold lastn. rewrite length_drop. lia. Qed.

Lemma lastn_snoc_lastn n l x : lastn n (lastn n l ++ [x]) = lastn n (l ++ [x]).
Proof.
  unfold lastn. rewrite !length_app, length_drop. simpl.
  destruct (Nat.le_gt_cases (length l) n).
  - replace (length l - n) with 0 by lia. rewrite drop_0. f_equal. lia.
  - destruct n as [|n].
    { rewrite !Nat.sub_0_r. rewrite !drop_ge; try done; rewrite length_app, ?length_drop; simpl; lia. }
    rewrite !drop_app_le by (rewrite ?length_drop; lia). rewrite drop_drop. do 2 f_equal. lia.
Qed.

(** Keeping the last [n] elements can be done at any time. *)
Lemma lastn_app_lastn n l es : lastn n (lastn n l ++ es) = lastn n (l ++ es).
Proof.
  induction es as [|e es IH] using rev_ind.
  { rewrite !app_nil_r. unfold lastn. rewrite length_drop, drop_drop. f_equal. lia. }
  rewrite !app_assoc, <- (lastn_snoc_lastn _ (lastn _ l ++ es)), IH. apply lastn_snoc_lastn.
Qed.

Lemma ring_slots_used_perm r : ring_wf r → ring_slots_used r ≡ₚ ring_contents r.
Proof.
  intros [? ? ? ?]. unfold ring_slots_used, ring_contents.
  destruct (Nat.ltb_spec (r_count r) (length (r_slots r))); [done|].
  rewrite take_ge by lia. by rewrite Permutation_app_comm, take_drop.
Qed.

Lemma ring_contents_length r : ring_wf r → length (ring_contents r) = r_count r.
Proof.
  intros Hwf. rewrite <- (ring_slots_used_perm r Hwf). destruct Hwf.
  unfold ring_slots_used. rewrite length_take. lia.
Qed.

Lemma take_insert_snoc (l : list A) i x :
  i < length l → take (i + 1) (<[i := x]> l) = take i l ++ [x].
Proof.
  intros. rewrite insert_take_drop by done.
  rewrite take_app_ge by (rewrite length_take; lia).
  rewrite length_take, Nat.min_l by lia.
  by replace (i + 1 - i) with 1 by lia.
Qed.

Lemma drop_insert_next (l : list A) i x : drop (i + 1) (<[i := x]> l) = drop (i + 1) l.
Proof. rewrite drop_insert_lt by lia. done. Qed.

Lemma ring_push_spec x r :
  ring_wf r → ∃ r', ring_push x r = Some r' ∧ ring_wf r' ∧
    length (r_slots r') = length (r_slots r) ∧
    ring_contents r' = lastn (length (r_slots r)) (ring_contents r ++ [x]).
Proof.
  intros Hwf. pose proof (ring_contents_length r Hwf) as Hlen. destruct Hwf as [Hs Hi Hc Hf].
  unfold ring_push. destruct (Nat.ltb_spec (r_index r) (length (r_slots r))) as [_|]; [|lia].
  eexists. split; [done|].
  assert ((r_index r + 1) mod length (r_slots r) =
          if r_index r + 1 <? length (r_slots r) then r_index r + 1 else 0) as ->.
  { destruct (Nat.ltb_spec (r_index r + 1) (length (r_slots r))); [by apply Nat.mod_small|].
    replace (r_index r + 1) with (length (r_slots r)) by lia. apply Nat.Div0.mod_same. }
  split; [|split; [simpl; by rewrite length_insert|]].
  { split; simpl; rewrite length_insert; [done| | |];
      destruct (Nat.ltb_spec (r_index r + 1) (length (r_slots r)));
      destruct (Nat.ltb_spec (r_count r) (length (r_slots r))); lia. }
  unfold lastn. rewrite length_app, Hlen. simpl.
  unfold ring_contents at 1; simpl. rewrite length_insert.
  unfold ring_contents.
  destruct (Nat.ltb_spec (r_count r) (length (r_slots r))) as [Hlt|Hge].
  - (* filling up *)
    replace (r_count r + 1 - length (r_slots r)) with 0 by lia. rewrite drop_0.
    rewrite (Hf Hlt). destruct (Nat.ltb_spec (r_count r + 1) (length (r_slots r))).
    + by apply take_insert_snoc.
    + rewrite drop_0, take_0, app_nil_r, <- take_insert_snoc by lia.
      rewrite take_ge; [done|]. rewrite length_insert. lia.
  - (* full: the oldest element is overwritten *)
    assert (r_count r = length (r_slots r)) as Hcnt by lia.
    rewrite Hcnt. replace (length (r_slots r) + 1 - length (r_slots r)) with 1 by lia.
    rewrite <- Hcnt, (proj2 (Nat.ltb_ge (r_count r) (r_count r))) by lia. rewrite Hcnt.
    destruct (drop (r_index r) (r_slots r)) as [|y rest] eqn:Hd.
    { apply (f_equal length) in Hd. rewrite length_drop in Hd. simpl in Hd. lia. }
    assert (drop (r_index r + 1) (r_slots r) = rest) as Hrest.
    { rewrite <- drop_drop, Hd. done. }
    simpl. rewrite <- app_assoc, drop_0, <- take_insert_snoc by lia.
    destruct (Nat.ltb_spec (r_index r + 1) (length (r_slots r))).
    + by rewrite drop_insert_next, Hrest.
    + assert (rest = []) as ->.
      { apply (f_equal length) in Hrest. rewrite length_drop in Hrest.
        destruct rest; [done|simpl in Hrest; lia]. }
      rewrite take_0, drop_0, app_nil_r. simpl. rewrite take_ge; [done|].
      rewrite length_insert. lia.
Qed.
End Ring.

Arguments ring : clear implicits.
