(* ===== verification/WriteLog.v ===== *)
(** * WriteLog: the recent-write log (src/internal/reconcile/log.go)

    A circular buffer of the last writes a node has seen, with expiry by age.
    Slices are lists of fixed length; an index out of range is the run-time
    panic [None], which the invariant [log_wf] excludes. *)

From S2P Require Import Prelude GoLib Hlc Storage Ring.

Open Scope Z_scope.

Record WriteEntry := mkEntry {
  we_Key : string;
  we_Value : bytes;
  we_NodeID : string;
  we_HLC : HLC;
  we_Timestamp : Z;
}.

#[export] Instance WriteEntry_eq_dec : EqDecision WriteEntry.
Proof. solve_decision. Defined.

Definition zero_entry : WriteEntry := mkEntry "" [] "" zero_HLC 0.

Record RecentWriteLog := mkLog {
  rwl_entries : list WriteEntry;
  rwl_maxSize : nat;
  rwl_index : nat;
  rwl_count : nat;
  rwl_maxAge : Duration;
  rwl_timestamps : list Z;
}.

Definition NewRecentWriteLog (maxSize : nat) (maxAge : Duration) : RecentWriteLog :=
  mkLog (replicate maxSize zero_entry) maxSize 0 0 maxAge (replicate maxSize 0).

(** [Add]; [None] when an index is out of range or the modulus is zero. *)
Definition Log_Add (now : Time) (key : string) (value : bytes) (nodeID : string)
    (timestamp : HLC) (rwl : RecentWriteLog) : option RecentWriteLog :=
  let now := UnixNano now in
  let entry := mkEntry key value nodeID timestamp now in
  if (rwl_index rwl <? length (rwl_entries rwl))%nat &&
     (rwl_index rwl <? length (rwl_timestamps rwl))%nat && (0 <? rwl_maxSize rwl)%nat then
    Some (mkLog (<[rwl_index rwl := entry]> (rwl_entries rwl))
            (rwl_maxSize rwl)
            ((rwl_index rwl + 1) mod rwl_maxSize rwl)%nat
            (if (rwl_count rwl <? rwl_maxSize rwl)%nat then (rwl_count rwl + 1)%nat
             else rwl_count rwl)
            (rwl_maxAge rwl)
            (<[rwl_index rwl := now]> (rwl_timestamps rwl)))
  else None.

(** The loop [for i := i; i < i + n; i++] of [GetAll]. *)
Fixpoint getall_loop (rwl : RecentWriteLog) (cutoff : Z) (i n : nat) : option (list WriteEntry) :=
  match n with
  | O => Some []
  | S n =>
      match rwl_timestamps rwl !! i with
      | None => None
      | Some ts =>
          if ts >=? cutoff then
            match rwl_entries rwl !! i with
            | None => None
            | Some e =>
                match getall_loop rwl cutoff (S i) n with
                | None => None
                | Some rest => Some (e :: rest)
                end
            end
          else getall_loop rwl cutoff (S i) n
      end
  end.

Definition log_cutoff (now : Time) (rwl : RecentWriteLog) : Z :=
  wrap64 (UnixNano now - rwl_maxAge rwl).

Definition Log_GetAll (now : Time) (rwl : RecentWriteLog) : option (list WriteEntry) :=
  getall_loop rwl (log_cutoff now rwl) 0 (rwl_count rwl).

Definition Log_Size (rwl : RecentWriteLog) : nat := rwl_count rwl.

(** The loop of [Cleanup]: new entries, new timestamps and validCount so far. *)
Fixpoint cleanup_loop (rwl : RecentWriteLog) (cutoff : Z) (i n : nat)
    (newEntries : list WriteEntry) (newTimestamps : list Z) (validCount : nat) :
    option (list WriteEntry * list Z * nat) :=
  match n with
  | O => Some (newEntries, newTimestamps, validCount)
  | S n =>
      match rwl_timestamps rwl !! i with
      | None => None
      | Some ts =>
          if ts >=? cutoff then
            match rwl_entries rwl !! i with
            | None => None
            | Some e =>
                if (validCount <? length newEntries)%nat then
                  cleanup_loop rwl cutoff (S i) n (<[validCount := e]> newEntries)
                    (<[validCount := ts]> newTimestamps) (S validCount)
                else None
            end
          else cleanup_loop rwl cutoff (S i) n newEntries newTimestamps validCount
      end
  end.

Definition Log_Cleanup (now : Time) (rwl : RecentWriteLog) : option RecentWriteLog :=
  match cleanup_loop rwl (log_cutoff now rwl) 0 (rwl_count rwl)
          (replicate (rwl_maxSize rwl) zero_entry) (replicate (rwl_maxSize rwl) 0) 0 with
  | None => None
  | Some (newEntries, newTimestamps, validCount) =>
      if (0 <? rwl_maxSize rwl)%nat then
        Some (mkLog newEntries (rwl_maxSize rwl) (validCount mod rwl_maxSize rwl)%nat validCount
                (rwl_maxAge rwl) newTimestamps)
      else None
  end.

(** ** Invariant *)

Definition log_ring (rwl : RecentWriteLog) : ring WriteEntry :=
  mkRing (rwl_entries rwl) (rwl_index rwl) (rwl_count rwl).

Record log_wf (rwl : RecentWriteLog) : Prop := {
  log_wf_ring : ring_wf (log_ring rwl);
  log_wf_size : length (rwl_entries rwl) = rwl_maxSize rwl;
  log_wf_times : rwl_timestamps rwl = map we_Timestamp (rwl_entries rwl);
}.

(** The writes held, oldest first. *)
Definition log_contents (rwl : RecentWriteLog) : list WriteEntry := ring_contents (log_ring rwl).

Definition entry_fresh (cutoff : Z) (e : WriteEntry) : bool := we_Timestamp e >=? cutoff.

(** ** Lemmas *)

Lemma map_replicate {A B} (f : A → B) n x : map f (replicate n x) = replicate n (f x).
Proof. apply (fmap_replicate f). Qed.

Lemma new_log_wf maxSize maxAge : (0 < maxSize)%nat → log_wf (NewRecentWriteLog maxSize maxAge).
Proof.
  intros. split; simpl; [split; simpl; rewrite ?length_replicate; lia|apply length_replicate|].
  symmetry. apply map_replicate.
Qed.

Lemma map_insert {A B} (f : A → B) (l : list A) i x :
  map f (<[i := x]> l) = <[i := f x]> (map f l).
Proof. apply (list_fmap_insert f). Qed.

Lemma log_add_ring now key value nodeID ts rwl :
  log_wf rwl →
  ∃ rwl', Log_Add now key value nodeID ts rwl = Some rwl' ∧ log_wf rwl' ∧
    rwl_maxSize rwl' = rwl_maxSize rwl ∧ rwl_maxAge rwl' = rwl_maxAge rwl ∧
    log_contents rwl' = lastn (rwl_maxSize rwl)
      (log_contents rwl ++ [mkEntry key value nodeID ts (UnixNano now)]).
Proof.
  intros [Hr Hs Ht]. set (e := mkEntry key value nodeID ts (UnixNano now)).
  destruct (ring_push_spec e (log_ring rwl) Hr) as (r' & Hp & Hwf' & Hl' & Hc').
  destruct Hr as [Hpos Hi Hcnt Hf]. simpl in *.
  unfold ring_push in Hp. simpl in Hp.
  rewrite (proj2 (Nat.ltb_lt _ _) Hi) in Hp. injection Hp as <-. simpl in *.
  unfold Log_Add. cbv zeta. fold e.
  rewrite Ht, length_map, (proj2 (Nat.ltb_lt _ _) Hi), <- Hs, (proj2 (Nat.ltb_lt _ _) Hpos). simpl.
  eexists. split; [done|]. split_and!; try done.
  split; simpl; [done|by rewrite length_insert|by rewrite map_insert].
Qed.

Lemma getall_loop_spec rwl cutoff : ∀ n i,
  rwl_timestamps rwl = map we_Timestamp (rwl_entries rwl) →
  (i + n <= length (rwl_entries rwl))%nat →
  getall_loop rwl cutoff i n =
  Some (List.filter (entry_fresh cutoff) (take n (drop i (rwl_entries rwl)))).
Proof.
  intros n i Ht. revert i. induction n as [|n IH]; intros i Hi; simpl; [done|].
  assert (is_Some (rwl_entries rwl !! i)) as [e He] by (apply lookup_lt_is_Some; lia).
  rewrite Ht. change (map ?f ?l) with (f <$> l) at 1. rewrite list_lookup_fmap, He. simpl.
  rewrite (drop_S _ e) by done. simpl. rewrite IH by lia.
  fold (entry_fresh cutoff e). by destruct (entry_fresh cutoff e).
Qed.

Lemma log_getall_spec now rwl :
  log_wf rwl →
  Log_GetAll now rwl =
  Some (List.filter (entry_fresh (log_cutoff now rwl)) (take (rwl_count rwl) (rwl_entries rwl))).
Proof.
  intros [[? ? Hc ?] Hs Ht]. simpl in *. unfold Log_GetAll.
  rewrite getall_loop_spec by (done || simpl; lia). done.
Qed.

Lemma bfilter_perm {A} (p : A → bool) (l1 l2 : list A) :
  l1 ≡ₚ l2 → List.filter p l1 ≡ₚ List.filter p l2.
Proof.
  induction 1 as [|x l l' _ IH|x y l|]; simpl; [done| | |by etransitivity].
  - destruct (p x); [by rewrite IH|done].
  - destruct (p x), (p y); try done. constructor.
Qed.

Lemma log_getall_perm now rwl :
  log_wf rwl → ∃ ws, Log_GetAll now rwl = Some ws ∧
    ws ≡ₚ List.filter (entry_fresh (log_cutoff now rwl)) (log_contents rwl).
Proof.
  intros Hwf. eexists. split; [by apply log_getall_spec|].
  apply bfilter_perm. apply (ring_slots_used_perm (log_ring rwl)). by destruct Hwf.
Qed.

(** The state of [Cleanup]'s loop: the valid entries so far, packed. *)
Lemma cleanup_loop_spec rwl cutoff : ∀ n i (kept : list WriteEntry) pad,
  rwl_timestamps rwl = map we_Timestamp (rwl_entries rwl) →
  (i + n <= length (rwl_entries rwl))%nat → (n <= pad)%nat →
  ∃ pad',
  let kept' := kept ++ List.filter (entry_fresh cutoff) (take n (drop i (rwl_entries rwl))) in
  cleanup_loop rwl cutoff i n (kept ++ replicate pad zero_entry)
    (map we_Timestamp (kept ++ replicate pad zero_entry)) (length kept) =
  Some (kept' ++ replicate pad' zero_entry,
        map we_Timestamp (kept' ++ replicate pad' zero_entry), length kept') ∧
  (length kept' + pad' = length kept + pad)%nat.
Proof.
  intros n i kept pad Ht. revert i kept pad.
  induction n as [|n IH]; intros i kept pad Hi Hp; simpl.
  { exists pad. rewrite app_nil_r. done. }
  assert (is_Some (rwl_entries rwl !! i)) as [e He] by (apply lookup_lt_is_Some; lia).
  rewrite Ht. change (map ?f (rwl_entries rwl)) with (f <$> (rwl_entries rwl)) at 1.
  rewrite list_lookup_fmap, He. simpl. rewrite (drop_S _ e) by done. simpl.
  fold (entry_fresh cutoff e). destruct (entry_fresh cutoff e) eqn:Hf; [|apply IH; lia].
  destruct pad as [|pad]; [lia|]. rewrite length_app, length_replicate.
  rewrite (proj2 (Nat.ltb_lt _ _)) by lia.
  assert (<[length kept := e]> (kept ++ replicate (S pad) zero_entry)
          = (kept ++ [e]) ++ replicate pad zero_entry) as Hins.
  { rewrite insert_app_r_alt by lia. rewrite Nat.sub_diag. simpl. by rewrite <- app_assoc. }
  rewrite <- map_insert, Hins.
  specialize (IH (S i) (kept ++ [e]) pad ltac:(lia) ltac:(lia)).
  rewrite length_app, Nat.add_1_r in IH. destruct IH as (pad' & -> & Hlen).
  exists pad'. rewrite <- !app_assoc in *. simpl in *.
  rewrite !length_app in *. simpl in *. split; [done|lia].
Qed.

Lemma log_cleanup_spec now rwl :
  log_wf rwl →
  ∃ rwl' ws, Log_Cleanup now rwl = Some rwl' ∧ Log_GetAll now rwl = Some ws ∧ log_wf rwl' ∧
    rwl_maxSize rwl' = rwl_maxSize rwl ∧ rwl_maxAge rwl' = rwl_maxAge rwl ∧
    rwl_count rwl' = length ws ∧ take (length ws) (rwl_entries rwl') = ws ∧
    rwl_index rwl' = (length ws mod rwl_maxSize rwl)%nat.
Proof.
  intros Hwf. pose proof (log_getall_spec now rwl Hwf) as Hg.
  destruct Hwf as [[Hpos Hi Hc Hf] Hs Ht]. simpl in *.
  destruct (cleanup_loop_spec rwl (log_cutoff now rwl) (rwl_count rwl) 0 [] (rwl_maxSize rwl))
    as (pad & Hloop & Hlen); [done|simpl; lia|lia|].
  simpl in Hloop, Hlen. rewrite drop_0 in *.
  unfold Log_Cleanup. rewrite map_replicate in Hloop. simpl in Hloop. rewrite Hloop.
  rewrite (proj2 (Nat.ltb_lt 0 (rwl_maxSize rwl))) by lia.
  set (ws := List.filter _ _) in *. exists (mkLog (ws ++ replicate pad zero_entry) (rwl_maxSize rwl)
    (length ws mod rwl_maxSize rwl) (length ws) (rwl_maxAge rwl)
    (map we_Timestamp (ws ++ replicate pad zero_entry))), ws.
  assert (length (ws ++ replicate pad zero_entry) = rwl_maxSize rwl) as Hl.
  { rewrite length_app, length_replicate. lia. }
  split_and!; try done; simpl; [|by rewrite take_app_length].
  split; simpl; [|done..]. split; simpl; rewrite Hl; [lia| |lia|].
  - apply Nat.mod_upper_bound. lia.
  - intros. by apply Nat.mod_small.
Qed.

(** ** Runs of the log *)

(** One recorded write with the wall reading of its [Add]. *)
Record add_op := mkAdd {
  a_now : Time; a_key : string; a_value : bytes; a_node : string; a_ts : HLC }.

Definition add_entry (a : add_op) : WriteEntry :=
  mkEntry (a_key a) (a_value a) (a_node a) (a_ts a) (UnixNano (a_now a)).

Fixpoint log_run (rwl : RecentWriteLog) (ops : list add_op) : option RecentWriteLog :=
  match ops with
  | [] => Some rwl
  | a :: ops =>
      match Log_Add (a_now a) (a_key a) (a_value a) (a_node a) (a_ts a) rwl with
      | None => None
      | Some rwl' => log_run rwl' ops
      end
  end.

Lemma log_run_spec ops : ∀ rwl,
  log_wf rwl → ∃ rwl', log_run rwl ops = Some rwl' ∧ log_wf rwl' ∧
    rwl_maxSize rwl' = rwl_maxSize rwl ∧ rwl_maxAge rwl' = rwl_maxAge rwl ∧
    log_contents rwl' = lastn (rwl_maxSize rwl) (log_contents rwl ++ map add_entry ops).
Proof.
  induction ops as [|a ops IH]; intros rwl Hwf; simpl.
  { exists rwl. split_and!; try done. rewrite app_nil_r. symmetry. apply lastn_all.
    destruct Hwf as [Hr Hs ?]. unfold log_contents. rewrite ring_contents_length by done.
    destruct Hr. simpl in *. lia. }
  destruct (log_add_ring (a_now a) (a_key a) (a_value a) (a_node a) (a_ts a) rwl Hwf)
    as (rwl1 & -> & Hwf1 & Hs1 & Ha1 & Hc1).
  destruct (IH rwl1 Hwf1) as (rwl2 & -> & Hwf2 & Hs2 & Ha2 & Hc2).
  exists rwl2. split_and!; try done; [congruence..|].
  rewrite Hc2, Hs1, Hc1. change (mkEntry _ _ _ _ _) with (add_entry a).
  rewrite lastn_app_lastn, <- app_assoc. done.
Qed.

(** ** Properties *)

(** C13: the log keeps the most recent writes: starting from an empty log of
    capacity [maxSize], any sequence of [Add]s runs without panic, the log
    holds exactly the last [maxSize] writes, [Size] is the number held, and
    [GetAll] returns those of them that have not expired (in some order). *)
Theorem log_holds_last_writes (maxSize : nat) (maxAge : Duration) (ops : list add_op) :
  (0 < maxSize)%nat →
  ∃ rwl, log_run (NewRecentWriteLog maxSize maxAge) ops = Some rwl ∧ log_wf rwl ∧
    log_contents rwl = lastn maxSize (map add_entry ops) ∧
    Log_Size rwl = Nat.min maxSize (length ops) ∧
    ∀ now, ∃ ws, Log_GetAll now rwl = Some ws ∧
      ws ≡ₚ List.filter (entry_fresh (wrap64 (UnixNano now - maxAge))) (lastn maxSize (map add_entry ops)).
Proof.
  intros Hm. pose proof (new_log_wf maxSize maxAge Hm) as Hwf0.
  destruct (log_run_spec ops _ Hwf0) as (rwl & Hrun & Hwf & Hs & Ha & Hc).
  assert (log_contents (NewRecentWriteLog maxSize maxAge) = []) as Hnil.
  { apply length_zero_iff_nil. apply (ring_contents_length _ (log_wf_ring _ Hwf0)). }
  rewrite Hnil in Hc. simpl in Hc, Hs, Ha. exists rwl. split_and!; try done.
  - change (Log_Size rwl) with (r_count (log_ring rwl)).
    rewrite <- (ring_contents_length _ (log_wf_ring _ Hwf)).
    fold (log_contents rwl). by rewrite Hc, length_lastn, length_map.
  - intros now. destruct (log_getall_perm now rwl Hwf) as (ws & ? & Hp).
    exists ws. split; [done|]. unfold log_cutoff in Hp. by rewrite Ha, Hc in Hp.
Qed.

Definition demo_add (n : Z) : add_op :=
  mkAdd (tm n) "k" (go_bytes "v") "n1" (mkHLC n 0 "n1").

Lemma log_holds_last_writes_witness :
  ∃ rwl, log_run (NewRecentWriteLog 3 100) (map demo_add [1; 2; 3; 4; 5]) = Some rwl ∧
    log_contents rwl = map (add_entry ∘ demo_add) [3; 4; 5].
Proof.
  destruct (log_holds_last_writes 3 100 (map demo_add [1; 2; 3; 4; 5])) as (rwl & H1 & _ & H2 & _).
  - lia.
  - exists rwl. split; [exact H1|]. rewrite H2. reflexivity.
Defined.

(** [Cleanup] keeps the log well-formed and changes nothing a reader at the
    same instant could see: [GetAll] returns the same writes in the same order. *)
Theorem cleanup_preserves_getall (now : Time) (rwl : RecentWriteLog) :
  log_wf rwl →
  ∃ rwl', Log_Cleanup now rwl = Some rwl' ∧ log_wf rwl' ∧ Log_GetAll now rwl' = Log_GetAll now rwl.
Proof.
  intros Hwf. destruct (log_cleanup_spec now rwl Hwf)
    as (rwl' & ws & Hcl & Hg & Hwf' & Hs & Ha & Hcnt & Htake & _).
  exists rwl'. split_and!; try done. rewrite log_getall_spec, Hg, Hcnt, Htake by done.
  f_equal. rewrite log_getall_spec in Hg by done. injection Hg as Hg.
  unfold log_cutoff in *. rewrite Ha. rewrite <- Hg.
  generalize (take (rwl_count rwl) (rwl_entries rwl)) as l. clear.
  induction l as [|e l IH]; simpl; [done|]. destruct (entry_fresh _ e) eqn:E; [|done].
  simpl. by rewrite E, IH.
Qed.

Lemma cleanup_preserves_getall_witness :
  ∃ rwl', Log_Cleanup (tm 150) (NewRecentWriteLog 3 100) = Some rwl' ∧
    Log_GetAll (tm 150) rwl' = Some [].
Proof.
  destruct (cleanup_preserves_getall (tm 150) (NewRecentWriteLog 3 100)) as (rwl' & H1 & _ & H2).
  - apply new_log_wf. lia.
  - exists rwl'. split; [exact H1|]. rewrite H2. reflexivity.
Defined.

(** [Cleanup] forgets which write is the oldest: on a full log that has
    wrapped around and holds no expired write, the [Add] after a [Cleanup]
    overwrites slot 0 although the oldest write is in another slot, which
    survives. *)
Theorem cleanup_then_add_keeps_oldest (now now' : Time) (rwl : RecentWriteLog)
    (key : string) (value : bytes) (nodeID : string) (ts : HLC) :
  log_wf rwl → rwl_count rwl = rwl_maxSize rwl → (0 < rwl_index rwl)%nat →
  Forall (λ e, entry_fresh (log_cutoff now rwl) e = true) (rwl_entries rwl) →
  ∃ rwl1 rwl2 oldest,
    head (log_contents rwl) = Some oldest ∧
    Log_Cleanup now rwl = Some rwl1 ∧
    Log_Add now' key value nodeID ts rwl1 = Some rwl2 ∧
    rwl_entries rwl2 !! rwl_index rwl = Some oldest ∧
    rwl_entries rwl2 !! 0%nat = Some (mkEntry key value nodeID ts (UnixNano now')).
Proof.
  intros Hwf Hfull Hidx Hall.
  destruct (log_cleanup_spec now rwl Hwf)
    as (rwl1 & ws & Hcl & Hg & Hwf1 & Hs & Ha & Hcnt & Htake & Hix).
  rewrite log_getall_spec in Hg by done.
  destruct Hwf as [[Hpos Hi Hc Hf] Hsz Ht]. simpl in *.
  assert (ws = rwl_entries rwl) as ->.
  { injection Hg as <-. rewrite take_ge by lia. clear -Hall.
    induction Hall as [|e l He Hl IH]; simpl; [done|]. by rewrite He, IH. }
  rewrite Hsz, Nat.Div0.mod_same in Hix. rewrite take_ge in Htake by (destruct Hwf1; lia).
  assert (is_Some (rwl_entries rwl !! rwl_index rwl)) as [oldest Hold]
    by (apply lookup_lt_is_Some; lia).
  destruct Hwf1 as [[Hpos1 ? ? ?] Hsz1 Ht1]. simpl in *.
  exists rwl1. eexists. exists oldest. split; [|split; [done|split]].
  - unfold log_contents, ring_contents. simpl.
    rewrite Hfull, Hsz, (proj2 (Nat.ltb_ge _ _)) by lia.
    by rewrite (drop_S _ oldest) by done.
  - unfold Log_Add. rewrite Ht1, length_map, Hix.
    rewrite (proj2 (Nat.ltb_lt _ _) Hpos1), <- Hsz1, (proj2 (Nat.ltb_lt _ _) Hpos1). done.
  - simpl. rewrite Htake. split; [by rewrite list_lookup_insert_ne by lia|].
    by apply list_lookup_insert_eq.
Qed.

Lemma cleanup_then_add_keeps_oldest_witness :
  let rwl := mkLog (map (add_entry ∘ demo_add) [4; 2; 3]) 3 1 3 100 [4; 2; 3] in
  log_run (NewRecentWriteLog 3 100) (map demo_add [1; 2; 3; 4]) = Some rwl ∧
  ∃ rwl1 rwl2 oldest,
    Log_Cleanup (tm 5) rwl = Some rwl1 ∧
    Log_Add (tm 6) "k" (go_bytes "v") "n1" (mkHLC 6 0 "n1") rwl1 = Some rwl2 ∧
    rwl_entries rwl2 !! 1%nat = Some oldest.
Proof.
  cbv zeta. split; [reflexivity|].
  destruct (cleanup_then_add_keeps_oldest (tm 5) (tm 6)
    (mkLog (map (add_entry ∘ demo_add) [4; 2; 3]) 3 1 3 100 [4; 2; 3])
    "k" (go_bytes "v") "n1" (mkHLC 6 0 "n1")) as (r1 & r2 & o & _ & H1 & H2 & H3 & _).
  - split; [split; simpl; lia|reflexivity|reflexivity].
  - reflexivity.
  - simpl; lia.
  - repeat constructor.
  - exists r1, r2, o. split; [exact H1|]. split; [exact H2|exact H3].
Defined.
