(* ===== verification/Reconcile.v ===== *)
(** * Reconcile: the reconciliation engine (src/internal/reconcile/engine.go)

    The engine owns the recent-write log and a bounded queue of healing events;
    the store is shared with the server, so it is an explicit part of the state
    the engine's methods run on. *)

From S2P Require Import Prelude GoLib Float64 Metrics Hlc Storage Ring WriteLog.

Open Scope Z_scope.

(** ** Interfaces the engine declares or implements *)

(** [ReconcilerCoordinator] / [CoordinatorInterface]. *)
Class PeerDirectory (C : Type) := GetPeerAddresses : C → list string.

(** [health.HealingListener], implemented by the engine. *)
Class HealingListener (L : Type) := NotifyHealingEvent : string → L → L.

(** ** The engine *)

Record Engine := mkEngine {
  e_recentWrites : RecentWriteLog;
  e_interval : Duration;
  e_enabled : bool;
  e_healingEvents : list string;     (* channel of capacity 100, oldest first *)
}.

Definition healing_cap : nat := 100.

Definition NewEngine (interval : Duration) (enabled : bool) : Engine :=
  mkEngine (NewRecentWriteLog 1000 (5 * Minute)) interval enabled [].

(** A non-blocking send: dropped when the channel is full. *)
Definition Engine_NotifyHealingEvent (peer : string) (e : Engine) : Engine :=
  if (length (e_healingEvents e) <? healing_cap)%nat then
    mkEngine (e_recentWrites e) (e_interval e) (e_enabled e) (e_healingEvents e ++ [peer])
  else e.

#[export] Instance engine_healing_listener : HealingListener Engine := Engine_NotifyHealingEvent.

(** [RecordWrite]; [None] is the panic of the log's [Add]. *)
Definition Engine_RecordWrite (now : Time) (key : string) (value : bytes) (nodeID : string)
    (timestamp : HLC) (e : Engine) : option Engine :=
  match Log_Add now key value nodeID timestamp (e_recentWrites e) with
  | None => None
  | Some rwl => Some (mkEngine rwl (e_interval e) (e_enabled e) (e_healingEvents e))
  end.

(** One iteration of the loop of [reconcileWithPeer]. *)
Definition reconcile_write (keysReconciled : Z) (write : WriteEntry) : GoM Store Z :=
  let put :=
    t <- time_now ;;
    modify (λ s, (Store_PutWithHLC t (we_Key write) (we_Value write) (we_NodeID write)
                    (we_HLC write) s).2) ;;;
    emit [CInc ConflictsResolved] ;;;
    ret (keysReconciled + 1) in
  store <- get ;;
  let '(localValue, found) := Store_Get (we_Key write) store in
  if negb found then ret keysReconciled
  else if HLC_HappensAfter (we_HLC write) (vv_HLC localValue) then put
  else if HLC_HappensAfter (vv_HLC localValue) (we_HLC write) then ret keysReconciled
  else if HLC_Equal (we_HLC write) (vv_HLC localValue) then
    emit [CInc ConflictsDetected] ;;;
    if go_string_gt (we_NodeID write) (vv_NodeID localValue) then put
    else ret keysReconciled
  else ret keysReconciled.

(** [reconcileWithPeer]: the number of keys reconciled, [None] on a panic of
    [GetAll].  The time readings of the log line and of the deferred latency
    observation are taken where the code takes them. *)
Definition reconcileWithPeer (peer : string) : GoM (Store * Engine) (option Z) :=
  start <- time_now ;;
  t <- time_now ;;
  e <- get ;;
  match Log_GetAll t (e_recentWrites e.2) with
  | None => ret None
  | Some writes =>
      keysReconciled <- focus fst (λ s st, (s, st.2)) (foldM reconcile_write writes 0) ;;
      emit [CInc ReconciliationRuns; HObserve ReconciliationKeys (f64_of_Z keysReconciled)] ;;;
      _ <- time_now ;;
      finish <- time_now ;;
      emit [HObserve ReconciliationLatency (Duration_Seconds (Since finish start))] ;;;
      ret (Some keysReconciled)
  end.

(** The cases of the [select] in [Start]'s loop. *)
Inductive engine_event :=
  | EHealing     (* a value is received from healingEvents *)
  | ETick        (* the ticker fires *)
  | EDone.       (* the context is cancelled *)

(** One iteration: [true] to go on, [false] to return.  Receiving from an empty
    channel is not possible (the case is not ready): the state is unchanged. *)
Definition engine_iter (ev : engine_event) : GoM (Store * Engine) bool :=
  st <- get ;;
  match ev with
  | EHealing =>
      match e_healingEvents st.2 with
      | [] => ret true
      | peer :: rest =>
          modify (λ st, (st.1, mkEngine (e_recentWrites st.2) (e_interval st.2)
                                 (e_enabled st.2) rest)) ;;;
          emit [CInc PartitionHealing] ;;;
          _ <- reconcileWithPeer peer ;;
          ret true
      end
  | ETick => ret true
  | EDone => ret false
  end.

(** [Start] along a sequence of ready cases. *)
Fixpoint engine_loop (evs : list engine_event) : GoM (Store * Engine) unit :=
  match evs with
  | [] => ret tt
  | ev :: evs =>
      go <- engine_iter ev ;;
      if (go : bool) then engine_loop evs else ret tt
  end.

Definition Engine_Start (evs : list engine_event) : GoM (Store * Engine) unit :=
  st <- get ;;
  if negb (e_enabled st.2) then ret tt else engine_loop evs.

(** ** The order reconciliation decides by: timestamp, then node id *)

Definition stamp : Type := HLC * string.
Definition vv_stamp (v : VersionedValue) : stamp := (vv_HLC v, vv_NodeID v).
Definition we_stamp (e : WriteEntry) : stamp := (we_HLC e, we_NodeID e).

(** [a] replaces [b]. *)
Definition lww_wins (a b : stamp) : bool :=
  HLC_HappensAfter a.1 b.1 || (HLC_Equal a.1 b.1 && go_string_gt a.2 b.2).

Lemma lww_wins_spec a b :
  lww_wins a b = true ↔
  b.1 ≺ a.1 ∨ (hlc_Physical a.1 = hlc_Physical b.1 ∧ hlc_Logical a.1 = hlc_Logical b.1 ∧
               go_string_lt b.2 a.2 = true).
Proof.
  unfold lww_wins, HLC_HappensAfter, go_string_gt, hlc_lt. bool_prop.
  rewrite hlc_equal_spec. tauto.
Qed.

Lemma lww_wins_irrefl a : lww_wins a a = false.
Proof.
  apply not_true_iff_false. rewrite lww_wins_spec. intros [H|(_ & _ & H)]; [hlc_order|].
  by rewrite go_string_lt_irrefl in H.
Qed.

Lemma lww_wins_trans a b c : lww_wins a b = true → lww_wins b c = true → lww_wins a c = true.
Proof.
  rewrite !lww_wins_spec. intros [H1|(H1 & H1' & H1'')] [H2|(H2 & H2' & H2'')].
  - left. by transitivity (b.1).
  - left. hlc_order.
  - left. hlc_order.
  - right. split_and!; [congruence..|]. by eapply go_string_lt_trans.
Qed.

(** Neither wins: same timestamp (up to the node that issued it) and node. *)
Lemma lww_tie a b :
  lww_wins a b = false → lww_wins b a = false →
  hlc_Physical a.1 = hlc_Physical b.1 ∧ hlc_Logical a.1 = hlc_Logical b.1 ∧ a.2 = b.2.
Proof.
  intros H1 H2. rewrite <- not_true_iff_false in H1, H2. rewrite lww_wins_spec in H1, H2.
  assert (¬ a.1 ≺ b.1 ∧ ¬ b.1 ≺ a.1) as [H3 H4] by tauto.
  rewrite hlc_lt_spec in H3, H4.
  assert (hlc_Physical a.1 = hlc_Physical b.1 ∧ hlc_Logical a.1 = hlc_Logical b.1) as [Hp Hl] by lia.
  split_and!; [done..|]. apply go_string_lt_total; apply not_true_iff_false; intros ?;
    [apply H2|apply H1]; right; split_and!; congruence.
Qed.

Lemma lww_not_wins_trans a b c :
  lww_wins a b = false → lww_wins b c = false → lww_wins a c = false.
Proof.
  intros H1 H2. destruct (lww_wins a c) eqn:E; [|done].
  destruct (lww_wins b a) eqn:E2.
  - by rewrite (lww_wins_trans b a c) in H2.
  - destruct (lww_tie a b H1 E2) as (Hp & Hl & Hn).
    rewrite <- E. rewrite <- H2. unfold lww_wins, HLC_HappensAfter, HLC_HappensBefore, HLC_Equal.
    by rewrite Hp, Hl, Hn.
Qed.

(** ** One write, then the loop *)

(** The value a write leaves in the store. *)
Definition written (now : Time) (w : WriteEntry) : VersionedValue :=
  (Store_PutWithHLC now (we_Key w) (we_Value w) (we_NodeID w) (we_HLC w) ∅).1.

Lemma reconcile_write_spec n write s w :
  let wins := match s !! we_Key write with
              | Some v => lww_wins (we_stamp write) (vv_stamp v)
              | None => false
              end in
  (reconcile_write n write s w).1 =
  if wins then (n + 1, <[we_Key write := written (w_clock w (w_tick w)) write]> s) else (n, s).
Proof.
  cbv zeta. unfold reconcile_write, bind, get, Store_Get.
  destruct (s !! we_Key write) as [v|]; simpl; [|done].
  unfold lww_wins, we_stamp, vv_stamp. simpl.
  destruct (HLC_HappensAfter (we_HLC write) (vv_HLC v)) eqn:E1; simpl; [done|].
  destruct (HLC_HappensAfter (vv_HLC v) (we_HLC write)) eqn:E2; simpl.
  - destruct (HLC_Equal (we_HLC write) (vv_HLC v)) eqn:E3; [|done].
    apply hlc_equal_spec in E3. hlc_order.
  - destruct (HLC_Equal (we_HLC write) (vv_HLC v)) eqn:E3; [|done]. simpl.
    by destruct (go_string_gt _ _).
Qed.

(** What the value of one key becomes: [v0] or one of the writes to that key,
    and nothing seen wins against it. *)
Definition lww_max (key : string) (ws : list WriteEntry) (v0 v : VersionedValue) : Prop :=
  (v = v0 ∨ ∃ e now, e ∈ ws ∧ we_Key e = key ∧ v = written now e) ∧
  lww_wins (vv_stamp v0) (vv_stamp v) = false ∧
  ∀ e, e ∈ ws → we_Key e = key → lww_wins (we_stamp e) (vv_stamp v) = false.

Lemma reconcile_loop_spec ws : ∀ n s w,
  let s' := (foldM reconcile_write ws n s w).1.2 in
  dom s' = dom s ∧
  (∀ key v0, s !! key = Some v0 → ∃ v, s' !! key = Some v ∧ lww_max key ws v0 v).
Proof.
  induction ws as [|e ws IH]; intros n s w; cbv zeta.
  { split; [done|]. intros key v0 H. exists v0. split; [done|].
    split_and!; [by left|apply lww_wins_irrefl|set_solver]. }
  simpl. unfold bind. pose proof (reconcile_write_spec n e s w) as Hstep. cbv zeta in Hstep.
  destruct (reconcile_write n e s w) as [[n1 s1] w1]. simpl in Hstep.
  destruct (s !! we_Key e) as [ve|] eqn:He; simplify_eq/=.
  2:{ destruct (IH n s w1) as [Hd Hk]. split; [done|]. intros key v0 H0.
      destruct (Hk key v0 H0) as (v & Hv & Hor & Hm0 & Hm). exists v. split; [done|].
      split_and!; [naive_solver set_solver|done|].
      intros e' [->|He']%elem_of_cons Hkey; [congruence|by apply Hm]. }
  destruct (lww_wins (we_stamp e) (vv_stamp ve)) eqn:Hw; simplify_eq/=;
    [set (s1 := <[_ := _]> s) in *|set (s1 := s) in *];
    match goal with |- context [foldM _ _ ?m s1 w1] => destruct (IH m s1 w1) as [Hd Hk] end; (split; [|intros key v0 H0]).
  - rewrite Hd. unfold s1. rewrite dom_insert_L. apply elem_of_dom_2 in He. set_solver.
  - destruct (decide (key = we_Key e)) as [->|Hne].
    + simplify_eq. destruct (Hk (we_Key e) (written (w_clock w (w_tick w)) e))
        as (v & Hv & Hor & Hm0 & Hm); [unfold s1; by simplify_map_eq|].
      exists v. split; [done|]. split_and!.
      * right. destruct Hor as [->|(e' & t & ? & ? & ->)]; [exists e|exists e'];
          eexists; split_and!; try done; set_solver.
      * eapply lww_not_wins_trans; [|exact Hm0]. destruct (lww_wins (vv_stamp ve) _) eqn:E; [|done].
        by rewrite <- (lww_wins_irrefl (we_stamp e)), (lww_wins_trans _ (vv_stamp ve) _).
      * intros e' [->|He']%elem_of_cons Hkey; [exact Hm0|by apply Hm].
    + destruct (Hk key v0) as (v & Hv & Hor & Hm0 & Hm); [unfold s1; by simplify_map_eq|].
      exists v. split; [done|]. split_and!; [naive_solver set_solver|done|].
      intros e' [->|He']%elem_of_cons Hkey; [congruence|by apply Hm].
  - done.
  - destruct (Hk key v0 H0) as (v & Hv & Hor & Hm0 & Hm). exists v. split; [done|].
    split_and!; [naive_solver set_solver|done|].
    intros e' [->|He']%elem_of_cons Hkey; [|by apply Hm]. subst. simplify_eq.
    by eapply lww_not_wins_trans.
Qed.

(** No write wins against the store any more: the loop is then a no-op. *)
Lemma reconcile_loop_noop ws : ∀ n s w,
  (∀ e v, e ∈ ws → s !! we_Key e = Some v → lww_wins (we_stamp e) (vv_stamp v) = false) →
  (foldM reconcile_write ws n s w).1 = (n, s).
Proof.
  induction ws as [|e ws IH]; intros n s w Hno; [done|].
  simpl. unfold bind. pose proof (reconcile_write_spec n e s w) as Hstep. cbv zeta in Hstep.
  destruct (reconcile_write n e s w) as [[n1 s1] w1]. simpl in Hstep.
  destruct (s !! we_Key e) as [v|] eqn:He.
  - rewrite (Hno e v ltac:(set_solver) He) in Hstep. simplify_eq. apply IH. set_solver.
  - simplify_eq. apply IH. set_solver.
Qed.

(** [reconcileWithPeer] in terms of its loop. *)
Lemma reconcile_with_peer_run peer s e w ws :
  Log_GetAll (w_clock w (w_tick w + 1)) (e_recentWrites e) = Some ws →
  ∃ w0, (reconcileWithPeer peer (s, e) w).1 =
    (Some (foldM reconcile_write ws 0 s w0).1.1, ((foldM reconcile_write ws 0 s w0).1.2, e)).
Proof.
  intros Hg. unfold reconcileWithPeer, bind, time_now, get. simpl. rewrite Hg.
  unfold focus. simpl. exists (mkWorld (w_clock w) (w_tick w + 1 + 1) (w_events w)).
  by destruct (foldM reconcile_write ws 0 s _) as [[n s'] w'].
Qed.

(** What reconciliation may do to a store: same keys, and every value is kept or
    replaced by one that wins (never by an older one). *)
Definition lww_step (s s' : Store) : Prop :=
  dom s' = dom s ∧
  ∀ key v0, s !! key = Some v0 →
    ∃ v, s' !! key = Some v ∧ lww_wins (vv_stamp v0) (vv_stamp v) = false.

#[export] Instance lww_step_preorder : PreOrder lww_step.
Proof.
  split.
  - intros s. split; [done|]. intros key v0 H. exists v0. split; [done|]. apply lww_wins_irrefl.
  - intros s1 s2 s3 [Hd1 H1] [Hd2 H2]. split; [congruence|]. intros key v0 H.
    destruct (H1 _ _ H) as (v1 & Hv1 & ?). destruct (H2 _ _ Hv1) as (v2 & Hv2 & ?).
    exists v2. split; [done|]. by eapply lww_not_wins_trans.
Qed.

Lemma reconcile_with_peer_step peer s e w :
  log_wf (e_recentWrites e) →
  (reconcileWithPeer peer (s, e) w).1.2.2 = e ∧
  lww_step s (reconcileWithPeer peer (s, e) w).1.2.1.
Proof.
  intros Hwf. destruct (log_getall_perm (w_clock w (w_tick w + 1)) _ Hwf) as (ws & Hg & _).
  destruct (reconcile_with_peer_run peer s e w ws Hg) as (w0 & ->). simpl. split; [done|].
  destruct (reconcile_loop_spec ws 0 s w0) as [Hd Hk]. split; [done|].
  intros key v0 H0. destruct (Hk key v0 H0) as (v & ? & _ & ? & _). eauto.
Qed.

(** Invariant of the engine's state. *)
Record engine_wf (e : Engine) : Prop := {
  engine_log_wf : log_wf (e_recentWrites e);
  engine_queue : (length (e_healingEvents e) <= healing_cap)%nat;
}.

Lemma new_engine_wf interval enabled : engine_wf (NewEngine interval enabled).
Proof. split; [apply new_log_wf; lia|]. simpl. unfold healing_cap. lia. Qed.

Lemma notify_engine_wf peer e : engine_wf e → engine_wf (Engine_NotifyHealingEvent peer e).
Proof.
  intros [H1 H2]. unfold Engine_NotifyHealingEvent.
  destruct (Nat.ltb_spec (length (e_healingEvents e)) healing_cap); split; simpl; try done.
  rewrite length_app. simpl. lia.
Qed.

Lemma engine_iter_step ev s e w :
  engine_wf e →
  let '(_, (s', e'), _) := engine_iter ev (s, e) w in
  engine_wf e' ∧ e_recentWrites e' = e_recentWrites e ∧ lww_step s s'.
Proof.
  intros Hwf. unfold engine_iter, bind, get. simpl. destruct ev; [|by split_and!..].
  destruct (e_healingEvents e) as [|peer rest] eqn:Hq; [by split_and!|].
  unfold modify, emit. simpl.
  match goal with |- context [reconcileWithPeer peer ?st ?w] =>
    destruct (reconcile_with_peer_step peer st.1 st.2 w) as [He Hs];
      [simpl; by destruct Hwf|] end.
  simpl in He, Hs. destruct (reconcileWithPeer _ _ _) as [[r [s' e']] w']. simpl in *. subst e'.
  split_and!; [|done..]. destruct Hwf as [? Hlen]. split; simpl; [done|].
  rewrite Hq in Hlen. simpl in Hlen. lia.
Qed.

(** ** Properties *)

(** C8: reconciliation is last-writer-wins: with a well-formed log it never
    panics, adds or removes no key, leaves the engine alone, and each key ends
    with the greatest of its stored value and the unexpired writes of the log
    to that key, by timestamp and then by node id. *)
Theorem reconcile_is_lww (peer : string) (s : Store) (e : Engine) (w : World) :
  log_wf (e_recentWrites e) →
  ∃ ws n s',
    Log_GetAll (w_clock w (w_tick w + 1)) (e_recentWrites e) = Some ws ∧
    (reconcileWithPeer peer (s, e) w).1 = (Some n, (s', e)) ∧
    dom s' = dom s ∧
    ∀ key v0, s !! key = Some v0 → ∃ v, s' !! key = Some v ∧ lww_max key ws v0 v.
Proof.
  intros Hwf. destruct (log_getall_perm (w_clock w (w_tick w + 1)) _ Hwf) as (ws & Hg & _).
  destruct (reconcile_with_peer_run peer s e w ws Hg) as (w0 & ->).
  destruct (reconcile_loop_spec ws 0 s w0) as [Hd Hk]. eauto 10.
Qed.

Definition demo_world : World := mkWorld (λ n, tm (1000 + Z.of_nat n)) 0 [].
Definition demo_vv (v : string) (ts : HLC) (node : string) : VersionedValue :=
  mkVV (go_bytes v) (hlc_Physical ts) (hlc_Physical ts) node ts 5 false.
Definition demo_engine (ops : list add_op) : Engine :=
  match log_run (NewRecentWriteLog 3 (5 * Minute)) ops with
  | Some rwl => mkEngine rwl Second true []
  | None => NewEngine Second true
  end.

Lemma reconcile_is_lww_witness :
  let e := demo_engine [mkAdd (tm 1) "k" (go_bytes "new") "n2" (mkHLC 9 0 "n2")] in
  let s := <["k" := demo_vv "old" (mkHLC 7 0 "n1") "n1"]> NewStore in
  (∃ v, (reconcileWithPeer "n2" (s, e) demo_world).1.2.1 !! "k" = Some v ∧
        vv_Value v = go_bytes "new") ∧
  ∃ n s', (reconcileWithPeer "n2" (s, e) demo_world).1 = (Some n, (s', e)) ∧ dom s' = dom s.
Proof.
  cbv zeta. split.
  - eexists. split; vm_compute; reflexivity.
  - destruct (reconcile_is_lww "n2" (<["k" := demo_vv "old" (mkHLC 7 0 "n1") "n1"]> NewStore)
      (demo_engine [mkAdd (tm 1) "k" (go_bytes "new") "n2" (mkHLC 9 0 "n2")]) demo_world)
      as (ws & n & s' & _ & H1 & H2 & _).
    + split; [split; simpl; lia|reflexivity|reflexivity].
    + exists n, s'. split; [exact H1|exact H2].
Defined.

(** reconciliation is idempotent: applying the same writes again changes
    nothing and reconciles no key. *)
Theorem reconcile_idempotent (ws : list WriteEntry) (s : Store) (w w' : World) :
  let s1 := (foldM reconcile_write ws 0 s w).1.2 in
  (foldM reconcile_write ws 0 s1 w').1 = (0, s1).
Proof.
  cbv zeta. destruct (reconcile_loop_spec ws 0 s w) as [Hd Hk].
  apply reconcile_loop_noop. intros e v He Hv.
  assert (is_Some (s !! we_Key e)) as [v0 Hv0].
  { apply elem_of_dom. rewrite <- Hd. by eapply elem_of_dom_2. }
  destruct (Hk _ _ Hv0) as (v' & Hv' & _ & _ & Hm). simplify_eq. by apply Hm.
Qed.

(** C30: the outcome does not depend on the order of the writes: two nodes that
    hold the same values and process the same set of writes, in any order,
    agree on the timestamp and the origin of every key. *)
Theorem reconcile_order_independent (ws ws' : list WriteEntry) (s : Store) (w w' : World) (key : string) :
  ws ≡ₚ ws' →
  match (foldM reconcile_write ws 0 s w).1.2 !! key, (foldM reconcile_write ws' 0 s w').1.2 !! key with
  | Some v, Some v' =>
      hlc_Physical (vv_HLC v) = hlc_Physical (vv_HLC v') ∧
      hlc_Logical (vv_HLC v) = hlc_Logical (vv_HLC v') ∧ vv_NodeID v = vv_NodeID v'
  | None, None => True
  | _, _ => False
  end.
Proof.
  intros Hperm.
  destruct (reconcile_loop_spec ws 0 s w) as [Hd Hk], (reconcile_loop_spec ws' 0 s w') as [Hd' Hk'].
  destruct (s !! key) as [v0|] eqn:H0.
  - destruct (Hk _ _ H0) as (v & -> & Hor & Hm0 & Hm), (Hk' _ _ H0) as (v' & -> & Hor' & Hm0' & Hm').
    apply (lww_tie (vv_stamp v) (vv_stamp v')).
    + destruct Hor as [->|(e & t & He & Hkey & ->)]; [done|].
      apply (Hm' e); [by rewrite <- Hperm|done].
    + destruct Hor' as [->|(e & t & He & Hkey & ->)]; [done|].
      apply (Hm e); [by rewrite Hperm|done].
  - apply not_elem_of_dom in H0 as Hn. rewrite <- Hd in Hn.
    apply not_elem_of_dom in Hn as ->. apply not_elem_of_dom in H0 as Hn. rewrite <- Hd' in Hn.
    by apply not_elem_of_dom in Hn as ->.
Qed.

Definition demo_writes : list WriteEntry :=
  [mkEntry "k" (go_bytes "a") "n2" (mkHLC 9 0 "n2") 1; mkEntry "k" (go_bytes "b") "n3" (mkHLC 9 0 "n3") 2].

Lemma reconcile_order_independent_witness :
  let s := <["k" := demo_vv "old" (mkHLC 7 0 "n1") "n1"]> NewStore in
  match (foldM reconcile_write demo_writes 0 s demo_world).1.2 !! "k",
        (foldM reconcile_write (reverse demo_writes) 0 s demo_world).1.2 !! "k" with
  | Some v, Some v' => vv_NodeID v = "n3" ∧ vv_NodeID v = vv_NodeID v'
  | _, _ => False
  end.
Proof.
  cbv zeta.
  pose proof (reconcile_order_independent demo_writes (reverse demo_writes)
    (<["k" := demo_vv "old" (mkHLC 7 0 "n1") "n1"]> NewStore) demo_world demo_world "k"
    ltac:(rewrite reverse_Permutation; reflexivity)) as H.
  vm_compute in H. vm_compute. split; [reflexivity|]. exact (proj2 (proj2 H)).
Defined.

(** whatever sequence of events drives it, the engine's loop never loses a
    write: keys stay, values are only replaced by winning ones, the write log
    is not modified and the healing queue stays within its capacity. *)
Theorem engine_start_safe (evs : list engine_event) (s : Store) (e : Engine) (w : World) :
  engine_wf e →
  let '(_, (s', e'), _) := Engine_Start evs (s, e) w in
  engine_wf e' ∧ e_recentWrites e' = e_recentWrites e ∧ lww_step s s'.
Proof.
  intros Hwf. unfold Engine_Start, bind, get. simpl.
  destruct (e_enabled e); simpl; [|by split_and!].
  revert s e w Hwf. induction evs as [|ev evs IH]; intros s e w Hwf; simpl; [by split_and!|].
  unfold bind. pose proof (engine_iter_step ev s e w Hwf) as Hstep.
  destruct (engine_iter ev (s, e) w) as [[go [s1 e1]] w1]. destruct Hstep as (Hwf1 & Hlog & Hs1).
  destruct go; [|done]. specialize (IH s1 e1 w1 Hwf1).
  destruct (engine_loop evs (s1, e1) w1) as [[u [s2 e2]] w2]. destruct IH as (? & ? & ?).
  split_and!; [done|congruence|by transitivity s1].
Qed.

Lemma engine_start_safe_witness :
  let e := Engine_NotifyHealingEvent "n2" (NewEngine Second true) in
  let s := <["k" := demo_vv "old" (mkHLC 7 0 "n1") "n1"]> NewStore in
  lww_step s (Engine_Start [ETick; EHealing; EDone; EHealing] (s, e) demo_world).1.2.1.
Proof.
  cbv zeta.
  pose proof (engine_start_safe [ETick; EHealing; EDone; EHealing]
    (<["k" := demo_vv "old" (mkHLC 7 0 "n1") "n1"]> NewStore)
    (Engine_NotifyHealingEvent "n2" (NewEngine Second true)) demo_world) as H.
  destruct (Engine_Start _ _ _) as [[u [s' e']] w']. apply H.
  split; [apply new_log_wf|simpl; unfold healing_cap]; lia.
Defined.

(** a healing notification is queued behind the earlier ones, except that
    it is dropped when 100 are pending; the queue never exceeds its capacity. *)
Theorem notify_healing_bounded (peer : string) (e : Engine) :
  (length (e_healingEvents e) <= healing_cap)%nat →
  let e' := NotifyHealingEvent peer e in
  (length (e_healingEvents e') <= healing_cap)%nat ∧
  (e_healingEvents e' = e_healingEvents e ++ [peer] ∧ (length (e_healingEvents e) < healing_cap)%nat ∨
   e' = e ∧ length (e_healingEvents e) = healing_cap) ∧
  e_recentWrites e' = e_recentWrites e.
Proof.
  intros Hle. unfold NotifyHealingEvent, engine_healing_listener, Engine_NotifyHealingEvent.
  destruct (Nat.ltb_spec (length (e_healingEvents e)) healing_cap); simpl.
  - rewrite length_app. simpl. split_and!; [lia|by left|done].
  - split_and!; [lia|right; split; [done|lia]|done].
Qed.

Lemma notify_healing_bounded_witness :
  e_healingEvents (NotifyHealingEvent "n2" (NewEngine Second true)) = ["n2"] ∧
  (length (e_healingEvents (NotifyHealingEvent "n2" (NewEngine Second true))) <= healing_cap)%nat.
Proof.
  split; [reflexivity|].
  refine (proj1 (notify_healing_bounded "n2" (NewEngine Second true) _)). simpl. lia.
Defined.
