(* ===== verification/GoParse.v ===== *)
(** * GoParse: the parsers of [strconv], [strings] and [time] that reading the
    configuration uses

    [strconv.Atoi], [strconv.ParseBool], [time.ParseDuration], [strings.Split]
    and [strings.TrimSpace], on byte strings; [None] is a non-nil error. *)

From Stdlib Require Import Ascii String.
From S2P Require Import Prelude GoLib Float64.

Open Scope Z_scope.

Definition digit_val (c : ascii) : option Z :=
  let n := Z.of_N (N_of_ascii c) in
  if (48 <=? n) && (n <=? 57) then Some (n - 48) else None.

(** ** strconv *)

(** All of the string is digits: its value in base 10. *)
Fixpoint parse_digits (s : string) (acc : Z) : option Z :=
  match s with
  | EmptyString => Some acc
  | String c s =>
      match digit_val c with
      | Some d => parse_digits s (acc * 10 + d)
      | None => None
      end
  end.

Definition Atoi (s : string) : option Z :=
  let '(neg, body) :=
    match s with
    | String "-" s' => (true, s')
    | String "+" s' => (false, s')
    | _ => (false, s)
    end in
  match body with
  | EmptyString => None
  | _ =>
      match parse_digits body 0 with
      | None => None
      | Some n =>
          let v := if (neg : bool) then - n else n in
          if (min_int64 <=? v) && (v <=? max_int64) then Some v else None
      end
  end.

Definition ParseBool (s : string) : option bool :=
  if bool_decide (s ∈ ["1"; "t"; "T"; "true"; "TRUE"; "True"]%string) then Some true
  else if bool_decide (s ∈ ["0"; "f"; "F"; "false"; "FALSE"; "False"]%string) then Some false
  else None.

(** ** strings *)

(** [strings.Split(s, sep)] for a one-byte separator. *)
Fixpoint go_split (sep : ascii) (s : string) : list string :=
  match s with
  | EmptyString => [""%string]
  | String c s =>
      if Ascii.eqb c sep then ""%string :: go_split sep s
      else match go_split sep s with
           | [] => [String c ""]
           | x :: xs => String c x :: xs
           end
  end.

(** [strings.Join] *)
Fixpoint Join (l : list string) (sep : string) : string :=
  match l with
  | [] => ""%string
  | [s] => s
  | s :: l => s +:+ sep +:+ Join l sep
  end.

(** [strings.Contains(s, sub)]. *)
Fixpoint go_contains (s sub : string) : bool :=
  String.prefix sub s ||
  match s with EmptyString => false | String _ s => go_contains s sub end.

(** UTF-8 encodings of the runes [unicode.IsSpace] accepts. *)
Definition byte_str (l : list nat) : string :=
  fold_right (λ n s, String (ascii_of_nat n) s) ""%string l.
Definition space_encodings : list string :=
  map byte_str ([[9]; [10]; [11]; [12]; [13]; [32]; [194; 133]; [194; 160]; [225; 154; 128];
    [226; 128; 168]; [226; 128; 169]; [226; 128; 175]; [226; 129; 159]; [227; 128; 128]]
    ++ map (λ n, [226; 128; n]) (seq 128 11))%nat.

Definition strip_prefix_of (encs : list string) (s : string) : option string :=
  match List.find (λ e, String.prefix e s) encs with
  | Some e => Some (String.substring (String.length e) (String.length s - String.length e) s)
  | None => None
  end.

Fixpoint trim_left_of (encs : list string) (fuel : nat) (s : string) : string :=
  match fuel with
  | O => s
  | S fuel =>
      match strip_prefix_of encs s with
      | Some s' => trim_left_of encs fuel s'
      | None => s
      end
  end.

Definition string_rev (s : string) : string :=
  String.string_of_list_ascii (rev (String.list_ascii_of_string s)).

(** [strings.TrimSpace]; every step removes a byte, so the length is enough fuel. *)
Definition TrimSpace (s : string) : string :=
  let l := trim_left_of space_encodings (String.length s) s in
  string_rev (trim_left_of (map string_rev space_encodings) (String.length l) (string_rev l)).

(** ** time.ParseDuration *)

(** [leadingInt]: value and rest, [None] on overflow of 1<<63. *)
Fixpoint leading_int (s : string) (x : Z) : option (Z * string) :=
  match s with
  | EmptyString => Some (x, s)
  | String c s' =>
      match digit_val c with
      | None => Some (x, s)
      | Some d =>
          if x >? 2 ^ 63 / 10 then None
          else let x' := x * 10 + d in
               if x' >? 2 ^ 63 then None else leading_int s' x'
      end
  end.

(** [leadingFraction]: value, scale and rest; digits past the precision of
    uint64 are skipped. *)
Fixpoint leading_fraction (s : string) (x : Z) (scale : float64) (overflow : bool) :
    Z * float64 * string :=
  match s with
  | EmptyString => (x, scale, s)
  | String c s' =>
      match digit_val c with
      | None => (x, scale, s)
      | Some d =>
          if overflow then leading_fraction s' x scale true
          else if x >? max_int64 / 10 then leading_fraction s' x scale true
          else let y := x * 10 + d in
               if y >? 2 ^ 63 then leading_fraction s' x scale true
               else leading_fraction s' y (f64_mul scale (f64_of_Z 10)) false
      end
  end.

(** The unit: up to the next digit or period. *)
Fixpoint span_unit (s : string) : string * string :=
  match s with
  | EmptyString => (""%string, s)
  | String c s' =>
      if Ascii.eqb c "." || negb (is_nil (digit_val c)) then (""%string, s)
      else let '(u, rest) := span_unit s' in (String c u, rest)
  end.

Definition unit_map (u : string) : option Z :=
  if bool_decide (u = "ns")%string then Some Nanosecond
  else if bool_decide (u ∈ ["us"; "µs"; "μs"]%string) then Some Microsecond
  else if bool_decide (u = "ms")%string then Some Millisecond
  else if bool_decide (u = "s")%string then Some Second
  else if bool_decide (u = "m")%string then Some Minute
  else if bool_decide (u = "h")%string then Some Hour
  else None.

(** One number and unit: the new total and the rest. *)
Definition parse_duration_part (s : string) (d : Z) : option (Z * string) :=
  match s with
  | EmptyString => None
  | String c _ =>
      if negb (Ascii.eqb c "." || negb (is_nil (digit_val c))) then None
      else
        match leading_int s 0 with
        | None => None
        | Some (v, s1) =>
            let pre := negb (String.length s =? String.length s1)%nat in
            let '(f, scale, s2, post) :=
              match s1 with
              | String "." s1' =>
                  let '(f, scale, s2) := leading_fraction s1' 0 f64_one false in
                  (f, scale, s2, negb (String.length s1' =? String.length s2)%nat)
              | _ => (0, f64_one, s1, false)
              end in
            if negb pre && negb post then None
            else
              let '(u, rest) := span_unit s2 in
              match u, unit_map u with
              | EmptyString, _ => None
              | _, None => None
              | _, Some unit =>
                  if v >? 2 ^ 63 / unit then None
                  else
                    let v1 := v * unit in
                    let v2 :=
                      if f >? 0 then
                        v1 + f64_to_int (f64_mul (f64_of_Z f) (f64_div (f64_of_Z unit) scale))
                      else v1 in
                    if v2 >? 2 ^ 63 then None
                    else if d + v2 >? 2 ^ 63 then None
                    else Some (d + v2, rest)
              end
        end
  end.

Fixpoint parse_duration_loop (fuel : nat) (s : string) (d : Z) : option Z :=
  match s with
  | EmptyString => Some d
  | _ =>
      match fuel with
      | O => None
      | S fuel =>
          match parse_duration_part s d with
          | None => None
          | Some (d', rest) => parse_duration_loop fuel rest d'
          end
      end
  end.

(** Every part consumes at least one byte: the length is enough fuel. *)
Definition ParseDuration (s : string) : option Duration :=
  let '(neg, body) :=
    match s with
    | String "-" s' => (true, s')
    | String "+" s' => (false, s')
    | _ => (false, s)
    end in
  if bool_decide (body = "0")%string then Some 0
  else match body with
       | EmptyString => None
       | _ =>
           match parse_duration_loop (String.length body) body 0 with
           | None => None
           | Some d =>
               if (neg : bool) then Some (wrap64 (- d))
               else if d >? max_int64 then None else Some d
           end
       end.

(** ** Lemmas *)

Lemma span_unit_length s u r : span_unit s = (u, r) → (String.length u + String.length r = String.length s)%nat.
Proof.
  revert u r. induction s as [|c s IH]; intros u r; simpl; [by intros [= <- <-]|].
  destruct (Ascii.eqb c "." || _); [by intros [= <- <-]|].
  destruct (span_unit s) as [u' r'] eqn:E. intros [= <- <-]. simpl. by rewrite (IH u' r').
Qed.

Lemma leading_int_length s x v r : leading_int s x = Some (v, r) → (String.length r <= String.length s)%nat.
Proof.
  revert x. induction s as [|c s IH]; intros x; simpl; [by intros [= <- <-]|].
  destruct (digit_val c); [|by intros [= <- <-]]. split_ifs; try done. intros ?%IH. lia.
Qed.

Lemma leading_fraction_length s x sc o v sc' r :
  leading_fraction s x sc o = (v, sc', r) → (String.length r <= String.length s)%nat.
Proof.
  revert x sc o. induction s as [|c s IH]; intros x sc o; simpl; [by intros [= <- <- <-]|].
  destruct (digit_val c); [|by intros [= <- <- <-]].
  split_ifs; intros ?%IH; lia.
Qed.

Lemma parse_duration_part_length s d d' r :
  parse_duration_part s d = Some (d', r) → (String.length r < String.length s)%nat.
Proof.
  unfold parse_duration_part. destruct s as [|c s]; [done|].
  destruct (negb _); [done|].
  destruct (leading_int (String c s) 0) as [[v s1]|] eqn:Hl; [|done].
  apply leading_int_length in Hl.
  set (frac := match s1 with String "." s1' => _ | _ => _ end).
  assert (String.length frac.1.2 <= String.length s1)%nat as Hf.
  { unfold frac. destruct s1 as [|c1 s1']; simpl; [lia|].
    destruct c1 as [[] [] [] [] [] [] [] []]; simpl; try lia.
    destruct (leading_fraction s1' _ _ _) as [[f sc] s2] eqn:E. simpl.
    apply leading_fraction_length in E. lia. }
  destruct frac as [[[f sc] s2] post]. simpl in Hf.
  destruct (negb _ && negb post); [done|].
  destruct (span_unit s2) as [u rest] eqn:Hu. apply span_unit_length in Hu.
  destruct u as [|cu u]; [done|]. destruct (unit_map _); [|done].
  split_ifs; try done. all: intros [= _ <-]; simpl in *; lia.
Qed.

(** Fuel: more than the length of the string changes nothing. *)
Lemma parse_duration_fuel n m s d :
  (String.length s <= n)%nat → (String.length s <= m)%nat →
  parse_duration_loop n s d = parse_duration_loop m s d.
Proof.
  revert m s d. induction n as [|n IH]; intros m s d Hn Hm.
  { destruct s; [by destruct m|simpl in Hn; lia]. }
  destruct s as [|c s]; [by destruct m|]. destruct m as [|m]; [simpl in Hm; lia|].
  cbn [parse_duration_loop].
  destruct (parse_duration_part (String c s) d) as [[d' r]|] eqn:E; [|done].
  apply parse_duration_part_length in E. simpl in *. apply IH; lia.
Qed.

(** Characters of a string. *)
Lemma append_cons c (l s : string) : String c l +:+ s = String c (l +:+ s).
Proof. done. Qed.
Lemma append_nil_r (s : string) : s +:+ ""%string = s.
Proof. induction s as [|c s IH]; [done|]. by rewrite append_cons, IH. Qed.
Lemma append_assoc (a b c : string) : (a +:+ b) +:+ c = a +:+ b +:+ c.
Proof. induction a as [|x a IH]; [done|]. by rewrite !append_cons, IH. Qed.

Fixpoint str_has (c : ascii) (s : string) : bool :=
  match s with EmptyString => false | String d s => Ascii.eqb d c || str_has c s end.

Lemma str_has_app c a b : str_has c (a +:+ b) = str_has c a || str_has c b.
Proof.
  induction a as [|d a IH]; [done|]. change (String d a +:+ b) with (String d (a +:+ b)).
  simpl. by rewrite IH, orb_assoc.
Qed.

(** A number is written with at least one digit. *)
Lemma pretty_go_nonempty x : ∀ s, s ≠ ""%string → pretty_N_go x s ≠ ""%string.
Proof.
  induction (N.lt_wf_0 x) as [x _ IH]. intros s Hs.
  destruct (decide (x = 0)%N) as [->|Hx]; [by rewrite pretty_N_go_0|].
  rewrite pretty_N_go_step by lia. apply IH; [|done]. apply N.div_lt; lia.
Qed.

Lemma pretty_pos_nonempty (p : positive) : pretty p ≠ ""%string.
Proof.
  unfold pretty, pretty_positive, pretty, pretty_N. rewrite decide_False by done.
  rewrite pretty_N_go_step by lia. by apply pretty_go_nonempty.
Qed.

(** Whatever holds of the digits holds of the characters of a number. *)
Lemma itoa_forallb (P : ascii → bool) i :
  forallb P (String.list_ascii_of_string "0123456789"%string) = true → (0 <= i)%Z →
  forallb P (String.list_ascii_of_string (itoa i)) = true.
Proof.
  intros HP Hi.
  assert (∀ x s, forallb P (String.list_ascii_of_string s) = true → forallb P (String.list_ascii_of_string (pretty_N_go x s)) = true) as Hgo.
  { intros x. induction (N.lt_wf_0 x) as [x _ IH]. intros s Hs.
    destruct (decide (x = 0)%N) as [->|Hx]; [by rewrite pretty_N_go_0|].
    rewrite pretty_N_go_step by lia. apply IH; [apply N.div_lt; lia|]. simpl. rewrite Hs, andb_true_r.
    rewrite forallb_forall in HP. apply HP. unfold pretty_N_char. repeat case_match; vm_compute; tauto. }
  unfold itoa. destruct i as [|p|p]; [| |lia].
  - rewrite forallb_forall in HP. simpl. rewrite HP; [done|by left].
  - change (pretty (Z.pos p)) with (pretty p). unfold pretty, pretty_positive, pretty, pretty_N.
    rewrite decide_False by done. by apply Hgo.
Qed.

Lemma pretty_N_go_digits c x : ∀ s,
  digit_val c = None → str_has c s = false → str_has c (pretty_N_go x s) = false.
Proof.
  induction (N.lt_wf_0 x) as [x _ IH]; intros s Hc Hs.
  destruct (decide (0 < x)%N) as [Hx|Hx].
  - rewrite pretty_N_go_step by done. apply IH; [by apply N.div_lt|done|].
    simpl. rewrite Hs, orb_false_r. apply Ascii.eqb_neq. intros <-.
    revert Hc. unfold pretty_N_char. by repeat case_match.
  - assert (x = 0)%N as -> by lia. by rewrite pretty_N_go_0.
Qed.

(** The decimal digits of a number contain no other character. *)
Lemma itoa_digits c n : digit_val c = None → str_has c (itoa (Z.of_nat n)) = false.
Proof.
  intros Hc. unfold itoa, pretty, pretty_Z. destruct n as [|n].
  { change (Ascii.eqb "0" c || false = false). rewrite orb_false_r. apply Ascii.eqb_neq. by intros <-. }
  change (str_has c (pretty_N_go (N.pos (Pos.of_succ_nat n)) "") = false).
  by apply pretty_N_go_digits.
Qed.

Lemma prefix_app sub b : String.prefix sub (sub +:+ b) = true.
Proof.
  induction sub as [|c sub IH]; [by destruct b|].
  change (String c sub +:+ b) with (String c (sub +:+ b)). simpl.
  by destruct (Ascii.ascii_dec c c).
Qed.

Lemma go_contains_app a sub b : go_contains (a +:+ sub +:+ b) sub = true.
Proof.
  induction a as [|c a IH].
  - change ("" +:+ sub +:+ b) with (sub +:+ b)%string.
    pose proof (prefix_app sub b) as Hp. destruct (sub +:+ b); cbn [go_contains]; by rewrite Hp.
  - change (String c a +:+ sub +:+ b) with (String c (a +:+ sub +:+ b)). cbn [go_contains].
    rewrite IH. apply orb_true_r.
Qed.

Lemma go_split_nonempty sep s : go_split sep s ≠ [].
Proof. destruct s as [|c s]; simpl; [done|]. destruct (Ascii.eqb c sep); [done|]. by destruct (go_split sep s). Qed.

Lemma go_split_none sep s : str_has sep s = false → go_split sep s = [s].
Proof.
  induction s as [|c s IH]; [done|]. simpl. intros [-> Hs]%orb_false_iff. by rewrite IH.
Qed.

Lemma str_app_assoc (a b c : string) : (a +:+ b) +:+ c = a +:+ (b +:+ c).
Proof. induction a as [|x a IH]; [done|]. change (String x ((a +:+ b) +:+ c) = String x (a +:+ (b +:+ c))). by rewrite IH. Qed.

Lemma go_split_head sep a b :
  str_has sep a = false → go_split sep (a +:+ String sep b) = a :: go_split sep b.
Proof.
  induction a as [|c a IH]; intros Ha.
  - change ("" +:+ String sep b) with (String sep b). cbn [go_split]. by rewrite Ascii.eqb_refl.
  - change (String c a +:+ String sep b) with (String c (a +:+ String sep b)). cbn [go_split].
    simpl in Ha. apply orb_false_iff in Ha as [-> Ha]. by rewrite IH.
Qed.

Example atoi_ex :
  map Atoi ["3"; "-12"; "+7"; ""; "-"; "1x"; "9223372036854775808"; "-9223372036854775808"]%string
  = [Some 3; Some (-12); Some 7; None; None; None; None; Some (-9223372036854775808)].
Proof. vm_compute. reflexivity. Qed.

Example parse_duration_ex :
  map ParseDuration ["500ms"; "1h15m30.918s"; "0"; "-1.5h"; ".s"; "3"; "1us"; "2d"; ""; "100000000000h"]%string
  = [Some (500 * Millisecond); Some (4530918 * Millisecond); Some 0; Some (-5400 * Second); None; None;
     Some Microsecond; None; None; None].
Proof. vm_compute. reflexivity. Qed.

Example split_trim_ex :
  map TrimSpace (go_split "," " a:1, b:2 ,,c") = ["a:1"; "b:2"; ""; "c"]%string.
Proof. vm_compute. reflexivity. Qed.
