(* ===== verification/Config.v ===== *)
(** * Config: node configuration (src/internal/config/config.go)

    [LoadConfig] as a function of the environment ([os.Getenv], the empty string
    for an unset variable).  [strconv.ParseFloat] is a parameter: nothing below
    depends on how it parses. *)

From Stdlib Require Import Ascii.
From S2P Require Import Prelude GoLib Float64 GoParse.

Open Scope Z_scope.

Record Config := mkConfig {
  cfg_NodeID : string;
  cfg_ListenAddr : string;
  cfg_Peers : list string;
  cfg_N : Z;
  cfg_R : Z;
  cfg_W : Z;
  cfg_ReplicationTimeout : Duration;
  cfg_HealthProbeInterval : Duration;
  cfg_MetricsAddr : string;
  cfg_AdaptiveEnabled : bool;
  cfg_MinR : Z;
  cfg_MaxR : Z;
  cfg_MinW : Z;
  cfg_MaxW : Z;
  cfg_AdaptiveInterval : Duration;
  cfg_CCSRelaxThreshold : float64;
  cfg_CCSTightenThreshold : float64;
  cfg_HLCMaxDrift : Duration;
  cfg_MaxStaleness : Duration;
  cfg_ReconciliationEnabled : bool;
  cfg_ReconciliationInterval : Duration;
}.

(** [QuorumProvider] of src/internal/adaptive/quorum.go, implemented by the
    static configuration and by the adaptive quorum. *)
Class QuorumProvider (Q : Type) := mkQuorumProvider {
  GetR : Q → Z;
  GetW : Q → Z;
  GetN : Q → Z;
}.

#[export] Instance config_quorum_provider : QuorumProvider Config :=
  mkQuorumProvider Config cfg_R cfg_W cfg_N.

Section Env.
Context (getenv : string → string) (ParseFloat : string → option float64).

Definition getEnv (key defaultValue : string) : string :=
  let value := getenv key in
  if bool_decide (value ≠ "") then value else defaultValue.

(** The shape the typed readers share: default when unset or unparsable. *)
Definition env_or {A} (parse : string → option A) (key : string) (defaultValue : A) : A :=
  let value := getenv key in
  if bool_decide (value ≠ "") then
    match parse value with Some v => v | None => defaultValue end
  else defaultValue.

Definition getIntEnv (key : string) (defaultValue : Z) : Z := env_or Atoi key defaultValue.
Definition getDurationEnv (key : string) (defaultValue : Duration) : Duration :=
  env_or ParseDuration key defaultValue.
Definition getBoolEnv (key : string) (defaultValue : bool) : bool := env_or ParseBool key defaultValue.
Definition getFloatEnv (key : string) (defaultValue : float64) : float64 :=
  env_or ParseFloat key defaultValue.

Definition peer_name (i : nat) : string := "acp-node-" +:+ itoa (Z.of_nat i).
Definition peer_addr (peerName headlessSvc namespace : string) : string :=
  peerName +:+ "." +:+ headlessSvc +:+ "." +:+ namespace +:+ ".svc.cluster.local:8080".

(** The loop [for i := 0; i < clusterSize; i++]; a negative size runs it never. *)
Definition discoverKubernetesPeers (nodeID headlessSvc : string) : list string :=
  let clusterSize := getIntEnv "CLUSTER_SIZE" 3 in
  let namespace := getEnv "NAMESPACE" "default" in
  fold_left (λ peers i,
      let peerName := peer_name i in
      if bool_decide (peerName ≠ nodeID) then peers ++ [peer_addr peerName headlessSvc namespace]
      else peers)
    (seq 0 (Z.to_nat clusterSize)) [].

Definition Config_Validate (c : Config) : option error :=
  if bool_decide (cfg_NodeID c = "") then Some "NODE_ID cannot be empty"
  else if cfg_N c <? 3 then Some ("cluster must have atleast 3 nodes, got " +:+ itoa (cfg_N c))
  else if (cfg_R c <? 1) || (cfg_R c >? cfg_N c) then
    Some ("R must be between 1 and " +:+ itoa (cfg_N c) +:+ ", got " +:+ itoa (cfg_R c))
  else if (cfg_W c <? 1) || (cfg_W c >? cfg_N c) then
    Some ("W must be between 1 and " +:+ itoa (cfg_N c) +:+ ", got " +:+ itoa (cfg_W c))
  else if wrap64 (cfg_R c + cfg_W c) <=? cfg_N c then Some "quorum intersection violated"
  else None.

(** The peers: Kubernetes naming when HEADLESS_SERVICE is set, else PEERS. *)
Definition load_peers (nodeID : string) : list string :=
  let headlessSvc := getenv "HEADLESS_SERVICE" in
  if bool_decide (headlessSvc ≠ "") then discoverKubernetesPeers nodeID headlessSvc
  else
    let peersStr := getEnv "PEERS" "" in
    if bool_decide (peersStr ≠ "") then map TrimSpace (go_split ","%char peersStr) else [].

Definition LoadConfig : Config + error :=
  let nodeID := getEnv "NODE_ID" "node1" in
  let peers := load_peers nodeID in
  let n := Z.of_nat (length peers) + 1 in
  let cfg := {|
    cfg_NodeID := nodeID;
    cfg_ListenAddr := getEnv "LISTEN_ADDR" ":8080";
    cfg_MetricsAddr := getEnv "METRICS_ADDR" ":9090";
    cfg_ReplicationTimeout := getDurationEnv "REPLICATION_TIMEOUT" (500 * Millisecond);
    cfg_HealthProbeInterval := getDurationEnv "HEALTH_PROBE_INTERVAL" (500 * Millisecond);
    cfg_Peers := peers;
    cfg_N := n;
    cfg_R := getIntEnv "QUORUM_R" 2;
    cfg_W := getIntEnv "QUORUM_W" 2;
    cfg_AdaptiveEnabled := getBoolEnv "ADAPTIVE_ENABLED" false;
    cfg_MinR := getIntEnv "MIN_R" 1;
    cfg_MaxR := getIntEnv "MAX_R" n;
    cfg_MinW := getIntEnv "MIN_W" 1;
    cfg_MaxW := getIntEnv "MAX_W" n;
    cfg_AdaptiveInterval := getDurationEnv "ADAPTIVE_INTERVAL" (2 * Second);
    cfg_CCSRelaxThreshold := getFloatEnv "CCS_RELAX_THRESHOLD" (f64_lit 45 100);
    cfg_CCSTightenThreshold := getFloatEnv "CCS_TIGHTEN_THRESHOLD" (f64_lit 75 100);
    cfg_HLCMaxDrift := getDurationEnv "HLC_MAX_DRIFT" (500 * Millisecond);
    cfg_MaxStaleness := getDurationEnv "MAX_STALENESS" (3 * Second);
    cfg_ReconciliationEnabled := getBoolEnv "RECONCILIATION_ENABLED" false;
    cfg_ReconciliationInterval := getDurationEnv "RECONCILIATION_INTERVAL" (30 * Second)
  |} in
  match Config_Validate cfg with
  | Some err => inr err
  | None => inl cfg
  end.

(** ** Lemmas *)

Lemma getEnv_nonempty key d : d ≠ "" → getEnv key d ≠ "".
Proof. unfold getEnv. case_bool_decide; done. Qed.

Lemma discover_filter nodeID headlessSvc :
  discoverKubernetesPeers nodeID headlessSvc =
  map (λ i, peer_addr (peer_name i) headlessSvc (getEnv "NAMESPACE" "default"))
    (List.filter (λ i, bool_decide (peer_name i ≠ nodeID)) (seq 0 (Z.to_nat (getIntEnv "CLUSTER_SIZE" 3)))).
Proof.
  unfold discoverKubernetesPeers. generalize (seq 0 (Z.to_nat (getIntEnv "CLUSTER_SIZE" 3))) as l.
  intros l. induction l as [|i l IH] using rev_ind; [done|].
  rewrite fold_left_app, IH, List.filter_app, map_app. simpl.
  case_bool_decide; simpl; by rewrite ?app_nil_r.
Qed.

Lemma peer_name_inj i j : peer_name i = peer_name j → i = j.
Proof.
  intros H%(inj (String.append "acp-node-")).
  apply (inj (pretty (A := Z))) in H. lia.
Qed.

End Env.

(** What [Validate] accepts. *)
Definition config_valid (c : Config) : Prop :=
  cfg_NodeID c ≠ "" ∧ 3 <= cfg_N c ∧ 1 <= cfg_R c <= cfg_N c ∧ 1 <= cfg_W c <= cfg_N c ∧
  cfg_N c < wrap64 (cfg_R c + cfg_W c).

Lemma validate_spec c : Config_Validate c = None ↔ config_valid c.
Proof.
  unfold Config_Validate, config_valid. case_bool_decide; [naive_solver|].
  destruct (cfg_N c <? 3) eqn:E1; [split; [done|lia]|].
  destruct ((cfg_R c <? 1) || _) eqn:E2; [split; [done|]; intros; bool_prop; lia|].
  destruct ((cfg_W c <? 1) || _) eqn:E3; [split; [done|]; intros; bool_prop; lia|].
  destruct (wrap64 _ <=? _) eqn:E4; [split; [done|lia]|].
  split; [intros _|done]. bool_prop. split_and!; try done; lia.
Qed.

(** Without overflow the sum of the quorums is the mathematical one. *)
Lemma config_valid_intersection c :
  config_valid c → cfg_N c < 2 ^ 62 → cfg_N c < cfg_R c + cfg_W c.
Proof.
  intros (_ & H3 & HR & HW & Hsum) HN. rewrite wrap64_id in Hsum; [done|]. unfold in_int64. lia.
Qed.

Lemma load_config_size getenv ParseFloat cfg :
  LoadConfig getenv ParseFloat = inl cfg → cfg_N cfg = Z.of_nat (length (cfg_Peers cfg)) + 1.
Proof. unfold LoadConfig. cbv zeta. destruct (Config_Validate _); [done|]. by intros [= <-]. Qed.

(** ** Properties *)

(** C35: a configuration that [LoadConfig] returns is usable: it passes
    [Validate] again (as main does), has a non-empty node id, at least three
    nodes, N equal to the peers plus this node, both quorums within 1..N, and
    read and write quorums that intersect (R + W > N). *)
Theorem load_config_valid (getenv : string → string) (ParseFloat : string → option float64) (cfg : Config) :
  LoadConfig getenv ParseFloat = inl cfg →
  Config_Validate cfg = None ∧ cfg_NodeID cfg ≠ "" ∧
  3 <= cfg_N cfg ∧ cfg_N cfg = Z.of_nat (length (cfg_Peers cfg)) + 1 ∧
  1 <= GetR cfg <= GetN cfg ∧ 1 <= GetW cfg <= GetN cfg ∧
  (cfg_N cfg < 2 ^ 62 → GetN cfg < GetR cfg + GetW cfg).
Proof.
  unfold LoadConfig. cbv zeta. set (c := mkConfig _ _ _ _ _ _ _ _ _ _ _ _ _ _ _ _ _ _ _ _ _).
  destruct (Config_Validate c) as [err|] eqn:Hv; [done|]. intros [= <-].
  pose proof Hv as Hval. apply validate_spec in Hval. pose proof Hval as (? & ? & ? & ? & ?).
  unfold GetR, GetW, GetN, config_quorum_provider. split_and!; try done; try lia.
  by apply config_valid_intersection.
Qed.

(** A three-node Docker-compose style environment. *)
Definition demo_env (key : string) : string :=
  if bool_decide (key = "PEERS") then "node2:8080, node3:8080"
  else if bool_decide (key = "MAX_STALENESS") then "1m"
  else if bool_decide (key = "QUORUM_W") then "three"
  else "".

Lemma load_config_valid_witness :
  ∃ cfg, LoadConfig demo_env (λ _, None) = inl cfg ∧
    (cfg_Peers cfg = ["node2:8080"; "node3:8080"] ∧ cfg_MaxStaleness cfg = Minute ∧ cfg_W cfg = 2) ∧
    GetN cfg < GetR cfg + GetW cfg.
Proof.
  destruct (LoadConfig demo_env (λ _, None)) as [cfg|err] eqn:E; [|vm_compute in E; discriminate].
  exists cfg. split; [reflexivity|].
  pose proof (load_config_valid demo_env (λ _, None) cfg E) as (_ & _ & _ & HN & _ & _ & H).
  vm_compute in E. injection E as <-. split; [vm_compute; auto|]. apply H. vm_compute. reflexivity.
Defined.

(** Kubernetes discovery lists the other pods of the stateful set: for a
    cluster of size [n], the node named [acp-node-k] with [k < n] gets exactly
    the [n - 1] addresses of the other pods, in order, and a node that is not
    one of the pods gets all [n] (so that N becomes [n + 1]). *)
Theorem discover_kubernetes_peers_others (getenv : string → string) (nodeID headlessSvc : string) (n : nat) :
  getIntEnv getenv "CLUSTER_SIZE" 3 = Z.of_nat n →
  let peers := discoverKubernetesPeers getenv nodeID headlessSvc in
  let addr i := peer_addr (peer_name i) headlessSvc (getEnv getenv "NAMESPACE" "default") in
  (∀ k, (k < n)%nat → nodeID = peer_name k →
     peers = map addr (seq 0 k ++ seq (S k) (n - S k)) ∧ length peers = (n - 1)%nat) ∧
  ((∀ k, (k < n)%nat → nodeID ≠ peer_name k) → peers = map addr (seq 0 n)).
Proof.
  intros Hn. cbv zeta. rewrite discover_filter, Hn, Nat2Z.id. split.
  - intros k Hk ->.
    assert (List.filter (λ i, bool_decide (peer_name i ≠ peer_name k)) (seq 0 n)
            = seq 0 k ++ seq (S k) (n - S k)) as ->.
    { replace n with (k + S (n - S k))%nat at 1 by lia.
      rewrite seq_app, List.filter_app. simpl. rewrite bool_decide_false by tauto. f_equal;
        apply forallb_filter_id, forallb_forall; intros i Hi%in_seq;
        apply bool_decide_eq_true; intros ?%peer_name_inj; lia. }
    split; [done|]. rewrite length_map, length_app, !length_seq. lia.
  - intros Hno. f_equal. apply forallb_filter_id, forallb_forall. intros i Hi%in_seq.
    apply bool_decide_eq_true. intros <-. apply (Hno i); [lia|done].
Qed.

Definition demo_k8s_env (key : string) : string :=
  if bool_decide (key = "HEADLESS_SERVICE") then "acp-headless"
  else if bool_decide (key = "NODE_ID") then "acp-node-1" else "".

Lemma discover_kubernetes_peers_others_witness :
  length (discoverKubernetesPeers demo_k8s_env "acp-node-1" "acp-headless") = 2%nat ∧
  discoverKubernetesPeers demo_k8s_env "acp-node-1" "acp-headless" =
  ["acp-node-0.acp-headless.default.svc.cluster.local:8080";
   "acp-node-2.acp-headless.default.svc.cluster.local:8080"].
Proof.
  split; [|vm_compute; reflexivity].
  refine (proj2 (proj1 (discover_kubernetes_peers_others demo_k8s_env "acp-node-1" "acp-headless" 3 _)
                   1%nat _ _)).
  - vm_compute. reflexivity.
  - lia.
  - vm_compute. reflexivity.
Defined.

(** [Validate] accepts exactly the configurations with a node id, at least
    three nodes, quorums within 1..N and R + W > N (in 64-bit arithmetic). *)
Theorem config_validate_iff (c : Config) : is_nil (Config_Validate c) = true ↔ config_valid c.
Proof. rewrite <- validate_spec. by destruct (Config_Validate c). Qed.
