(* ===== verification/Quorum.v ===== *)
(** * Quorum: the adaptive quorum (src/internal/adaptive/quorum.go)

    The mutable [AdaptiveQuorum] as a record and its methods on it.  [SetQuorum]
    runs in the monad because it reads the clock twice and updates gauges. *)

From S2P Require Import Prelude GoLib Float64 Metrics Config.

Open Scope Z_scope.

Record AdaptiveQuorum := mkAQ {
  aq_currentR : Z;
  aq_currentW : Z;
  aq_n : Z;
  aq_minR : Z;
  aq_maxR : Z;
  aq_minW : Z;
  aq_maxW : Z;
  aq_lastAdjustTime : Time;
  aq_lockoutDuration : Duration;
}.

Definition NewAdaptiveQuorum (initialR initialW n minR maxR minW maxW : Z) : AdaptiveQuorum :=
  mkAQ initialR initialW n minR maxR minW maxW zero_time (5 * Second).

#[export] Instance adaptive_quorum_provider : QuorumProvider AdaptiveQuorum :=
  mkQuorumProvider AdaptiveQuorum aq_currentR aq_currentW aq_n.

Definition in_lockout (now : Time) (aq : AdaptiveQuorum) : bool :=
  Since now (aq_lastAdjustTime aq) <? aq_lockoutDuration aq.

Definition intersection_error (r w n : Z) : error :=
  "quorum intersection violated: r=" +:+ itoa r +:+ " + w=" +:+ itoa w +:+ " <= n=" +:+ itoa n.
Definition bounds_error (what : string) (v lo hi : Z) : error :=
  what +:+ "=" +:+ itoa v +:+ " outside bounds [" +:+ itoa lo +:+ ", " +:+ itoa hi +:+ "]".

Definition AQ_Validate (aq : AdaptiveQuorum) (r w : Z) : option error :=
  if wrap64 (r + w) <=? aq_n aq then Some (intersection_error r w (aq_n aq))
  else if (r <? aq_minR aq) || (r >? aq_maxR aq) then
    Some (bounds_error "r" r (aq_minR aq) (aq_maxR aq))
  else if (w <? aq_minW aq) || (w >? aq_maxW aq) then
    Some (bounds_error "w" w (aq_minW aq) (aq_maxW aq))
  else None.

Definition AQ_IsInLockout : GoM AdaptiveQuorum bool :=
  t <- time_now ;;
  aq <- get ;;
  ret (in_lockout t aq).

(** [SetQuorum], with its own copy of the checks, as in the source. *)
Definition AQ_SetQuorum (newR newW : Z) (reason : string) : GoM AdaptiveQuorum (option error) :=
  t <- time_now ;;
  aq <- get ;;
  if in_lockout t aq then
    ret (Some "adjustment rejected: in hysteresis lockout period")
  else if wrap64 (newR + newW) <=? aq_n aq then
    ret (Some (intersection_error newR newW (aq_n aq)))
  else if (newR <? aq_minR aq) || (newR >? aq_maxR aq) then
    ret (Some (bounds_error "r" newR (aq_minR aq) (aq_maxR aq)))
  else if (newW <? aq_minW aq) || (newW >? aq_maxW aq) then
    ret (Some (bounds_error "w" newW (aq_minW aq) (aq_maxW aq)))
  else
    t' <- time_now ;;
    modify (λ aq, mkAQ newR newW (aq_n aq) (aq_minR aq) (aq_maxR aq) (aq_minW aq) (aq_maxW aq)
                    t' (aq_lockoutDuration aq)) ;;;
    emit [GSet CurrentR (f64_of_Z newR); GSet CurrentW (f64_of_Z newW)] ;;;
    ret None.

(** ** Lemmas *)

Definition with_quorum (r w : Z) (t : Time) (aq : AdaptiveQuorum) : AdaptiveQuorum :=
  mkAQ r w (aq_n aq) (aq_minR aq) (aq_maxR aq) (aq_minW aq) (aq_maxW aq) t (aq_lockoutDuration aq).

(** [SetQuorum] is a lockout test followed by [Validate], then the update. *)
Lemma set_quorum_spec r w reason aq wd :
  let t := w_clock wd (w_tick wd) in
  AQ_SetQuorum r w reason aq wd =
  if in_lockout t aq then
    (Some "adjustment rejected: in hysteresis lockout period", aq,
     mkWorld (w_clock wd) (w_tick wd + 1) (w_events wd))
  else match AQ_Validate aq r w with
       | Some err => (Some err, aq, mkWorld (w_clock wd) (w_tick wd + 1) (w_events wd))
       | None =>
           (None, with_quorum r w (w_clock wd (w_tick wd + 1)%nat) aq,
            mkWorld (w_clock wd) (w_tick wd + 1 + 1)
              (w_events wd ++ [GSet CurrentR (f64_of_Z r); GSet CurrentW (f64_of_Z w)]))
       end.
Proof.
  cbv zeta. unfold AQ_SetQuorum, AQ_Validate, bind, time_now, get. simpl.
  destruct (in_lockout _ aq); [done|].
  destruct (_ <=? _); [done|].
  destruct (_ || (r >? _)); [done|].
  by destruct (_ || (w >? _)).
Qed.

(** Bounds a quorum must respect. *)
Definition quorum_ok (aq : AdaptiveQuorum) (r w : Z) : Prop :=
  aq_n aq < wrap64 (r + w) ∧ aq_minR aq <= r <= aq_maxR aq ∧ aq_minW aq <= w <= aq_maxW aq.

Lemma aq_validate_iff aq r w : AQ_Validate aq r w = None ↔ quorum_ok aq r w.
Proof.
  unfold AQ_Validate, quorum_ok.
  destruct (wrap64 _ <=? _) eqn:E1; [split; [done|lia]|].
  destruct ((r <? _) || _) eqn:E2; [split; [done|]; intros; bool_prop; lia|].
  destruct ((w <? _) || _) eqn:E3; [split; [done|]; intros; bool_prop; lia|].
  bool_prop. split; [intros _|done]. lia.
Qed.

(** The limits never change. *)
Definition same_limits (a b : AdaptiveQuorum) : Prop :=
  aq_n a = aq_n b ∧ aq_minR a = aq_minR b ∧ aq_maxR a = aq_maxR b ∧
  aq_minW a = aq_minW b ∧ aq_maxW a = aq_maxW b ∧ aq_lockoutDuration a = aq_lockoutDuration b.

Lemma quorum_ok_limits a b r w : same_limits a b → quorum_ok a r w → quorum_ok b r w.
Proof. unfold same_limits, quorum_ok. intuition congruence. Qed.

(** A sequence of attempts; the readings come from the world's clock. *)
Fixpoint set_quorum_run (reqs : list (Z * Z)) : GoM AdaptiveQuorum unit :=
  match reqs with
  | [] => ret tt
  | (r, w) :: reqs => AQ_SetQuorum r w "" ;;; set_quorum_run reqs
  end.

(** ** Properties *)

(** read and write quorums always intersect: from an intersecting initial
    quorum, no sequence of [SetQuorum] attempts, at whatever times, leads to
    R + W <= N; and once an attempt has succeeded the quorum also respects the
    configured bounds. *)
Theorem adaptive_quorum_intersects (reqs : list (Z * Z)) (aq : AdaptiveQuorum) (wd : World) :
  aq_n aq < wrap64 (aq_currentR aq + aq_currentW aq) →
  let aq' := (set_quorum_run reqs aq wd).1.2 in
  GetN aq' = GetN aq ∧ GetN aq' < wrap64 (GetR aq' + GetW aq') ∧ same_limits aq aq' ∧
  (aq' = aq ∨ quorum_ok aq' (GetR aq') (GetW aq')).
Proof.
  cbv zeta. unfold GetN, GetR, GetW, adaptive_quorum_provider.
  revert aq wd. induction reqs as [|[r w] reqs IH]; intros aq wd Hinit; simpl.
  { unfold same_limits. by split_and!; try left. }
  unfold bind. rewrite set_quorum_spec. cbv zeta.
  destruct (in_lockout _ aq); [by apply IH|].
  destruct (AQ_Validate aq r w) as [err|] eqn:Hv; [by apply IH|].
  apply aq_validate_iff in Hv. pose proof Hv as [Hint _].
  match goal with |- context [set_quorum_run reqs ?a ?x] => specialize (IH a x Hint) end.
  destruct IH as (Hn & Hi & Hl & Hor). split_and!; try done.
  right. destruct Hor as [Heq|?]; [|done]. rewrite Heq. simpl. exact Hv.
Qed.

Lemma adaptive_quorum_intersects_witness :
  let aq := NewAdaptiveQuorum 2 2 3 1 3 1 3 in
  let wd := mkWorld (λ k, tm (Second * Z.of_nat k)) 0 [] in
  let aq' := (set_quorum_run [(1, 2); (1, 3); (2, 2)] aq wd).1.2 in
  (GetR aq', GetW aq') = (1, 3) ∧ GetN aq' < wrap64 (GetR aq' + GetW aq').
Proof.
  cbv zeta. split; [vm_compute; reflexivity|].
  refine (proj1 (proj2 (adaptive_quorum_intersects [(1, 2); (1, 3); (2, 2)]
            (NewAdaptiveQuorum 2 2 3 1 3 1 3) (mkWorld (λ k, tm (Second * Z.of_nat k)) 0 []) _))).
  vm_compute. reflexivity.
Defined.

(** [SetQuorum] succeeds exactly outside the lockout period with values
    [Validate] accepts; it then installs both values, restarts the lockout and
    sets both gauges, and in every other case changes neither the quorum nor
    any metric. *)
Theorem set_quorum_outcome (r w : Z) (reason : string) (aq : AdaptiveQuorum) (wd : World) :
  let '(res, aq', wd') := AQ_SetQuorum r w reason aq wd in
  (res = None ↔
     aq_lockoutDuration aq <= Since (w_clock wd (w_tick wd)) (aq_lastAdjustTime aq) ∧
     AQ_Validate aq r w = None) ∧
  (res = None → GetR aq' = r ∧ GetW aq' = w ∧
     aq_lastAdjustTime aq' = w_clock wd (w_tick wd + 1)%nat ∧ same_limits aq aq' ∧
     w_events wd' = w_events wd ++ [GSet CurrentR (f64_of_Z r); GSet CurrentW (f64_of_Z w)]) ∧
  (is_nil res = false → aq' = aq ∧ w_events wd' = w_events wd).
Proof.
  rewrite set_quorum_spec. unfold in_lockout. destruct (_ <? _) eqn:E.
  - split_and!; [split; [done|lia]|done|done].
  - destruct (AQ_Validate aq r w) as [err|] eqn:Hv.
    + split_and!; [naive_solver|done|done].
    + split_and!; [split; [split; [lia|done]|done]| |done]. intros _. by split_and!.
Qed.

(** two successful adjustments are at least the lockout (5 seconds) apart:
    if the quorum was last adjusted at [t0] and the clock has not run past
    [t0 + 5s] on its monotonic reading, every [SetQuorum] fails. *)
Theorem set_quorum_hysteresis (r w : Z) (reason : string) (aq : AdaptiveQuorum) (wd : World) (m0 m1 : Z) :
  aq_lockoutDuration aq = 5 * Second →
  t_mono (aq_lastAdjustTime aq) = Some m0 → t_mono (w_clock wd (w_tick wd)) = Some m1 →
  0 <= m1 - m0 < 5 * Second →
  (AQ_SetQuorum r w reason aq wd).1 =
    (Some "adjustment rejected: in hysteresis lockout period", aq).
Proof.
  intros HL H0 H1 Hm. rewrite set_quorum_spec. cbv zeta. unfold in_lockout, Since, Time_Sub.
  rewrite H0, H1, HL. unfold Second, Millisecond, Microsecond, Nanosecond in *.
  rewrite sat64_id by (unfold in_int64; lia).
  destruct (_ <? _) eqn:E; [done|lia].
Qed.

Lemma set_quorum_hysteresis_witness :
  let aq := with_quorum 1 3 (tm 100) (NewAdaptiveQuorum 2 2 3 1 3 1 3) in
  (AQ_SetQuorum 2 2 "relax" aq (mkWorld (λ _, tm (100 + 4 * Second)) 0 [])).1
  = (Some "adjustment rejected: in hysteresis lockout period", aq).
Proof.
  cbv zeta.
  refine (set_quorum_hysteresis 2 2 "relax" (with_quorum 1 3 (tm 100) (NewAdaptiveQuorum 2 2 3 1 3 1 3))
    (mkWorld (λ _, tm (100 + 4 * Second)) 0 []) 100 (100 + 4 * Second) _ _ _ _);
    try reflexivity. vm_compute. split; congruence.
Defined.

(** a freshly created adaptive quorum is not in lockout: the zero
    [lastAdjustTime] lies centuries back for every wall clock after 1970. *)
Theorem new_quorum_not_locked (initialR initialW n minR maxR minW maxW : Z) (now : Time) :
  0 <= t_wall now →
  in_lockout now (NewAdaptiveQuorum initialR initialW n minR maxR minW maxW) = false.
Proof.
  intros Hw. unfold in_lockout, Since, Time_Sub. simpl.
  destruct (t_mono now); unfold sat64, min_int64, max_int64, Second, Millisecond, Microsecond, Nanosecond;
    lia.
Qed.

Lemma new_quorum_not_locked_witness :
  in_lockout (tm (1700000000 * Second)) (NewAdaptiveQuorum 2 2 3 1 3 1 3) = false.
Proof. refine (new_quorum_not_locked 2 2 3 1 3 1 3 (tm (1700000000 * Second)) _). vm_compute. congruence. Defined.
