(* ===== verification/MetricsReader.v ===== *)
(** * MetricsReader: reading metrics back (src/internal/metrics/reader.go)

    What the Prometheus client returns is a parameter: a [Registry] holds the
    answers of [GetMetricWithLabelValues] and [Write] for each metric.  The
    reader's own arithmetic on those answers is modelled in float64. *)

From S2P Require Import Prelude GoLib Float64 Metrics.

Open Scope Z_scope.

(** ** The answers of the client library (third-party) *)

(** A [dto.Histogram]: buckets are (cumulative count, upper bound). *)
Record DtoHistogram := mkDtoHistogram {
  dto_SampleCount : Z;                 (* uint64 *)
  dto_SampleSum : float64;
  dto_Bucket : list (Z * float64);
}.

(** Looking a metric up by label and writing it out: either may fail. *)
Inductive vec_answer (A : Type) :=
  | VNoMetric (err : error)
  | VWriteError (err : error)
  | VValue (a : A).
Arguments VNoMetric {A}.
Arguments VWriteError {A}.
Arguments VValue {A}.

Record Registry := mkRegistry {
  rg_counter : counter → float64 + error;
  rg_gauge_vec : gauge_vec → string → vec_answer float64;
  rg_histogram_vec : histogram_vec → string → vec_answer DtoHistogram;
}.

(** ** The reader *)

Record HistogramStats := mkStats {
  hs_Count : Z;        (* uint64 *)
  hs_Sum : float64;
  hs_Avg : float64;
  hs_P95 : float64;
}.

Definition zero_stats : HistogramStats := mkStats 0 f64_zero f64_zero f64_zero.

(** The loop of [estimatePercentile]. *)
Fixpoint percentile_loop (target : float64) (buckets : list (Z * float64)) : float64 :=
  match buckets with
  | [] => f64_zero
  | (cumulativeCount, upperBound) :: buckets =>
      if f64_ge (f64_of_Z cumulativeCount) target then upperBound
      else percentile_loop target buckets
  end.

Definition estimatePercentile (hist : DtoHistogram) (percentile : float64) : float64 :=
  let totalCount := dto_SampleCount hist in
  if totalCount =? 0 then f64_zero
  else
    let target := f64_mul (f64_of_Z totalCount) percentile in
    percentile_loop target (dto_Bucket hist).

(** [GetHistogramStats] on the histogram written out. *)
Definition GetHistogramStats (h : DtoHistogram) : HistogramStats :=
  let count := dto_SampleCount h in
  let sum := dto_SampleSum h in
  let avg := if count >? 0 then f64_div sum (f64_of_Z count) else f64_zero in
  mkStats count sum avg (estimatePercentile h (f64_lit 95 100)).

Section Reader.
Context (reg : Registry).

Definition GetCounterValue (c : counter) : float64 + error := rg_counter reg c.

Definition GetWriteSuccessRate : float64 :=
  match GetCounterValue WriteSuccessTotal with
  | inr _ => f64_one
  | inl success =>
      match GetCounterValue WriteFailureTotal with
      | inr _ => f64_one
      | inl failure =>
          let total := f64_add success failure in
          if f64_eq total f64_zero then f64_one
          else f64_div success total
      end
  end.

Definition GetPeerLatencyStats (peer : string) : HistogramStats + error :=
  match rg_histogram_vec reg ReplicateLatency peer with
  | VNoMetric err => inr ("failed to get metric for peer " +:+ peer +:+ ": " +:+ err)
  | VWriteError err => inr err
  | VValue h => inl (GetHistogramStats h)
  end.

(** The accumulators of [GetAllPeersLatencyStats]'s loop. *)
Record latency_acc := mkLacc {
  la_totalCount : Z;
  la_totalSum : float64;
  la_maxP95 : float64;
  la_successfulPeers : Z;
}.

Definition latency_step (acc : latency_acc) (peer : string) : latency_acc :=
  match GetPeerLatencyStats peer with
  | inr _ => acc
  | inl stats =>
      mkLacc (wrapu64 (la_totalCount acc + hs_Count stats))
        (f64_add (la_totalSum acc) (hs_Sum stats))
        (if f64_gt (hs_P95 stats) (la_maxP95 acc) then hs_P95 stats else la_maxP95 acc)
        (la_successfulPeers acc + 1)
  end.

(** The error result is always nil. *)
Definition GetAllPeersLatencyStats (peers : list string) : HistogramStats :=
  match peers with
  | [] => zero_stats
  | _ =>
      let acc := fold_left latency_step peers (mkLacc 0 f64_zero f64_zero 0) in
      mkStats (la_successfulPeers acc) (la_totalSum acc)
        (if la_totalCount acc >? 0 then f64_div (la_totalSum acc) (f64_of_Z (la_totalCount acc))
         else f64_zero)
        (la_maxP95 acc)
  end.

Definition GetHealthRTT (peer : string) : float64 + error :=
  match rg_gauge_vec reg HealthRTT peer with
  | VNoMetric err => inr ("failed to get health rtt for peer " +:+ peer +:+ ": " +:+ err)
  | VWriteError err => inr err
  | VValue v => inl v
  end.

(** Sum and count of the accepted readings of a list of peers. *)
Definition mean_step (read : string → float64 + error) (accept : float64 → bool)
    (acc : float64 * Z) (peer : string) : float64 * Z :=
  match read peer with
  | inr _ => acc
  | inl v => if accept v then (f64_add acc.1 v, acc.2 + 1) else acc
  end.

Definition mean_of (read : string → float64 + error) (accept : float64 → bool) (peers : list string) :
    float64 :=
  match peers with
  | [] => f64_zero
  | _ =>
      let '(total, validCount) := fold_left (mean_step read accept) peers (f64_zero, 0) in
      if validCount =? 0 then f64_zero else f64_div total (f64_of_Z validCount)
  end.

Definition GetAverageHealthRTT (peers : list string) : float64 :=
  mean_of GetHealthRTT (λ rtt, f64_gt rtt f64_zero) peers.

(** The value is divided even when reading it failed; callers drop it then. *)
Definition GetClockDrift (peer : string) : float64 + error :=
  match rg_gauge_vec reg HLCDrift peer with
  | VNoMetric err => inr ("failed to get clock drift for peer " +:+ peer +:+ ": " +:+ err)
  | VWriteError err => inr err
  | VValue driftMS => inl (f64_div driftMS (f64_lit 1000 1))
  end.

Definition GetClockDriftStats (peers : list string) : float64 :=
  mean_of GetClockDrift (λ drift, f64_ge drift f64_zero) peers.

(** ** Lemmas *)

(** The number of peers whose statistics could be read. *)
Definition readable (peer : string) : bool :=
  match GetPeerLatencyStats peer with inl _ => true | inr _ => false end.

Lemma latency_fold_count peers acc :
  la_successfulPeers (fold_left latency_step peers acc) =
  la_successfulPeers acc + Z.of_nat (length (List.filter readable peers)).
Proof.
  revert acc. induction peers as [|p peers IH]; intros acc; simpl; [lia|].
  rewrite IH. unfold latency_step, readable. destruct (GetPeerLatencyStats p); simpl; lia.
Qed.

Lemma all_peers_count_eq peers :
  hs_Count (GetAllPeersLatencyStats peers) = Z.of_nat (length (List.filter readable peers)).
Proof.
  unfold GetAllPeersLatencyStats. destruct peers; [done|]. cbv zeta.
  cbn [hs_Count]. rewrite latency_fold_count. cbn [la_successfulPeers]. lia.
Qed.

Lemma percentile_loop_spec target buckets :
  (∃ pre c ub post, buckets = pre ++ (c, ub) :: post ∧
     percentile_loop target buckets = ub ∧ f64_ge (f64_of_Z c) target = true ∧
     Forall (λ b, f64_ge (f64_of_Z b.1) target = false) pre) ∨
  (percentile_loop target buckets = f64_zero ∧
     Forall (λ b, f64_ge (f64_of_Z b.1) target = false) buckets).
Proof.
  induction buckets as [|[c ub] buckets IH]; simpl; [right; by constructor|].
  destruct (f64_ge (f64_of_Z c) target) eqn:E.
  - left. exists [], c, ub, buckets. by split_and!.
  - destruct IH as [(pre & c' & ub' & post & -> & ? & ? & ?)|[? ?]].
    + left. exists ((c, ub) :: pre), c', ub', post. split_and!; try done. by constructor.
    + right. split; [done|]. by constructor.
Qed.

(** ** Properties *)

(** [estimatePercentile] returns the upper bound of the first bucket whose
    cumulative count reaches the target rank; with no samples, or when the rank
    lies beyond the last finite bucket, it returns 0 (so the slowest
    distributions are reported as the fastest). *)
Theorem estimate_percentile_first_bucket (hist : DtoHistogram) (q : float64) :
  let target := f64_mul (f64_of_Z (dto_SampleCount hist)) q in
  (dto_SampleCount hist = 0 ∧ estimatePercentile hist q = f64_zero) ∨
  (∃ pre c ub post, dto_Bucket hist = pre ++ (c, ub) :: post ∧
     estimatePercentile hist q = ub ∧ f64_ge (f64_of_Z c) target = true ∧
     Forall (λ b, f64_ge (f64_of_Z b.1) target = false) pre) ∨
  (estimatePercentile hist q = f64_zero ∧
     Forall (λ b, f64_ge (f64_of_Z b.1) target = false) (dto_Bucket hist)).
Proof.
  cbv zeta. unfold estimatePercentile. destruct (_ =? 0) eqn:E; [left; split; [lia|done]|].
  right. apply percentile_loop_spec.
Qed.

(** the peer count of the aggregated statistics is the number of peers whose
    metric could be read, between 0 and the number of peers. *)
Theorem all_peers_count (peers : list string) :
  hs_Count (GetAllPeersLatencyStats peers) = Z.of_nat (length (List.filter readable peers)) ∧
  0 <= hs_Count (GetAllPeersLatencyStats peers) <= Z.of_nat (length peers).
Proof.
  rewrite all_peers_count_eq. split; [done|]. pose proof (length_filter_le readable peers). lia.
Qed.
End Reader.

(** Documented behaviour of [GetMetricWithLabelValues]: a label combination seen
    for the first time creates the metric, so with the right number of labels
    the lookup always succeeds and [Write] gives its (possibly empty) value. *)
Definition vec_always_present (reg : Registry) : Prop :=
  ∀ peer, ∃ h, rg_histogram_vec reg ReplicateLatency peer = VValue h.

(** Every peer in a list, counted in floats, is the whole list. *)
Lemma f64_ratio_self (n : Z) : 1 <= n <= 64 → f64_div (f64_of_Z n) (f64_of_Z n) = f64_one.
Proof.
  intros Hn. assert (forallb (λ k, bool_decide (f64_div (f64_of_Z (Z.of_nat k)) (f64_of_Z (Z.of_nat k)) = f64_one))
    (seq 1 64) = true) as H by (vm_compute; reflexivity).
  rewrite forallb_forall in H.
  assert (In (Z.to_nat n) (seq 1 64)) as Hin%H by (apply in_seq; lia).
  apply bool_decide_eq_true in Hin. by rewrite Z2Nat.id in Hin by lia.
Qed.

(** an unreachable peer is never noticed by the availability measure: since
    the metric of a peer exists as soon as it is looked up, the count of
    "reachable" peers is always the number of configured peers, and the ratio
    the adjuster computes from it is exactly 1 (clusters of up to 65 nodes). *)
Theorem reachable_peers_always_all (reg : Registry) (peers : list string) :
  vec_always_present reg → (1 <= length peers <= 64)%nat →
  hs_Count (GetAllPeersLatencyStats reg peers) = Z.of_nat (length peers) ∧
  f64_div (f64_of_Z (hs_Count (GetAllPeersLatencyStats reg peers)))
    (f64_of_Z (Z.of_nat (length peers))) = f64_one.
Proof.
  intros Hvec Hlen.
  assert (hs_Count (GetAllPeersLatencyStats reg peers) = Z.of_nat (length peers)) as Heq.
  { rewrite all_peers_count_eq.
    rewrite forallb_filter_id; [done|]. apply forallb_forall. intros p _.
    unfold readable, GetPeerLatencyStats. by destruct (Hvec p) as [h ->]. }
  split; [done|]. rewrite Heq. apply f64_ratio_self. lia.
Qed.

(** A registry that has seen no replication to any peer. *)
Definition empty_registry : Registry :=
  mkRegistry (λ _, inl f64_zero) (λ _ _, VValue f64_zero)
    (λ _ _, VValue (mkDtoHistogram 0 f64_zero [])).

Lemma reachable_peers_always_all_witness :
  f64_div (f64_of_Z (hs_Count (GetAllPeersLatencyStats empty_registry ["down:8080"; "gone:8080"])))
    (f64_of_Z 2) = f64_one.
Proof.
  refine (proj2 (reachable_peers_always_all empty_registry ["down:8080"; "gone:8080"] _ _)).
  - intros p. eexists. reflexivity.
  - simpl. lia.
Defined.
