(* ===== verification/Ccs.v ===== *)
(** * Ccs: sliding windows and the consistency confidence score
    (src/internal/adaptive/ccs.go), in float64 arithmetic *)

From S2P Require Import Prelude GoLib Float64 Metrics Ring.

Open Scope Z_scope.

(** ** Sliding windows *)

Record MetricsWindow := mkWindow {
  mw_samples : list float64;
  mw_size : nat;
  mw_index : nat;
  mw_count : nat;
}.

Definition NewMetricsWindow (size : nat) : MetricsWindow :=
  mkWindow (replicate size f64_zero) size 0 0.

(** [Add]; [None] is the panic of an index out of range (a window of size 0). *)
Definition Window_Add (value : float64) (mw : MetricsWindow) : option MetricsWindow :=
  if (mw_index mw <? length (mw_samples mw))%nat && (0 <? mw_size mw)%nat then
    Some (mkWindow (<[mw_index mw := value]> (mw_samples mw)) (mw_size mw)
            ((mw_index mw + 1) mod mw_size mw)%nat
            (if (mw_count mw <? mw_size mw)%nat then (mw_count mw + 1)%nat else mw_count mw))
  else None.

(** [for i := 0; i < count; i++ { acc = f(acc, samples[i]) }]; the samples in use
    are the first [count] slots. *)
Definition window_fold (f : float64 → float64 → float64) (acc : float64) (mw : MetricsWindow) : float64 :=
  fold_left f (take (mw_count mw) (mw_samples mw)) acc.

Definition Window_GetAverage (mw : MetricsWindow) : float64 :=
  if (mw_count mw =? 0)%nat then f64_zero
  else f64_div (window_fold f64_add f64_zero mw) (f64_of_Z (Z.of_nat (mw_count mw))).

Definition Window_GetVariance (mw : MetricsWindow) : float64 :=
  if (mw_count mw =? 0)%nat then f64_zero
  else
    let mean := f64_div (window_fold f64_add f64_zero mw) (f64_of_Z (Z.of_nat (mw_count mw))) in
    let variance :=
      window_fold (λ acc x, let diff := f64_sub x mean in f64_add acc (f64_mul diff diff)) f64_zero mw in
    f64_div variance (f64_of_Z (Z.of_nat (mw_count mw))).

(** ** The score *)

Record CCSComponents := mkComponents {
  RTTHealth : float64;
  AvailHealth : float64;
  VarHealth : float64;
  ErrorHealth : float64;
  ClockHealth : float64;
}.

Record CCSComputer := mkCCS {
  rttWindow : MetricsWindow;
  successWindow : MetricsWindow;
  varianceWindow : MetricsWindow;
  errorWindow : MetricsWindow;
  clockWindow : MetricsWindow;
  ccsHistory : MetricsWindow;
  alphaRTT : float64;
  betaAvail : float64;
  gammaVar : float64;
  deltaError : float64;
  epsilonClock : float64;
  rttBadThreshold : float64;
  varBadThreshold : float64;
  clockBadThreshold : float64;
}.

Definition NewCCSComputer : CCSComputer :=
  mkCCS (NewMetricsWindow 10) (NewMetricsWindow 10) (NewMetricsWindow 10) (NewMetricsWindow 10)
    (NewMetricsWindow 10) (NewMetricsWindow 10)
    (f64_lit 20 100) (f64_lit 40 100) (f64_lit 15 100) (f64_lit 15 100) (f64_lit 10 100)
    (f64_lit 2 10) (f64_lit 25 10000) (f64_lit 1 10).

(** Replace the windows, keep weights and thresholds. *)
Definition with_windows (w1 w2 w3 w4 w5 : MetricsWindow) (cc : CCSComputer) : CCSComputer :=
  mkCCS w1 w2 w3 w4 w5 (ccsHistory cc) (alphaRTT cc) (betaAvail cc) (gammaVar cc)
    (deltaError cc) (epsilonClock cc) (rttBadThreshold cc) (varBadThreshold cc) (clockBadThreshold cc).

Definition with_history (h : MetricsWindow) (cc : CCSComputer) : CCSComputer :=
  mkCCS (rttWindow cc) (successWindow cc) (varianceWindow cc) (errorWindow cc) (clockWindow cc) h
    (alphaRTT cc) (betaAvail cc) (gammaVar cc) (deltaError cc) (epsilonClock cc)
    (rttBadThreshold cc) (varBadThreshold cc) (clockBadThreshold cc).

Definition CCS_RecordMetrics (avgRTT successRate variance errorRate clockDrift : float64)
    (cc : CCSComputer) : option CCSComputer :=
  match Window_Add avgRTT (rttWindow cc), Window_Add successRate (successWindow cc),
        Window_Add variance (varianceWindow cc), Window_Add errorRate (errorWindow cc),
        Window_Add clockDrift (clockWindow cc) with
  | Some w1, Some w2, Some w3, Some w4, Some w5 => Some (with_windows w1 w2 w3 w4 w5 cc)
  | _, _, _, _, _ => None
  end.

(** [1.0 - math.Min(x/bad, 1.0)] *)
Definition health (x bad : float64) : float64 :=
  f64_sub f64_one (f64_Min (f64_div x bad) f64_one).

Definition CCS_ComputeCCS (cc : CCSComputer) : float64 * CCSComponents :=
  let avgRTT := Window_GetAverage (rttWindow cc) in
  let successRate := Window_GetAverage (successWindow cc) in
  let variance := Window_GetAverage (varianceWindow cc) in
  let errorRate := Window_GetAverage (errorWindow cc) in
  let clockDrift := Window_GetAverage (clockWindow cc) in
  let rttHealth := health avgRTT (rttBadThreshold cc) in
  let availHealth := successRate in
  let varHealth := health variance (varBadThreshold cc) in
  let errorHealth := f64_sub f64_one errorRate in
  let clockHealth := health clockDrift (clockBadThreshold cc) in
  let ccs :=
    f64_add (f64_add (f64_add (f64_add
      (f64_mul (alphaRTT cc) rttHealth)
      (f64_mul (betaAvail cc) availHealth))
      (f64_mul (gammaVar cc) varHealth))
      (f64_mul (deltaError cc) errorHealth))
      (f64_mul (epsilonClock cc) clockHealth) in
  (ccs, mkComponents rttHealth availHealth varHealth errorHealth clockHealth).

Definition CCS_AddToCCSHistory (ccs : float64) (cc : CCSComputer) : option CCSComputer :=
  match Window_Add ccs (ccsHistory cc) with
  | Some h => Some (with_history h cc)
  | None => None
  end.

Definition CCS_GetSmoothedCCS (cc : CCSComputer) : float64 := Window_GetAverage (ccsHistory cc).

Definition CCS_UpdateMetricsGauges (rawCCS smoothedCCS : float64) (components : CCSComponents) :
    list metric_event :=
  [GSet CCSRaw rawCCS; GSet CCSSmoothed smoothedCCS;
   GSet CCSComponentRTT (RTTHealth components); GSet CCSComponentAvail (AvailHealth components);
   GSet CCSComponentVar (VarHealth components); GSet CCSComponentError (ErrorHealth components);
   GSet CCSComponentClock (ClockHealth components)].

(** ** Invariants *)

Definition window_ring (mw : MetricsWindow) : ring float64 :=
  mkRing (mw_samples mw) (mw_index mw) (mw_count mw).

Record window_wf (mw : MetricsWindow) : Prop := {
  window_wf_ring : ring_wf (window_ring mw);
  window_wf_size : length (mw_samples mw) = mw_size mw;
}.

(** The samples held, oldest first. *)
Definition window_contents (mw : MetricsWindow) : list float64 := ring_contents (window_ring mw).

Record ccs_wf (cc : CCSComputer) : Prop := {
  ccs_wf_rtt : window_wf (rttWindow cc);
  ccs_wf_success : window_wf (successWindow cc);
  ccs_wf_variance : window_wf (varianceWindow cc);
  ccs_wf_error : window_wf (errorWindow cc);
  ccs_wf_clock : window_wf (clockWindow cc);
  ccs_wf_history : window_wf (ccsHistory cc);
}.

(** ** Lemmas *)

Lemma new_window_wf size : (0 < size)%nat → window_wf (NewMetricsWindow size).
Proof.
  intros. split; simpl; [split; simpl; rewrite ?length_replicate; lia|apply length_replicate].
Qed.

Lemma window_add_spec v mw :
  window_wf mw → ∃ mw', Window_Add v mw = Some mw' ∧ window_wf mw' ∧ mw_size mw' = mw_size mw ∧
    window_contents mw' = lastn (mw_size mw) (window_contents mw ++ [v]).
Proof.
  intros [Hr Hs].
  destruct (ring_push_spec v (window_ring mw) Hr) as (r' & Hp & Hwf' & Hl' & Hc').
  destruct Hr as [Hpos Hi Hcnt Hf]. simpl in *.
  unfold ring_push in Hp. simpl in Hp. rewrite (proj2 (Nat.ltb_lt _ _) Hi) in Hp.
  injection Hp as <-. simpl in *. unfold Window_Add.
  rewrite (proj2 (Nat.ltb_lt _ _) Hi), <- Hs, (proj2 (Nat.ltb_lt _ _) Hpos). simpl.
  eexists. split; [done|]. split; [|done]. split; simpl; [done|by rewrite length_insert].
Qed.

Lemma window_count mw : window_wf mw → mw_count mw = length (window_contents mw).
Proof. intros [Hr _]. symmetry. apply (ring_contents_length _ Hr). Qed.

(** The samples in use, in slot order, are a permutation of the contents. *)
Lemma window_used_perm mw :
  window_wf mw → take (mw_count mw) (mw_samples mw) ≡ₚ window_contents mw.
Proof. intros [Hr _]. apply (ring_slots_used_perm _ Hr). Qed.

(** A NaN sample makes the average NaN. *)
Lemma window_average_nan mw :
  window_wf mw → S754_nan ∈ window_contents mw → Window_GetAverage mw = S754_nan.
Proof.
  intros Hwf Hin. unfold Window_GetAverage. rewrite (window_count mw Hwf).
  destruct (length (window_contents mw) =? 0)%nat eqn:E.
  { apply Nat.eqb_eq, length_zero_iff_nil in E. rewrite E in Hin. set_solver. }
  unfold window_fold. rewrite fold_add_nan_in; [apply f64_div_nan_l|].
  by rewrite (window_used_perm mw Hwf).
Qed.

Fixpoint window_run (mw : MetricsWindow) (vs : list float64) : option MetricsWindow :=
  match vs with
  | [] => Some mw
  | v :: vs => match Window_Add v mw with Some mw' => window_run mw' vs | None => None end
  end.

Lemma window_run_spec vs : ∀ mw,
  window_wf mw → ∃ mw', window_run mw vs = Some mw' ∧ window_wf mw' ∧ mw_size mw' = mw_size mw ∧
    window_contents mw' = lastn (mw_size mw) (window_contents mw ++ vs).
Proof.
  induction vs as [|v vs IH]; intros mw Hwf; simpl.
  { exists mw. split_and!; try done. rewrite app_nil_r. symmetry. apply lastn_all.
    rewrite <- window_count by done. destruct Hwf as [[]]. simpl in *. lia. }
  destruct (window_add_spec v mw Hwf) as (mw1 & -> & Hwf1 & Hs1 & Hc1).
  destruct (IH mw1 Hwf1) as (mw2 & -> & Hwf2 & Hs2 & Hc2).
  exists mw2. split_and!; try done; [congruence|].
  by rewrite Hc2, Hs1, Hc1, lastn_app_lastn, <- app_assoc.
Qed.

Lemma new_ccs_wf : ccs_wf NewCCSComputer.
Proof. split; apply new_window_wf; lia. Qed.

Lemma record_metrics_wf a b c d e cc :
  ccs_wf cc → ∃ cc', CCS_RecordMetrics a b c d e cc = Some cc' ∧ ccs_wf cc' ∧
    ccsHistory cc' = ccsHistory cc.
Proof.
  intros [H1 H2 H3 H4 H5 H6]. unfold CCS_RecordMetrics.
  destruct (window_add_spec a _ H1) as (w1 & -> & ? & _), (window_add_spec b _ H2) as (w2 & -> & ? & _),
    (window_add_spec c _ H3) as (w3 & -> & ? & _), (window_add_spec d _ H4) as (w4 & -> & ? & _),
    (window_add_spec e _ H5) as (w5 & -> & ? & _).
  eexists. split; [done|]. by split.
Qed.

Lemma add_history_wf x cc :
  ccs_wf cc → ∃ cc', CCS_AddToCCSHistory x cc = Some cc' ∧ ccs_wf cc' ∧
    window_contents (ccsHistory cc') =
      lastn (mw_size (ccsHistory cc)) (window_contents (ccsHistory cc) ++ [x]).
Proof.
  intros [H1 H2 H3 H4 H5 H6]. unfold CCS_AddToCCSHistory.
  destruct (window_add_spec x _ H6) as (h & -> & ? & _ & Hc). eexists. split; [done|]. by split.
Qed.

(** A NaN among the availability samples makes the score NaN. *)
Lemma compute_ccs_nan cc :
  ccs_wf cc → S754_nan ∈ window_contents (successWindow cc) → (CCS_ComputeCCS cc).1 = S754_nan.
Proof.
  intros Hwf Hin. unfold CCS_ComputeCCS. cbn [fst].
  rewrite (window_average_nan (successWindow cc)) by (apply Hwf || done).
  by autorewrite with acp.
Qed.

(** The sample just added is held. *)
Lemma lastn_snoc_in n (l : list float64) x : (0 < n)%nat → x ∈ lastn n (l ++ [x]).
Proof.
  intros. unfold lastn. rewrite length_app. simpl.
  rewrite drop_app_le by lia. set_solver.
Qed.

Lemma window_size_pos mw : window_wf mw → (0 < mw_size mw)%nat.
Proof. intros [[] <-]. done. Qed.

(** ** Properties *)

(** a window of positive size never panics and holds exactly the last
    [size] samples added: the slots that [GetAverage] and [GetVariance] sum over
    are a permutation of them, and the divisor is their number. *)
Theorem window_holds_last_samples (size : nat) (vs : list float64) :
  (0 < size)%nat →
  ∃ mw, window_run (NewMetricsWindow size) vs = Some mw ∧
    take (mw_count mw) (mw_samples mw) ≡ₚ lastn size vs ∧
    mw_count mw = Nat.min size (length vs).
Proof.
  intros Hs. destruct (window_run_spec vs _ (new_window_wf size Hs)) as (mw & Hrun & Hwf & _ & Hc).
  assert (window_contents mw = lastn size vs) as Hc'.
  { rewrite Hc. f_equal. unfold window_contents, ring_contents. simpl.
    rewrite length_replicate. by rewrite (proj2 (Nat.ltb_lt _ _) Hs). }
  exists mw. split; [done|]. split.
  - by rewrite (window_used_perm mw Hwf), Hc'.
  - by rewrite (window_count mw Hwf), Hc', length_lastn.
Qed.

Lemma window_holds_last_samples_witness :
  ∃ mw, window_run (NewMetricsWindow 2) (map f64_of_Z [1; 2; 3]) = Some mw ∧
    take (mw_count mw) (mw_samples mw) ≡ₚ lastn 2 (map f64_of_Z [1; 2; 3]) ∧ mw_count mw = 2%nat.
Proof. refine (window_holds_last_samples 2 (map f64_of_Z [1; 2; 3]) _). lia. Defined.

(** One cycle's worth of perfect measurements. *)
Definition perfect_cycle (cc : CCSComputer) : option CCSComputer :=
  CCS_RecordMetrics f64_zero f64_one f64_zero f64_zero f64_zero cc.

(** the score is not confined to [0.0, 1.0] as its comments say: with every
    input perfect, the weights 0.20, 0.40, 0.15, 0.15 and 0.10, rounded to
    float64 and summed in the source's order, give 1 + 2^-52. *)
Theorem perfect_ccs_exceeds_one :
  ∃ cc, perfect_cycle NewCCSComputer = Some cc ∧
    (CCS_ComputeCCS cc).1 = S754_finite false 4503599627370497 (-52) ∧
    f64_gt (CCS_ComputeCCS cc).1 f64_one = true.
Proof. eexists. split; [vm_compute; reflexivity|]. split; vm_compute; reflexivity. Qed.
