(* ===== verification/Adjuster.v ===== *)
(** * Adjuster: the closed-loop controller (src/internal/adaptive/adjuster.go)

    One cycle of [adjustQuorum] on the state it shares with the rest of the node
    (the adaptive quorum and the score computer), given what the metric registry
    and the coordinator answer in that cycle. *)

From S2P Require Import Prelude GoLib Float64 Metrics Config Quorum MetricsReader Ring Ccs.

Open Scope Z_scope.

Record Adjuster := mkAdjuster {
  adj_interval : Duration;
  adj_relaxThreshold : float64;
  adj_tightenThreshold : float64;
}.

Definition NewAdjuster (interval : Duration) (relaxThreshold tightenThreshold : float64) : Adjuster :=
  mkAdjuster interval relaxThreshold tightenThreshold.

(** The state the adjuster's pointers refer to. *)
Abbreviation AdjState := (AdaptiveQuorum * CCSComputer)%type.

(** 1. the inputs of the score *)
Record Gathered := mkGathered {
  g_avgRTT : float64;
  g_availability : float64;
  g_variance : float64;
  g_errorRate : float64;
  g_clockDrift : float64;
}.

Definition spread_squared (stats : HistogramStats) : float64 :=
  if (hs_Count stats >? 0) && f64_gt (hs_P95 stats) f64_zero then
    let spread := f64_sub (hs_P95 stats) (hs_Avg stats) in f64_mul spread spread
  else f64_zero.

Definition gather (reg : Registry) (peers : list string) : Gathered :=
  let successRate := GetWriteSuccessRate reg in
  let latencyStats := GetAllPeersLatencyStats reg peers in
  let peerAvailability :=
    f64_div (f64_of_Z (hs_Count latencyStats)) (f64_of_Z (Z.of_nat (length peers))) in
  let combinedAvailability := f64_mul successRate peerAvailability in
  let errorRate := f64_sub f64_one combinedAvailability in
  mkGathered (hs_Avg latencyStats) combinedAvailability (spread_squared latencyStats) errorRate
    (GetClockDriftStats reg peers).

(** The per-peer variance gauges, in ms^2. *)
Definition variance_events (reg : Registry) (peers : list string) : list metric_event :=
  List.flat_map (λ peer,
    match GetPeerLatencyStats reg peer with
    | inr _ => []
    | inl stats =>
        if (hs_Count stats >? 0) && f64_gt (hs_P95 stats) f64_zero then
          let spread := f64_sub (hs_P95 stats) (hs_Avg stats) in
          let ms := f64_mul spread (f64_of_Z 1000) in
          [GVSet RTTVariance peer (f64_mul ms ms)]
        else []
    end) peers.

(** 6. thresholds: the attempted quorum and the reason, if any *)
Definition evaluate (a : Adjuster) (smoothedCCS : float64) (currentR currentW : Z) :
    option (Z * Z * string) :=
  if f64_lt smoothedCCS (adj_relaxThreshold a) then
    Some (wrap64 (currentR + 1), wrap64 (currentW - 1), "relax")
  else if f64_gt smoothedCCS (adj_tightenThreshold a) then
    Some (wrap64 (currentR - 1), wrap64 (currentW + 1), "tighten")
  else None.

Definition on_quorum {A} (m : GoM AdaptiveQuorum A) : GoM AdjState A :=
  focus fst (λ q st, (q, st.2)) m.

(** 3.-9. the hysteresis gauge, the lockout test, the thresholds and the
    application of the adjustment. *)
Definition apply_thresholds (a : Adjuster) (smoothedCCS : float64) : GoM AdjState unit :=
  active <- on_quorum AQ_IsInLockout ;;
  emit [GSet HysteresisActive (if (active : bool) then f64_one else f64_zero)] ;;;
  st <- get ;;
  let currentR := GetR st.1 in
  let currentW := GetW st.1 in
  locked <- on_quorum AQ_IsInLockout ;;
  if (locked : bool) then ret tt
  else
    match evaluate a smoothedCCS currentR currentW with
    | None => ret tt
    | Some (newR, newW, reason) =>
        match AQ_Validate st.1 newR newW with
        | Some _ => ret tt
        | None =>
            err <- on_quorum (AQ_SetQuorum newR newW reason) ;;
            match err with
            | Some _ => ret tt
            | None => emit [CInc QuorumAdjustments; CVInc QuorumAdjustmentReason reason]
            end
        end
    end.

(** [adjustQuorum]; [None] is a panic of a window's [Add]. *)
Definition adjustQuorum (a : Adjuster) (reg : Registry) (peers : list string) :
    GoM AdjState (option unit) :=
  let g := gather reg peers in
  emit (variance_events reg peers) ;;;
  st <- get ;;
  match CCS_RecordMetrics (g_avgRTT g) (g_availability g) (g_variance g) (g_errorRate g)
          (g_clockDrift g) st.2 with
  | None => ret None
  | Some cc1 =>
      let '(rawCCS, components) := CCS_ComputeCCS cc1 in
      match CCS_AddToCCSHistory rawCCS cc1 with
      | None => ret None
      | Some cc2 =>
          modify (λ st, (st.1, cc2)) ;;;
          let smoothedCCS := CCS_GetSmoothedCCS cc2 in
          emit (CCS_UpdateMetricsGauges rawCCS smoothedCCS components) ;;;
          apply_thresholds a smoothedCCS ;;;
          ret (Some tt)
      end
  end.

(** The loop of [Start]: each tick sees the registry and peers of its time. *)
Inductive adjuster_event :=
  | ATick (reg : Registry) (peers : list string)
  | ADone.

Fixpoint Adjuster_Start (a : Adjuster) (evs : list adjuster_event) : GoM AdjState (option unit) :=
  match evs with
  | [] => ret (Some tt)
  | ADone :: _ => ret (Some tt)
  | ATick reg peers :: evs =>
      r <- adjustQuorum a reg peers ;;
      match r with
      | None => ret None
      | Some _ => Adjuster_Start a evs
      end
  end.

(** ** Lemmas *)

(** The score after recording one cycle's measurements. *)
Definition score_after (reg : Registry) (peers : list string) (cc : CCSComputer) : option CCSComputer :=
  let g := gather reg peers in
  match CCS_RecordMetrics (g_avgRTT g) (g_availability g) (g_variance g) (g_errorRate g)
          (g_clockDrift g) cc with
  | None => None
  | Some cc1 => CCS_AddToCCSHistory (CCS_ComputeCCS cc1).1 cc1
  end.

Lemma score_after_wf reg peers cc :
  ccs_wf cc → ∃ cc', score_after reg peers cc = Some cc' ∧ ccs_wf cc'.
Proof.
  intros Hwf. unfold score_after.
  destruct (record_metrics_wf (g_avgRTT (gather reg peers)) (g_availability (gather reg peers))
    (g_variance (gather reg peers)) (g_errorRate (gather reg peers)) (g_clockDrift (gather reg peers))
    cc Hwf) as (cc1 & -> & Hwf1 & _).
  destruct (add_history_wf (CCS_ComputeCCS cc1).1 cc1 Hwf1) as (cc2 & -> & ? & _). eauto.
Qed.

(** The outcome of a cycle: the score is updated, and the quorum either stays or
    moves by one in the direction the thresholds ask for, when the lockout has
    passed and the new values are valid. *)
Inductive cycle_outcome (a : Adjuster) (smoothed : float64) (aq : AdaptiveQuorum) :
    bool → AdaptiveQuorum → Prop :=
  | CycleStay : cycle_outcome a smoothed aq false aq
  | CycleMove (r w : Z) (reason : string) (t : Time) :
      evaluate a smoothed (GetR aq) (GetW aq) = Some (r, w, reason) →
      quorum_ok aq r w →
      cycle_outcome a smoothed aq true (with_quorum r w t aq).

Lemma variance_events_no_inc c reg peers : count_inc c (variance_events reg peers) = 0%nat.
Proof.
  induction peers as [|p peers IH]; simpl; [done|]. rewrite count_inc_app, IH, Nat.add_0_r.
  destruct (GetPeerLatencyStats reg p); [|done]. by destruct (_ && _).
Qed.

Lemma count_inc_gset c g v : count_inc c [GSet g v] = 0%nat.
Proof. done. Qed.

Lemma apply_thresholds_cases a x aq cc wd :
  ∃ aq' wd' moved,
    apply_thresholds a x (aq, cc) wd = (tt, (aq', cc), wd') ∧
    cycle_outcome a x aq moved aq' ∧
    count_inc QuorumAdjustments (w_events wd') =
      (count_inc QuorumAdjustments (w_events wd) + if (moved : bool) then 1 else 0)%nat.
Proof.
  unfold apply_thresholds, bind, emit, get, on_quorum, focus, AQ_IsInLockout, bind, time_now, get, ret.
  simpl. set (g := GSet HysteresisActive _). assert (count_inc QuorumAdjustments [g] = 0%nat) as Hg by apply count_inc_gset.
  destruct (in_lockout (w_clock wd (w_tick wd + 1)%nat) aq).
  { eexists aq, _, false. split_and!; [done|constructor|]. simpl. rewrite count_inc_app, Hg. lia. }
  destruct (evaluate a x (aq_currentR aq) (aq_currentW aq)) as [[[r w] reason]|] eqn:Hev.
  2:{ eexists aq, _, false. split_and!; [done|constructor|]. simpl. rewrite count_inc_app, Hg. lia. }
  destruct (AQ_Validate aq r w) as [err|] eqn:Hv.
  { eexists aq, _, false. split_and!; [done|constructor|]. simpl. rewrite count_inc_app, Hg. lia. }
  rewrite set_quorum_spec. cbv zeta. simpl. clearbody g.
  destruct (in_lockout _ aq).
  { eexists aq, _, false. split_and!; [done|constructor|]. simpl. rewrite count_inc_app, Hg. lia. }
  rewrite Hv. simpl. eexists _, _, true. split_and!; [done| |].
  - econstructor; [exact Hev|by apply aq_validate_iff].
  - simpl. rewrite !count_inc_app, Hg. simpl. change (count_inc _ [_; _]) with 0%nat at 1.
    change (count_inc _ [_; _]) with 1%nat. lia.
Qed.

(** Everything a cycle does, in one statement. *)
Lemma adjust_quorum_cases a reg peers aq cc wd :
  ccs_wf cc →
  ∃ cc' aq' wd' moved,
    score_after reg peers cc = Some cc' ∧ ccs_wf cc' ∧
    adjustQuorum a reg peers (aq, cc) wd = (Some tt, (aq', cc'), wd') ∧
    cycle_outcome a (CCS_GetSmoothedCCS cc') aq moved aq' ∧
    count_inc QuorumAdjustments (w_events wd') =
      (count_inc QuorumAdjustments (w_events wd) + if (moved : bool) then 1 else 0)%nat.
Proof.
  intros Hwf. unfold score_after, adjustQuorum, bind, emit, get.
  destruct (record_metrics_wf (g_avgRTT (gather reg peers)) (g_availability (gather reg peers))
    (g_variance (gather reg peers)) (g_errorRate (gather reg peers)) (g_clockDrift (gather reg peers))
    cc Hwf) as (cc1 & Hrec & Hwf1 & _).
  cbv zeta. cbn [snd]. rewrite Hrec. destruct (CCS_ComputeCCS cc1) as [raw comps]. cbn [fst].
  destruct (add_history_wf raw cc1 Hwf1) as (cc2 & -> & Hwf2 & _). exists cc2.
  unfold modify. cbn [fst].
  match goal with |- context [apply_thresholds a ?x (aq, cc2) ?w] =>
    destruct (apply_thresholds_cases a x aq cc2 w) as (aq' & wd' & moved & -> & Hout & Hev) end.
  exists aq', wd', moved. split_and!; try done. rewrite Hev. simpl.
  by rewrite !count_inc_app, variance_events_no_inc, !Nat.add_0_r.
Qed.

(** ** Invariant of the controller *)

(** The quorum and its limits are far from the ends of int64. *)
Definition small_limits (aq : AdaptiveQuorum) : Prop :=
  0 <= aq_minR aq ∧ aq_maxR aq < 2 ^ 62 ∧ 0 <= aq_minW aq ∧ aq_maxW aq < 2 ^ 62.
Definition small_quorum (aq : AdaptiveQuorum) : Prop :=
  0 <= GetR aq < 2 ^ 62 ∧ 0 <= GetW aq < 2 ^ 62.

(** What a cycle may do to the quorum. *)
Definition adj_rel (aq aq' : AdaptiveQuorum) : Prop :=
  same_limits aq aq' ∧ small_quorum aq' ∧ GetR aq' + GetW aq' = GetR aq + GetW aq ∧
  (aq' = aq ∨ quorum_ok aq' (GetR aq') (GetW aq')).

Lemma evaluate_cases a x r w r' w' reason :
  0 <= r < 2 ^ 62 → 0 <= w < 2 ^ 62 → evaluate a x r w = Some (r', w', reason) →
  (f64_lt x (adj_relaxThreshold a) = true ∧ r' = r + 1 ∧ w' = w - 1 ∧ reason = "relax") ∨
  (f64_lt x (adj_relaxThreshold a) = false ∧ f64_gt x (adj_tightenThreshold a) = true ∧
     r' = r - 1 ∧ w' = w + 1 ∧ reason = "tighten").
Proof.
  intros Hr Hw. unfold evaluate. rewrite !wrap64_id by (unfold in_int64; lia).
  destruct (f64_lt _ _); [naive_solver|]. destruct (f64_gt _ _); naive_solver.
Qed.

Lemma cycle_outcome_rel a x aq moved aq' :
  small_limits aq → small_quorum aq → cycle_outcome a x aq moved aq' → adj_rel aq aq'.
Proof.
  intros HL [HR HW] Hout. destruct Hout as [|r w reason t Hev Hok].
  { unfold adj_rel, same_limits. by split_and!; try left. }
  pose proof Hok as (_ & ? & ?). unfold small_limits in HL.
  apply (evaluate_cases _ _ _ _ _ _ _ HR HW) in Hev. unfold GetR, GetW in *; simpl in *.
  unfold adj_rel, small_quorum, same_limits, GetR, GetW; simpl.
  split_and!; try done; try lia. right. exact Hok.
Qed.

Lemma adj_rel_trans aq1 aq2 aq3 :
  adj_rel aq1 aq2 → adj_rel aq2 aq3 → adj_rel aq1 aq3.
Proof.
  intros (HL & Hs & Hsum & Hor) (HL' & Hs' & Hsum' & Hor'). unfold adj_rel.
  split; [unfold same_limits in *; intuition congruence|]. split; [done|]. split; [lia|].
  destruct Hor' as [->|?]; [done|by right].
Qed.

Lemma adjuster_start_rel a evs : ∀ aq cc wd,
  ccs_wf cc → small_limits aq → small_quorum aq →
  ∃ aq' cc' wd', Adjuster_Start a evs (aq, cc) wd = (Some tt, (aq', cc'), wd') ∧
    ccs_wf cc' ∧ adj_rel aq aq'.
Proof.
  induction evs as [|[reg peers|] evs IH]; intros aq cc wd Hwf HL HQ.
  1,3: eexists aq, cc, _; split_and!; [done..|unfold adj_rel, same_limits; by split_and!; try left].
  destruct (adjust_quorum_cases a reg peers aq cc wd Hwf)
    as (cc1 & aq1 & wd1 & moved & _ & Hwf1 & Heq & Hout & _).
  pose proof (cycle_outcome_rel _ _ _ _ _ HL HQ Hout) as Hrel.
  pose proof Hrel as (Hlim & Hq1 & _).
  destruct (IH aq1 cc1 wd1) as (aq2 & cc2 & wd2 & Heq2 & Hwf2 & Hrel2); [done| |done|].
  { unfold small_limits, same_limits in *. naive_solver lia. }
  exists aq2, cc2, wd2. split; [|split; [done|by eapply adj_rel_trans]].
  simpl. unfold bind. by rewrite Heq, Heq2.
Qed.

(** Without peers the availability of a cycle is 0/0. *)
Lemma score_after_no_peers reg cc cc' :
  ccs_wf cc → score_after reg [] cc = Some cc' → CCS_GetSmoothedCCS cc' = S754_nan.
Proof.
  intros Hwf. unfold score_after. cbv zeta. unfold CCS_RecordMetrics.
  destruct (window_add_spec (g_availability (gather reg [])) _ (ccs_wf_success _ Hwf))
    as (w2 & E2 & Hw2 & _ & Hc2). rewrite E2.
  destruct (window_add_spec (g_avgRTT (gather reg [])) _ (ccs_wf_rtt _ Hwf)) as (w1 & -> & Hw1 & _).
  destruct (window_add_spec (g_variance (gather reg [])) _ (ccs_wf_variance _ Hwf)) as (w3 & -> & Hw3 & _).
  destruct (window_add_spec (g_errorRate (gather reg [])) _ (ccs_wf_error _ Hwf)) as (w4 & -> & Hw4 & _).
  destruct (window_add_spec (g_clockDrift (gather reg [])) _ (ccs_wf_clock _ Hwf)) as (w5 & -> & Hw5 & _).
  set (cc1 := with_windows w1 w2 w3 w4 w5 cc).
  assert (ccs_wf cc1) as Hwf1 by (split; simpl; try done; apply Hwf).
  assert (g_availability (gather reg []) = S754_nan) as Hnan.
  { unfold gather. cbv zeta. cbn [g_availability]. change (f64_div _ _) with S754_nan. apply f64_mul_nan_r. }
  destruct (add_history_wf (CCS_ComputeCCS cc1).1 cc1 Hwf1) as (cc2 & -> & Hwf2 & Hc). intros [= <-].
  apply window_average_nan; [apply Hwf2|].
  rewrite Hc, compute_ccs_nan; [|done|].
  - apply lastn_snoc_in, window_size_pos, Hwf1.
  - simpl. rewrite Hc2, Hnan. apply lastn_snoc_in, window_size_pos, Hwf.
Qed.

(** ** Properties *)

(** C9: the controller keeps quorums intersecting: whatever the metrics report
    and however long it runs, it never panics, keeps R + W at its initial value
    (so above N if it started there), keeps N and the configured limits, and
    leaves a quorum inside those limits once it has changed it. *)
Theorem adjuster_preserves_intersection (a : Adjuster) (evs : list adjuster_event)
    (aq : AdaptiveQuorum) (wd : World) :
  small_limits aq → small_quorum aq → GetN aq < GetR aq + GetW aq →
  ∃ aq' cc' wd',
    Adjuster_Start a evs (aq, NewCCSComputer) wd = (Some tt, (aq', cc'), wd') ∧
    GetN aq' = GetN aq ∧ GetN aq' < GetR aq' + GetW aq' ∧
    GetR aq' + GetW aq' = GetR aq + GetW aq ∧
    (aq' = aq ∨ (aq_minR aq <= GetR aq' <= aq_maxR aq ∧ aq_minW aq <= GetW aq' <= aq_maxW aq)).
Proof.
  intros HL HQ Hint.
  destruct (adjuster_start_rel a evs aq NewCCSComputer wd new_ccs_wf HL HQ)
    as (aq' & cc' & wd' & Heq & _ & Hlim & _ & Hsum & Hor).
  exists aq', cc', wd'. unfold GetN, GetR, GetW, adaptive_quorum_provider, same_limits, quorum_ok in *.
  split_and!; [done|naive_solver|naive_solver lia|done|]. naive_solver lia.
Qed.

Definition default_adjuster : Adjuster := NewAdjuster Second (f64_lit 45 100) (f64_lit 75 100).

(** A registry in which every write has failed and every peer is slow. *)
Definition failing_registry : Registry :=
  mkRegistry (λ c, inl (if decide (c = WriteFailureTotal) then f64_of_Z 10 else f64_zero))
    (λ _ _, VValue f64_zero)
    (λ _ _, VValue (mkDtoHistogram 10 (f64_of_Z 20) [(10, f64_of_Z 5)])).

Lemma adjuster_preserves_intersection_witness :
  let aq := NewAdaptiveQuorum 2 2 3 1 3 1 3 in
  let wd := mkWorld (λ k, tm (Second * Z.of_nat k)) 0 [] in
  let evs := [ATick failing_registry ["a"; "b"]; ATick empty_registry ["a"; "b"]] in
  (∃ aq', (Adjuster_Start default_adjuster evs (aq, NewCCSComputer) wd).1.2.1 = aq' ∧
          GetR aq' = 3 ∧ GetW aq' = 1) ∧
  ∃ aq' cc' wd', Adjuster_Start default_adjuster evs (aq, NewCCSComputer) wd = (Some tt, (aq', cc'), wd') ∧
    GetN aq' = GetN aq ∧ GetN aq' < GetR aq' + GetW aq' ∧
    GetR aq' + GetW aq' = GetR aq + GetW aq ∧
    (aq' = aq ∨ (aq_minR aq <= GetR aq' <= aq_maxR aq ∧ aq_minW aq <= GetW aq' <= aq_maxW aq)).
Proof.
  cbv zeta. split; [eexists; split; [reflexivity|]; split; vm_compute; reflexivity|].
  refine (adjuster_preserves_intersection default_adjuster _ _ _ _ _ _);
    unfold small_limits, small_quorum, GetR, GetW, GetN; simpl; lia.
Defined.

(** C33: one cycle changes the quorum only as the thresholds say: a smoothed score
    below the relax threshold may move one unit from W to R, one above the
    tighten threshold one unit from R to W, anything else nothing; and the
    adjustment counter is incremented exactly when the quorum was changed. *)
Theorem adjust_cycle_follows_thresholds (a : Adjuster) (reg : Registry) (peers : list string)
    (aq : AdaptiveQuorum) (cc : CCSComputer) (wd : World) :
  ccs_wf cc → small_quorum aq →
  ∃ aq' cc' wd', adjustQuorum a reg peers (aq, cc) wd = (Some tt, (aq', cc'), wd') ∧
    let x := CCS_GetSmoothedCCS cc' in
    let n := count_inc QuorumAdjustments (w_events wd) in
    let n' := count_inc QuorumAdjustments (w_events wd') in
    (aq' = aq ∧ n' = n) ∨
    (n' = S n ∧ f64_lt x (adj_relaxThreshold a) = true ∧
       GetR aq' = GetR aq + 1 ∧ GetW aq' = GetW aq - 1) ∨
    (n' = S n ∧ f64_lt x (adj_relaxThreshold a) = false ∧ f64_gt x (adj_tightenThreshold a) = true ∧
       GetR aq' = GetR aq - 1 ∧ GetW aq' = GetW aq + 1).
Proof.
  intros Hwf [HR HW].
  destruct (adjust_quorum_cases a reg peers aq cc wd Hwf)
    as (cc' & aq' & wd' & moved & _ & _ & Heq & Hout & Hcnt).
  exists aq', cc', wd'. split; [done|]. cbv zeta. rewrite Hcnt.
  destruct Hout as [|r w reason t Hev _]; [left; split; [done|lia]|].
  right. apply (evaluate_cases _ _ _ _ _ _ _ HR HW) in Hev. unfold GetR, GetW in *; simpl in *.
  rewrite Nat.add_1_r. naive_solver.
Qed.

Lemma adjust_cycle_follows_thresholds_witness :
  let aq := NewAdaptiveQuorum 2 2 3 1 3 1 3 in
  let wd := mkWorld (λ k, tm (Second * Z.of_nat k)) 0 [] in
  ∃ aq' cc' wd', adjustQuorum default_adjuster failing_registry ["a"] (aq, NewCCSComputer) wd =
    (Some tt, (aq', cc'), wd').
Proof.
  cbv zeta.
  destruct (adjust_cycle_follows_thresholds default_adjuster failing_registry ["a"]
    (NewAdaptiveQuorum 2 2 3 1 3 1 3) NewCCSComputer (mkWorld (λ k, tm (Second * Z.of_nat k)) 0 [])
    new_ccs_wf ltac:(unfold small_quorum, GetR, GetW; simpl; lia)) as (aq' & cc' & wd' & H & _).
  exists aq', cc', wd'. exact H.
Defined.

(** a node configured without peers never adapts: its availability is 0/0,
    the score is NaN from the first cycle on, and no comparison with a threshold
    succeeds, whatever the registry says. *)
Theorem adjuster_without_peers_inert (a : Adjuster) (regs : list Registry)
    (aq : AdaptiveQuorum) (wd : World) :
  ∃ cc' wd', Adjuster_Start a (map (λ reg, ATick reg []) regs) (aq, NewCCSComputer) wd =
    (Some tt, (aq, cc'), wd').
Proof.
  generalize new_ccs_wf. generalize NewCCSComputer as cc. revert wd.
  induction regs as [|reg regs IH]; intros wd cc Hwf; [by exists cc, wd|].
  destruct (adjust_quorum_cases a reg [] aq cc wd Hwf)
    as (cc1 & aq1 & wd1 & moved & Hsc & Hwf1 & Heq & Hout & _).
  assert (aq1 = aq) as ->.
  { destruct Hout as [|r w reason t Hev _]; [done|].
    rewrite (score_after_no_peers reg cc cc1 Hwf Hsc) in Hev.
    unfold evaluate, f64_gt in Hev. by destruct (adj_tightenThreshold a). }
  destruct (IH wd1 cc1 Hwf1) as (cc2 & wd2 & Heq2). exists cc2, wd2.
  simpl. unfold bind. by rewrite Heq.
Qed.
