(* ===== verification/Api.v ===== *)
(** * Api: the messages of the gRPC service (src/api/proto/acp.proto) and the
    interface a node has to the other nodes

    The transport (grpc-go) is third-party code: a [Network] is what it offers
    the program, one operation per remote call, each returning the response or
    an error (an unreachable peer, a deadline that passed).  Calls run in the
    environment [E], so that an instance may have them change other nodes. *)

From S2P Require Import Prelude GoLib Float64 Metrics Hlc Storage.

Open Scope Z_scope.

(** ** Messages *)

Record PutRequest := mkPutRequest { preq_Key : string; preq_Value : bytes }.

Record PutResponse := mkPutResponse {
  presp_Success : bool;
  presp_Error : string;
  presp_Version : Z;
  presp_Timestamp : Z;
  presp_Hlc : option ProtoHLC;      (* a pointer, nil when unset *)
}.

Record GetRequest := mkGetRequest { greq_Key : string }.

Record GetResponse := mkGetResponse {
  gresp_Found : bool;
  gresp_Value : bytes;
  gresp_Version : Z;
  gresp_Timestamp : Z;
  gresp_Error : string;
  gresp_Hlc : option ProtoHLC;
  gresp_IsStale : bool;
}.

Record ReplicateRequest := mkReplicateRequest {
  rreq_Key : string;
  rreq_Value : bytes;
  rreq_Version : Z;
  rreq_Timestamp : Z;
  rreq_SourceNodeId : string;
  rreq_Hlc : option ProtoHLC;
}.

Record ReplicateResponse := mkReplicateResponse {
  rresp_Success : bool;
  rresp_Error : string;
  rresp_NodeId : string;
}.

Record HealthRequest := mkHealthRequest {
  hreq_SourceNodeId : string;
  hreq_Timestamp : Z;
  hreq_Hlc : option ProtoHLC;
}.

Record HealthResponse := mkHealthResponse {
  hresp_Healthy : bool;
  hresp_NodeId : string;
  hresp_Timestamp : Z;
  hresp_Hlc : option ProtoHLC;
}.

#[export] Instance ProtoHLC_eq_dec : EqDecision ProtoHLC.
Proof. solve_decision. Defined.
#[export] Instance PutResponse_eq_dec : EqDecision PutResponse.
Proof. solve_decision. Defined.
#[export] Instance GetResponse_eq_dec : EqDecision GetResponse.
Proof. solve_decision. Defined.
#[export] Instance ReplicateResponse_eq_dec : EqDecision ReplicateResponse.
Proof. solve_decision. Defined.
#[export] Instance HealthResponse_eq_dec : EqDecision HealthResponse.
Proof. solve_decision. Defined.

(** ** The client side *)

(** A [proto.ACPServiceClient] over the connection to a target. *)
Record ServiceClient := mkClient { cl_target : string }.

(** [grpc.NewClient] (an error for a target it cannot parse) and the calls. *)
Class Network (E : Type) := mkNetwork {
  net_NewClient : string → option error;
  net_Replicate : string → ReplicateRequest → GoM E (ReplicateResponse + error);
  net_GetLocal : string → GetRequest → GoM E (GetResponse + error);
  net_HealthCheck : string → HealthRequest → GoM E (HealthResponse + error);
}.
Arguments mkNetwork {E}.

(** The iteration order of a map, and the order in which parallel calls take
    effect, is not determined by the program: a schedule is any reordering. *)
Definition schedule (A : Type) := list A → list A.
Definition fair_schedule {A} (sched : schedule A) : Prop := ∀ l, sched l ≡ₚ l.

Lemma fair_elem_of {A} (sched : schedule A) l x : fair_schedule sched → x ∈ sched l ↔ x ∈ l.
Proof. intros H. by rewrite (H l). Qed.

Lemma fair_id {A} : fair_schedule (λ l : list A, l).
Proof. by intros l. Qed.
Lemma fair_rev {A} : fair_schedule (@List.rev A).
Proof. intros l. symmetry. apply Permutation_rev. Qed.

(** ** What a coordinator may expect of the network

    [net_lookup e t k] is the value the node behind target [t] stores for key
    [k].  A [Replicate] call stores the request at its target or does nothing,
    and has stored it if it reports success; a [GetLocal] call changes nothing
    and reports the stored value.  The transport may fail at any time. *)
Definition stores_request (req : ReplicateRequest) (o : option VersionedValue) : Prop :=
  ∃ vv, o = Some vv ∧ vv_HLC vv = FromProto (rreq_Hlc req) ∧ vv_Value vv = rreq_Value req.

Class ReplicaNetwork (E : Type) `{!Network E} := mkReplicaNetwork {
  net_lookup : E → string → string → option VersionedValue;
  net_replicate_frame target req e w t k :
    t ≠ target ∨ k ≠ rreq_Key req →
    net_lookup (net_Replicate target req e w).1.2 t k = net_lookup e t k;
  net_replicate_effect target req e w :
    let '(r, e', _) := net_Replicate target req e w in
    (net_lookup e' target (rreq_Key req) = net_lookup e target (rreq_Key req) ∧
       (∀ resp, r = inl resp → rresp_Success resp = false)) ∨
    stores_request req (net_lookup e' target (rreq_Key req));
  net_getlocal_frame target req e w t k :
    net_lookup (net_GetLocal target req e w).1.2 t k = net_lookup e t k;
  net_getlocal_value target req e w resp :
    (net_GetLocal target req e w).1.1 = inl resp →
    if gresp_Found resp then
      ∃ vv, net_lookup e target (greq_Key req) = Some vv ∧ FromProto (gresp_Hlc resp) = vv_HLC vv ∧
            gresp_Value resp = vv_Value vv
    else net_lookup e target (greq_Key req) = None;
}.
