(* ===== verification/Coordinator.v ===== *)
(** * Coordinator: replication to the peers (src/internal/replication/coordinator.go) *)

From Stdlib Require Import Ascii.
From S2P Require Import Prelude GoLib Float64 Metrics Hlc Storage WriteLog Reconcile GoParse Config Api.

Open Scope Z_scope.

(** ** Connections *)

Record ClientConn := mkConn { conn_target : string; conn_open : bool }.

Record Coordinator := mkCoordinator {
  co_nodeID : string;
  co_peers : gmap string ServiceClient;
  co_conns : gmap string ClientConn;
  co_configuredPeers : list string;
  co_timeout : Duration;
}.

#[export] Instance coordinator_peer_directory : PeerDirectory Coordinator := co_configuredPeers.

Definition with_peers (peers : gmap string ServiceClient) (conns : gmap string ClientConn)
    (c : Coordinator) : Coordinator :=
  mkCoordinator (co_nodeID c) peers conns (co_configuredPeers c) (co_timeout c).

Definition GetConnectedPeerAddresses (sched : schedule string) (c : Coordinator) : list string :=
  sched (map_to_list (co_peers c)).*1.

Section Connections.
Context {E : Type} `{!Network E}.

Definition addPeer (addr : string) (c : Coordinator) : option error * Coordinator :=
  match co_peers c !! addr with
  | Some _ => (None, c)
  | None =>
      let target := "dns:///" +:+ addr in
      match net_NewClient target with
      | Some err => (Some err, c)
      | None =>
          (None, with_peers (<[addr := mkClient target]> (co_peers c))
                   (<[addr := mkConn target true]> (co_conns c)) c)
      end
  end.

Definition removePeer (addr : string) (c : Coordinator) : Coordinator :=
  match co_conns c !! addr with
  | Some _ => with_peers (delete addr (co_peers c)) (delete addr (co_conns c)) c
  | None => c
  end.

(** A failed [addPeer] is only logged. *)
Definition NewCoordinator (nodeID : string) (peerAddrs : list string) (timeout : Duration) : Coordinator :=
  fold_left (λ c addr, (addPeer addr c).2) peerAddrs (mkCoordinator nodeID ∅ ∅ peerAddrs timeout).

(** The two loops of [reconcilePeers]; the orders are those of the two map
    iterations. *)
Definition reconcilePeers (ord_current ord_new : schedule string) (newPeerAddrs : list string)
    (c : Coordinator) : Coordinator :=
  let newPeerSet : gset string := list_to_set newPeerAddrs in
  let currentPeers := ord_current (map_to_list (co_peers c)).*1 in
  let c1 := fold_left (λ c addr, if decide (addr ∈ newPeerSet) then c else removePeer addr c)
              currentPeers c in
  fold_left (λ c addr, match co_peers c !! addr with
                       | Some _ => c
                       | None => (addPeer addr c).2
                       end)
    (ord_new (elements newPeerSet)) c1.

Definition Coordinator_Close (c : Coordinator) : Coordinator :=
  with_peers (co_peers c) ((λ conn, mkConn (conn_target conn) false) <$> co_conns c) c.
End Connections.

(** ** DNS discovery *)

Section Discovery.
Context (LookupHost LookupAddr : string → list string + error).

(** The first name that contains the pattern, [""] if there is none. *)
Definition find_pod_fqdn (pattern : string) (names : list string) : string :=
  default "" (List.find (λ name, go_contains name pattern) names).

(** The body of the loop over the addresses. *)
Definition discover_ip (nodeID headlessSvc namespace : string) (peers : list string) (ip : string) :
    list string :=
  let headlessPattern := "." +:+ headlessSvc +:+ "." +:+ namespace +:+ ".svc.cluster.local" in
  match LookupAddr ip with
  | inr _ => peers
  | inl [] => peers
  | inl names =>
      let podFQDN := find_pod_fqdn headlessPattern names in
      if decide (podFQDN = "") then peers
      else
        match go_split "."%char podFQDN with
        | podName :: _ :: _ =>
            if decide (podName = nodeID) then peers
            else peers ++ [podName +:+ "." +:+ headlessSvc +:+ "." +:+ namespace +:+ ".svc.cluster.local:8080"]
        | _ => peers
        end
  end.

Definition DiscoverPeersDNS (nodeID headlessSvc namespace : string) : list string + error :=
  let fqdn := headlessSvc +:+ "." +:+ namespace +:+ ".svc.cluster.local" in
  match LookupHost fqdn with
  | inr err => inr ("dns lookup failed for " +:+ fqdn +:+ ": " +:+ err)
  | inl ips => inl (fold_left (discover_ip nodeID headlessSvc namespace) ips [])
  end.
End Discovery.

(** The loop of [StartPeerDiscovery]: what the resolver answers at each tick,
    with the iteration orders of that tick, or the end of the context. *)
Inductive discovery_event :=
  | DTick (LookupHost LookupAddr : string → list string + error) (ord_current ord_new : schedule string)
  | DDone.

Fixpoint StartPeerDiscovery {E} `{!Network E} (nodeID headlessSvc namespace : string)
    (evs : list discovery_event) (c : Coordinator) : Coordinator :=
  match evs with
  | [] => c
  | DDone :: _ => c
  | DTick lh la o1 o2 :: evs =>
      StartPeerDiscovery nodeID headlessSvc namespace evs
        match DiscoverPeersDNS lh la nodeID headlessSvc namespace with
        | inr _ => c
        | inl peers => reconcilePeers o1 o2 peers c
        end
  end.

(** ** Replication *)

Record ReplicateResult := mkResult {
  rr_PeerAddr : string;
  rr_Success : bool;
  rr_Latency : Duration;
  rr_Error : option error;
}.

Record ReplicaValue := mkReplicaValue {
  rv_PeerAddr : string;
  rv_Value : bytes;
  rv_Version : Z;
  rv_Timestamp : Z;
  rv_HLC : HLC;
  rv_IsStale : bool;
  rv_Found : bool;
}.

Definition zero_ReplicaValue : ReplicaValue := mkReplicaValue "" [] 0 0 zero_HLC false false.

Section Calls.
Context {E : Type} `{!Network E}.

(** The goroutine [Replicate] starts for one peer. *)
Definition replicate_to (req : ReplicateRequest) (peer : string * ServiceClient) : GoM E ReplicateResult :=
  start <- time_now ;;
  r <- net_Replicate (cl_target peer.2) req ;;
  now <- time_now ;;
  let latency := Since now start in
  let observe := [HVObserve ReplicateLatency peer.1 (Duration_Seconds latency)] in
  match (r : ReplicateResponse + error) with
  | inr err =>
      emit ([CVInc ReplicateAcks "failure"; CVInc Errors "rpc"] ++ observe) ;;;
      ret (mkResult peer.1 false latency (Some err))
  | inl resp =>
      if negb (rresp_Success resp) then
        emit ([CVInc ReplicateAcks "failure"] ++ observe) ;;;
        ret (mkResult peer.1 false latency (Some ("peer reported failure: " +:+ rresp_Error resp)))
      else
        emit ([CVInc ReplicateAcks "success"] ++ observe) ;;;
        ret (mkResult peer.1 true latency None)
  end.

(** (acks, results, error).  The goroutines take effect in the order of [sched],
    which is also the order their results arrive in. *)
Definition Coordinator_Replicate (sched : schedule (string * ServiceClient)) (c : Coordinator)
    (key : string) (value : bytes) (version timestamp : Z) (hlcTimestamp : HLC) (requiredAcks : Z) :
    GoM E (Z * list ReplicateResult * option error) :=
  let peerList := map_to_list (co_peers c) in
  if (length peerList =? 0)%nat then ret (1, [], None)
  else
    let req := mkReplicateRequest key value version timestamp (co_nodeID c)
                 (Some (HLC_ToProto hlcTimestamp)) in
    acc <-
      foldM (λ acc peer,
          result <- replicate_to req peer ;;
          ret (acc.1 ++ [result], if rr_Success result then acc.2 + 1 else acc.2))
        (sched peerList) ([], 1) ;;
    let '(allResults, successCount) := acc in
    if successCount <? requiredAcks then
      ret (successCount, allResults,
           Some ("insufficient acknowledgements: got " +:+ itoa successCount +:+ ", need " +:+
                 itoa requiredAcks))
    else ret (successCount, allResults, None).

(** The goroutine [QueryReplicas] starts for one peer: nothing is sent on the
    channel when the call fails or the peer does not have the key. *)
Definition query_peer (key : string) (peer : string * ServiceClient) : GoM E (option ReplicaValue) :=
  r <- net_GetLocal (cl_target peer.2) (mkGetRequest key) ;;
  match (r : GetResponse + error) with
  | inr _ => emit [CVInc Errors "rpc"] ;;; ret None
  | inl resp =>
      if gresp_Found resp then
        ret (Some (mkReplicaValue peer.1 (gresp_Value resp) (gresp_Version resp) (gresp_Timestamp resp)
                     (FromProto (gresp_Hlc resp)) (gresp_IsStale resp) true))
      else ret None
  end.

Definition QueryReplicas (sched : schedule (string * ServiceClient)) (c : Coordinator)
    (key : string) (requiredResponses : Z) : GoM E (list ReplicaValue + error) :=
  let peerList := map_to_list (co_peers c) in
  if (length peerList =? 0)%nat then
    if requiredResponses >? 1 then
      ret (inr ("insufficient replicas: need " +:+ itoa requiredResponses +:+ ", have only self"))
    else ret (inl [])
  else
    allResults <-
      foldM (λ acc peer,
          result <- query_peer key peer ;;
          ret (match result with Some v => acc ++ [v] | None => acc end))
        (sched peerList) [] ;;
    let totalResponses := Z.of_nat (length allResults) + 1 in
    if totalResponses <? requiredResponses then
      ret (inr ("insufficient responses: got " +:+ itoa totalResponses +:+ ", need " +:+
                itoa requiredResponses))
    else ret (inl allResults).
End Calls.

#[global] Arguments Coordinator_Replicate : simpl never.
#[global] Arguments QueryReplicas : simpl never.

Definition GetMostRecent (values : list ReplicaValue) : ReplicaValue * bool :=
  match values with
  | [] => (zero_ReplicaValue, false)
  | v0 :: rest =>
      (fold_left (λ mostRecent v, if HLC_HappensAfter (rv_HLC v) (rv_HLC mostRecent) then v else mostRecent)
         rest v0, true)
  end.

(** ** Invariant of the connection maps *)

Definition target_of (addr : string) : string := "dns:///" +:+ addr.

#[export] Instance target_of_inj : Inj (=) (=) target_of.
Proof. intros a b H. by apply (inj (String.append "dns:///")) in H. Qed.

(** The two maps have the same keys and every client talks to its key. *)
Record coord_wf (c : Coordinator) : Prop := {
  coord_wf_dom : dom (co_conns c) = dom (co_peers c);
  coord_wf_target : ∀ a cl, co_peers c !! a = Some cl → cl = mkClient (target_of a);
  coord_wf_conn : ∀ a cn, co_conns c !! a = Some cn → conn_target cn = target_of a;
}.

Section Invariant.
Context {E : Type} `{!Network E}.

Definition dialable (addr : string) : Prop := net_NewClient (target_of addr) = None.
#[local] Instance dialable_dec addr : Decision (dialable addr).
Proof. unfold dialable. destruct (net_NewClient _); [right|left]; done. Defined.

Lemma add_peer_peers addr c a :
  co_peers (addPeer addr c).2 !! a =
  match co_peers c !! a with
  | Some cl => Some cl
  | None => if decide (a = addr ∧ dialable a) then Some (mkClient (target_of a)) else None
  end.
Proof.
  unfold addPeer. fold (target_of addr). unfold dialable. destruct (co_peers c !! addr) eqn:E1.
  { simpl. destruct (co_peers c !! a) eqn:E2; [done|]. rewrite decide_False; [done|]. naive_solver. }
  destruct (net_NewClient (target_of addr)) eqn:E2; simpl.
  { destruct (co_peers c !! a) eqn:E3; [done|]. rewrite decide_False; [done|]. naive_solver. }
  destruct (decide (addr = a)) as [->|Hne].
  - rewrite lookup_insert_eq, E1. by rewrite decide_True.
  - rewrite lookup_insert_ne by done. destruct (co_peers c !! a); [done|].
    rewrite decide_False; [done|]. naive_solver.
Qed.

Lemma add_peer_wf addr c : coord_wf c → coord_wf (addPeer addr c).2.
Proof.
  intros [Hd Ht Hc]. unfold addPeer. fold (target_of addr).
  destruct (co_peers c !! addr) eqn:E1; [by split|].
  destruct (net_NewClient (target_of addr)); [by split|]. split; simpl.
  - rewrite !dom_insert_L. by rewrite Hd.
  - intros a cl. rewrite lookup_insert_Some. naive_solver.
  - intros a cl. rewrite lookup_insert_Some. naive_solver.
Qed.

Lemma remove_peer_peers addr c a :
  coord_wf c → co_peers (removePeer addr c) !! a = if decide (a = addr) then None else co_peers c !! a.
Proof.
  intros [Hd _ _]. unfold removePeer. destruct (co_conns c !! addr) eqn:E1; simpl.
  - destruct (decide (a = addr)) as [->|]; [apply lookup_delete_eq|by apply lookup_delete_ne].
  - case_decide as Ha; [|done]. subst. apply not_elem_of_dom. rewrite <- Hd. by apply not_elem_of_dom.
Qed.

Lemma remove_peer_wf addr c : coord_wf c → coord_wf (removePeer addr c).
Proof.
  intros [Hd Ht Hc]. unfold removePeer. destruct (co_conns c !! addr); [|by split]. split; simpl.
  - rewrite !dom_delete_L. by rewrite Hd.
  - intros a cl [? ?]%lookup_delete_Some. by apply Ht.
  - intros a cl [? ?]%lookup_delete_Some. by apply Hc.
Qed.

Lemma new_coordinator_wf nodeID addrs timeout : coord_wf (NewCoordinator nodeID addrs timeout).
Proof.
  unfold NewCoordinator. apply (fold_left_inv _ coord_wf); [|intros; by apply add_peer_wf].
  split; simpl; [done|done|done].
Qed.

(** The loop that drops the peers missing from [keep]. *)
Lemma remove_loop (keep : gset string) l : ∀ c,
  coord_wf c →
  let c' := fold_left (λ c addr, if decide (addr ∈ keep) then c else removePeer addr c) l c in
  coord_wf c' ∧ ∀ a, co_peers c' !! a = if decide (a ∈ l ∧ a ∉ keep) then None else co_peers c !! a.
Proof.
  induction l as [|x l IH]; intros c Hwf; cbv zeta; cbn [fold_left].
  { split; [done|]. intros a. case_decide; set_solver. }
  destruct (decide (x ∈ keep)) as [Hk|Hk].
  - destruct (IH c Hwf) as [H1 H2]. split; [done|]. intros a. rewrite H2.
    apply decide_ext. set_solver.
  - destruct (IH (removePeer x c)) as [H1 H2]; [by apply remove_peer_wf|]. split; [done|].
    intros a. rewrite H2, remove_peer_peers by done.
    destruct (decide (a = x)) as [->|].
    + rewrite (decide_True (P := x ∈ x :: l ∧ _)); [by case_decide|set_solver].
    + apply decide_ext. set_solver.
Qed.

(** The loop that connects the missing ones. *)
Lemma add_loop l : ∀ c,
  coord_wf c →
  let c' := fold_left (λ c addr, match co_peers c !! addr with
                                 | Some _ => c | None => (addPeer addr c).2 end) l c in
  coord_wf c' ∧ ∀ a, co_peers c' !! a =
    match co_peers c !! a with
    | Some cl => Some cl
    | None => if decide (a ∈ l ∧ dialable a) then Some (mkClient (target_of a)) else None
    end.
Proof.
  induction l as [|x l IH]; intros c Hwf; cbv zeta; cbn [fold_left].
  { split; [done|]. intros a. destruct (co_peers c !! a); [done|]. case_decide; set_solver. }
  set (c1 := match co_peers c !! x with Some _ => c | None => _ end).
  assert (coord_wf c1 ∧ c1 = (addPeer x c).2) as [Hwf1 Heq].
  { unfold c1. destruct (co_peers c !! x) eqn:E1; [|split; [by apply add_peer_wf|done]].
    split; [done|]. unfold addPeer. by rewrite E1. }
  destruct (IH c1 Hwf1) as [H1 H2]. split; [done|]. intros a. rewrite H2, Heq, add_peer_peers.
  destruct (co_peers c !! a); [done|].
  destruct (decide (a = x ∧ dialable a)) as [[-> Hd]|Hn].
  - rewrite decide_True; [done|]. set_solver.
  - apply decide_ext. set_solver.
Qed.

Lemma reconcile_peers_spec o1 o2 new c :
  fair_schedule o1 → fair_schedule o2 → coord_wf c →
  let c' := reconcilePeers o1 o2 new c in
  coord_wf c' ∧ ∀ a, co_peers c' !! a =
    if decide (a ∈ new) then
      match co_peers c !! a with
      | Some cl => Some cl
      | None => if decide (dialable a) then Some (mkClient (target_of a)) else None
      end
    else None.
Proof.
  intros Ho1 Ho2 Hwf. cbv zeta. unfold reconcilePeers.
  destruct (remove_loop (list_to_set new) (o1 (map_to_list (co_peers c)).*1) c Hwf) as [Hwf1 Hl1].
  destruct (add_loop (o2 (elements (list_to_set new : gset string))) _ Hwf1) as [Hwf2 Hl2].
  split; [done|]. intros a. rewrite Hl2, Hl1.
  assert (a ∈ o1 (map_to_list (co_peers c)).*1 ↔ is_Some (co_peers c !! a)) as Hcur.
  { rewrite fair_elem_of by done. rewrite list_elem_of_fmap. split.
    - intros ([a' cl] & -> & ?%elem_of_map_to_list). by exists cl.
    - intros [cl ?]. exists (a, cl). split; [done|]. by apply elem_of_map_to_list. }
  assert (a ∈ o2 (elements (list_to_set new : gset string)) ↔ a ∈ new) as Hnew.
  { rewrite fair_elem_of by done. by rewrite elem_of_elements, elem_of_list_to_set. }
  assert (a ∈ (list_to_set new : gset string) ↔ a ∈ new) as Hset by (by rewrite elem_of_list_to_set).
  destruct (co_peers c !! a); repeat case_decide; naive_solver.
Qed.
End Invariant.

(** ** Replicate and QueryReplicas against the network's contract *)

Definition succ_results (results : list ReplicateResult) : list ReplicateResult :=
  List.filter rr_Success results.

Section CallSpecs.
Context {E : Type} `{!Network E}.

Definition replicate_body (req : ReplicateRequest) (acc : list ReplicateResult * Z)
    (peer : string * ServiceClient) : GoM E (list ReplicateResult * Z) :=
  result <- replicate_to req peer ;;
  ret (acc.1 ++ [result], if rr_Success result then acc.2 + 1 else acc.2).

Definition query_body (key : string) (acc : list ReplicaValue) (peer : string * ServiceClient) :
    GoM E (list ReplicaValue) :=
  result <- query_peer key peer ;;
  ret (match result with Some v => acc ++ [v] | None => acc end).

Lemma replicate_to_addr req peer (e : E) w : rr_PeerAddr (replicate_to req peer e w).1.1 = peer.1.
Proof.
  unfold replicate_to, bind, time_now. destruct (net_Replicate _ _ _ _) as [[[resp|err] e'] w']; simpl; [|done].
  by destruct (rresp_Success resp).
Qed.

(** One result per peer, in arrival order, and the count of the successes. *)
Lemma replicate_loop_results req l : ∀ acc (e : E) w,
  ∃ rs, (foldM (replicate_body req) l acc e w).1.1
          = (acc.1 ++ rs, acc.2 + Z.of_nat (length (succ_results rs))) ∧
        map rr_PeerAddr rs = l.*1.
Proof.
  induction l as [|p l IH]; intros [rs0 n] e w; cbn [foldM].
  { exists []. simpl. by rewrite app_nil_r, Z.add_0_r. }
  pose proof (replicate_to_addr req p e w) as Ha.
  unfold replicate_body at 1. unfold bind at 1 2.
  destruct (replicate_to req p e w) as [[r e1] w1]. cbn [ret fst snd] in *.
  destruct (IH (rs0 ++ [r], if rr_Success r then n + 1 else n) e1 w1) as (rs & -> & Hrs).
  exists (r :: rs). cbn [fst snd fmap list_fmap map]. split; [|by rewrite Ha, Hrs].
  unfold succ_results. cbn [List.filter]. rewrite <- app_assoc. f_equal.
  destruct (rr_Success r); cbn [length]; lia.
Qed.

Lemma query_peer_shape key peer (e : E) w v :
  (query_peer key peer e w).1.1 = Some v → rv_PeerAddr v = peer.1.
Proof.
  unfold query_peer, bind. destruct (net_GetLocal _ _ _ _) as [[[resp|err] e'] w']; simpl; [|done].
  destruct (gresp_Found resp); [|done]. by intros [= <-].
Qed.
End CallSpecs.

(** What every remote call preserves, an operation of the coordinator preserves. *)
Section EnvInvariant.
Context {E : Type} `{!Network E} (P : E → Prop).
Hypothesis replicate_keeps : ∀ t req e w, P e → P (net_Replicate t req e w).1.2.
Hypothesis getlocal_keeps : ∀ t req e w, P e → P (net_GetLocal t req e w).1.2.

Lemma coordinator_replicate_keeps sched c key value ver tst h W (e : E) w :
  P e → P (Coordinator_Replicate sched c key value ver tst h W e w).1.2.
Proof.
  intros He. unfold Coordinator_Replicate. destruct (_ =? 0)%nat; [done|].
  match goal with |- context [foldM ?f ?l ?b] =>
    pose proof (foldM_inv f (λ _ e, P e) l b e w He) as H; unfold bind at 1;
    destruct (foldM f l b e w) as [[[rs n] e'] w'] end.
  simpl in H. destruct (_ <? _); simpl; apply H; clear -replicate_keeps; intros b e w a _ He;
    unfold bind, replicate_to, bind, time_now;
    match goal with |- context [net_Replicate ?t ?r e ?w0] =>
      pose proof (replicate_keeps t r e w0 He); destruct (net_Replicate t r e w0) as [[[resp|err] e1] w1] end;
    simpl in *; try done; by destruct (rresp_Success resp).
Qed.

Lemma query_replicas_keeps sched c key R (e : E) w :
  P e → P (QueryReplicas sched c key R e w).1.2.
Proof.
  intros He. unfold QueryReplicas. destruct (_ =? 0)%nat; [by destruct (_ >? _)|].
  match goal with |- context [foldM ?f ?l ?b] =>
    pose proof (foldM_inv f (λ _ e, P e) l b e w He) as H; unfold bind at 1;
    destruct (foldM f l b e w) as [[rs e'] w'] end.
  simpl in H. destruct (_ <? _); simpl; apply H; clear -getlocal_keeps; intros b e w a _ He;
    unfold bind, query_peer, bind;
    match goal with |- context [net_GetLocal ?t ?r e ?w0] =>
      pose proof (getlocal_keeps t r e w0 He); destruct (net_GetLocal t r e w0) as [[[resp|err] e1] w1] end;
    simpl in *; try done; by destruct (gresp_Found resp).
Qed.
End EnvInvariant.

Section Replicas.
Context {E : Type} `{!Network E, !ReplicaNetwork E}.
Implicit Types (e : E) (w : World).

(** A lookup that differs at most by having been overwritten with [req]. *)
Definition maybe_stores (req : ReplicateRequest) (e e' : E) (t : string) : Prop :=
  net_lookup e' t (rreq_Key req) = net_lookup e t (rreq_Key req) ∨
  stores_request req (net_lookup e' t (rreq_Key req)).

Lemma maybe_stores_trans req e1 e2 e3 t :
  maybe_stores req e1 e2 t → maybe_stores req e2 e3 t → maybe_stores req e1 e3 t.
Proof. unfold maybe_stores. intros H1 [->|?]; tauto. Qed.

Lemma replicate_to_spec req addr cl e w :
  let '(r, e', _) := replicate_to req (addr, cl) e w in
  (∀ t k, t ≠ cl_target cl ∨ k ≠ rreq_Key req → net_lookup e' t k = net_lookup e t k) ∧
  (∀ t, maybe_stores req e e' t) ∧
  (rr_Success r = true → stores_request req (net_lookup e' (cl_target cl) (rreq_Key req))).
Proof.
  unfold replicate_to, bind, time_now. simpl.
  set (w0 := mkWorld _ _ _).
  pose proof (λ t k, net_replicate_frame (cl_target cl) req e w0 t k) as Hf.
  pose proof (net_replicate_effect (cl_target cl) req e w0) as He.
  destruct (net_Replicate (cl_target cl) req e w0) as [[r e'] w']. simpl in Hf.
  assert (∀ t, maybe_stores req e e' t) as Hm.
  { intros t. destruct (decide (t = cl_target cl)) as [->|Hne].
    - destruct He as [[H _]|H]; [by left|by right].
    - left. apply Hf. by left. }
  destruct r as [resp|err]; simpl; [|done].
  destruct (rresp_Success resp) eqn:Hs; simpl; [|done].
  split_and!; [done|done|]. intros _. destruct He as [[_ H]|H]; [|done].
  rewrite (H resp eq_refl) in Hs. done.
Qed.

Lemma replicate_loop_effect req l : ∀ acc e w,
  NoDup (map (λ p, cl_target p.2) l) →
  let '((rs, _), e', _) := foldM (replicate_body req) l acc e w in
  (∀ t k, t ∉ map (λ p, cl_target p.2) l ∨ k ≠ rreq_Key req → net_lookup e' t k = net_lookup e t k) ∧
  (∀ t, maybe_stores req e e' t) ∧
  (∀ r, r ∈ rs → rr_Success r = true → r ∈ acc.1 ∨
     ∃ cl, (rr_PeerAddr r, cl) ∈ l ∧ stores_request req (net_lookup e' (cl_target cl) (rreq_Key req))).
Proof.
  induction l as [|[addr cl] l IH]; intros [rs0 n] e w Hnd; cbn [foldM].
  { simpl. split_and!; try done; [by left|]. by intros; left. }
  pose proof (replicate_to_spec req addr cl e w) as H0.
  pose proof (replicate_to_addr req (addr, cl) e w) as Ha.
  unfold replicate_body at 1. unfold bind at 1 2.
  destruct (replicate_to req (addr, cl) e w) as [[r e1] w1]. cbn [ret fst snd] in *.
  destruct H0 as (Hf0 & Hm0 & Hs0). apply NoDup_cons in Hnd as [Hni Hnd].
  specialize (IH (rs0 ++ [r], if rr_Success r then n + 1 else n) e1 w1 Hnd).
  destruct (foldM (replicate_body req) l _ e1 w1) as [[[rs n'] e'] w'].
  destruct IH as (Hf & Hm & Hs). split_and!.
  - intros t k Hd. cbn [map] in Hd. rewrite not_elem_of_cons in Hd. rewrite Hf, Hf0; tauto.
  - intros t. by eapply maybe_stores_trans.
  - intros r' Hin Hr'. destruct (Hs r' Hin Hr') as [Hacc|(cl' & Hl & Hst)].
    + apply elem_of_app in Hacc as [?|Hr%list_elem_of_singleton]; [by left|]. subst r'.
      right. exists cl. rewrite Ha. split; [by left|]. rewrite Hf by (by left). by apply Hs0.
    + right. exists cl'. split; [by right|done].
Qed.

Lemma query_loop_effect key l : ∀ acc e w,
  let '(vs, e', _) := foldM (query_body key) l acc e w in
  (∀ t k, net_lookup e' t k = net_lookup e t k) ∧
  ∃ new, vs = acc ++ new ∧ sublist (map rv_PeerAddr new) l.*1 ∧
    (∀ v, v ∈ new → ∃ cl vv, (rv_PeerAddr v, cl) ∈ l ∧ net_lookup e (cl_target cl) key = Some vv ∧
       rv_HLC v = vv_HLC vv ∧ rv_Value v = vv_Value vv).
Proof.
  induction l as [|[addr cl] l IH]; intros acc e w; cbn [foldM].
  { split; [done|]. exists []. rewrite app_nil_r. split_and!; [done|constructor|set_solver]. }
  unfold query_body at 1. unfold bind at 1 2.
  assert (∀ t k, net_lookup (query_peer key (addr, cl) e w).1.2 t k = net_lookup e t k) as Hf0.
  { intros t k. rewrite <- (net_getlocal_frame (cl_target cl) (mkGetRequest key) e w t k).
    unfold query_peer, bind. simpl. destruct (net_GetLocal _ _ _ _) as [[[resp|err] e1] w1]; [|done].
    by destruct (gresp_Found resp). }
  assert (∀ v, (query_peer key (addr, cl) e w).1.1 = Some v → ∃ vv, rv_PeerAddr v = addr ∧
     net_lookup e (cl_target cl) key = Some vv ∧ rv_HLC v = vv_HLC vv ∧ rv_Value v = vv_Value vv) as Hv.
  { intros v. pose proof (net_getlocal_value (cl_target cl) (mkGetRequest key) e w) as Hg.
    unfold query_peer, bind. simpl. destruct (net_GetLocal _ _ _ _) as [[[resp|err] e1] w1]; [|done].
    specialize (Hg resp eq_refl). destruct (gresp_Found resp); [|done].
    intros [= <-]. destruct Hg as (vv & ? & ? & ?). exists vv. done. }
  destruct (query_peer key (addr, cl) e w) as [[r e1] w1]. cbn [ret fst snd] in *.
  specialize (IH (match r with Some v => acc ++ [v] | None => acc end) e1 w1).
  destruct (foldM (query_body key) l _ e1 w1) as [[vs e'] w'].
  destruct IH as (Hf & new & Hvs & Hsub & Hnew). split; [intros; by rewrite Hf, Hf0|].
  assert (∀ v, v ∈ new → ∃ cl0 vv, (rv_PeerAddr v, cl0) ∈ (addr, cl) :: l ∧
     net_lookup e (cl_target cl0) key = Some vv ∧ rv_HLC v = vv_HLC vv ∧ rv_Value v = vv_Value vv) as Hnew'.
  { intros v Hin. destruct (Hnew v Hin) as (cl0 & vv & ? & Hl & ?). rewrite Hf0 in Hl.
    exists cl0, vv. split; [by right|done]. }
  destruct r as [v|].
  - destruct (Hv v eq_refl) as (vv & Hva & Hl & Hrest). exists (v :: new). split_and!.
    + by rewrite Hvs, <- app_assoc.
    + cbn [map fmap list_fmap fst]. rewrite Hva. by constructor.
    + intros v' [->|?]%elem_of_cons; [|by apply Hnew']. exists cl, vv. rewrite Hva. split; [by left|done].
  - exists new. split_and!; [done|by constructor|done].
Qed.
End Replicas.

(** ** The two operations as a whole *)

Definition holds_write (o : option VersionedValue) (h : HLC) (value : bytes) : Prop :=
  ∃ vv, o = Some vv ∧ vv_HLC vv = h ∧ vv_Value vv = value.

Lemma stores_holds k v ver t n h o :
  stores_request (mkReplicateRequest k v ver t n (Some (HLC_ToProto h))) o → holds_write o h v.
Proof. intros (vv & ? & Hh & ?). exists vv. by destruct h. Qed.

Lemma peer_list_keys c : (map_to_list (co_peers c)).*1 ≡ₚ elements (dom (co_peers c)).
Proof.
  apply NoDup_Permutation; [apply NoDup_fst_map_to_list|apply NoDup_elements|].
  intros a. rewrite elem_of_elements, elem_of_dom, list_elem_of_fmap. split.
  - intros ([a' cl] & -> & ?%elem_of_map_to_list). by exists cl.
  - intros [cl ?]. exists (a, cl). split; [done|]. by apply elem_of_map_to_list.
Qed.

Lemma peer_list_targets c :
  coord_wf c → map (λ p, cl_target p.2) (map_to_list (co_peers c)) = map target_of (map_to_list (co_peers c)).*1.
Proof.
  intros Hwf. change (map target_of ?l) with (target_of <$> l). rewrite <- list_fmap_compose.
  apply map_ext_in. intros [a cl] Hin%list_elem_of_In%elem_of_map_to_list.
  by rewrite (coord_wf_target c Hwf a cl Hin).
Qed.

Lemma no_peers_iff c : length (map_to_list (co_peers c)) = 0%nat ↔ co_peers c = ∅.
Proof. rewrite length_zero_iff_nil. apply map_to_list_empty_iff. Qed.

Lemma list_to_set_size {A} `{Countable A} (l : list A) : NoDup l → size (list_to_set l : gset A) = length l.
Proof. intros. rewrite size_list_to_set; done. Qed.

Lemma sublist_filter_map {A B} (f : A → B) (p : A → bool) (l : list A) :
  sublist (map f (List.filter p l)) (map f l).
Proof. induction l as [|a l IH]; simpl; [constructor|]. destruct (p a); by constructor. Qed.

Section Whole.
Context {E : Type} `{!Network E, !ReplicaNetwork E}.
Implicit Types (e : E) (w : World).

Lemma sched_keys_nodup (sched : schedule (string * ServiceClient)) c :
  fair_schedule sched → NoDup (sched (map_to_list (co_peers c))).*1.
Proof. intros H. rewrite (H _). apply NoDup_fst_map_to_list. Qed.

Lemma sched_targets_nodup (sched : schedule (string * ServiceClient)) c :
  fair_schedule sched → coord_wf c → NoDup (map (λ p, cl_target p.2) (sched (map_to_list (co_peers c)))).
Proof.
  intros Hf Hwf. change (map ?f ?l) with (f <$> l). rewrite (Hf _).
  change (?f <$> ?l) with (map f l). rewrite peer_list_targets by done.
  change (map ?f ?l) with (f <$> l). apply (NoDup_fmap_2 target_of), NoDup_fst_map_to_list.
Qed.

(** Every scheduled call goes to a peer, at the target of its address. *)
Lemma sched_peer (sched : schedule (string * ServiceClient)) c a cl :
  fair_schedule sched → coord_wf c → (a, cl) ∈ sched (map_to_list (co_peers c)) →
  a ∈ dom (co_peers c) ∧ cl = mkClient (target_of a).
Proof.
  intros Hf Hwf Hin. rewrite fair_elem_of in Hin by done.
  apply elem_of_map_to_list in Hin. split; [by eapply elem_of_dom_2|by eapply coord_wf_target].
Qed.

Lemma sched_not_target (sched : schedule (string * ServiceClient)) c t :
  fair_schedule sched → coord_wf c → (∀ a, a ∈ dom (co_peers c) → t ≠ target_of a) →
  t ∉ map (λ p, cl_target p.2) (sched (map_to_list (co_peers c))).
Proof.
  intros Hf Hwf Ht ([a cl] & <- & Hin)%list_elem_of_In%in_map_iff.
  apply list_elem_of_In, sched_peer in Hin as [? ->]; [by apply (Ht a)|done|done].
Qed.

Lemma replicate_spec sched c key value ver tst h W e w :
  fair_schedule sched → coord_wf c →
  let '((acks, results, err), e', _) := Coordinator_Replicate sched c key value ver tst h W e w in
  ∃ acked : gset string,
    acked ⊆ dom (co_peers c) ∧ acks = 1 + Z.of_nat (size acked) ∧
    (err = None ↔ co_peers c = ∅ ∨ W <= acks) ∧
    (∀ a, a ∈ acked → holds_write (net_lookup e' (target_of a) key) h value) ∧
    (∀ t k, k ≠ key → net_lookup e' t k = net_lookup e t k) ∧
    (∀ t, (∀ a, a ∈ dom (co_peers c) → t ≠ target_of a) → net_lookup e' t key = net_lookup e t key) ∧
    (∀ t, net_lookup e' t key = net_lookup e t key ∨ holds_write (net_lookup e' t key) h value).
Proof.
  intros Hf Hwf. unfold Coordinator_Replicate.
  destruct (length (map_to_list (co_peers c)) =? 0)%nat eqn:E0.
  { apply Nat.eqb_eq, no_peers_iff in E0. exists ∅. rewrite size_empty.
    split_and!; try done; try set_solver; try naive_solver. }
  apply Nat.eqb_neq in E0. rewrite no_peers_iff in E0.
  set (req := mkReplicateRequest _ _ _ _ _ _). fold (replicate_body (E := E) req).
  set (l := sched (map_to_list (co_peers c))).
  pose proof (sched_targets_nodup sched c Hf Hwf) as Hnd. fold l in Hnd.
  unfold bind. pose proof (replicate_loop_results req l ([], 1) e w) as (rs & Hres & Hadd).
  pose proof (replicate_loop_effect req l ([], 1) e w Hnd) as Heff.
  change (λ acc peer, bind (replicate_to req peer) _) with (replicate_body (E := E) req).
  destruct (foldM (replicate_body req) l ([], 1) e w) as [[[rs' n] e'] w'].
  cbn [fst snd app] in Hres. injection Hres as -> ->.
  destruct Heff as (Hfr & Hm & Hs).
  assert (NoDup (map rr_PeerAddr (succ_results rs))) as Hnd2.
  { apply (sublist_NoDup _ (map rr_PeerAddr rs)); [|apply sublist_filter_map]. rewrite Hadd. by apply sched_keys_nodup. }
  assert (∀ a, a ∈ map rr_PeerAddr (succ_results rs) →
     a ∈ dom (co_peers c) ∧ holds_write (net_lookup e' (target_of a) key) h value) as Ha.
  { intros a (r & <- & Hr)%list_elem_of_In%in_map_iff.
    unfold succ_results in Hr. apply list_elem_of_In, elem_of_bfilter in Hr as [Hin Hok].
    destruct (Hs r Hin Hok) as [?|(cl & Hcl & Hst)]; [set_solver|].
    destruct (sched_peer _ _ _ _ Hf Hwf Hcl) as [? ->]. split; [done|]. by eapply stores_holds. }
  match goal with |- context [if ?b then _ else _] => destruct b eqn:E1 end; cbn [ret].
  all: exists (list_to_set (map rr_PeerAddr (succ_results rs))).
  all: rewrite list_to_set_size, length_map by done.
  all: split_and!.
  all: try (intros a Hin%elem_of_list_to_set; by apply Ha).
  all: try (intros t k Hk; apply Hfr; right; done).
  all: try (intros t; destruct (Hm t) as [?|?]; [by left|right; by eapply stores_holds]).
  all: try (intros t Ht; apply Hfr; left; by apply sched_not_target).
  - done.
  - split; [done|]. intros [?|?]; [done|lia].
  - done.
  - split; [|done]. intros _. right. lia.
Qed.

Lemma query_spec sched c key R e w :
  fair_schedule sched → coord_wf c →
  let '(res, e', _) := QueryReplicas sched c key R e w in
  (∀ t k, net_lookup e' t k = net_lookup e t k) ∧
  match res with
  | inr err => err ≠ ""
  | inl vals =>
      NoDup (map rv_PeerAddr vals) ∧ R <= Z.of_nat (length vals) + 1 ∧
      ∀ v, v ∈ vals → rv_PeerAddr v ∈ dom (co_peers c) ∧
        holds_write (net_lookup e (target_of (rv_PeerAddr v)) key) (rv_HLC v) (rv_Value v)
  end.
Proof.
  intros Hf Hwf. unfold QueryReplicas.
  destruct (length (map_to_list (co_peers c)) =? 0)%nat.
  { destruct (R >? 1) eqn:ER; simpl; [done|]. split; [done|]. split_and!; [constructor|lia|set_solver]. }
  change (λ acc peer, bind (query_peer key peer) _) with (query_body (E := E) key).
  unfold bind. pose proof (query_loop_effect key (sched (map_to_list (co_peers c))) [] e w) as H.
  destruct (foldM (query_body key) _ [] e w) as [[vs e'] w']. destruct H as (Hfr & new & -> & Hsub & Hnew).
  simpl. destruct (_ <? R) eqn:ER; simpl; (split; [done|]); [done|]. split_and!; [|lia|].
  - exact (sublist_NoDup _ _ (sched_keys_nodup sched c Hf) Hsub).
  - intros v Hv. destruct (Hnew v Hv) as (cl & vv & Hin & Hlk & ? & ?).
    rewrite fair_elem_of in Hin by done. apply elem_of_map_to_list in Hin.
    pose proof (coord_wf_target c Hwf _ _ Hin) as ->. split; [by eapply elem_of_dom_2|].
    exists vv. done.
Qed.
End Whole.

(** The most recent of a list of values. *)
Lemma most_recent_fold rest : ∀ v0,
  let m := fold_left (λ mostRecent v,
             if HLC_HappensAfter (rv_HLC v) (rv_HLC mostRecent) then v else mostRecent) rest v0 in
  m ∈ v0 :: rest ∧ ∀ v, v ∈ v0 :: rest → rv_HLC v ≼h rv_HLC m.
Proof.
  induction rest as [|x rest IH]; intros v0; cbv zeta; cbn [fold_left].
  { split; [by left|]. intros v ->%list_elem_of_singleton. reflexivity. }
  destruct (HLC_HappensAfter (rv_HLC x) (rv_HLC v0)) eqn:Ex.
  - destruct (IH x) as [Hin Hmax]. split; [set_solver|].
    intros v [->|Hv]%elem_of_cons; [|by apply Hmax].
    pose proof (Hmax x ltac:(by left)). hlc_order.
  - destruct (IH v0) as [Hin Hmax]. split; [set_solver|].
    intros v Hv. apply elem_of_cons in Hv as [->|[->|Hv]%elem_of_cons]; [apply Hmax; by left| |].
    + pose proof (Hmax v0 ltac:(by left)). hlc_order.
    + apply Hmax. by right.
Qed.

Lemma most_recent_spec values :
  match GetMostRecent values with
  | (m, true) => m ∈ values ∧ ∀ v, v ∈ values → rv_HLC v ≼h rv_HLC m
  | (m, false) => values = [] ∧ m = zero_ReplicaValue
  end.
Proof. destruct values as [|v0 rest]; [done|]. apply most_recent_fold. Qed.

(** ** DNS answers for a stateful set *)

Definition headless_pattern (svc ns : string) : string := "." +:+ svc +:+ "." +:+ ns +:+ ".svc.cluster.local".
Definition pod_fqdn (svc ns : string) (i : nat) : string := peer_name i +:+ headless_pattern svc ns +:+ ".".

(** What the resolver of a cluster answers for pod [i] at address [ip]: its name
    under the headless service, possibly after names of other services. *)
Definition pod_answer (LookupAddr : string → list string + error) (svc ns : string) (ip : string) (i : nat) : Prop :=
  ∃ pre post, LookupAddr ip = inl (pre ++ pod_fqdn svc ns i :: post) ∧
    Forall (λ n, go_contains n (headless_pattern svc ns) = false) pre.

Lemma peer_name_no_dot i : str_has "."%char (peer_name i) = false.
Proof. unfold peer_name. rewrite str_has_app, itoa_digits by done. done. Qed.

Lemma find_pod_fqdn_spec svc ns i pre post :
  Forall (λ n, go_contains n (headless_pattern svc ns) = false) pre →
  find_pod_fqdn (headless_pattern svc ns) (pre ++ pod_fqdn svc ns i :: post) = pod_fqdn svc ns i.
Proof.
  unfold find_pod_fqdn. induction 1 as [|n pre Hn _ IH]; cbn [app List.find].
  - unfold pod_fqdn. by rewrite go_contains_app.
  - by rewrite Hn.
Qed.

Lemma discover_ip_spec la nodeID svc ns peers ip i :
  pod_answer la svc ns ip i →
  discover_ip la nodeID svc ns peers ip =
  if bool_decide (peer_name i ≠ nodeID) then peers ++ [peer_addr (peer_name i) svc ns] else peers.
Proof.
  intros (pre & post & Hla & Hpre). unfold discover_ip. fold (headless_pattern svc ns). rewrite Hla.
  destruct (pre ++ pod_fqdn svc ns i :: post) as [|n0 names] eqn:E; [by destruct pre|]. rewrite <- E.
  rewrite find_pod_fqdn_spec by done. clear E Hla.
  rewrite decide_False by (unfold pod_fqdn, peer_name; done).
  unfold pod_fqdn, headless_pattern. rewrite str_app_assoc.
  change ("." +:+ ?x) with (String "." x). rewrite go_split_head by apply peer_name_no_dot.
  match goal with |- context [go_split "."%char ?x] =>
    pose proof (go_split_nonempty "."%char x) as Hne; destruct (go_split "."%char x) end; [done|].
  unfold peer_addr. change ("." +:+ ?x) with (String "." x).
  destruct (decide (peer_name i = nodeID)) as [->|Hd]; [by rewrite bool_decide_false by tauto|].
  by rewrite bool_decide_true.
Qed.

(** ** Properties *)

(** [Replicate] waits for every connected peer and reports one result per
    peer; the acknowledgement count is one (for the node itself) plus the
    successful results, and the call fails exactly when that is below the
    required number, except that without any peer it always reports success
    with a single acknowledgement, whatever was required. *)
Theorem replicate_counts_acks {E} `{!Network E} (sched : schedule (string * ServiceClient)) (c : Coordinator)
    (key : string) (value : bytes) (version timestamp : Z) (h : HLC) (requiredAcks : Z) (e : E) (w : World) :
  fair_schedule sched →
  let '((acks, results, err), _, _) :=
    Coordinator_Replicate sched c key value version timestamp h requiredAcks e w in
  map rr_PeerAddr results ≡ₚ elements (dom (co_peers c)) ∧
  acks = 1 + Z.of_nat (length (List.filter rr_Success results)) ∧
  1 <= acks <= 1 + Z.of_nat (size (dom (co_peers c))) ∧
  (err = None ↔ requiredAcks <= acks ∨ co_peers c = ∅).
Proof.
  intros Hf. unfold Coordinator_Replicate.
  destruct (length (map_to_list (co_peers c)) =? 0)%nat eqn:E0.
  { apply Nat.eqb_eq, no_peers_iff in E0. cbn [ret]. rewrite E0, dom_empty_L, elements_empty.
    split_and!; [done|done|simpl; lia|simpl; lia|tauto]. }
  apply Nat.eqb_neq in E0. rewrite no_peers_iff in E0.
  set (req := mkReplicateRequest _ _ _ _ _ _). set (l := sched (map_to_list (co_peers c))).
  change (λ acc peer, bind (replicate_to req peer) _) with (replicate_body (E := E) req).
  unfold bind. destruct (replicate_loop_results req l ([], 1) e w) as (rs & Hres & Hadd).
  destruct (foldM (replicate_body req) l ([], 1) e w) as [[[rs' n] e'] w'].
  cbn [fst snd app] in Hres. injection Hres as -> ->. fold (succ_results rs).
  assert (map rr_PeerAddr rs ≡ₚ elements (dom (co_peers c))) as Hp.
  { rewrite Hadd. unfold l. rewrite (Hf _). apply peer_list_keys. }
  assert (length (succ_results rs) <= size (dom (co_peers c)))%nat.
  { change (size ?X) with (length (elements X)). rewrite <- Hp, length_map. apply length_filter_le. }
  destruct (_ <? requiredAcks) eqn:Eq; cbn [ret]; (split_and!; [done|done|lia|lia|]);
    (split; [intros ?; try done; left; lia|intros [?|?]; try done; lia]).
Qed.

(** Three peers: one answers, one refuses, one is unreachable. *)
Definition demo_network : Network unit :=
  mkNetwork (λ t, if decide (t = "dns:///bad") then Some "bad target" else None)
    (λ t _ e w, (if decide (t = "dns:///p1") then inl (mkReplicateResponse true "" "p1")
                 else if decide (t = "dns:///p2") then inl (mkReplicateResponse false "full" "p2")
                 else inr "unavailable", e, w))
    (λ t _ e w, (inr "unavailable", e, w)) (λ t _ e w, (inr "unavailable", e, w)).

Lemma replicate_counts_acks_witness :
  let c := NewCoordinator (Network0 := demo_network) "n1" ["p1"; "p2"; "p3"; "bad"] Second in
  let out w := Coordinator_Replicate (Network0 := demo_network) (@List.rev _) c "k" [] 0 0 zero_HLC w tt
                 (mkWorld (λ _, tm 0) 0 []) in
  (out 2).1.1.1.1 = 2 ∧ (out 2).1.1.2 = None ∧
  (out 3).1.1.2 = Some "insufficient acknowledgements: got 2, need 3" ∧
  map rr_PeerAddr (out 3).1.1.1.2 ≡ₚ elements (dom (co_peers c)).
Proof.
  cbv zeta. split_and!; [vm_compute; reflexivity..|].
  pose proof (replicate_counts_acks (Network0 := demo_network) (@List.rev _)
    (NewCoordinator (Network0 := demo_network) "n1" ["p1"; "p2"; "p3"; "bad"] Second) "k" [] 0 0 zero_HLC 3 tt
    (mkWorld (λ _, tm 0) 0 []) fair_rev) as H.
  destruct (Coordinator_Replicate _ _ _ _ _ _ _ _ _ _) as [[[[acks results] err] e'] w']. apply H.
Defined.

(** [GetMostRecent] returns one of the values, with a timestamp no value
    exceeds, and reports "not found" exactly for the empty list; so the choice
    does not depend on the order in which replicas answer, up to equal
    timestamps. *)
Theorem get_most_recent_latest (values : list ReplicaValue) :
  ((GetMostRecent values).2 = false ↔ values = []) ∧
  ((GetMostRecent values).2 = true →
     (GetMostRecent values).1 ∈ values ∧
     ∀ v, v ∈ values → HLC_HappensAfter (rv_HLC v) (rv_HLC (GetMostRecent values).1) = false) ∧
  (∀ values', values' ≡ₚ values →
     HLC_Equal (rv_HLC (GetMostRecent values').1) (rv_HLC (GetMostRecent values).1) = true).
Proof.
  pose proof (most_recent_spec values) as H. split_and!.
  - destruct (GetMostRecent values) as [m []]; simpl in *; [|naive_solver].
    split; [done|]. intros ->. set_solver.
  - intros Hf. destruct (GetMostRecent values) as [m []]; [|done]. simpl. exact H.
  - intros values' Hp. pose proof (most_recent_spec values') as H'.
    destruct (GetMostRecent values) as [m []], (GetMostRecent values') as [m' []]; simpl.
    + destruct H as [Hin Hmax], H' as [Hin' Hmax']. rewrite Hp in Hin'. rewrite <- Hp in Hin.
      specialize (Hmax m' Hin'). specialize (Hmax' m Hin).
      apply hlc_equal_spec. hlc_order.
    + destruct H as [Hin _], H' as [-> _]. rewrite <- Hp in Hin. set_solver.
    + destruct H as [-> _], H' as [Hin' _]. rewrite Hp in Hin'. set_solver.
    + destruct H as [_ ->], H' as [_ ->]. done.
Qed.

(** [reconcilePeers] makes the connected peers exactly the discovered ones
    that can be dialled, keeping the clients of peers already connected, in
    whatever order the maps are iterated; the client and connection maps stay
    in step, with every client talking to its own address. *)
Theorem reconcile_peers_exact {E} `{!Network E} (ord_current ord_new : schedule string)
    (newPeerAddrs : list string) (c : Coordinator) :
  fair_schedule ord_current → fair_schedule ord_new → coord_wf c →
  let c' := reconcilePeers ord_current ord_new newPeerAddrs c in
  coord_wf c' ∧
  ∀ a, (is_Some (co_peers c' !! a) ↔
          a ∈ newPeerAddrs ∧ (is_Some (co_peers c !! a) ∨ net_NewClient (target_of a) = None)) ∧
       (∀ cl, a ∈ newPeerAddrs → co_peers c !! a = Some cl → co_peers c' !! a = Some cl).
Proof.
  intros H1 H2 Hwf. destruct (reconcile_peers_spec _ _ newPeerAddrs c H1 H2 Hwf) as [Hwf' Hl].
  split; [done|]. intros a. rewrite Hl. unfold dialable.
  destruct (co_peers c !! a); repeat case_decide; split; try naive_solver;
    rewrite ?is_Some_alt; naive_solver.
Qed.

Lemma reconcile_peers_exact_witness :
  let c := NewCoordinator (Network0 := demo_network) "n1" ["p1"; "p2"] Second in
  let c' := reconcilePeers (Network0 := demo_network) (@List.rev _) (@List.rev _) ["p2"; "p3"; "bad"] c in
  coord_wf c' ∧ elements (dom (co_peers c')) ≡ₚ ["p2"; "p3"].
Proof.
  cbv zeta. split; [|vm_compute; apply perm_swap || reflexivity].
  refine (proj1 (reconcile_peers_exact (Network0 := demo_network) (@List.rev _) (@List.rev _)
    ["p2"; "p3"; "bad"] (NewCoordinator (Network0 := demo_network) "n1" ["p1"; "p2"] Second) _ _ _)).
  - apply fair_rev.
  - apply fair_rev.
  - apply new_coordinator_wf.
Defined.

(** DNS discovery finds the peers the static Kubernetes configuration names:
    when the headless service resolves to the pods of a stateful set of size [n]
    and reverse lookup gives each pod's name, [DiscoverPeersDNS] returns exactly
    the list [discoverKubernetesPeers] computes, this node excluded. *)
Theorem dns_discovery_matches_config (getenv : string → string)
    (LookupHost LookupAddr : string → list string + error) (nodeID svc : string) (ip : nat → string) (n : nat) :
  getIntEnv getenv "CLUSTER_SIZE" 3 = Z.of_nat n →
  let ns := getEnv getenv "NAMESPACE" "default" in
  LookupHost (svc +:+ "." +:+ ns +:+ ".svc.cluster.local") = inl (map ip (seq 0 n)) →
  (∀ i, (i < n)%nat → pod_answer LookupAddr svc ns (ip i) i) →
  DiscoverPeersDNS LookupHost LookupAddr nodeID svc ns = inl (discoverKubernetesPeers getenv nodeID svc).
Proof.
  intros Hn ns Hlh Hla. unfold DiscoverPeersDNS. cbv zeta. rewrite Hlh. f_equal.
  rewrite discover_filter, Hn, Nat2Z.id. fold ns.
  assert (∀ l acc, (∀ i, i ∈ l → (i < n)%nat) →
    fold_left (discover_ip LookupAddr nodeID svc ns) (map ip l) acc =
    acc ++ map (λ i, peer_addr (peer_name i) svc ns)
      (List.filter (λ i, bool_decide (peer_name i ≠ nodeID)) l)) as H.
  { induction l as [|i l IH]; intros acc Hl; cbn [map fold_left List.filter]; [by rewrite app_nil_r|].
    rewrite (discover_ip_spec _ _ _ _ _ _ i) by (apply Hla, Hl; by left).
    rewrite IH by (intros; apply Hl; by right).
    case_bool_decide; [|done]. cbn [map]. by rewrite <- app_assoc. }
  apply (H (seq 0 n) []). intros i Hi%list_elem_of_In%in_seq. lia.
Qed.

Definition demo_lookup_host (name : string) : list string + error :=
  if decide (name = "acp-headless.default.svc.cluster.local") then inl ["10.0.0.0"; "10.0.0.1"; "10.0.0.2"]
  else inr "no such host".
Definition demo_ip (i : nat) : string := "10.0.0." +:+ itoa (Z.of_nat i).
Definition demo_lookup_addr (ip : string) : list string + error :=
  match List.find (λ i, bool_decide (demo_ip i = ip)) [0; 1; 2]%nat with
  | Some i => inl ["10-0-0-9.acp-service.default.svc.cluster.local."; pod_fqdn "acp-headless" "default" i]
  | None => inr "not found"
  end.

Lemma dns_discovery_matches_config_witness :
  DiscoverPeersDNS demo_lookup_host demo_lookup_addr "acp-node-1" "acp-headless" "default"
  = inl (discoverKubernetesPeers demo_k8s_env "acp-node-1" "acp-headless").
Proof.
  refine (dns_discovery_matches_config demo_k8s_env demo_lookup_host demo_lookup_addr "acp-node-1"
    "acp-headless" demo_ip 3 _ _ _); [vm_compute; reflexivity..|].
  intros i Hi. exists ["10-0-0-9.acp-service.default.svc.cluster.local."], [].
  assert (i = 0 ∨ i = 1 ∨ i = 2)%nat as [-> | [-> | ->]] by lia;
    (split; [vm_compute; reflexivity|]); (constructor; [vm_compute; reflexivity|constructor]).
Defined.
