(* ===== verification/Server.v ===== *)
(** * Server: the gRPC handlers of a node (src/internal/server/server.go)

    Each handler is a computation on the node's own state and the network: what
    it reads from the clock, the calls it makes and the metrics it updates, in
    the order of the source.  [None] is a panic of the recent-write log, which
    [server_wf] excludes.  The error result of a handler is always nil. *)

From S2P Require Import Prelude GoLib Float64 Metrics Hlc Storage Staleness Ring WriteLog.
From S2P Require Import Reconcile Config Quorum Api Coordinator.

Open Scope Z_scope.

Section Server.
Context {Q : Type} `{!QuorumProvider Q}.

Record Server := mkServer {
  sv_nodeID : string;
  sv_store : Store;
  sv_coordinator : Coordinator;
  sv_quorumProvider : Q;
  sv_hlcClock : Clock;
  sv_stalenessDetector : Detector;
  sv_reconciler : option Engine;        (* nil when reconciliation is off *)
}.

Definition NewServer (nodeID : string) (store : Store) (coordinator : Coordinator) (quorumProvider : Q)
    (hlcClock : Clock) (stalenessDetector : Detector) (reconciler : option Engine) : Server :=
  mkServer nodeID store coordinator quorumProvider hlcClock stalenessDetector reconciler.

Definition with_store (st : Store) (s : Server) : Server :=
  mkServer (sv_nodeID s) st (sv_coordinator s) (sv_quorumProvider s) (sv_hlcClock s)
    (sv_stalenessDetector s) (sv_reconciler s).
Definition with_clock (c : Clock) (s : Server) : Server :=
  mkServer (sv_nodeID s) (sv_store s) (sv_coordinator s) (sv_quorumProvider s) c
    (sv_stalenessDetector s) (sv_reconciler s).
Definition with_reconciler (e : Engine) (s : Server) : Server :=
  mkServer (sv_nodeID s) (sv_store s) (sv_coordinator s) (sv_quorumProvider s) (sv_hlcClock s)
    (sv_stalenessDetector s) (Some e).

(** ** Calls on the node's own components *)

(** [s.hlcClock.Now()] *)
Definition clock_now : GoM Server HLC :=
  t <- time_now ;;
  s <- get ;;
  let '(ts, clk) := Clock_Now t (sv_hlcClock s) in
  modify (with_clock clk) ;;; ret ts.

(** [s.hlcClock.Update(remote)]; the error is only logged. *)
Definition clock_update (remote : HLC) : GoM Server (option error) :=
  t <- time_now ;;
  s <- get ;;
  let '(err, clk) := Clock_Update t remote (sv_hlcClock s) in
  modify (with_clock clk) ;;; ret err.

(** [s.store.PutWithHLC(...)] *)
Definition store_put (key : string) (value : bytes) (nodeID : string) (ts : HLC) : GoM Server VersionedValue :=
  t <- time_now ;;
  s <- get ;;
  let '(vv, st) := Store_PutWithHLC t key value nodeID ts (sv_store s) in
  modify (with_store st) ;;; ret vv.

(** [if s.reconciler != nil { s.reconciler.RecordWrite(...) }] *)
Definition record_write (key : string) (value : bytes) (nodeID : string) (ts : HLC) : GoM Server (option unit) :=
  s <- get ;;
  match sv_reconciler s with
  | None => ret (Some tt)
  | Some e =>
      t <- time_now ;;
      match Engine_RecordWrite t key value nodeID ts e with
      | None => ret None
      | Some e' => modify (with_reconciler e') ;;; ret (Some tt)
      end
  end.

(** ** Handlers other nodes call *)

Definition Server_Replicate (req : ReplicateRequest) : GoM Server (option ReplicateResponse) :=
  let remoteHLC := FromProto (rreq_Hlc req) in
  _ <- clock_update remoteHLC ;;
  _ <- store_put (rreq_Key req) (rreq_Value req) (rreq_SourceNodeId req) remoteHLC ;;
  ok <- record_write (rreq_Key req) (rreq_Value req) (rreq_SourceNodeId req) remoteHLC ;;
  match ok with
  | None => ret None
  | Some _ => s <- get ;; ret (Some (mkReplicateResponse true "" (sv_nodeID s)))
  end.

Definition not_found : GetResponse := mkGetResponse false [] 0 0 "" None false.

Definition Server_GetLocal (req : GetRequest) : GoM Server GetResponse :=
  s <- get ;;
  let '(localValue, localFound) := Store_Get (greq_Key req) (sv_store s) in
  if negb localFound then ret not_found
  else
    t <- time_now ;;
    let now := UnixNano t in
    let isStale := Detector_IsStale (sv_stalenessDetector s) (vv_HLC localValue) now in
    ret (mkGetResponse true (vv_Value localValue) (vv_Version localValue) (vv_Timestamp localValue) ""
           (Some (HLC_ToProto (vv_HLC localValue))) isStale).

Definition Server_HealthCheck (req : HealthRequest) : GoM Server HealthResponse :=
  (match hreq_Hlc req with
   | None => ret None
   | Some p => clock_update (FromProto (Some p))
   end) ;;;
  currentHLC <- clock_now ;;
  t <- time_now ;;
  s <- get ;;
  ret (mkHealthResponse true (sv_nodeID s) (UnixNano t) (Some (HLC_ToProto currentHLC))).

(** ** Handlers clients call *)

Section Network.
Context {E : Type} `{!Network E}.

Definition on_server {A} (m : GoM Server A) : GoM (Server * E) A := focus fst (λ s st, (s, st.2)) m.
Definition on_net {A} (m : GoM E A) : GoM (Server * E) A := focus snd (λ e st, (st.1, e)) m.

(** The deferred observation of the operation's duration. *)
Definition observe_since (h : histogram) (start : Time) : GoM (Server * E) unit :=
  now <- time_now ;;
  emit [HObserve h (Duration_Seconds (Since now start))].

Definition Server_Put_body (sched : schedule (string * ServiceClient)) (req : PutRequest) :
    GoM (Server * E) (option PutResponse) :=
  timestamp <- on_server clock_now ;;
  st <- get ;;
  let nodeID := sv_nodeID st.1 in
  vv <- on_server (store_put (preq_Key req) (preq_Value req) nodeID timestamp) ;;
  ok <- on_server (record_write (preq_Key req) (preq_Value req) nodeID timestamp) ;;
  match ok with
  | None => ret None
  | Some _ =>
      st <- get ;;
      let requiredW := GetW (sv_quorumProvider st.1) in
      out <- on_net (Coordinator_Replicate sched (sv_coordinator st.1) (preq_Key req) (preq_Value req)
                       (vv_Version vv) (vv_Timestamp vv) timestamp requiredW) ;;
      match out.2 with
      | Some err =>
          emit (RecordWriteFailure ++ [CVInc Errors "timeout"]) ;;;
          ret (Some (mkPutResponse false err 0 0 None))
      | None =>
          _ <- time_now ;;           (* the latency field of the log line *)
          emit RecordWriteSuccess ;;;
          ret (Some (mkPutResponse true "" (vv_Version vv) (vv_Timestamp vv)
                       (Some (HLC_ToProto (vv_HLC vv)))))
      end
  end.

Definition Server_Put (sched : schedule (string * ServiceClient)) (req : PutRequest) :
    GoM (Server * E) (option PutResponse) :=
  start <- time_now ;;
  resp <- Server_Put_body sched req ;;
  observe_since PutLatency start ;;;
  ret resp.

Definition stale_response (err : error) : GetResponse := mkGetResponse true [] 0 0 err None true.

Definition Server_Get_body (sched : schedule (string * ServiceClient)) (req : GetRequest) :
    GoM (Server * E) GetResponse :=
  st <- get ;;
  let s := st.1 in
  let '(localValue, localFound) := Store_Get (greq_Key req) (sv_store s) in
  let requiredR := GetR (sv_quorumProvider s) in
  if requiredR =? 1 then
    if negb localFound then emit RecordReadSuccess ;;; ret not_found
    else
      err <- Detector_CheckStrict (sv_stalenessDetector s) localValue ;;
      match err with
      | Some err => emit RecordReadFailure ;;; ret (stale_response err)
      | None =>
          emit RecordReadSuccess ;;;
          ret (mkGetResponse true (vv_Value localValue) (vv_Version localValue) (vv_Timestamp localValue) ""
                 (Some (HLC_ToProto (vv_HLC localValue))) false)
      end
  else
    out <- on_net (QueryReplicas sched (sv_coordinator s) (greq_Key req) requiredR) ;;
    match (out : list ReplicaValue + error) with
    | inr err =>
        emit (RecordReadFailure ++ [CVInc Errors "timeout"]) ;;;
        ret (mkGetResponse false [] 0 0 err None false)
    | inl replicaValues =>
        let allValues :=
          if (localFound : bool) then
            replicaValues ++ [mkReplicaValue "local" (vv_Value localValue) (vv_Version localValue)
                                (vv_Timestamp localValue) (vv_HLC localValue) false true]
          else replicaValues in
        let '(mostRecent, found) := GetMostRecent allValues in
        if negb found then emit RecordReadSuccess ;;; ret not_found
        else
          let mostRecentVV := mkVV (rv_Value mostRecent) (rv_Version mostRecent) 0 (sv_nodeID s)
                                (rv_HLC mostRecent) 0 false in
          err <- Detector_CheckStrict (sv_stalenessDetector s) mostRecentVV ;;
          match err with
          | Some err => emit RecordReadFailure ;;; ret (stale_response err)
          | None =>
              _ <- time_now ;;       (* the latency field of the log line *)
              emit RecordReadSuccess ;;;
              ret (mkGetResponse true (rv_Value mostRecent) (rv_Version mostRecent) (rv_Timestamp mostRecent)
                     "" (Some (HLC_ToProto (rv_HLC mostRecent))) false)
          end
    end.

Definition Server_Get (sched : schedule (string * ServiceClient)) (req : GetRequest) :
    GoM (Server * E) GetResponse :=
  start <- time_now ;;
  resp <- Server_Get_body sched req ;;
  observe_since GetLatency start ;;;
  ret resp.
End Network.
End Server.

Arguments Server : clear implicits.
#[global] Arguments record_write : simpl never.

(** ** Invariant *)

Section ServerSpecs.
Context {Q : Type} `{!QuorumProvider Q}.
Implicit Types (s : Server Q) (w : World).

Record server_wf s : Prop := {
  server_wf_coord : coord_wf (sv_coordinator s);
  server_wf_engine : ∀ e, sv_reconciler s = Some e → engine_wf e;
}.

(** What no handler changes. *)
Definition same_setup s s' : Prop :=
  sv_nodeID s' = sv_nodeID s ∧ sv_coordinator s' = sv_coordinator s ∧
  sv_quorumProvider s' = sv_quorumProvider s ∧ sv_stalenessDetector s' = sv_stalenessDetector s.

#[export] Instance same_setup_preorder : PreOrder same_setup.
Proof. unfold same_setup. split; [intros s; by split_and!|]. intros s1 s2 s3. intuition congruence. Qed.

Lemma record_write_spec key value n ts s w :
  server_wf s →
  ∃ s' w', record_write key value n ts s w = (Some tt, s', w') ∧ server_wf s' ∧ same_setup s s' ∧
    sv_store s' = sv_store s ∧ sv_hlcClock s' = sv_hlcClock s ∧ w_events w' = w_events w.
Proof.
  intros [Hc Hl]. unfold record_write, bind, get. destruct (sv_reconciler s) as [e|] eqn:Er.
  - unfold time_now, Engine_RecordWrite.
    destruct (log_add_ring (w_clock w (w_tick w)) key value n ts (e_recentWrites e)
      (engine_log_wf e (Hl e eq_refl))) as (rwl & Heq & Hwf & _).
    rewrite Heq. eexists _, _. split; [done|]. split_and!; try done.
    split; [done|]. simpl. intros ? [= <-]. split; [done|]. apply (engine_queue e), Hl, eq_refl.
  - eexists s, w. split; [done|]. split_and!; try done. split; [done|]. intros e. by rewrite Er.
Qed.

(** [Replicate] stores the request unconditionally and always acknowledges. *)
Lemma server_replicate_spec req s w :
  server_wf s →
  ∃ s' w' vv, Server_Replicate req s w = (Some (mkReplicateResponse true "" (sv_nodeID s)), s', w') ∧
    server_wf s' ∧ same_setup s s' ∧
    sv_store s' = <[rreq_Key req := vv]> (sv_store s) ∧
    vv_HLC vv = FromProto (rreq_Hlc req) ∧ vv_Value vv = rreq_Value req ∧
    vv_NodeID vv = rreq_SourceNodeId req ∧
    sv_hlcClock s' = (Clock_Update (w_clock w (w_tick w)) (FromProto (rreq_Hlc req)) (sv_hlcClock s)).2 ∧
    w_events w' = w_events w.
Proof.
  intros Hwf. unfold Server_Replicate, clock_update, store_put, bind, time_now, get, modify, ret.
  destruct (Clock_Update _ _ _) as [err clk] eqn:Hu. simpl.
  match goal with |- context [record_write ?k ?v ?n ?t ?s1 ?w1] =>
    destruct (record_write_spec k v n t s1 w1) as (s' & w' & Heq & Hwf' & (Hn & Hs) & Hst & Hclk & Hev) end.
  { split; simpl; apply Hwf. }
  rewrite Heq. eexists s', w', _. simpl in *. rewrite Hn, Hst, Hclk. by split_and!.
Qed.

Lemma server_getlocal_spec req s w :
  ∃ resp w', Server_GetLocal req s w = (resp, s, w') ∧ w_events w' = w_events w ∧
    match sv_store s !! greq_Key req with
    | None => resp = not_found
    | Some vv => gresp_Found resp = true ∧ FromProto (gresp_Hlc resp) = vv_HLC vv ∧
                 gresp_Value resp = vv_Value vv ∧ gresp_Error resp = ""
    end.
Proof.
  unfold Server_GetLocal, bind, get, Store_Get. destruct (sv_store s !! greq_Key req) as [vv|]; simpl.
  - eexists _, _. split; [done|]. split; [done|]. simpl. by destruct (vv_HLC vv).
  - eexists _, _. done.
Qed.

Lemma server_healthcheck_spec req s w :
  server_wf s →
  ∃ resp s' w', Server_HealthCheck req s w = (resp, s', w') ∧ server_wf s' ∧ same_setup s s' ∧
    sv_store s' = sv_store s ∧ hresp_Healthy resp = true ∧ w_events w' = w_events w ∧
    FromProto (hresp_Hlc resp) = clock_stamp (sv_hlcClock s').
Proof.
  intros [Hc Hl]. unfold Server_HealthCheck, clock_update, clock_now, bind, time_now, get, modify, ret.
  destruct (hreq_Hlc req) as [p|].
  - destruct (Clock_Update _ _ _) as [err clk]. simpl.
    eexists _, _, _. split; [done|]. by split_and!.
  - simpl. eexists _, _, _. split; [done|]. by split_and!.
Qed.
End ServerSpecs.

Section ServerEnv.
Context {Q : Type} `{!QuorumProvider Q} {E : Type} `{!Network E} (P : E → Prop).
Hypothesis replicate_keeps : ∀ t req e w, P e → P (net_Replicate t req e w).1.2.
Hypothesis getlocal_keeps : ∀ t req e w, P e → P (net_GetLocal t req e w).1.2.

Lemma server_put_keeps sched req (s : Server Q) (e : E) w :
  P e → P (Server_Put sched req (s, e) w).1.2.2.
Proof.
  intros He. unfold Server_Put, Server_Put_body, on_server, on_net, focus, observe_since.
  unfold clock_now, store_put, bind, time_now, get, modify, ret. simpl.
  destruct (record_write _ _ _ _ _ _) as [[[ok|] s2] w2]; [|done]. simpl.
  match goal with |- context [Coordinator_Replicate ?sc ?c ?k ?v ?ver ?ts ?h ?W e w2] =>
    pose proof (coordinator_replicate_keeps P replicate_keeps sc c k v ver ts h W e w2 He) as Hr;
    destruct (Coordinator_Replicate sc c k v ver ts h W e w2) as [[[[acks rs] err] e'] w3] end.
  by destruct err.
Qed.

Lemma server_get_keeps sched req (s : Server Q) (e : E) w :
  P e → P (Server_Get sched req (s, e) w).1.2.2.
Proof.
  intros He. unfold Server_Get, Server_Get_body, on_net, focus, observe_since.
  unfold bind, time_now, get, ret, emit. simpl.
  destruct (Store_Get (greq_Key req) (sv_store s)) as [lv lf].
  destruct (_ =? 1).
  - destruct lf; [|done]. simpl. unfold Detector_CheckStrict, bind, time_now, ret, emit. by destruct (_ >? _).
  - cbn [fst snd]. match goal with |- context [QueryReplicas sched ?c ?k ?R e ?w0] =>
      pose proof (query_replicas_keeps P getlocal_keeps sched c k R e w0 He) as Hq;
      destruct (QueryReplicas sched c k R e w0) as [[[vals|err] e'] w'] end; [|done].
    destruct (GetMostRecent _) as [m []]; [|done]. simpl.
    unfold Detector_CheckStrict, bind, time_now, ret, emit. by destruct (_ >? _).
Qed.
End ServerEnv.

(** ** Put and Get against the network's contract *)

Section Quorum.
Context {Q : Type} `{!QuorumProvider Q} {E : Type} `{!Network E, !ReplicaNetwork E}.
Implicit Types (s : Server Q) (e : E) (w : World).

(** The timestamp a [Put] draws: from the second clock reading. *)
Definition put_stamp s w : HLC := (Clock_Now (w_clock w (w_tick w + 1)%nat) (sv_hlcClock s)).1.

Definition put_acks (acked : gset string) : Z := 1 + Z.of_nat (size acked).

Record put_effect (req : PutRequest) s e w (resp : PutResponse) s' e' (acked : gset string) : Prop := {
  put_local : ∃ vv, sv_store s' = <[preq_Key req := vv]> (sv_store s) ∧
                vv_HLC vv = put_stamp s w ∧ vv_Value vv = preq_Value req ∧ vv_NodeID vv = sv_nodeID s;
  put_clock : sv_hlcClock s' = (Clock_Now (w_clock w (w_tick w + 1)%nat) (sv_hlcClock s)).2;
  put_acked : acked ⊆ dom (co_peers (sv_coordinator s));
  put_success : presp_Success resp = true ↔
                  co_peers (sv_coordinator s) = ∅ ∨ GetW (sv_quorumProvider s) <= put_acks acked;
  put_response : presp_Success resp = true → presp_Hlc resp = Some (HLC_ToProto (put_stamp s w)) ∧
                   presp_Error resp = "";
  put_replicas : ∀ a, a ∈ acked →
    holds_write (net_lookup e' (target_of a) (preq_Key req)) (put_stamp s w) (preq_Value req);
  put_other_keys : ∀ t k, k ≠ preq_Key req → net_lookup e' t k = net_lookup e t k;
  put_other_nodes : ∀ t, (∀ a, a ∈ dom (co_peers (sv_coordinator s)) → t ≠ target_of a) →
    net_lookup e' t (preq_Key req) = net_lookup e t (preq_Key req);
  put_no_garbage : ∀ t, net_lookup e' t (preq_Key req) = net_lookup e t (preq_Key req) ∨
    holds_write (net_lookup e' t (preq_Key req)) (put_stamp s w) (preq_Value req);
}.

Lemma server_put_spec sched req s e w :
  fair_schedule sched → server_wf s →
  ∃ resp s' e' w' acked,
    Server_Put sched req (s, e) w = (Some resp, (s', e'), w') ∧ server_wf s' ∧ same_setup s s' ∧
    put_effect req s e w resp s' e' acked ∧
    ∃ pre d, w_events w' = pre ++ (if presp_Success resp then RecordWriteSuccess
                                   else RecordWriteFailure ++ [CVInc Errors "timeout"])
                               ++ [HObserve PutLatency d].
Proof.
  intros Hf Hwf. unfold Server_Put, Server_Put_body, on_server, on_net, focus, observe_since.
  unfold clock_now, store_put, bind, time_now, get, modify, ret. simpl.
  match goal with |- context [record_write ?k ?v ?n ?t ?s1 ?w1] =>
    destruct (record_write_spec k v n t s1 w1) as (s2 & w2 & Heq & Hwf2 & (Hn & Hco & Hq & Hd) & Hst & Hclk & Hev) end.
  { split; simpl; apply Hwf. }
  rewrite Heq. simpl in *. rewrite Hco, Hq.
  match goal with |- context [Coordinator_Replicate sched (sv_coordinator s) ?k ?v ?ver ?ts ?h ?W e w2] =>
    pose proof (replicate_spec sched (sv_coordinator s) k v ver ts h W e w2 Hf (server_wf_coord s Hwf)) as Hr;
    destruct (Coordinator_Replicate sched (sv_coordinator s) k v ver ts h W e w2) as [[[[acks rs] err] e'] w3] end.
  destruct Hr as (acked & Hsub & -> & Herr & Hrep & Hok & Hon & Hng). fold (put_stamp s w) in *.
  assert (same_setup s s2) as Hsame by done.
  destruct err as [err|]; simpl; eexists _, s2, e', _, acked; (split; [reflexivity|]);
    (split_and!; [done|done| |simpl; rewrite <- !app_assoc; exists (w_events w3); by eexists]).
  all: split; simpl; try done.
  all: try (rewrite Hst; eexists; by split_and!).
  - rewrite <- Herr. by split.
  - by rewrite <- Herr.
Qed.

(** What a read has seen: the local value and the answers of at least R - 1
    peers, none newer than what it returns. *)
Inductive read_quorum s e (key : string) (h : HLC) (value : bytes) : Prop :=
  mkReadQuorum (X : gset string) :
    X ⊆ dom (co_peers (sv_coordinator s)) →
    GetR (sv_quorumProvider s) <= Z.of_nat (size X) + 1 →
    (∀ a, a ∈ X → ∃ vv, net_lookup e (target_of a) key = Some vv ∧ vv_HLC vv ≼h h) →
    (∀ vv, sv_store s !! key = Some vv → vv_HLC vv ≼h h) →
    holds_write (sv_store s !! key) h value ∨
      (∃ a, a ∈ dom (co_peers (sv_coordinator s)) ∧ holds_write (net_lookup e (target_of a) key) h value) →
    read_quorum s e key h value.

Inductive get_outcome s e (key : string) : GetResponse → Prop :=
  | GetInsufficient err :
      GetR (sv_quorumProvider s) ≠ 1 → err ≠ "" →
      get_outcome s e key (mkGetResponse false [] 0 0 err None false)
  | GetNotFound :
      sv_store s !! key = None → GetR (sv_quorumProvider s) <= 1 → get_outcome s e key not_found
  | GetStale err h value :
      err ≠ "" → read_quorum s e key h value → get_outcome s e key (stale_response err)
  | GetValue h value ver ts :
      read_quorum s e key h value →
      get_outcome s e key (mkGetResponse true value ver ts "" (Some (HLC_ToProto h)) false).

Lemma check_strict_run {S} d v (st : S) w :
  ∃ r w', Detector_CheckStrict d v st w = (r, st, w') ∧ r ≠ Some "".
Proof. unfold Detector_CheckStrict, bind, time_now. destruct (_ >? _); eexists _, _; done. Qed.

(** The metrics of a read, by its response. *)
Definition read_events (resp : GetResponse) : list metric_event :=
  if decide (gresp_Error resp = "") then RecordReadSuccess
  else if gresp_Found resp then RecordReadFailure
  else RecordReadFailure ++ [CVInc Errors "timeout"].

(** The values a quorum read compares, local one included. *)
Lemma read_quorum_of_values s e key vals m lv (lf : bool) :
  Store_Get key (sv_store s) = (lv, lf) →
  NoDup (map rv_PeerAddr vals) → GetR (sv_quorumProvider s) <= Z.of_nat (length vals) + 1 →
  (∀ v, v ∈ vals → rv_PeerAddr v ∈ dom (co_peers (sv_coordinator s)) ∧
     holds_write (net_lookup e (target_of (rv_PeerAddr v)) key) (rv_HLC v) (rv_Value v)) →
  let all := if lf then vals ++ [mkReplicaValue "local" (vv_Value lv) (vv_Version lv) (vv_Timestamp lv)
                                   (vv_HLC lv) false true] else vals in
  m ∈ all → (∀ v, v ∈ all → rv_HLC v ≼h rv_HLC m) →
  read_quorum s e key (rv_HLC m) (rv_Value m).
Proof.
  intros Hget Hnd HR Hvals all Hin Hmax.
  assert (∀ v, v ∈ vals → v ∈ all) as Hsub by (intros v Hv; unfold all; destruct lf; set_solver).
  apply (mkReadQuorum s e key _ _ (list_to_set (map rv_PeerAddr vals))).
  - intros a (v & <- & Hv)%elem_of_list_to_set%list_elem_of_In%in_map_iff.
    apply Hvals. by apply list_elem_of_In.
  - by rewrite list_to_set_size, length_map by done.
  - intros a (v & <- & Hv%list_elem_of_In)%elem_of_list_to_set%list_elem_of_In%in_map_iff.
    destruct (Hvals v Hv) as [_ (vv & ? & Hh & _)]. exists vv. split; [done|]. rewrite Hh. by apply Hmax, Hsub.
  - intros vv Hvv. rewrite (store_get_found _ _ _ Hvv) in Hget. injection Hget as <- <-.
    apply (Hmax (mkReplicaValue "local" (vv_Value vv) (vv_Version vv) (vv_Timestamp vv) (vv_HLC vv) false true)).
    unfold all. apply elem_of_app. right. by left.
  - unfold all in Hin. destruct lf.
    + apply elem_of_app in Hin as [Hin| ->%list_elem_of_singleton].
      * right. destruct (Hvals m Hin). by eexists.
      * left. apply store_get_true in Hget. by exists lv.
    + right. destruct (Hvals m Hin). by eexists.
Qed.

Ltac solve_read_events :=
  cbn [w_events]; rewrite <- ?app_assoc;
  match goal with |- ∃ pre d, w_events ?w ++ _ = _ => exists (w_events w) end;
  eexists; unfold read_events; cbn [gresp_Error gresp_Found stale_response not_found];
  destruct (decide _); first [reflexivity | exfalso; subst; by auto].

Lemma server_get_spec sched req s e w :
  fair_schedule sched → server_wf s →
  ∃ resp e' w', Server_Get sched req (s, e) w = (resp, (s, e'), w') ∧
    (∀ t k, net_lookup e' t k = net_lookup e t k) ∧ get_outcome s e (greq_Key req) resp ∧
    ∃ pre d, w_events w' = pre ++ read_events resp ++ [HObserve GetLatency d].
Proof.
  intros Hf Hwf. unfold Server_Get, Server_Get_body, on_net, focus, observe_since.
  unfold bind, time_now, get, ret, emit. simpl.
  destruct (Store_Get (greq_Key req) (sv_store s)) as [lv lf] eqn:Hget.
  destruct (GetR (sv_quorumProvider s) =? 1) eqn:ER.
  - apply Z.eqb_eq in ER. destruct lf; simpl.
    + match goal with |- context [Detector_CheckStrict ?d ?v ?st ?w0] =>
        destruct (check_strict_run d v st w0) as (r & w' & -> & Hr) end.
      assert (read_quorum s e (greq_Key req) (vv_HLC lv) (vv_Value lv)) as Hrq.
      { apply store_get_true in Hget. apply (mkReadQuorum _ _ _ _ _ ∅).
        - set_solver.
        - rewrite size_empty. lia.
        - set_solver.
        - intros vv Hvv. rewrite Hget in Hvv. injection Hvv as ->. reflexivity.
        - left. by exists lv. }
      destruct r as [err|]; simpl; (eexists _, e, _; split; [done|]; split; [done|]; split; [|by solve_read_events]);
        [eapply GetStale; [by intros ->|done]|by constructor].
    + apply store_get_false in Hget. eexists _, e, _. split; [done|]. split; [done|]. split; [|solve_read_events].
      apply GetNotFound; [done|lia].
  - apply Z.eqb_neq in ER. cbn [fst snd].
    match goal with |- context [QueryReplicas sched ?c ?k ?R e ?w0] =>
      pose proof (query_spec sched c k R e w0 Hf (server_wf_coord s Hwf)) as Hq;
      destruct (QueryReplicas sched c k R e w0) as [[[vals|err] e'] w'] end; destruct Hq as [Hfr Hq]; simpl.
    2:{ eexists _, e', _. split; [done|]. split; [done|]. split; [by constructor|solve_read_events]. }
    destruct Hq as (Hnd & HR & Hvals).
    match goal with |- context [GetMostRecent ?all] => pose proof (most_recent_spec all) as Hm;
      destruct (GetMostRecent all) as [m found] end.
    destruct found; simpl.
    + match goal with |- context [Detector_CheckStrict ?d ?v ?st ?w0] =>
        destruct (check_strict_run d v st w0) as (r & w'' & -> & Hr) end.
      destruct Hm as [Hin Hmax].
      pose proof (read_quorum_of_values s e (greq_Key req) vals m lv lf Hget Hnd HR Hvals Hin Hmax).
      destruct r as [err|]; simpl; (eexists _, e', _; split; [done|]; split; [done|]; split; [|by solve_read_events]);
        [eapply GetStale; [by intros ->|done]|by constructor].
    + destruct Hm as [Hnil _]. eexists _, e', _. split; [done|]. split; [done|]. split; [|solve_read_events]. destruct lf.
      * by apply app_nil in Hnil as [_ ?].
      * apply store_get_false in Hget. subst vals. apply GetNotFound; [done|]. simpl in HR. lia.
Qed.
End Quorum.
