(* ===== verification/Cluster.v ===== *)
(** * Cluster: nodes that call each other's handlers

    The network of [Api] instantiated with the handlers of [Server]: a call to a
    target runs the handler of the node behind it, unless the transport loses
    the request or the reply.  Every node runs the code of src/internal/server
    and src/internal/replication; clock readings are arbitrary, so nodes may be
    skewed in any way. *)

From S2P Require Import Prelude GoLib Float64 Metrics Hlc Storage Staleness Ring WriteLog.
From S2P Require Import Reconcile Config Quorum Api Coordinator Server.

Open Scope Z_scope.

(** What happens to a call: it is delivered, or the request is lost, or it takes
    effect but the reply is lost (a deadline that passed). *)
Inductive fault := Deliver | DropRequest | DropReply.

Section Cluster.
Context {Q : Type} `{!QuorumProvider Q}.

Record Cluster := mkCluster {
  cl_nodes : gmap string (Server Q);     (* by target *)
  cl_faults : list fault;                (* for the calls to come; then [Deliver] *)
}.

(** Run a handler at a target. *)
Definition call_at {A} (target : string) (m : GoM (Server Q) (option A)) : GoM Cluster (A + error) :=
  λ c w,
    let f := default Deliver (head (cl_faults c)) in
    let faults := tail (cl_faults c) in
    match cl_nodes c !! target with
    | None => (inr "unavailable", mkCluster (cl_nodes c) faults, w)
    | Some s =>
        match f with
        | DropRequest => (inr "unavailable", mkCluster (cl_nodes c) faults, w)
        | Deliver | DropReply =>
            let '(r, s', w') := m s w in
            let c' := mkCluster (<[target := s']> (cl_nodes c)) faults in
            match r, f with
            | Some a, Deliver => (inl a, c', w')
            | _, _ => (inr "deadline exceeded", c', w')
            end
        end
    end.

Definition call_pure {A} (target : string) (m : GoM (Server Q) A) : GoM Cluster (A + error) :=
  call_at target (a <- m ;; ret (Some a)).

#[export] Instance cluster_network : Network Cluster :=
  mkNetwork (λ _, None)
    (λ target req, call_at target (Server_Replicate req))
    (λ target req, call_pure target (Server_GetLocal req))
    (λ target req, call_pure target (Server_HealthCheck req)).

(** A client's operation at a node: the node's handler, with the other nodes as
    its network. *)
Definition at_node {A} (self : string) (op : GoM (Server Q * Cluster) A) : GoM Cluster (option A) :=
  λ c w,
    match cl_nodes c !! self with
    | None => (None, c, w)
    | Some s =>
        let '(a, (s', e'), w') := op (s, mkCluster (delete self (cl_nodes c)) (cl_faults c)) w in
        (Some a, mkCluster (<[self := s']> (cl_nodes e')) (cl_faults e'), w')
    end.

(** ** The cluster meets the contract of [ReplicaNetwork] *)

Definition lookup_at (c : Cluster) (target key : string) : option VersionedValue :=
  match cl_nodes c !! target with Some s => sv_store s !! key | None => None end.

Lemma record_write_store k v n ts (s : Server Q) w : sv_store (record_write k v n ts s w).1.2 = sv_store s.
Proof.
  unfold record_write, bind, get. destruct (sv_reconciler s) as [e|]; [|done]. unfold time_now.
  by destruct (Engine_RecordWrite _ _ _ _ _ _).
Qed.

(** Also when the handler panics, the request has been stored. *)
Lemma replicate_handler_store req (s : Server Q) w :
  ∃ vv, sv_store (Server_Replicate req s w).1.2 = <[rreq_Key req := vv]> (sv_store s) ∧
    vv_HLC vv = FromProto (rreq_Hlc req) ∧ vv_Value vv = rreq_Value req.
Proof.
  unfold Server_Replicate, clock_update, store_put, bind, time_now, get, modify, ret.
  destruct (Clock_Update _ _ _) as [err clk]. simpl.
  match goal with |- context [record_write ?k ?v ?n ?t ?s1 ?w1] =>
    pose proof (record_write_store k v n t s1 w1) as Hst;
    destruct (record_write k v n t s1 w1) as [[ok s2] w2] end.
  simpl in Hst. destruct ok; simpl; rewrite Hst; eexists; split; done.
Qed.

Lemma getlocal_handler (req : GetRequest) (s : Server Q) w :
  (Server_GetLocal req s w).1.2 = s.
Proof. destruct (server_getlocal_spec req s w) as (? & ? & -> & _). done. Qed.

Lemma lookup_at_insert c target s faults t k :
  lookup_at (mkCluster (<[target := s]> (cl_nodes c)) faults) t k =
  if decide (t = target) then sv_store s !! k else lookup_at c t k.
Proof.
  unfold lookup_at. simpl. case_decide as Ht.
  - subst. by rewrite lookup_insert_eq.
  - by rewrite lookup_insert_ne.
Qed.

#[export, refine] Instance cluster_replicas : ReplicaNetwork Cluster :=
  {| net_lookup := lookup_at |}.
Proof.
  - intros target req e w t k Hne. simpl. unfold call_at.
    destruct (cl_nodes e !! target) as [s|] eqn:Es; [|done].
    destruct (replicate_handler_store req s w) as (vv & Hst & _).
    destruct (Server_Replicate req s w) as [[r s'] w']. simpl in Hst.
    destruct (default _ _); [destruct r|done|destruct r]; simpl; rewrite lookup_at_insert;
      (case_decide as Ht; [subst t|done]); unfold lookup_at; rewrite Es, Hst;
      apply lookup_insert_ne; naive_solver.
  - intros target req e w. simpl. unfold call_at, stores_request.
    destruct (cl_nodes e !! target) as [s|] eqn:Es; [|by left].
    destruct (replicate_handler_store req s w) as (vv & Hst & Hh & Hv).
    destruct (Server_Replicate req s w) as [[r s'] w']. simpl in Hst.
    destruct (default _ _); [destruct r|by left|destruct r]; right; exists vv;
      rewrite lookup_at_insert, decide_True, Hst, lookup_insert_eq by done; done.
  - intros target req e w t k. simpl. unfold call_pure, call_at, bind, ret.
    destruct (cl_nodes e !! target) as [s|] eqn:Es; [|done].
    pose proof (getlocal_handler req s w) as Hs.
    destruct (Server_GetLocal req s w) as [[r s'] w']. simpl in Hs. subst s'.
    destruct (default _ _); simpl; try done; rewrite lookup_at_insert;
      (case_decide as Ht; [subst t; unfold lookup_at; by rewrite Es|done]).
  - intros target req e w resp. simpl. unfold call_pure, call_at, bind, ret, lookup_at.
    destruct (cl_nodes e !! target) as [s|]; [|done].
    destruct (server_getlocal_spec req s w) as (r & w' & -> & _ & Hr).
    destruct (default _ _); try done. intros [= <-].
    destruct (sv_store s !! greq_Key req) as [vv|].
    + destruct Hr as (-> & Hh & Hv & _). by exists vv.
    + by subst r.
Defined.
End Cluster.

Arguments Cluster : clear implicits.

(** ** Full-mesh clusters *)

Section Mesh.
Context {Q : Type} `{!QuorumProvider Q}.
Implicit Types (c e : Cluster Q) (s : Server Q) (U : gset string) (w : World).

(** The node at address [a] of a cluster with addresses [U] is connected to all
    others. *)
Definition node_ok U (a : string) s : Prop :=
  server_wf s ∧ dom (co_peers (sv_coordinator s)) = U ∖ {[a]}.

Definition nodes_ok U (D : gset string) e : Prop :=
  dom (cl_nodes e) = D ∧ ∀ a s, cl_nodes e !! target_of a = Some s → node_ok U a s.

Definition cluster_wf U c : Prop := nodes_ok U (set_map target_of U) c.

Lemma node_ok_setup U a s s' :
  server_wf s' → sv_coordinator s' = sv_coordinator s → node_ok U a s → node_ok U a s'.
Proof. intros Hwf Hc [_ Hd]. split; [done|]. by rewrite Hc. Qed.

Lemma nodes_ok_faults U D e fs : nodes_ok U D e → nodes_ok U D (mkCluster (cl_nodes e) fs).
Proof. done. Qed.

Lemma nodes_ok_insert U D e t s s' fs :
  nodes_ok U D e → cl_nodes e !! t = Some s → server_wf s' → sv_coordinator s' = sv_coordinator s →
  nodes_ok U D (mkCluster (<[t := s']> (cl_nodes e)) fs).
Proof.
  intros [Hd Hn] Hs Hwf Hset. split; simpl.
  - rewrite dom_insert_lookup_L by eauto. done.
  - intros a s1. rewrite lookup_insert_Some. intros [[-> <-]|[? ?]]; [|by apply Hn].
    by eapply node_ok_setup, Hn.
Qed.

(** Remote calls keep the mesh. *)
Lemma replicate_call_ok U D t req e w :
  (∀ s, cl_nodes e !! t = Some s → server_wf s) →
  nodes_ok U D e → nodes_ok U D (net_Replicate t req e w).1.2.
Proof.
  intros Hwf Hok. simpl. unfold call_at.
  destruct (cl_nodes e !! t) as [s|] eqn:Es; [|by apply nodes_ok_faults].
  destruct (server_replicate_spec req s w (Hwf s eq_refl)) as (s' & w' & vv & -> & Hwf' & Hset & _).
  destruct (default _ _); [|by apply nodes_ok_faults|]; eapply nodes_ok_insert; done || apply Hset.
Qed.

Lemma getlocal_call_ok U D t req e w : nodes_ok U D e → nodes_ok U D (net_GetLocal t req e w).1.2.
Proof.
  intros Hok. simpl. unfold call_pure, call_at, bind, ret.
  destruct (cl_nodes e !! t) as [s|] eqn:Es; [|by apply nodes_ok_faults].
  pose proof (getlocal_handler req s w) as Hs.
  destruct (Server_GetLocal req s w) as [[r s'] w']. simpl in Hs. subst s'.
  destruct (default _ _); simpl; try (by apply nodes_ok_faults); rewrite insert_id by done; by apply nodes_ok_faults.
Qed.

(** All nodes are well-formed, also those whose key is not a target of [U]. *)
Definition all_wf e : Prop := ∀ t s, cl_nodes e !! t = Some s → server_wf s.

Lemma cluster_wf_all U c : cluster_wf U c → all_wf c.
Proof.
  intros [Hd Hn] t s Hs.
  assert (t ∈ dom (cl_nodes c)) as Ht by by eapply elem_of_dom_2.
  rewrite Hd in Ht. apply elem_of_map in Ht as (a & -> & _). by eapply Hn.
Qed.

Definition env_ok U D e : Prop := nodes_ok U D e ∧ all_wf e.

Lemma env_replicate U D t req e w : env_ok U D e → env_ok U D (net_Replicate t req e w).1.2.
Proof.
  intros [Hok Hwf]. split; [apply replicate_call_ok; [apply Hwf|done]|].
  simpl. unfold call_at. destruct (cl_nodes e !! t) as [s|] eqn:Es; [|done].
  destruct (server_replicate_spec req s w (Hwf t s Es)) as (s' & w' & vv & -> & Hwf' & _).
  destruct (default _ _); [|done|]; intros t' s1; simpl; rewrite lookup_insert_Some;
    (intros [[-> <-]|[? ?]]; [done|by eapply Hwf]).
Qed.

Lemma env_getlocal U D t req e w : env_ok U D e → env_ok U D (net_GetLocal t req e w).1.2.
Proof.
  intros [Hok Hwf]. split; [by apply getlocal_call_ok|].
  simpl. unfold call_pure, call_at, bind, ret. destruct (cl_nodes e !! t) as [s|] eqn:Es; [|done].
  pose proof (getlocal_handler req s w) as Hs.
  destruct (Server_GetLocal req s w) as [[r s'] w']. simpl in Hs. subst s'.
  destruct (default _ _); [|done|]; simpl; unfold all_wf; simpl; by rewrite insert_id.
Qed.

Lemma cluster_self U c a : cluster_wf U c → a ∈ U → ∃ s, cl_nodes c !! target_of a = Some s ∧ node_ok U a s.
Proof.
  intros [Hd Hn] Ha. assert (target_of a ∈ dom (cl_nodes c)) as [s Hs]%elem_of_dom.
  { rewrite Hd. apply elem_of_map. by exists a. }
  exists s. split; [done|]. by apply Hn.
Qed.

(** The network of the node at [a]. *)
Definition others (a : string) c : Cluster Q := mkCluster (delete (target_of a) (cl_nodes c)) (cl_faults c).

Lemma others_ok U c a :
  cluster_wf U c → env_ok U (set_map target_of U ∖ {[target_of a]}) (others a c).
Proof.
  intros Hwf. pose proof (cluster_wf_all U c Hwf) as Hall. destruct Hwf as [Hd Hn]. split; [split|]; simpl.
  - by rewrite dom_delete_L, Hd.
  - intros b s [_ ?]%lookup_delete_Some. by apply Hn.
  - intros t s Hs. simpl in Hs. apply lookup_delete_Some in Hs as [_ Hs]. by eapply Hall.
Qed.

(** Putting the node back. *)
Lemma rejoin_wf U a s' e' fs :
  a ∈ U → env_ok U (set_map target_of U ∖ {[target_of a]}) e' → node_ok U a s' →
  cluster_wf U (mkCluster (<[target_of a := s']> (cl_nodes e')) fs).
Proof.
  intros Ha [[Hd Hn] _] Hs. split; simpl.
  - rewrite dom_insert_L, Hd. apply set_eq. intros t. rewrite elem_of_union, elem_of_difference, elem_of_singleton.
    split; [intros [->|[? _]]; [apply elem_of_map; by exists a|done]|].
    intros Ht. destruct (decide (t = target_of a)); tauto.
  - intros b s1. rewrite lookup_insert_Some. intros [[->%(inj target_of) <-]|[? ?]]; [done|by apply Hn].
Qed.

Lemma lookup_rejoin a s' e' fs t k :
  lookup_at (mkCluster (<[target_of a := s']> (cl_nodes e')) fs) t k =
  if decide (t = target_of a) then sv_store s' !! k else lookup_at e' t k.
Proof. apply lookup_at_insert. Qed.

Lemma lookup_others c a t k : t ≠ target_of a → lookup_at (others a c) t k = lookup_at c t k.
Proof. intros. unfold lookup_at. simpl. by rewrite lookup_delete_ne. Qed.

(** A [Put] at a node of the mesh. *)
Lemma cluster_put U c a sched req w :
  cluster_wf U c → a ∈ U → fair_schedule sched →
  ∃ s resp c' w' (acked : gset string),
    cl_nodes c !! target_of a = Some s ∧
    at_node (target_of a) (Server_Put sched req) c w = (Some (Some resp), c', w') ∧
    cluster_wf U c' ∧ acked ⊆ U ∖ {[a]} ∧
    (presp_Success resp = true ↔ U ∖ {[a]} = ∅ ∨ GetW (sv_quorumProvider s) <= put_acks acked) ∧
    (presp_Success resp = true → presp_Hlc resp = Some (HLC_ToProto (put_stamp s w))) ∧
    (∀ b, b = a ∨ b ∈ acked →
       holds_write (lookup_at c' (target_of b) (preq_Key req)) (put_stamp s w) (preq_Value req)) ∧
    (∀ t k, k ≠ preq_Key req → lookup_at c' t k = lookup_at c t k) ∧
    (∀ t, lookup_at c' t (preq_Key req) = lookup_at c t (preq_Key req) ∨
          holds_write (lookup_at c' t (preq_Key req)) (put_stamp s w) (preq_Value req)).
Proof.
  intros Hwf Ha Hf. destruct (cluster_self U c a Hwf Ha) as (s & Hs & Hok).
  pose proof Hok as [Hswf Hdom].
  destruct (server_put_spec sched req s (others a c) w Hf Hswf)
    as (resp & s' & e' & w' & acked & Heq & Hwf' & Hset & Hput & _).
  pose proof (server_put_keeps (env_ok U (set_map target_of U ∖ {[target_of a]}))
    (λ t r e w, env_replicate _ _ t r e w) sched req s (others a c) w (others_ok U c a Hwf)) as Henv.
  rewrite Heq in Henv. simpl in Henv. destruct Hput as [(vv & Hst & Hh & Hv & _) _ Hsub Hsucc Hresp Hrep Hok' _ Hng].
  rewrite Hdom in Hsub.
  assert (co_peers (sv_coordinator s) = ∅ ↔ U ∖ {[a]} = ∅) as He
    by (rewrite <- Hdom; by rewrite dom_empty_iff_L).
  exists s, resp, (mkCluster (<[target_of a := s']> (cl_nodes e')) (cl_faults e')), w', acked.
  split_and!; try done.
  - unfold at_node. rewrite Hs. fold (others a c). by rewrite Heq.
  - apply rejoin_wf; [done..|]. apply (node_ok_setup U a s); [done|apply Hset|done].
  - by rewrite Hsucc, He.
  - intros Hsu. by apply Hresp.
  - intros b Hb. rewrite lookup_rejoin. case_decide as Ht.
    + rewrite Hst, lookup_insert_eq. by exists vv.
    + apply Hrep. destruct Hb as [->|?]; [done|done].
  - intros t k Hk. rewrite lookup_rejoin. case_decide as Ht.
    + subst t. rewrite Hst, lookup_insert_ne by done. unfold lookup_at. by rewrite Hs.
    + rewrite <- (lookup_others c a t k Ht). by apply Hok'.
  - intros t. rewrite lookup_rejoin. case_decide as Ht.
    + right. rewrite Hst, lookup_insert_eq. by exists vv.
    + rewrite <- (lookup_others c a t _ Ht). apply Hng.
Qed.

(** A [Get] at a node of the mesh changes no store. *)
Lemma cluster_get U c a sched req w :
  cluster_wf U c → a ∈ U → fair_schedule sched →
  ∃ s resp c' w',
    cl_nodes c !! target_of a = Some s ∧ node_ok U a s ∧
    at_node (target_of a) (Server_Get sched req) c w = (Some resp, c', w') ∧
    cluster_wf U c' ∧ (∀ t k, lookup_at c' t k = lookup_at c t k) ∧
    get_outcome s (others a c) (greq_Key req) resp.
Proof.
  intros Hwf Ha Hf. destruct (cluster_self U c a Hwf Ha) as (s & Hs & Hok).
  destruct (server_get_spec sched req s (others a c) w Hf (proj1 Hok)) as (resp & e' & w' & Heq & Hfr & Hout & _).
  pose proof (server_get_keeps (env_ok U (set_map target_of U ∖ {[target_of a]}))
    (λ t r e w, env_getlocal _ _ t r e w) sched req s (others a c) w (others_ok U c a Hwf)) as Henv.
  rewrite Heq in Henv. simpl in Henv.
  exists s, resp, (mkCluster (<[target_of a := s]> (cl_nodes e')) (cl_faults e')), w'. split_and!; try done.
  - unfold at_node. rewrite Hs. fold (others a c). by rewrite Heq.
  - by apply rejoin_wf.
  - intros t k. rewrite lookup_rejoin. case_decide as Ht.
    + subst t. unfold lookup_at. by rewrite Hs.
    + rewrite <- (lookup_others c a t k Ht). apply Hfr.
Qed.
End Mesh.

(** ** Histories *)

Section History.
Context {Q : Type} `{!QuorumProvider Q}.
Implicit Types (c : Cluster Q) (s : Server Q) (U : gset string) (w : World).

(** Change the quorum a node uses, as the adjuster does. *)
Definition set_provider (q : Q) s : Server Q :=
  mkServer (sv_nodeID s) (sv_store s) (sv_coordinator s) q (sv_hlcClock s)
    (sv_stalenessDetector s) (sv_reconciler s).

(** The engine and the store it shares with the server after an iteration of the
    engine's loop, and the peers after a discovery. *)
Definition set_reconciler (o : option Engine) (st : Store) s : Server Q :=
  mkServer (sv_nodeID s) st (sv_coordinator s) (sv_quorumProvider s) (sv_hlcClock s)
    (sv_stalenessDetector s) o.
Definition set_peers (co : Coordinator) s : Server Q :=
  mkServer (sv_nodeID s) (sv_store s) co (sv_quorumProvider s) (sv_hlcClock s)
    (sv_stalenessDetector s) (sv_reconciler s).

(** Steps of a cluster after a write to [key] with timestamp [ts]: client
    operations at any node, in sequence, with any faults and any clock readings;
    a health check of a node and the healing notification it may cause; an
    iteration of a node's reconciliation engine; a discovery that finds the other
    nodes; a node changing its quorum; the weather on the network changing.  A
    later [Put] to the same key draws a timestamp that is not older. *)
Inductive cluster_step U (key : string) (ts : HLC) : Cluster Q → Cluster Q → Prop :=
  | StepPut a sched req c w r c' w' :
      a ∈ U → fair_schedule sched →
      (preq_Key req = key → ∀ s, cl_nodes c !! target_of a = Some s → ts ≼h put_stamp s w) →
      at_node (target_of a) (Server_Put sched req) c w = (r, c', w') →
      cluster_step U key ts c c'
  | StepGet a sched req c w r c' w' :
      a ∈ U → fair_schedule sched →
      at_node (target_of a) (Server_Get sched req) c w = (r, c', w') →
      cluster_step U key ts c c'
  | StepQuorum t s q c :
      cl_nodes c !! t = Some s →
      cluster_step U key ts c (mkCluster (<[t := set_provider q s]> (cl_nodes c)) (cl_faults c))
  | StepHealth t req c w r c' w' :
      net_HealthCheck t req c w = (r, c', w') → cluster_step U key ts c c'
  | StepHealing t s eng peer c :
      cl_nodes c !! t = Some s → sv_reconciler s = Some eng →
      cluster_step U key ts c
        (mkCluster (<[t := set_reconciler (Some (NotifyHealingEvent peer eng)) (sv_store s) s]> (cl_nodes c)) (cl_faults c))
  | StepEngine t s eng ev c w go st' eng' w' :
      cl_nodes c !! t = Some s → sv_reconciler s = Some eng →
      engine_iter ev (sv_store s, eng) w = (go, (st', eng'), w') →
      cluster_step U key ts c
        (mkCluster (<[t := set_reconciler (Some eng') st' s]> (cl_nodes c)) (cl_faults c))
  | StepDiscover a s o1 o2 new c :
      cl_nodes c !! target_of a = Some s → fair_schedule o1 → fair_schedule o2 → list_to_set new = U ∖ {[a]} →
      cluster_step U key ts c
        (mkCluster (<[target_of a := set_peers (reconcilePeers (E := Cluster Q) o1 o2 new (sv_coordinator s)) s]> (cl_nodes c))
           (cl_faults c))
  | StepFaults fs c : cluster_step U key ts c (mkCluster (cl_nodes c) fs).

(** At least [W] nodes hold the write or a newer one. *)
Definition written_at U (key : string) (ts : HLC) (W : Z) c : Prop :=
  ∃ X, X ⊆ U ∧ W <= Z.of_nat (size X) ∧
    ∀ a, a ∈ X → ∃ vv, lookup_at c (target_of a) key = Some vv ∧ ts ≼h vv_HLC vv.

(** A health check changes no store and no peers. *)
Lemma health_call_ok U D t req c w :
  all_wf c → nodes_ok U D c →
  nodes_ok U D (net_HealthCheck t req c w).1.2 ∧
  (∀ t' k, lookup_at (net_HealthCheck t req c w).1.2 t' k = lookup_at c t' k).
Proof.
  intros Hall Hok. simpl. unfold call_pure, call_at, bind, ret.
  destruct (cl_nodes c !! t) as [s|] eqn:Es; [|by split].
  destruct (server_healthcheck_spec req s w (Hall t s Es)) as (resp & s' & w' & -> & Hwf & (_ & Hc & _) & Hst & _).
  destruct (default _ _); [|by split|]; simpl; (split; [by eapply nodes_ok_insert|]);
    intros t' k; rewrite lookup_at_insert; (case_decide as Ht; [|done]); subst t'; unfold lookup_at; by rewrite Es, Hst.
Qed.

(** Replacing one server by one with the same peers and the same or winning values. *)
Lemma replace_server_ok U D c t s s' fs :
  nodes_ok U D c → cl_nodes c !! t = Some s → server_wf s' → sv_coordinator s' = sv_coordinator s →
  lww_step (sv_store s) (sv_store s') →
  nodes_ok U D (mkCluster (<[t := s']> (cl_nodes c)) fs) ∧
  ∀ t' key vv, lookup_at c t' key = Some vv →
    ∃ vv', lookup_at (mkCluster (<[t := s']> (cl_nodes c)) fs) t' key = Some vv' ∧ vv_HLC vv ≼h vv_HLC vv'.
Proof.
  intros Hok Hs Hwf Hc [_ Hst]. split; [by eapply nodes_ok_insert|]. intros t' key vv Hl.
  rewrite lookup_at_insert. case_decide as Ht; [|by exists vv].
  subst t'. unfold lookup_at in Hl. rewrite Hs in Hl. destruct (Hst key vv Hl) as (v & Hv & Hw).
  exists v. split; [done|]. unfold lww_wins in Hw. apply orb_false_iff in Hw as [Hw _]. exact Hw.
Qed.

Lemma cluster_step_keeps U key ts W c c' :
  cluster_step U key ts c c' → cluster_wf U c → written_at U key ts W c →
  cluster_wf U c' ∧ written_at U key ts W c'.
Proof.
  intros Hstep Hwf (X & HX & HW & Hhold).
  assert ((∀ t, lookup_at c' t key = lookup_at c t key ∨
             ∃ vv, lookup_at c' t key = Some vv ∧ ts ≼h vv_HLC vv) → written_at U key ts W c') as Hkeep.
  { intros Hl. exists X. split_and!; [done..|]. intros a Ha. destruct (Hl (target_of a)) as [->|?]; auto. }
  assert ((∀ t vv, lookup_at c t key = Some vv → ∃ vv', lookup_at c' t key = Some vv' ∧ vv_HLC vv ≼h vv_HLC vv') →
    written_at U key ts W c') as Hmono.
  { intros Hl. exists X. split_and!; [done..|]. intros a Ha. destruct (Hhold a Ha) as (vv & Hvv & Hts).
    destruct (Hl _ _ Hvv) as (vv' & ? & ?). exists vv'. split; [done|]. by transitivity (vv_HLC vv). }
  pose proof (cluster_wf_all U c Hwf) as Hall.
  destruct Hstep as [a sched req c w r c' w' Ha Hf Hts Heq|a sched req c w r c' w' Ha Hf Heq|t s q c Hs|
    t req c w r c' w' Heq|t s eng peer c Hs Heng|t s eng ev c w go st' eng' w' Hs Heng Heq|
    a s o1 o2 new c Hs Ho1 Ho2 Hnew|fs c].
  - destruct (cluster_put U c a sched req w Hwf Ha Hf)
      as (s & resp & c1 & w1 & acked & Hs & Heq1 & Hwf1 & _ & _ & _ & _ & Hne & Hng).
    rewrite Heq in Heq1. injection Heq1 as -> -> ->. split; [done|]. apply Hkeep. intros t.
    destruct (decide (key = preq_Key req)) as [->|Hk]; [|left; by apply Hne].
    destruct (Hng t) as [?|(vv & -> & Hh & _)]; [by left|right]. exists vv. rewrite Hh.
    split; [done|]. by apply (Hts eq_refl).
  - destruct (cluster_get U c a sched req w Hwf Ha Hf) as (s & resp & c1 & w1 & _ & _ & Heq1 & Hwf1 & Hl & _).
    rewrite Heq in Heq1. injection Heq1 as -> -> ->. split; [done|]. apply Hkeep. intros t. left. apply Hl.
  - split; [eapply nodes_ok_insert; [done|done| |done]|].
    + destruct (cluster_wf_all U c Hwf t s Hs) as [H1 H2]. by split.
    + apply Hkeep. intros t'. left. rewrite lookup_at_insert. case_decide as Ht; [|done].
      subst t'. unfold lookup_at. by rewrite Hs.
  - destruct (health_call_ok U _ t req c w Hall Hwf) as [Hwf' Hl]. rewrite Heq in Hwf', Hl. split; [done|].
    apply Hkeep. intros t'. left. apply Hl.
  - destruct (replace_server_ok U _ c t s (set_reconciler (Some (NotifyHealingEvent peer eng)) (sv_store s) s) (cl_faults c) Hwf Hs)
      as [Hwf' Hl]; [|done|simpl; reflexivity|split; [done|]; apply Hmono; intros t' vv; apply Hl].
    destruct (Hall t s Hs) as [Hc He]. split; simpl; [done|]. intros e [= <-]. by apply notify_engine_wf, He.
  - pose proof (engine_iter_step ev (sv_store s) eng w (server_wf_engine _ (Hall t s Hs) eng Heng)) as Hst.
    rewrite Heq in Hst. destruct Hst as (Hewf & _ & Hst).
    destruct (replace_server_ok U _ c t s (set_reconciler (Some eng') st' s) (cl_faults c) Hwf Hs)
      as [Hwf' Hl]; [|done|done|split; [done|]; apply Hmono; intros t' vv; apply Hl].
    destruct (Hall t s Hs) as [Hc He]. split; simpl; [done|]. by intros e [= <-].
  - destruct (Hall _ s Hs) as [Hc He].
    destruct (reconcile_peers_spec (E := Cluster Q) o1 o2 new (sv_coordinator s) Ho1 Ho2 Hc) as [Hc' Hp].
    assert (dom (co_peers (reconcilePeers (E := Cluster Q) o1 o2 new (sv_coordinator s))) = U ∖ {[a]}) as Hd.
    { rewrite <- Hnew. apply set_eq. intros x. rewrite elem_of_dom, Hp, elem_of_list_to_set.
      case_decide as Hx; [|split; [by intros [? ?]|done]].
      split; [done|]. intros _. destruct (co_peers _ !! x); [by eexists|]. rewrite decide_True by done. by eexists. }
    split.
    + destruct Hwf as [Hdom Hn]. split; simpl; [by rewrite dom_insert_lookup_L by eauto|].
      intros b s1. rewrite lookup_insert_Some. intros [[->%(inj target_of) <-]|[? ?]]; [|by apply Hn].
      split; [by split|done].
    + apply Hkeep. intros t'. left. rewrite lookup_at_insert. case_decide as Ht; [|done].
      subst t'. unfold lookup_at. by rewrite Hs.
  - split; [by apply nodes_ok_faults|]. apply Hkeep. intros t. by left.
Qed.

Lemma cluster_steps_keep U key ts W c c' :
  rtc (cluster_step U key ts) c c' → cluster_wf U c → written_at U key ts W c →
  cluster_wf U c' ∧ written_at U key ts W c'.
Proof. induction 1; [done|]. intros. apply IHrtc; by eapply cluster_step_keeps. Qed.

(** A successful [Put] reaches W nodes. *)
Lemma put_written U c a sched req w s resp c' w' :
  cluster_wf U c → a ∈ U → fair_schedule sched → (2 <= size U)%nat →
  cl_nodes c !! target_of a = Some s →
  at_node (target_of a) (Server_Put sched req) c w = (Some (Some resp), c', w') →
  presp_Success resp = true →
  cluster_wf U c' ∧ presp_Hlc resp = Some (HLC_ToProto (put_stamp s w)) ∧
  written_at U (preq_Key req) (put_stamp s w) (GetW (sv_quorumProvider s)) c'.
Proof.
  intros Hwf Ha Hf HU Hs Heq Hok.
  destruct (cluster_put U c a sched req w Hwf Ha Hf)
    as (s1 & resp1 & c1 & w1 & acked & Hs1 & Heq1 & Hwf1 & Hsub & Hsucc & Hresp & Hhold & _).
  rewrite Hs in Hs1. injection Hs1 as <-. rewrite Heq in Heq1. injection Heq1 as -> -> ->.
  split; [done|]. split; [by apply Hresp|]. apply Hsucc in Hok as [Hemp|HW].
  { apply size_le_1 in Hemp. lia. }
  exists ({[a]} ∪ acked). split; [clear -Ha Hsub; set_solver|]. split.
  - rewrite (size_add_1 acked U a Hsub). unfold put_acks in HW. lia.
  - intros b Hb. destruct (Hhold b) as (vv & ? & Hh & _); [clear -Hb; set_solver|]. exists vv. split; [done|].
    rewrite Hh. reflexivity.
Qed.

(** A [Get] whose read quorum meets the holders sees the write. *)
Lemma get_sees U c a s resp key ts W :
  written_at U key ts W c → cl_nodes c !! target_of a = Some s → node_ok U a s → a ∈ U →
  Z.of_nat (size U) < W + GetR (sv_quorumProvider s) →
  get_outcome s (others a c) key resp →
  gresp_Error resp ≠ "" ∨ (gresp_Found resp = true ∧ ts ≼h FromProto (gresp_Hlc resp)).
Proof.
  intros (X & HX & HW & Hhold) Hs [_ Hdom] Ha Hlt Hout.
  assert (∀ Y, Y ⊆ U ∖ {[a]} → GetR (sv_quorumProvider s) <= Z.of_nat (size Y) + 1 →
    ∃ z, z ∈ X ∧ (z = a ∨ z ∈ Y)) as Hmeet.
  { intros Y HY HR. destruct (quorum_intersect U X ({[a]} ∪ Y)) as (z & Hz & HzY);
      [done|clear -HY Ha; set_solver| |exists z; clear -Hz HzY; set_solver].
    rewrite (size_add_1 Y U a HY). lia. }
  assert (∀ h value, read_quorum s (others a c) key h value → ts ≼h h) as Hread.
  { intros h value [Y HY HR Hpeers Hlocal _]. rewrite Hdom in HY.
    destruct (Hmeet Y HY HR) as (z & Hz & Hor). destruct (Hhold z Hz) as (vv & Hl & Hts).
    destruct (decide (z = a)) as [->|Hne].
    - unfold lookup_at in Hl. rewrite Hs in Hl. transitivity (vv_HLC vv); [done|]. by apply Hlocal.
    - destruct Hor as [->|HzY]; [done|]. destruct (Hpeers z HzY) as (vv' & Hl' & Hh).
      change net_lookup with (lookup_at (Q := Q)) in Hl'.
      rewrite lookup_others in Hl' by (intros ?%(inj target_of); done).
      rewrite Hl in Hl'. injection Hl' as <-. by transitivity (vv_HLC vv). }
  destruct Hout as [err _ Herr|Hnone HR|err h value Herr _|h value ver t Hrq].
  - by left.
  - exfalso. destruct (Hmeet ∅) as (z & Hz & Hor); [apply empty_subseteq|rewrite size_empty; lia|].
    destruct Hor as [->|?%not_elem_of_empty]; [|done]. destruct (Hhold a Hz) as (vv & Hl & _).
    unfold lookup_at in Hl. rewrite Hs in Hl. congruence.
  - by left.
  - right. split; [done|]. simpl. destruct h. by eapply (Hread _ _ Hrq).
Qed.

(** ** Properties *)

(** C2: quorum reads see acknowledged writes.  In a fully connected cluster of
    at least two nodes, after a [Put] was acknowledged at node [a] and any number
    of further steps at any nodes (client operations with lost requests, lost
    replies and skewed clocks, health checks, healing notifications, iterations
    of the reconciliation engines, discoveries, quorums changing), a [Get] of the key at node [b] either
    reports an error or returns a value at least as new as the write, provided
    the write quorum used by the [Put] and the read quorum used by the [Get]
    together exceed the cluster size and later writes to the key drew timestamps
    that are not older. *)
Theorem quorum_read_sees_write (U : gset string) (c1 c2 c3 : Cluster Q) (a b : string)
    (sched sched' : schedule (string * ServiceClient)) (req : PutRequest) (w w2 w3 : World)
    (sa sb : Server Q) (resp : PutResponse) :
  (2 <= size U)%nat → cluster_wf U c1 → a ∈ U → b ∈ U → fair_schedule sched → fair_schedule sched' →
  cl_nodes c1 !! target_of a = Some sa →
  at_node (target_of a) (Server_Put sched req) c1 w = (Some (Some resp), c2, w2) →
  presp_Success resp = true →
  let ts := FromProto (presp_Hlc resp) in
  rtc (cluster_step U (preq_Key req) ts) c2 c3 →
  cl_nodes c3 !! target_of b = Some sb →
  Z.of_nat (size U) < GetW (sv_quorumProvider sa) + GetR (sv_quorumProvider sb) →
  ∃ r c4 w4, at_node (target_of b) (Server_Get sched' (mkGetRequest (preq_Key req))) c3 w3 = (Some r, c4, w4) ∧
    (gresp_Error r ≠ "" ∨
     (gresp_Found r = true ∧ HLC_HappensBefore (FromProto (gresp_Hlc r)) ts = false)).
Proof.
  intros HU Hwf Ha Hb Hf Hf' Hsa Hput Hok ts Hsteps Hsb Hlt.
  destruct (put_written U c1 a sched req w sa resp c2 w2 Hwf Ha Hf HU Hsa Hput Hok) as (Hwf2 & Hresp & Hwr).
  assert (ts = put_stamp sa w) as Hts by (unfold ts; rewrite Hresp; by destruct (put_stamp sa w)).
  rewrite <- Hts in Hwr. clearbody ts.
  destruct (cluster_steps_keep U _ ts _ c2 c3 Hsteps Hwf2 Hwr) as [Hwf3 Hwr3].
  destruct (cluster_get U c3 b sched' (mkGetRequest (preq_Key req)) w3 Hwf3 Hb Hf')
    as (s & r & c4 & w4 & Hs & Hnode & Heq & _ & _ & Hout).
  rewrite Hsb in Hs. injection Hs as <-. exists r, c4, w4. split; [done|].
  by eapply (get_sees U c3 b sb r (preq_Key req) ts).
Qed.
End History.

(** ** A concrete cluster *)

Section Demo.
Context {Q : Type} `{!QuorumProvider Q}.

(** The node main builds for address [a] of the cluster [addrs]. *)
Definition mesh_node (q : Q) (addrs : list string) (a : string) : Server Q :=
  NewServer a NewStore
    (NewCoordinator (Network0 := cluster_network (Q := Q)) a (List.filter (λ b, bool_decide (b ≠ a)) addrs)
       (500 * Millisecond))
    q (NewClock (tm 0) a (500 * Millisecond)) (NewDetector (3 * Second))
    (Some (NewEngine (30 * Second) true)).

Definition mesh (q : Q) (addrs : list string) : Cluster Q :=
  mkCluster (list_to_map (map (λ a, (target_of a, mesh_node q addrs a)) addrs)) [].

Lemma new_coordinator_dom nodeID addrs timeout :
  dom (co_peers (NewCoordinator (Network0 := cluster_network (Q := Q)) nodeID addrs timeout)) = list_to_set addrs.
Proof.
  unfold NewCoordinator.
  assert (∀ c, dom (co_peers (fold_left (λ c addr, (addPeer (Network0 := cluster_network (Q := Q)) addr c).2)
                        addrs c)) = dom (co_peers c) ∪ list_to_set addrs) as H.
  { induction addrs as [|x addrs IH]; intros c; cbn [fold_left list_to_set]; [set_solver|].
    rewrite IH. unfold addPeer. simpl. destruct (co_peers c !! x) eqn:Ex; simpl.
    - apply elem_of_dom_2 in Ex. set_solver.
    - rewrite dom_insert_L. set_solver. }
  rewrite H. simpl. rewrite dom_empty_L. set_solver.
Qed.

Lemma mesh_node_ok q addrs a : node_ok (list_to_set addrs) a (mesh_node q addrs a).
Proof.
  split.
  - split; simpl; [apply new_coordinator_wf|]. intros e [= <-]. apply new_engine_wf.
  - simpl. rewrite new_coordinator_dom. apply set_eq. intros x.
    rewrite elem_of_list_to_set, elem_of_bfilter, elem_of_difference, elem_of_list_to_set, bool_decide_eq_true.
    set_solver.
Qed.

Lemma mesh_lookup q addrs a s :
  cl_nodes (mesh q addrs) !! target_of a = Some s → s = mesh_node q addrs a ∧ a ∈ addrs.
Proof.
  simpl. intros H%elem_of_list_to_map_2%list_elem_of_In%in_map_iff.
  destruct H as (b & [Ht <-]%pair_equal_spec & Hb%list_elem_of_In). by apply (inj target_of) in Ht as ->.
Qed.

Lemma mesh_wf q addrs : cluster_wf (list_to_set addrs) (mesh q addrs).
Proof.
  split.
  - simpl. rewrite dom_list_to_map_L. apply set_eq. intros t.
    rewrite elem_of_list_to_set, elem_of_map. split.
    + intros (p & -> & (a & <- & Ha%list_elem_of_In)%list_elem_of_In%in_map_iff)%list_elem_of_fmap.
      exists a. split; [done|]. by apply elem_of_list_to_set.
    + intros (a & -> & Ha%elem_of_list_to_set). apply list_elem_of_fmap.
      exists (target_of a, mesh_node q addrs a). split; [done|].
      apply list_elem_of_In, in_map_iff. exists a. split; [done|]. by apply list_elem_of_In.
  - intros a s [-> _]%mesh_lookup. apply mesh_node_ok.
Qed.
End Demo.

(** Successive clock readings one millisecond apart. *)
Definition ticking (start : Z) : World := mkWorld (λ k, tm (start + Millisecond * Z.of_nat k)) 0 [].

Definition demo_put (a : string) (v : string) (fs : list fault) (c : Cluster AdaptiveQuorum) (w : World) :=
  at_node (target_of a) (Server_Put (λ l, l) (mkPutRequest "k" (go_bytes v)))
    (mkCluster (cl_nodes c) fs) w.
Definition demo_get (a : string) (fs : list fault) (c : Cluster AdaptiveQuorum) (w : World) :=
  at_node (target_of a) (Server_Get (λ l, l) (mkGetRequest "k")) (mkCluster (cl_nodes c) fs) w.
Definition demo_mesh (r w : Z) : Cluster AdaptiveQuorum :=
  mesh (NewAdaptiveQuorum r w 3 1 3 1 3) ["a"; "b"; "c"].

Lemma quorum_read_sees_write_witness :
  let '(r1, c2, w2) := demo_put "a" "v" [Deliver; DropRequest] (demo_mesh 2 2) (ticking (10 * Second)) in
  let c3 := mkCluster (cl_nodes c2) [DropRequest; Deliver] in
  (∃ resp, r1 = Some (Some resp) ∧ presp_Success resp = true) ∧
  ∃ r c4 w4, at_node (target_of "c") (Server_Get (λ l, l) (mkGetRequest "k")) c3 w2 = (Some r, c4, w4) ∧
    (gresp_Error r ≠ "" ∨ (gresp_Found r = true ∧ HLC_HappensBefore (FromProto (gresp_Hlc r))
       (FromProto (Some (mkProtoHLC (10 * Second + Millisecond) 0 "a"))) = false)).
Proof.
  set (c1 := mkCluster (cl_nodes (demo_mesh 2 2)) [Deliver; DropRequest]).
  destruct (demo_put "a" "v" [Deliver; DropRequest] (demo_mesh 2 2) (ticking (10 * Second)))
    as [[r1 c2] w2] eqn:Hput.
  assert (r1 = Some (Some (mkPutResponse true "" (10 * Second + Millisecond) (10 * Second + Millisecond)
    (Some (mkProtoHLC (10 * Second + Millisecond) 0 "a"))))) as ->.
  { change r1 with (r1, c2, w2).1.1. rewrite <- Hput. vm_compute. reflexivity. }
  cbv zeta. split; [eexists; split; reflexivity|].
  destruct (cl_nodes c1 !! target_of "a") as [sa|] eqn:Ha; [|vm_compute in Ha; discriminate].
  destruct (cl_nodes c2 !! target_of "c") as [sc|] eqn:Hc.
  2:{ exfalso. change c2 with (Some (Some (mkPutResponse true "" (10 * Second + Millisecond) (10 * Second + Millisecond)
        (Some (mkProtoHLC (10 * Second + Millisecond) 0 "a")))), c2, w2).1.2 in Hc.
      rewrite <- Hput in Hc. vm_compute in Hc. discriminate. }
  refine (quorum_read_sees_write (list_to_set ["a"; "b"; "c"]) c1 c2
    (mkCluster (cl_nodes c2) [DropRequest; Deliver]) "a" "c" (λ l, l) (λ l, l)
    (mkPutRequest "k" (go_bytes "v")) (ticking (10 * Second)) w2 w2 sa sc _ _ _ _ _ _ _ _ Hput _ _ Hc _).
  - vm_compute. lia.
  - apply nodes_ok_faults, mesh_wf.
  - vm_compute. reflexivity || set_solver.
  - set_solver.
  - apply fair_id.
  - apply fair_id.
  - exact Ha.
  - reflexivity.
  - apply rtc_once, StepFaults.
  - assert (sv_quorumProvider sa = NewAdaptiveQuorum 2 2 3 1 3 1 3) as ->.
    { apply (f_equal (fmap sv_quorumProvider)) in Ha. apply (inj Some). etransitivity; [symmetry; exact Ha|].
      vm_compute. reflexivity. }
    assert (sv_quorumProvider sc = NewAdaptiveQuorum 2 2 3 1 3 1 3) as ->.
    { apply (f_equal (fmap sv_quorumProvider)) in Hc. apply (inj Some). etransitivity; [symmetry; exact Hc|].
      change c2 with (Some (Some (mkPutResponse true "" (10 * Second + Millisecond) (10 * Second + Millisecond)
        (Some (mkProtoHLC (10 * Second + Millisecond) 0 "a")))), c2, w2).1.2.
      rewrite <- Hput. vm_compute. reflexivity. }
    vm_compute. reflexivity.
Defined.

(** Every node's adjuster sets the same new quorum. *)
Definition retune (r w : Z) (c : Cluster AdaptiveQuorum) (wd : World) : Cluster AdaptiveQuorum :=
  mkCluster ((λ s, set_provider (AQ_SetQuorum r w "tighten" (sv_quorumProvider s) wd).1.2 s) <$> cl_nodes c)
    (cl_faults c).

Definition all_quorums (c : Cluster AdaptiveQuorum) : list (Z * Z * Z) :=
  (λ p, (GetR (sv_quorumProvider p.2), GetW (sv_quorumProvider p.2), GetN (sv_quorumProvider p.2)))
    <$> map_to_list (cl_nodes c).

(** Two writes under R = 3, W = 1, the second reaching only its own node; then
    the quorum is tightened to R = 2, W = 2 everywhere; then a read at "b" whose
    call to "a" is lost. *)
Definition tighten_scenario : option (option PutResponse) * option GetResponse * list (Z * Z * Z) * list (Z * Z * Z) :=
  let '(_, c1, w1) := demo_put "a" "old" [] (demo_mesh 3 1) (ticking (10 * Second)) in
  let '(put2, c2, w2) := demo_put "a" "new" [DropRequest; DropRequest] c1 w1 in
  let c3 := retune 2 2 c2 w2 in
  let '(got, _, _) := demo_get "b" [Deliver; DropRequest] c3 w2 in
  (put2, got, all_quorums c2, all_quorums c3).

(** changing the quorum loses acknowledged writes: although R + W > N holds on
    every node before and after the adjustment, there is a run in which a write
    acknowledged under W = 1 is followed by a quorum read under R = 2 that
    succeeds and returns the older value. *)
Theorem adaptive_change_loses_write :
  ∃ p g q1 q2, tighten_scenario = (Some (Some p), Some g, q1, q2) ∧
    presp_Success p = true ∧
    Forall (λ t, t.2 < t.1.1 + t.1.2) q1 ∧ Forall (λ t, t.2 < t.1.1 + t.1.2) q2 ∧
    gresp_Found g = true ∧ gresp_Error g = "" ∧ gresp_Value g = go_bytes "old" ∧
    HLC_HappensBefore (FromProto (gresp_Hlc g)) (FromProto (presp_Hlc p)) = true.
Proof.
  eexists _, _, _, _. split; [vm_compute; reflexivity|].
  split_and!; try (vm_compute; reflexivity); repeat constructor.
Qed.

(** a replicated write does overwrite a newer value: the handler does not
    compare timestamps, so a delayed [Replicate] replaces a value with a later
    HLC by its own older one (reconciliation, by contrast, keeps the later). *)
Theorem replicate_overwrites_newer {Q} (req : ReplicateRequest) (s : Server Q) (w : World) (vv : VersionedValue) :
  server_wf s → sv_store s !! rreq_Key req = Some vv →
  HLC_HappensBefore (FromProto (rreq_Hlc req)) (vv_HLC vv) = true →
  ∃ resp s' w' vv', Server_Replicate req s w = (Some resp, s', w') ∧ rresp_Success resp = true ∧
    sv_store s' !! rreq_Key req = Some vv' ∧
    HLC_HappensBefore (vv_HLC vv') (vv_HLC vv) = true ∧ vv_Value vv' = rreq_Value req.
Proof.
  intros Hwf Hvv Hb.
  destruct (server_replicate_spec req s w Hwf) as (s' & w' & vv' & Heq & _ & _ & Hst & Hh & Hv & _).
  eexists _, s', w', vv'. split; [exact Heq|]. rewrite Hst, lookup_insert_eq, Hh. done.
Qed.

Lemma replicate_overwrites_newer_witness :
  let s := with_store {["k" := mkVV (go_bytes "new") 9 9 "a" (mkHLC 9 0 "a") 9 true]} (mesh_node (Q := unit) tt [] "a") in
  let req := mkReplicateRequest "k" (go_bytes "old") 5 5 "b" (Some (mkProtoHLC 5 0 "b")) in
  ∃ resp s' w' vv', Server_Replicate req s (ticking 0) = (Some resp, s', w') ∧ rresp_Success resp = true ∧
    sv_store s' !! "k" = Some vv' ∧ HLC_HappensBefore (vv_HLC vv') (mkHLC 9 0 "a") = true ∧
    vv_Value vv' = go_bytes "old".
Proof.
  cbv zeta.
  refine (replicate_overwrites_newer (mkReplicateRequest "k" (go_bytes "old") 5 5 "b" (Some (mkProtoHLC 5 0 "b")))
    (with_store {["k" := mkVV (go_bytes "new") 9 9 "a" (mkHLC 9 0 "a") 9 true]} (mesh_node (Q := unit) tt [] "a"))
    (ticking 0) (mkVV (go_bytes "new") 9 9 "a" (mkHLC 9 0 "a") 9 true) _ _ _).
  - destruct (mesh_node_ok (Q := unit) tt [] "a") as [[H1 H2] _]. by split.
  - reflexivity.
  - reflexivity.
Defined.

(** causality between writes at different nodes: when a node has applied a
    replicated write that was within the drift bound, the timestamp of its next
    own write is later than the replicated one, whatever its wall clock reads in
    between (logical counters away from the end of int64). *)
Theorem replicate_then_put_later {Q} (req : ReplicateRequest) (s : Server Q) (w w2 : World) :
  server_wf s →
  let h := FromProto (rreq_Hlc req) in
  (Clock_Update (w_clock w (w_tick w)) h (sv_hlcClock s)).1 = None →
  - 2 ^ 63 <= hlc_Logical h < max_int64 - 1 →
  - 2 ^ 63 <= clk_logical (sv_hlcClock s) < max_int64 - 1 →
  ∃ resp s' w', Server_Replicate req s w = (Some resp, s', w') ∧
    HLC_HappensBefore h (put_stamp s' w2) = true.
Proof.
  intros Hwf h Hup Hr1 Hr2.
  destruct (server_replicate_spec req s w Hwf) as (s' & w' & vv' & Heq & _ & _ & _ & _ & _ & _ & Hclk & _).
  eexists _, s', w'. split; [exact Heq|]. unfold put_stamp. rewrite Hclk. fold h.
  destruct (Clock_Update (w_clock w (w_tick w)) h (sv_hlcClock s)) as [err clk] eqn:Hu. simpl in *. subst err.
  by eapply clock_update_now.
Qed.

Lemma replicate_then_put_later_witness :
  let s := mesh_node (Q := unit) tt [] "a" in
  let req := mkReplicateRequest "k" [] 0 0 "b" (Some (mkProtoHLC (Second + 400 * Millisecond) 7 "b")) in
  ∃ resp s' w', Server_Replicate req s (ticking Second) = (Some resp, s', w') ∧
    HLC_HappensBefore (mkHLC (Second + 400 * Millisecond) 7 "b") (put_stamp s' (ticking 0)) = true.
Proof.
  cbv zeta.
  refine (replicate_then_put_later
    (mkReplicateRequest "k" [] 0 0 "b" (Some (mkProtoHLC (Second + 400 * Millisecond) 7 "b")))
    (mesh_node (Q := unit) tt [] "a") (ticking Second) (ticking 0) _ _ _ _).
  - apply (mesh_node_ok (Q := unit) tt [] "a").
  - vm_compute. reflexivity.
  - vm_compute. split; congruence.
  - vm_compute. split; congruence.
Defined.
