(* ===== verification/ServerSpec.v ===== *)
(** * ServerSpec: what a client of one node may rely on

    Properties of the [Put] and [Get] handlers of [Server], for every network
    that meets the contract of [Api]; the cluster of [Cluster] is the concrete
    network of the witnesses. *)

From S2P Require Import Prelude GoLib Float64 Metrics Hlc Storage Staleness Ring WriteLog.
From S2P Require Import Reconcile Config Quorum Api Coordinator Server Cluster.

Open Scope Z_scope.

Section Client.
Context {Q : Type} `{!QuorumProvider Q} {E : Type} `{!Network E, !ReplicaNetwork E}.


(** C7: the outcome of a [Get]: it changes no store; it reports an error, or
    "not found" (then the key is absent here and R is at most 1), or a value with
    its timestamp that the node or a peer holds and that is at least as new as
    the local value and as the values of at least R - 1 peers; the counters
    record one success or one failure accordingly. *)
Theorem get_returns_newest_of_quorum (sched : schedule (string * ServiceClient)) (req : GetRequest)
    (s : Server Q) (e : E) (w : World) :
  fair_schedule sched → server_wf s →
  let key := greq_Key req in
  ∃ resp e' w', Server_Get sched req (s, e) w = (resp, (s, e'), w') ∧
    (∀ t k, net_lookup e' t k = net_lookup e t k) ∧
    (gresp_Error resp = "" → gresp_Found resp = false →
       sv_store s !! key = None ∧ GetR (sv_quorumProvider s) <= 1) ∧
    (gresp_Error resp = "" → gresp_Found resp = true →
       read_quorum s e key (FromProto (gresp_Hlc resp)) (gresp_Value resp)) ∧
    ∃ pre d, w_events w' = pre ++ read_events resp ++ [HObserve GetLatency d].
Proof.
  intros Hf Hwf. cbv zeta.
  destruct (server_get_spec sched req s e w Hf Hwf) as (resp & e' & w' & Heq & Hfr & Hout & Hev).
  exists resp, e', w'. split_and!; try done.
  - destruct Hout; by intros.
  - destruct Hout as [| | |h value ver ts Hrq]; try done. intros _ _. simpl. by destruct h.
Qed.

(** C36: with a read quorum of two or more, a [Get] of a key that no replica has
    never answers "not found": replicas without the key are not counted as
    responses, so it is reported as an error and counted as a failed read. *)
Theorem quorum_read_missing_key_fails (sched : schedule (string * ServiceClient)) (req : GetRequest)
    (s : Server Q) (e : E) (w : World) :
  fair_schedule sched → server_wf s → 2 <= GetR (sv_quorumProvider s) →
  sv_store s !! greq_Key req = None →
  (∀ a, a ∈ dom (co_peers (sv_coordinator s)) → net_lookup e (target_of a) (greq_Key req) = None) →
  ∃ resp e' w', Server_Get sched req (s, e) w = (resp, (s, e'), w') ∧
    gresp_Found resp = false ∧ gresp_Error resp ≠ "" ∧
    ∃ pre d, w_events w' = pre ++ RecordReadFailure ++ [CVInc Errors "timeout"; HObserve GetLatency d].
Proof.
  intros Hf Hwf HR Hloc Hnet.
  destruct (server_get_spec sched req s e w Hf Hwf) as (resp & e' & w' & Heq & _ & Hout & pre & d & Hev).
  assert (∀ h value, ¬ read_quorum s e (greq_Key req) h value) as Hno.
  { intros h value [X _ _ _ _ [(vv & Hl & _)|(a & Ha & vv & Hl & _)]]; [congruence|].
    rewrite (Hnet a Ha) in Hl. done. }
  exists resp, e', w'. split; [done|].
  destruct Hout as [err HR1 Herr| |err h v _ Hrq|h v ver ts Hrq]; [|lia|by apply Hno in Hrq..].
  split_and!; try done. exists pre, d. rewrite Hev. unfold read_events. simpl. by rewrite decide_False.
Qed.
End Client.

(** ** Witnesses *)

Definition demo_node : Server AdaptiveQuorum := mesh_node (NewAdaptiveQuorum 2 2 3 1 3 1 3) ["a"; "b"; "c"] "a".
Definition demo_env (fs : list fault) : Cluster AdaptiveQuorum :=
  mkCluster (cl_nodes (others "a" (demo_mesh 2 2))) fs.

Lemma demo_node_wf : server_wf demo_node.
Proof. apply (mesh_node_ok (NewAdaptiveQuorum 2 2 3 1 3 1 3) ["a"; "b"; "c"] "a"). Qed.


Lemma get_returns_newest_of_quorum_witness :
  ∃ resp e' w', Server_Get (λ l, l) (mkGetRequest "k") (demo_node, demo_env []) (ticking Second)
    = (resp, (demo_node, e'), w').
Proof.
  destruct (get_returns_newest_of_quorum (λ l, l) (mkGetRequest "k") demo_node (demo_env []) (ticking Second)
    fair_id demo_node_wf) as (resp & e' & w' & H & _).
  exists resp, e', w'. exact H.
Defined.

Lemma quorum_read_missing_key_fails_witness :
  (∃ resp e' w', Server_Get (λ l, l) (mkGetRequest "k") (demo_node, demo_env []) (ticking Second)
      = (resp, (demo_node, e'), w') ∧ gresp_Found resp = false ∧ gresp_Error resp ≠ "") ∧
  gresp_Error (Server_Get (λ l, l) (mkGetRequest "k") (demo_node, demo_env []) (ticking Second)).1.1
  = "insufficient responses: got 1, need 2".
Proof.
  split; [|vm_compute; reflexivity].
  destruct (quorum_read_missing_key_fails (λ l, l) (mkGetRequest "k") demo_node (demo_env []) (ticking Second)
    fair_id demo_node_wf) as (resp & e' & w' & H & H1 & H2 & _).
  - vm_compute. congruence.
  - reflexivity.
  - assert (Forall (λ a, lookup_at (demo_env []) (target_of a) "k" = None)
      (elements (dom (co_peers (sv_coordinator demo_node))))) as Hall by (vm_compute; repeat constructor).
    intros a Ha. rewrite Forall_forall in Hall. apply Hall. by apply elem_of_elements.
  - exists resp, e', w'. exact (conj H (conj H1 H2)).
Defined.
