(* ===== verification/Health.v ===== *)
(** * Health: the health probe (src/internal/health/probe.go)

    The probe keeps its own connections to the peers, checks each of them
    periodically and tells a listener (the reconciliation engine) when a peer
    comes back.  The goroutines it runs are explicit: each is an entry of
    [ps_routines], and their steps interleave in any order. *)

From S2P Require Import Prelude GoLib Float64 Metrics Hlc Storage Staleness Ring WriteLog.
From S2P Require Import Reconcile Config Api Coordinator.

Open Scope Z_scope.

Record Probe := mkProbe {
  pb_nodeID : string;
  pb_peers : gmap string ServiceClient;
  pb_conns : gmap string ClientConn;
  pb_interval : Duration;
  pb_stopped : bool;                    (* stopCh is closed *)
  pb_probes : gmap string nat;          (* the cancel function of a goroutine, by its number *)
  pb_peerStatus : gmap string bool;
}.

Definition with_probe_conns (peers : gmap string ServiceClient) (conns : gmap string ClientConn) (p : Probe) : Probe :=
  mkProbe (pb_nodeID p) peers conns (pb_interval p) (pb_stopped p) (pb_probes p) (pb_peerStatus p).
Definition with_probes (probes : gmap string nat) (p : Probe) : Probe :=
  mkProbe (pb_nodeID p) (pb_peers p) (pb_conns p) (pb_interval p) (pb_stopped p) probes (pb_peerStatus p).
Definition with_status (st : gmap string bool) (p : Probe) : Probe :=
  mkProbe (pb_nodeID p) (pb_peers p) (pb_conns p) (pb_interval p) (pb_stopped p) (pb_probes p) st.

(** ** Connections *)

Section Peers.
Context {E : Type} `{!Network E}.

Definition Probe_addPeer (addr : string) (p : Probe) : option error * Probe :=
  match pb_peers p !! addr with
  | Some _ => (None, p)
  | None =>
      let target := "dns:///" +:+ addr in
      match net_NewClient target with
      | Some err => (Some err, p)
      | None =>
          (None, with_probe_conns (<[addr := mkClient target]> (pb_peers p))
                   (<[addr := mkConn target true]> (pb_conns p)) p)
      end
  end.

Definition NewProbe (nodeID : string) (peerAddrs : list string) (interval : Duration) : Probe :=
  fold_left (λ p addr, (Probe_addPeer addr p).2) peerAddrs (mkProbe nodeID ∅ ∅ interval false ∅ ∅).

(** [removePeer]: the probe afterwards and the goroutine that was cancelled. *)
Definition Probe_removePeer (addr : string) (p : Probe) : Probe * option nat :=
  let '(p1, cancelled) :=
    match pb_probes p !! addr with
    | Some cancel => (with_probes (delete addr (pb_probes p)) p, Some cancel)
    | None => (p, None)
    end in
  match pb_conns p1 !! addr with
  | Some _ => (with_probe_conns (delete addr (pb_peers p1)) (delete addr (pb_conns p1)) p1, cancelled)
  | None => (p1, cancelled)
  end.

(** [reconcilePeers]: also the goroutines cancelled and the peers for which a
    [probePeer] goroutine is started. *)
Definition Probe_reconcilePeers (ord_current ord_new : schedule string) (newPeerAddrs : list string) (p : Probe) :
    Probe * list nat * list string :=
  let newPeerSet : gset string := list_to_set newPeerAddrs in
  let existingPeers := ord_current (map_to_list (pb_peers p)).*1 in
  let '(p1, cancelled) :=
    fold_left (λ acc addr,
        if decide (addr ∈ newPeerSet) then acc
        else let '(p', c) := Probe_removePeer addr acc.1 in (p', acc.2 ++ option_list c))
      existingPeers (p, []) in
  let '(p2, started) :=
    fold_left (λ acc addr,
        match pb_peers acc.1 !! addr with
        | Some _ => acc
        | None =>
            let '(err, p') := Probe_addPeer addr acc.1 in
            match err with
            | Some _ => (p', acc.2)
            | None => (p', acc.2 ++ [addr])
            end
        end)
      (ord_new (elements newPeerSet)) (p1, []) in
  (p2, cancelled, started).

(** ** One health check *)

Section Check.
Context {L : Type} `{!HealingListener L}.

(** The probe, its listener (nil until [SetHealingListener]) and the network. *)
Abbreviation CheckState := (Probe * option L * E)%type.

Definition SetHealingListener (listener : L) : GoM CheckState unit :=
  modify (λ st, (st.1.1, Some listener, st.2)).

Definition set_status (peerAddr : string) (up : bool) : GoM CheckState unit :=
  modify (λ st, (with_status (<[peerAddr := up]> (pb_peerStatus st.1.1)) st.1.1, st.1.2, st.2)).

(** A missing entry reads as false. *)
Definition peer_up (p : Probe) (peerAddr : string) : bool := default false (pb_peerStatus p !! peerAddr).

Definition checkPeer (client : ServiceClient) (peerAddr : string) : GoM CheckState unit :=
  start <- time_now ;;
  st <- get ;;
  let req := mkHealthRequest (pb_nodeID st.1.1) (UnixNano start) None in
  r <- focus snd (λ e st, (st.1, e)) (net_HealthCheck (cl_target client) req) ;;
  now <- time_now ;;
  let rtt := Since now start in
  st <- get ;;
  let wasDown := negb (peer_up st.1.1 peerAddr) in
  match (r : HealthResponse + error) with
  | inr _ => emit [CVInc Errors "health"] ;;; set_status peerAddr false
  | inl resp =>
      if negb (hresp_Healthy resp) then set_status peerAddr false
      else
        set_status peerAddr true ;;;
        (match st.1.2 with
         | Some listener =>
             if wasDown then modify (λ st, (st.1.1, Some (NotifyHealingEvent peerAddr listener), st.2))
             else ret tt
         | None => ret tt
         end) ;;;
        emit [GVSet HealthRTT peerAddr (Duration_Seconds rtt)]
  end.

(** ** Goroutines *)

Record routine := mkRoutine {
  rt_addr : string;
  rt_legacy : bool;          (* probePeerLegacy, started by Start *)
  rt_running : bool;         (* probePeer has registered its cancel function *)
  rt_cancelled : bool;       (* probeCtx is done *)
}.

Record ProbeSys := mkSys {
  ps_state : CheckState;
  ps_routines : gmap nat routine;
  ps_next : nat;
}.

Definition ps_probe (y : ProbeSys) : Probe := (ps_state y).1.1.
Definition with_probe (p : Probe) (y : ProbeSys) : CheckState := (p, (ps_state y).1.2, (ps_state y).2).

(** [go f(addr)] *)
Definition spawn (legacy : bool) (y : ProbeSys) (addr : string) : ProbeSys :=
  mkSys (ps_state y) (<[ps_next y := mkRoutine addr legacy legacy false]> (ps_routines y)) (S (ps_next y)).

Definition cancel (y : ProbeSys) (id : nat) : ProbeSys :=
  mkSys (ps_state y)
    (alter (λ r, mkRoutine (rt_addr r) (rt_legacy r) (rt_running r) true) id (ps_routines y)) (ps_next y).

(** [Start] *)
Definition Probe_Start (ord : schedule string) (y : ProbeSys) : ProbeSys :=
  fold_left (spawn true) (ord (map_to_list (pb_peers (ps_probe y))).*1) y.

(** A goroutine returns; [probePeer] runs its deferred delete. *)
Definition exit_routine (id : nat) (r : routine) (y : ProbeSys) : ProbeSys :=
  let p := ps_probe y in
  let p' := if rt_legacy r then p else with_probes (delete (rt_addr r) (pb_probes p)) p in
  mkSys (with_probe p' y) (delete id (ps_routines y)) (ps_next y).

(** [Stop]: the channel is closed, and after the legacy goroutines have returned
    the connections are. *)
Definition Probe_Stop_signal (p : Probe) : Probe :=
  mkProbe (pb_nodeID p) (pb_peers p) (pb_conns p) (pb_interval p) true (pb_probes p) (pb_peerStatus p).
Definition Probe_Stop_close (p : Probe) : Probe :=
  with_probe_conns (pb_peers p) ((λ conn, mkConn (conn_target conn) false) <$> pb_conns p) p.

(** One round of [StartPeerDiscovery]: a failed lookup changes nothing. *)
Definition Probe_discover (LookupHost LookupAddr : string → list string + error) (ord_current ord_new : schedule string)
    (nodeID headlessSvc namespace : string) (p : Probe) : Probe * list nat * list string :=
  match DiscoverPeersDNS LookupHost LookupAddr nodeID headlessSvc namespace with
  | inr _ => (p, [], [])
  | inl peers => Probe_reconcilePeers ord_current ord_new peers p
  end.

(** Steps: those of the goroutines, and those of the discovery loop and [Stop]. *)
Inductive probe_step : ProbeSys → ProbeSys → Prop :=
  | PRegister id r y :                       (* p.probes[peerAddr] = cancel *)
      ps_routines y !! id = Some r → rt_running r = false →
      probe_step y
        (mkSys (with_probe (with_probes (<[rt_addr r := id]> (pb_probes (ps_probe y))) (ps_probe y)) y)
           (<[id := mkRoutine (rt_addr r) (rt_legacy r) true (rt_cancelled r)]> (ps_routines y)) (ps_next y))
  | PTick id r cl y w :                      (* the ticker fires, the peer is known *)
      ps_routines y !! id = Some r → rt_running r = true →
      pb_peers (ps_probe y) !! rt_addr r = Some cl →
      probe_step y (mkSys (checkPeer cl (rt_addr r) (ps_state y) w).1.2 (ps_routines y) (ps_next y))
  | PGone id r y :                           (* the ticker fires, the peer was removed *)
      ps_routines y !! id = Some r → rt_running r = true →
      pb_peers (ps_probe y) !! rt_addr r = None →
      probe_step y (exit_routine id r y)
  | PDone id r y :                           (* the context is cancelled, or stopCh closed *)
      ps_routines y !! id = Some r → rt_running r = true →
      (if rt_legacy r then pb_stopped (ps_probe y) else rt_cancelled r) = true →
      probe_step y (exit_routine id r y)
  | PDiscover lh la o1 o2 nodeID svc ns p' cancelled started y :
      fair_schedule o1 → fair_schedule o2 →
      Probe_discover lh la o1 o2 nodeID svc ns (ps_probe y) = (p', cancelled, started) →
      probe_step y
        (fold_left (spawn false) started
           (fold_left cancel cancelled (mkSys (with_probe p' y) (ps_routines y) (ps_next y))))
  | PStop y :
      probe_step y (mkSys (with_probe (Probe_Stop_signal (ps_probe y)) y) (ps_routines y) (ps_next y))
  | PClose y :                               (* after wg.Wait *)
      pb_stopped (ps_probe y) = true →
      (∀ id r, ps_routines y !! id = Some r → rt_legacy r = false) →
      probe_step y (mkSys (with_probe (Probe_Stop_close (ps_probe y)) y) (ps_routines y) (ps_next y)).
End Check.
End Peers.

(** ** Lemmas *)

(** The connections of a probe, as those of a coordinator. *)
Definition probe_coord (p : Probe) : Coordinator := mkCoordinator (pb_nodeID p) (pb_peers p) (pb_conns p) [] 0.

Section PeersLemmas.
Context {E : Type} `{!Network E}.

Lemma probe_add_coord addr p : probe_coord (Probe_addPeer addr p).2 = (addPeer addr (probe_coord p)).2.
Proof.
  unfold Probe_addPeer, addPeer. simpl. destruct (pb_peers p !! addr); [done|]. by destruct (net_NewClient _).
Qed.

Lemma probe_add_started addr p :
  (Probe_addPeer addr p).1 = None → is_Some (pb_peers (Probe_addPeer addr p).2 !! addr).
Proof.
  unfold Probe_addPeer. destruct (pb_peers p !! addr) eqn:Ep; [simpl; by eauto|].
  destruct (net_NewClient _); [done|]. simpl. rewrite lookup_insert_eq. eauto.
Qed.

Lemma probe_remove_coord addr p : probe_coord (Probe_removePeer addr p).1 = removePeer addr (probe_coord p).
Proof.
  unfold Probe_removePeer, removePeer. simpl.
  destruct (pb_probes p !! addr); simpl; by destruct (pb_conns p !! addr).
Qed.

Lemma new_probe_coord nodeID addrs interval :
  coord_wf (probe_coord (NewProbe nodeID addrs interval)).
Proof.
  unfold NewProbe. apply (fold_left_inv _ (λ p, coord_wf (probe_coord p))).
  - by split.
  - intros p addr _ H. rewrite probe_add_coord. by apply add_peer_wf.
Qed.

Lemma probe_remove_loop keep l : ∀ p cs,
  probe_coord (fold_left (λ acc addr,
        if decide (addr ∈ (keep : gset string)) then acc
        else let '(p', c) := Probe_removePeer addr acc.1 in (p', acc.2 ++ option_list c)) l (p, cs)).1 =
  fold_left (λ c addr, if decide (addr ∈ keep) then c else removePeer addr c) l (probe_coord p).
Proof.
  induction l as [|x l IH]; intros p cs; cbn [fold_left]; [done|].
  case_decide; [apply IH|]. cbn [fst]. rewrite <- probe_remove_coord.
  destruct (Probe_removePeer x p) as [p' c]. apply IH.
Qed.

Lemma probe_add_loop l : ∀ p ss,
  probe_coord (fold_left (λ acc addr,
        match pb_peers acc.1 !! addr with
        | Some _ => acc
        | None => let '(err, p') := Probe_addPeer addr acc.1 in
                  match err with Some _ => (p', acc.2) | None => (p', acc.2 ++ [addr]) end
        end) l (p, ss)).1 =
  fold_left (λ c addr, match co_peers c !! addr with Some _ => c | None => (addPeer addr c).2 end) l (probe_coord p).
Proof.
  induction l as [|x l IH]; intros p ss; cbn [fold_left]; [done|]. cbn [fst].
  change (co_peers (probe_coord p)) with (pb_peers p).
  destruct (pb_peers p !! x) eqn:Ex; [apply IH|]. rewrite <- probe_add_coord.
  destruct (Probe_addPeer x p) as [[err|] p']; apply IH.
Qed.

(** The probe's connections follow the same rule as the coordinator's. *)
Lemma probe_reconcile_coord o1 o2 new p :
  probe_coord (Probe_reconcilePeers o1 o2 new p).1.1 = reconcilePeers o1 o2 new (probe_coord p).
Proof.
  unfold Probe_reconcilePeers, reconcilePeers. change (co_peers (probe_coord p)) with (pb_peers p).
  rewrite <- (probe_remove_loop _ _ p []). destruct (fold_left _ _ (p, [])) as [p1 cs]. cbn [fst].
  rewrite <- (probe_add_loop _ p1 []). by destruct (fold_left _ _ (p1, [])) as [p2 ss].
Qed.
End PeersLemmas.

(** ** One check *)

Section CheckSpec.
Context {E : Type} `{!Network E} {L : Type} `{!HealingListener L}.

(** What the call returned, whether the peer counts as up. *)
Definition healthy_outcome (r : HealthResponse + error) : bool :=
  match r with inl resp => hresp_Healthy resp | inr _ => false end.

Definition notify_if (b : bool) (addr : string) (l : option L) : option L :=
  if b then option_map (NotifyHealingEvent addr) l else l.

Lemma check_peer_spec client addr p (l : option L) (e : E) w :
  let req := mkHealthRequest (pb_nodeID p) (UnixNano (w_clock w (w_tick w))) None in
  let '(r, e', w1) := net_HealthCheck (cl_target client) req e
                        (mkWorld (w_clock w) (w_tick w + 1) (w_events w)) in
  let up := healthy_outcome r in
  let rtt := Since (w_clock w1 (w_tick w1)) (w_clock w (w_tick w)) in
  checkPeer client addr (p, l, e) w =
    (tt, (with_status (<[addr := up]> (pb_peerStatus p)) p, notify_if (up && negb (peer_up p addr)) addr l, e'),
     mkWorld (w_clock w1) (w_tick w1 + 1)
       (w_events w1 ++ (if up then [GVSet HealthRTT addr (Duration_Seconds rtt)]
                        else match r with inr _ => [CVInc Errors "health"] | inl _ => [] end))).
Proof.
  cbv zeta. unfold checkPeer, bind, time_now, get, focus, emit, set_status, modify, ret. simpl.
  destruct (net_HealthCheck _ _ e _) as [[[resp|err] e'] w1]; simpl; [|done].
  destruct (hresp_Healthy resp); simpl; [|by rewrite app_nil_r].
  destruct l as [l|]; simpl; [|by destruct (negb _)]. by destruct (peer_up p addr).
Qed.
End CheckSpec.

(** ** Properties *)

(** one health check: the peer's status becomes the outcome of the call; the
    listener is notified exactly when the peer is found healthy and was not
    known to be up; the round-trip gauge is set exactly for healthy peers, and a
    failed call counts one error.  The request carries no clock, so the check
    does not move the clock of the peer forward. *)
Theorem check_peer_outcome {E} `{!Network E} {L} `{!HealingListener L}
    (client : ServiceClient) (addr : string) (p : Probe) (l : option L) (e : E) (w : World) :
  ∃ r e' w1 p' l' w',
    net_HealthCheck (cl_target client)
      (mkHealthRequest (pb_nodeID p) (UnixNano (w_clock w (w_tick w))) None) e
      (mkWorld (w_clock w) (w_tick w + 1) (w_events w)) = (r, e', w1) ∧
    checkPeer client addr (p, l, e) w = (tt, (p', l', e'), w') ∧
    peer_up p' addr = healthy_outcome r ∧
    (∀ b, b ≠ addr → peer_up p' b = peer_up p b) ∧ pb_peers p' = pb_peers p ∧
    l' = (if healthy_outcome r && negb (peer_up p addr) then option_map (NotifyHealingEvent addr) l else l) ∧
    (healthy_outcome r = true → ∃ d, w_events w' = w_events w1 ++ [GVSet HealthRTT addr d]) ∧
    (is_nil (match r with inr err => Some err | inl _ => None end) = false →
       w_events w' = w_events w1 ++ [CVInc Errors "health"]).
Proof.
  pose proof (check_peer_spec client addr p l e w) as H. cbv zeta in H.
  destruct (net_HealthCheck _ _ e _) as [[r e'] w1]. rewrite H.
  eexists r, e', w1, _, _, _. split; [done|]. split; [done|]. unfold peer_up. simpl.
  split_and!; try done.
  - by rewrite lookup_insert_eq.
  - intros b Hb. by rewrite lookup_insert_ne.
  - intros ->. by eexists.
  - by destruct r.
Qed.

(** A network whose health checks return a list of prepared answers. *)
#[export] Instance scripted_network : Network (list (HealthResponse + error)) :=
  mkNetwork (λ _, None)
    (λ _ _ e w, (inr "unavailable", e, w)) (λ _ _ e w, (inr "unavailable", e, w))
    (λ _ _ e w, match e with [] => (inr "unavailable", [], w) | r :: e => (r, e, w) end).

Fixpoint check_times {E} `{!Network E} {L} `{!HealingListener L} (n : nat) (client : ServiceClient)
    (addr : string) : GoM (Probe * option L * E) unit :=
  match n with
  | O => ret tt
  | S n => checkPeer client addr ;;; check_times n client addr
  end.

(** Transitions from down to up in a sequence of outcomes. *)
Fixpoint rising_edges (up : bool) (outcomes : list bool) : nat :=
  match outcomes with
  | [] => 0
  | b :: bs => ((if b && negb up then 1 else 0) + rising_edges b bs)%nat
  end.

Lemma iter_option_map {L} (f : L → L) n (l : option L) :
  Nat.iter n (option_map f) (option_map f l) = option_map f (Nat.iter n (option_map f) l).
Proof. induction n as [|n IH]; simpl; [done|]. by rewrite IH. Qed.

(** healing events are the rising edges: over any sequence of checks of a
    peer, the listener is notified exactly once per transition from down (or
    never checked) to up, the first successful check included, and the final
    status is the last outcome. *)
Theorem healing_events_are_rising_edges {L} `{!HealingListener L} (rs : list (HealthResponse + error)) :
  ∀ (client : ServiceClient) (addr : string) (p : Probe) (l : option L) (w : World),
  ∃ p' w', check_times (length rs) client addr (p, l, rs) w =
    (tt, (p', Nat.iter (rising_edges (peer_up p addr) (map healthy_outcome rs))
                (option_map (NotifyHealingEvent addr)) l, []), w') ∧
  peer_up p' addr = default (peer_up p addr) (last (map healthy_outcome rs)).
Proof.
  induction rs as [|r rs IH]; intros client addr p l w; [by exists p, w|].
  cbn [length check_times]. unfold bind.
  pose proof (check_peer_spec client addr p l (r :: rs) w) as H. cbv zeta in H. simpl in H. rewrite H.
  set (p1 := with_status _ p). set (l1 := notify_if _ addr l).
  match goal with |- context [check_times (length rs) client addr (p1, l1, rs) ?w1] =>
    destruct (IH client addr p1 l1 w1) as (p' & w' & -> & Hup) end.
  assert (peer_up p1 addr = healthy_outcome r) as Hp1.
  { unfold peer_up, p1. simpl. by rewrite lookup_insert_eq. }
  exists p', w'. rewrite Hp1 in *. split.
  - do 3 f_equal. unfold l1, notify_if. cbn [map rising_edges].
    destruct (_ && _); simpl; [|done]. by rewrite iter_option_map.
  - rewrite Hup. change (map healthy_outcome (r :: rs)) with (healthy_outcome r :: map healthy_outcome rs).
    destruct (map healthy_outcome rs) as [|b bs]; [done|]. simpl. destruct (last (b :: bs)) eqn:El; [done|].
    by apply last_None in El.
Qed.

(** ** Invariants of the goroutines *)

Section Routines.
Context {E : Type} `{!Network E} {L : Type} `{!HealingListener L}.
Implicit Types (y : ProbeSys (E := E) (L := L)).

Record sys_wf y : Prop := {
  sys_wf_conns : coord_wf (probe_coord (ps_probe y));
  sys_wf_ids : ∀ id r, ps_routines y !! id = Some r → (id < ps_next y)%nat;
  sys_wf_probes : ∀ a id r, pb_probes (ps_probe y) !! a = Some id →
                    ps_routines y !! id = Some r → rt_addr r = a;
  sys_wf_fresh : ∀ a id, pb_probes (ps_probe y) !! a = Some id → (id < ps_next y)%nat;
}.

Lemma spawn_wf legacy y addr : sys_wf y → sys_wf (spawn legacy y addr).
Proof.
  intros [H1 H2 H3 H4]. split; simpl; try done.
  - intros id r. rewrite lookup_insert_Some. intros [[<- _]|[_ ?%H2]]; lia.
  - intros a id r Hp. rewrite lookup_insert_Some. intros [[<- _]|[_ ?]]; [|by eapply H3].
    apply H4 in Hp. lia.
  - intros a id Hp%H4. unfold spawn. simpl. lia.
Qed.

Lemma spawn_all_wf legacy l : ∀ y, sys_wf y → sys_wf (fold_left (spawn legacy) l y).
Proof. intros y Hy. apply fold_left_inv; [done|]. intros. by apply spawn_wf. Qed.

Lemma cancel_wf y id : sys_wf y → sys_wf (cancel y id).
Proof.
  intros [H1 H2 H3 H4]. split; simpl; try done.
  - intros id' r. rewrite lookup_alter_Some. intros [(-> & r' & ? & ->)|[_ ?]]; by eapply H2.
  - intros a id' r Hp. rewrite lookup_alter_Some.
    intros [(-> & r' & Hr & ->)|[_ ?]]; [exact (H3 a id' r' Hp Hr)|by eapply H3].
Qed.

Lemma probe_remove_probes addr p a id :
  pb_probes (Probe_removePeer addr p).1 !! a = Some id → pb_probes p !! a = Some id.
Proof.
  unfold Probe_removePeer. destruct (pb_probes p !! addr) eqn:Ep; simpl;
    destruct (pb_conns p !! addr); simpl; try done; by intros [_ ?]%lookup_delete_Some.
Qed.

Lemma probe_add_probes addr p : pb_probes (Probe_addPeer addr p).2 = pb_probes p.
Proof.
  unfold Probe_addPeer. destruct (pb_peers p !! addr); [done|]. by destruct (net_NewClient _).
Qed.

Lemma probe_reconcile_probes o1 o2 new p a id :
  pb_probes (Probe_reconcilePeers o1 o2 new p).1.1 !! a = Some id → pb_probes p !! a = Some id.
Proof.
  unfold Probe_reconcilePeers.
  match goal with |- context [fold_left ?f ?l (p, [])] =>
    pose proof (fold_left_inv f (λ acc, ∀ a id, pb_probes acc.1 !! a = Some id → pb_probes p !! a = Some id)
      l (p, [])) as Hr; destruct (fold_left f l (p, [])) as [p1 cs] end.
  match goal with |- context [fold_left ?f ?l (p1, [])] =>
    pose proof (fold_left_inv f (λ acc, pb_probes acc.1 = pb_probes p1) l (p1, [])) as Ha;
    destruct (fold_left f l (p1, [])) as [p2 ss] end.
  simpl in *. rewrite Ha; [|done|].
  - apply Hr; [done|]. intros [q cs'] x _ Hq a' id'. simpl. case_decide; [apply Hq|].
    pose proof (probe_remove_probes x q a' id') as Hx. destruct (Probe_removePeer x q) as [q' c]. simpl in *. auto.
  - intros [q ss'] x _ Hq. simpl in *. destruct (pb_peers q !! x); [done|].
    pose proof (probe_add_probes x q) as Hx. destruct (Probe_addPeer x q) as [[err|] q']; simpl in *; congruence.
Qed.

Lemma exit_wf id r y : sys_wf y → sys_wf (exit_routine id r y).
Proof.
  intros [H1 H2 H3 H4]. unfold exit_routine.
  split; simpl; unfold ps_probe; simpl.
  - by destruct (rt_legacy r).
  - intros id' r' [_ ?]%lookup_delete_Some. by eapply H2.
  - intros a id' r' Hp [_ ?]%lookup_delete_Some. eapply H3; [|done].
    destruct (rt_legacy r); [done|]. simpl in Hp. by apply lookup_delete_Some in Hp as [_ ?].
  - intros a id' Hp. apply (H4 a). destruct (rt_legacy r); [done|].
    simpl in Hp. by apply lookup_delete_Some in Hp as [_ ?].
Qed.

Lemma probe_step_wf y y' : probe_step y y' → sys_wf y → sys_wf y'.
Proof.
  intros Hstep Hy. destruct Hstep as [id r y Hr Hrun|id r cl y w Hr Hrun Hcl|id r y Hr Hrun Hno|
    id r y Hr Hrun Hd|lh la o1 o2 nid svc ns p' cs ss y Ho1 Ho2 Heq|y|y Hs Hl].
  - destruct Hy as [H1 H2 H3 H4]. split; unfold ps_probe; simpl; try done.
    + intros id' r'. rewrite lookup_insert_Some. intros [[<- _]|[_ ?]]; by eapply H2.
    + intros a id' r'. rewrite lookup_insert_Some. intros [[<- <-]|[Ha Hp]].
      * rewrite lookup_insert_eq. by intros [= <-].
      * rewrite lookup_insert_Some. intros [[<- <-]|[_ ?]]; [|by eapply H3].
        simpl. exact (H3 a id r Hp Hr).
    + intros a id'. rewrite lookup_insert_Some. intros [[_ <-]|[_ ?]]; [by eapply H2|by eapply H4].
  - destruct y as [[[p l] e] rs n]. unfold ps_probe in *. simpl in *.
    pose proof (check_peer_spec cl (rt_addr r) p l e w) as Hc. cbv zeta in Hc.
    destruct (net_HealthCheck _ _ e _) as [[res e'] w1]. rewrite Hc. simpl.
    destruct Hy as [H1 H2 H3 H4]. by split.
  - by apply exit_wf.
  - by apply exit_wf.
  - apply spawn_all_wf. apply (fold_left_inv cancel sys_wf); [|intros; by apply cancel_wf].
    unfold Probe_discover in Heq. destruct (DiscoverPeersDNS _ _ _ _ _) as [new|err].
    2:{ injection Heq as <- <- <-. by destruct Hy as [H1 H2 H3 H4]. }
    destruct Hy as [H1 H2 H3 H4].
    pose proof (probe_reconcile_coord o1 o2 new (ps_probe y)) as Hc.
    pose proof (probe_reconcile_probes o1 o2 new (ps_probe y)) as Hp. rewrite Heq in Hc, Hp. simpl in Hc, Hp.
    split; unfold ps_probe in *; simpl in *.
    + rewrite Hc. by apply reconcile_peers_spec.
    + done.
    + intros a id r Ha. by eapply H3, Hp.
    + intros a id Ha. by eapply H4, Hp.
  - destruct Hy as [H1 H2 H3 H4]. by split.
  - destruct Hy as [[Hd Ht Hc] H2 H3 H4]. split; try done. split; simpl in *.
    + by rewrite dom_fmap_L.
    + done.
    + intros a cn. rewrite lookup_fmap_Some. intros (cn' & <- & ?). simpl. by apply Hc.
Qed.
End Routines.

(** The probe of a starting node. *)
Definition initial_sys {E} `{!Network E} {L} (nodeID : string) (addrs : list string) (interval : Duration)
    (ord : schedule string) (l : option L) (e : E) : ProbeSys :=
  Probe_Start ord (mkSys (NewProbe nodeID addrs interval, l, e) ∅ 0).

Lemma initial_sys_wf {E} `{!Network E} {L} nodeID addrs interval ord (l : option L) (e : E) :
  sys_wf (initial_sys nodeID addrs interval ord l e).
Proof.
  apply spawn_all_wf. split; simpl; try done.
  - apply new_probe_coord.
  - assert (pb_probes (NewProbe nodeID addrs interval) = ∅) as Hp.
    { unfold NewProbe. apply (fold_left_inv _ (λ p, pb_probes p = ∅)); [done|].
      intros p a _ Hp. by rewrite probe_add_probes. }
    intros a id. unfold ps_probe. simpl. by rewrite Hp.
Qed.


Abbreviation DemoSys := (ProbeSys (E := list (HealthResponse + error)) (L := Engine)).


(** A resolver for a service with the given pods. *)
Definition pods_host (pods : list string) (_ : string) : list string + error := inl pods.
Definition pods_addr (ip : string) : list string + error := inl [ip +:+ ".s.n.svc.cluster.local."].

(** A peer that is discovered, disappears and is discovered again, while the
    first goroutine is slow to notice its cancellation. *)
Definition demo_peer : string := "p.s.n.svc.cluster.local:8080".

Definition lost_entry_state : DemoSys :=
  mkSys (with_probes ∅ (NewProbe "n1" [demo_peer] Second), None, [])
    (<[1%nat := mkRoutine demo_peer false true false]> ∅) 2.

(** the deferred delete of an old goroutine can remove the cancel function
    of its successor: a state is reachable in which a live, uncancelled goroutine
    probes a connected peer that has no entry in [probes], so that removing the
    peer no longer cancels it. *)
Theorem cancel_entry_can_be_lost :
  ∃ y : DemoSys, rtc probe_step (initial_sys "n1" [] Second (λ l, l) None []) y ∧
    (∃ id r, ps_routines y !! id = Some r ∧ rt_addr r = demo_peer ∧ rt_running r = true ∧ rt_cancelled r = false) ∧
    is_Some (pb_peers (ps_probe y) !! demo_peer) ∧
    pb_probes (ps_probe y) !! demo_peer = None ∧ (Probe_removePeer demo_peer (ps_probe y)).2 = None.
Proof.
  exists lost_entry_state. split; [|split_and!].
  - eapply rtc_l; [eapply (PDiscover (pods_host ["p"]) pods_addr (λ l, l) (λ l, l) "n1" "s" "n"); [apply fair_id..|reflexivity]|].
    eapply rtc_l; [eapply (PRegister 0%nat); reflexivity|].
    eapply rtc_l; [eapply (PDiscover (pods_host []) pods_addr (λ l, l) (λ l, l) "n1" "s" "n"); [apply fair_id..|reflexivity]|].
    eapply rtc_l; [eapply (PDiscover (pods_host ["p"]) pods_addr (λ l, l) (λ l, l) "n1" "s" "n"); [apply fair_id..|reflexivity]|].
    eapply rtc_l; [eapply (PRegister 1%nat); reflexivity|].
    eapply rtc_l; [eapply (PDone 0%nat); reflexivity|].
    match goal with |- rtc _ ?a ?b => assert (a = b) as ->; [vm_compute; reflexivity|apply rtc_refl] end.
  - exists 1%nat. eexists. split; [reflexivity|]. done.
  - vm_compute. eauto.
  - reflexivity.
  - reflexivity.
Qed.
