(* ===== verification/Interleaving.v ===== *)
(** * Interleaving: concurrent handlers on one node

    gRPC runs every request in its own goroutine.  [Clock.Now], [Clock.Update],
    [Store.PutWithHLC] and [RecentWriteLog.Add] each lock a mutex of their own,
    so the atomic steps of the local part of [Put] (lines 66-74 of
    src/internal/server/server.go) are these calls, and those of different
    requests interleave. *)

From S2P Require Import Prelude GoLib Hlc Storage Ring WriteLog.

Open Scope Z_scope.

(** Where a [Put] goroutine stands, with the timestamp it has drawn. *)
Inductive put_pc :=
  | PutBegin
  | PutStamped (ts : HLC)       (* timestamp := s.hlcClock.Now() done *)
  | PutStored (ts : HLC)        (* s.store.PutWithHLC done *)
  | PutLogged (ts : HLC).       (* s.reconciler.RecordWrite done *)

Record put_thread := mkThread { th_key : string; th_value : bytes; th_pc : put_pc }.

Definition th_stamp (t : put_thread) : option HLC :=
  match th_pc t with PutBegin => None | PutStamped ts | PutStored ts | PutLogged ts => Some ts end.

(** The shared state of a node and its goroutines. *)
Record Shared := mkShared {
  sh_nodeID : string;
  sh_clock : Clock;
  sh_store : Store;
  sh_log : RecentWriteLog;
  sh_threads : gmap nat put_thread;
}.

Definition set_thread (i : nat) (t : put_thread) (pc : put_pc) (s : Shared) : gmap nat put_thread :=
  <[i := mkThread (th_key t) (th_value t) pc]> (sh_threads s).

(** Timestamps received from other nodes have a logical counter of at most [M]. *)
Section Steps.
Context (M : Z).

Inductive shared_step : Shared → Shared → Prop :=
  | SArrive i key value s :
      sh_threads s !! i = None →
      shared_step s (mkShared (sh_nodeID s) (sh_clock s) (sh_store s) (sh_log s)
                       (<[i := mkThread key value PutBegin]> (sh_threads s)))
  | SStamp i t now s :
      sh_threads s !! i = Some t → th_pc t = PutBegin →
      shared_step s (mkShared (sh_nodeID s) (Clock_Now now (sh_clock s)).2 (sh_store s) (sh_log s)
                       (set_thread i t (PutStamped (Clock_Now now (sh_clock s)).1) s))
  | SStore i t ts now s :
      sh_threads s !! i = Some t → th_pc t = PutStamped ts →
      shared_step s (mkShared (sh_nodeID s) (sh_clock s)
                       (Store_PutWithHLC now (th_key t) (th_value t) (sh_nodeID s) ts (sh_store s)).2 (sh_log s)
                       (set_thread i t (PutStored ts) s))
  | SLog i t ts now log s :
      sh_threads s !! i = Some t → th_pc t = PutStored ts →
      Log_Add now (th_key t) (th_value t) (sh_nodeID s) ts (sh_log s) = Some log →
      shared_step s (mkShared (sh_nodeID s) (sh_clock s) (sh_store s) log
                       (set_thread i t (PutLogged ts) s))
  | SUpdate now remote s :
      0 <= hlc_Logical remote <= M →
      shared_step s (mkShared (sh_nodeID s) (Clock_Update now remote (sh_clock s)).2 (sh_store s) (sh_log s)
                       (sh_threads s)).

(** ** Invariant *)

Record shared_inv (B : Z) (s : Shared) : Prop := {
  inv_logical : 0 <= clk_logical (sh_clock s) <= B;
  inv_past : ∀ i t ts, sh_threads s !! i = Some t → th_stamp t = Some ts → ts ≼h clock_stamp (sh_clock s);
  inv_distinct : ∀ i j ti tj tsi tsj, i ≠ j →
    sh_threads s !! i = Some ti → sh_threads s !! j = Some tj →
    th_stamp ti = Some tsi → th_stamp tj = Some tsj → tsi ≺ tsj ∨ tsj ≺ tsi;
  inv_log : log_wf (sh_log s);
  inv_store : ∀ k vv, sh_store s !! k = Some vv → vv_HLC vv ≼h clock_stamp (sh_clock s);
}.

(** Threads advance without changing what they have drawn. *)
Lemma same_stamps B s i t pc st log :
  shared_inv B s → sh_threads s !! i = Some t → th_stamp t = th_stamp (mkThread (th_key t) (th_value t) pc) →
  log_wf log → (∀ k vv, st !! k = Some vv → vv_HLC vv ≼h clock_stamp (sh_clock s)) →
  shared_inv B (mkShared (sh_nodeID s) (sh_clock s) st log (set_thread i t pc s)).
Proof.
  intros [H1 H2 H3 H4 H5] Hi Hs Hlog Hst.
  assert (∀ j tj ts, set_thread i t pc s !! j = Some tj → th_stamp tj = Some ts →
    ∃ t', sh_threads s !! j = Some t' ∧ th_stamp t' = Some ts) as Hold.
  { intros j tj ts. unfold set_thread. rewrite lookup_insert_Some. intros [[<- <-]|[_ Hj]] Hts; [|by eauto].
    exists t. by rewrite Hs. }
  split; simpl; try done.
  - intros j tj ts Hj Hts. destruct (Hold j tj ts Hj Hts) as (t' & ? & ?). by eapply H2.
  - intros j k tj tk tsj tsk Hne Hj Hk Htj Htk.
    destruct (Hold j tj tsj Hj Htj) as (tj' & ? & ?), (Hold k tk tsk Hk Htk) as (tk' & ? & ?).
    by eapply (H3 j k).
Qed.

Lemma clock_now_logical now c B :
  0 <= clk_logical c <= B → B < max_int64 → 0 <= clk_logical (Clock_Now now c).2 <= B + 1.
Proof.
  intros. unfold Clock_Now. simpl. destruct (_ >? _); simpl; [lia|].
  rewrite wrap_succ; unfold logical_room, max_int64 in *; lia.
Qed.

Lemma clock_update_logical now remote c B :
  0 <= clk_logical c <= B → 0 <= hlc_Logical remote <= B → B < max_int64 →
  0 <= clk_logical (Clock_Update now remote c).2 <= B + 1.
Proof.
  intros Hc Hr HB. unfold Clock_Update. cbv zeta.
  rewrite (wrap_succ (clk_logical c)), (wrap_succ (hlc_Logical remote)) by (unfold logical_room, max_int64 in *; lia).
  split_ifs; simpl in *; lia.
Qed.

(** The new stamp is after everything drawn so far. *)
Lemma stamp_step B s i t now :
  shared_inv B s → 0 <= B < max_int64 → sh_threads s !! i = Some t → th_pc t = PutBegin →
  shared_inv (B + 1) (mkShared (sh_nodeID s) (Clock_Now now (sh_clock s)).2 (sh_store s) (sh_log s)
                       (set_thread i t (PutStamped (Clock_Now now (sh_clock s)).1) s)).
Proof.
  intros [H1 H2 H3 H4 H5] HB Hi Hpc.
  pose proof (clock_now_advances now (sh_clock s)) as Hadv. rewrite <- clock_now_stamp in Hadv.
  specialize (Hadv ltac:(unfold logical_room, max_int64 in *; lia)).
  assert (∀ j tj ts, set_thread i t (PutStamped (Clock_Now now (sh_clock s)).1) s !! j = Some tj →
    th_stamp tj = Some ts → (j = i ∧ ts = (Clock_Now now (sh_clock s)).1) ∨
      (j ≠ i ∧ sh_threads s !! j = Some tj ∧ ts ≺ (Clock_Now now (sh_clock s)).1)) as Hold.
  { intros j tj ts. unfold set_thread. rewrite lookup_insert_Some. intros [[<- <-]|[Hne Hj]] Hts.
    - left. simpl in Hts. by injection Hts as <-.
    - right. split_and!; [done|done|]. pose proof (H2 j tj ts Hj Hts). by eapply hlc_le_lt_trans. }
  split; cbn [sh_clock sh_threads sh_store sh_log sh_nodeID].
  - by apply (clock_now_logical now); [|lia].
  - intros j tj ts Hj Hts. rewrite <- clock_now_stamp.
    destruct (Hold j tj ts Hj Hts) as [[_ ->]|(_ & _ & ?)]; [reflexivity|by apply hlc_lt_le].
  - intros j k tj tk tsj tsk Hne Hj Hk Htj Htk.
    destruct (Hold j tj tsj Hj Htj) as [[-> ->]|(Hj1 & Hj2 & Hj3)],
      (Hold k tk tsk Hk Htk) as [[-> ->]|(Hk1 & Hk2 & Hk3)]; [done|by right|by left|by eapply (H3 j k)].
  - done.
  - intros k vv Hk. rewrite <- clock_now_stamp. apply hlc_lt_le. eapply hlc_le_lt_trans; [by eapply H5|done].
Qed.

Lemma shared_inv_mono B B' s : B <= B' → shared_inv B s → shared_inv B' s.
Proof. intros HB [H1 H2 H3 H4 H5]. split; try done. lia. Qed.

Lemma shared_step_inv B s s' :
  shared_step s s' → M <= B → 0 <= B < max_int64 → shared_inv B s → shared_inv (B + 1) s'.
Proof.
  intros Hstep HM HB Hinv. destruct Hstep as [i key value s Hi|i t now s Hi Hpc|i t ts now s Hi Hpc|
    i t ts now log s Hi Hpc Hlog|now remote s Hrem].
  - apply (shared_inv_mono B); [lia|]. destruct Hinv as [H1 H2 H3 H4 H5]. split; simpl; try done.
    + intros j tj ts. rewrite lookup_insert_Some. intros [[<- <-]|[_ ?]]; [done|by eapply H2].
    + intros j k tj tk tsj tsk Hne. rewrite !lookup_insert_Some.
      intros [[<- <-]|[_ ?]] [[_ <-]|[_ ?]]; try done. by apply (H3 j k).
  - by apply stamp_step.
  - apply (shared_inv_mono B); [lia|]. apply same_stamps; try done.
    + unfold th_stamp. by rewrite Hpc.
    + apply Hinv.
    + intros k vv. simpl. rewrite lookup_insert_Some. intros [[<- <-]|[_ ?]]; [|by eapply (inv_store B s Hinv)].
      simpl. eapply (inv_past B s Hinv i t); [done|]. unfold th_stamp. by rewrite Hpc.
  - apply (shared_inv_mono B); [lia|]. apply same_stamps; try done.
    + unfold th_stamp. by rewrite Hpc.
    + destruct (log_add_ring now (th_key t) (th_value t) (sh_nodeID s) ts (sh_log s) (inv_log B s Hinv))
        as (log' & Hlog' & Hwf & _). rewrite Hlog in Hlog'. by injection Hlog' as ->.
    + apply Hinv.
  - destruct Hinv as [H1 H2 H3 H4 H5].
    pose proof (clock_update_ge now remote (sh_clock s)) as Hge.
    specialize (Hge ltac:(unfold logical_room, max_int64 in *; lia) ltac:(unfold logical_room, max_int64 in *; lia)).
    split; cbn [sh_clock sh_threads sh_store sh_log sh_nodeID]; try done.
    + apply (clock_update_logical now); lia.
    + intros i t ts Hi Hts. etransitivity; [by eapply H2|done].
    + intros k vv Hk. etransitivity; [by eapply H5|done].
Qed.

Lemma shared_run_inv n : ∀ B s s',
  nsteps shared_step n s s' → M <= B → 0 <= B → B + Z.of_nat n < max_int64 → shared_inv B s →
  shared_inv (B + Z.of_nat n) s'.
Proof.
  induction n as [|n IH]; intros B s s' Hrun HM H0 HB Hinv.
  - inversion Hrun; subst. by rewrite Z.add_0_r.
  - inversion Hrun as [|? ? s1 ? Hs Hrest]; subst.
    replace (B + Z.of_nat (S n)) with ((B + 1) + Z.of_nat n) by lia.
    apply (IH (B + 1) s1 s'); [done|lia..|]. by eapply shared_step_inv; [|lia|lia|].
Qed.
End Steps.

(** A node that starts: no request yet. *)
Definition fresh_node (nodeID : string) (now : Time) (maxDrift maxAge : Duration) (maxSize : nat) : Shared :=
  mkShared nodeID (NewClock now nodeID maxDrift) NewStore (NewRecentWriteLog maxSize maxAge) ∅.

(** ** Properties *)



(** The end of a run of two concurrent writes to "k": the first request draws
    the earlier timestamp and stores last. *)
Definition race_node : Shared := fresh_node "a" (tm 100) (500 * Millisecond) (5 * Minute) 2.

(** the stored value need not be the newest acknowledged locally: two
    concurrent writes to one key can reach a state in which both have been
    stored and the store holds the one with the older timestamp, because drawing
    the timestamp and storing under it are separate critical sections. *)
Theorem concurrent_puts_store_older :
  ∃ s t1 t2 ts1 ts2 vv,
    rtc (shared_step 0) race_node s ∧
    sh_threads s !! 1%nat = Some t1 ∧ th_pc t1 = PutStored ts1 ∧
    sh_threads s !! 2%nat = Some t2 ∧ th_pc t2 = PutStored ts2 ∧
    th_key t1 = "k" ∧ th_key t2 = "k" ∧
    sh_store s !! "k" = Some vv ∧ vv_HLC vv = ts1 ∧ HLC_HappensBefore ts1 ts2 = true.
Proof.
  eexists _, _, _, _, _, _. split.
  - eapply rtc_l; [eapply (SArrive 0 1%nat "k" (go_bytes "v1")); reflexivity|].
    eapply rtc_l; [eapply (SArrive 0 2%nat "k" (go_bytes "v2")); reflexivity|].
    eapply rtc_l; [eapply (SStamp 0 1%nat _ (tm 200)); reflexivity|].
    eapply rtc_l; [eapply (SStamp 0 2%nat _ (tm 300)); reflexivity|].
    eapply rtc_l; [eapply (SStore 0 2%nat _ _ (tm 301)); reflexivity|].
    eapply rtc_l; [eapply (SStore 0 1%nat _ _ (tm 302)); reflexivity|]. apply rtc_refl.
  - split_and!; reflexivity.
Qed.
