(* ===== verification/Node.v ===== *)
(** * Node: the parts of a node wired together (src/cmd/acp-node/main.go)

    [start_node] builds the components as [main] does, sharing the store between
    server and reconciliation engine and the engine between server and health
    probe.  [node_step] interleaves everything that runs in a node: client and
    peer requests, the adjuster, the health probe, the engine and peer
    discovery.  [NodeMain] adds the listeners and the shutdown. *)

From S2P Require Import Prelude GoLib Float64 Metrics Hlc Storage Staleness Ring WriteLog.
From S2P Require Import Reconcile GoParse Config Quorum MetricsReader Ccs Adjuster Api.
From S2P Require Import Coordinator Server Cluster Health.

Open Scope Z_scope.

(** [var quorumProvider adaptive.QuorumProvider]: the configuration or the
    adaptive quorum. *)
Inductive NodeQuorum :=
  | QStatic (cfg : Config)
  | QAdaptive (aq : AdaptiveQuorum).

#[export] Instance node_quorum_provider : QuorumProvider NodeQuorum :=
  mkQuorumProvider NodeQuorum
    (λ q, match q with QStatic c => GetR c | QAdaptive a => GetR a end)
    (λ q, match q with QStatic c => GetW c | QAdaptive a => GetW a end)
    (λ q, match q with QStatic c => GetN c | QAdaptive a => GetN a end).

Record Node := mkNode {
  nd_cfg : Config;
  nd_server : Server NodeQuorum;
  nd_probe : Probe;
  nd_listening : bool;                          (* probe.SetHealingListener was called *)
  nd_adjuster : option (Adjuster * CCSComputer);
}.

Section Start.
Context {E : Type} `{!Network E}.

(** [main] up to the listeners; [inr] is a [logger.Fatal]. *)
Definition start_node (getenv : string → string) (ParseFloat : string → option float64) :
    GoM unit (Node + error) :=
  match LoadConfig getenv ParseFloat with
  | inr err => ret (inr err)
  | inl cfg =>
      match Config_Validate cfg with
      | Some err => ret (inr err)
      | None =>
          emit [GSet CurrentR (f64_of_Z (cfg_R cfg)); GSet CurrentW (f64_of_Z (cfg_W cfg))] ;;;
          now <- time_now ;;
          let store := NewStore in
          let hlcClock := NewClock now (cfg_NodeID cfg) (cfg_HLCMaxDrift cfg) in
          let stalenessDetector := NewDetector (cfg_MaxStaleness cfg) in
          let coordinator := NewCoordinator (cfg_NodeID cfg) (cfg_Peers cfg) (cfg_ReplicationTimeout cfg) in
          let probe := NewProbe (cfg_NodeID cfg) (cfg_Peers cfg) (cfg_HealthProbeInterval cfg) in
          let reconciler :=
            if cfg_ReconciliationEnabled cfg
            then Some (NewEngine (cfg_ReconciliationInterval cfg) (cfg_ReconciliationEnabled cfg)) else None in
          let quorumProvider :=
            if cfg_AdaptiveEnabled cfg
            then QAdaptive (NewAdaptiveQuorum (cfg_R cfg) (cfg_W cfg) (cfg_N cfg) (cfg_MinR cfg) (cfg_MaxR cfg)
                              (cfg_MinW cfg) (cfg_MaxW cfg))
            else QStatic cfg in
          let adjuster :=
            if cfg_AdaptiveEnabled cfg
            then Some (NewAdjuster (cfg_AdaptiveInterval cfg) (cfg_CCSRelaxThreshold cfg)
                         (cfg_CCSTightenThreshold cfg), NewCCSComputer)
            else None in
          ret (inl (mkNode cfg
            (NewServer (cfg_NodeID cfg) store coordinator quorumProvider hlcClock stalenessDetector reconciler)
            probe (cfg_ReconciliationEnabled cfg) adjuster))
      end
  end.

(** ** Everything that runs in a node *)

Definition with_server (s : Server NodeQuorum) (n : Node) : Node :=
  mkNode (nd_cfg n) s (nd_probe n) (nd_listening n) (nd_adjuster n).
Definition set_quorum_provider (q : NodeQuorum) (s : Server NodeQuorum) : Server NodeQuorum :=
  mkServer (sv_nodeID s) (sv_store s) (sv_coordinator s) q (sv_hlcClock s)
    (sv_stalenessDetector s) (sv_reconciler s).
Definition set_engine (o : option Engine) (st : Store) (s : Server NodeQuorum) : Server NodeQuorum :=
  mkServer (sv_nodeID s) st (sv_coordinator s) (sv_quorumProvider s) (sv_hlcClock s)
    (sv_stalenessDetector s) o.
Definition set_coordinator (c : Coordinator) (s : Server NodeQuorum) : Server NodeQuorum :=
  mkServer (sv_nodeID s) (sv_store s) c (sv_quorumProvider s) (sv_hlcClock s)
    (sv_stalenessDetector s) (sv_reconciler s).

(** The state of a running node and its network. *)
Abbreviation NodeState := (Node * E)%type.

(** A request of a client or of a peer, and the handler that serves it. *)
Inductive request :=
  | RPut (req : PutRequest)
  | RGet (req : GetRequest)
  | RReplicate (req : ReplicateRequest)
  | RGetLocal (req : GetRequest)
  | RHealthCheck (req : HealthRequest).

Inductive request_step : request → NodeState → NodeState → Prop :=
  | NPut sched req n e w r s' e' w' :
      fair_schedule sched → Server_Put sched req (nd_server n, e) w = (r, (s', e'), w') →
      request_step (RPut req) (n, e) (with_server s' n, e')
  | NGet sched req n e w r s' e' w' :
      fair_schedule sched → Server_Get sched req (nd_server n, e) w = (r, (s', e'), w') →
      request_step (RGet req) (n, e) (with_server s' n, e')
  | NReplicate req n e w r s' w' :
      Server_Replicate req (nd_server n) w = (r, s', w') → request_step (RReplicate req) (n, e) (with_server s' n, e)
  | NGetLocal req n e w r s' w' :
      Server_GetLocal req (nd_server n) w = (r, s', w') → request_step (RGetLocal req) (n, e) (with_server s' n, e)
  | NHealthCheck req n e w r s' w' :
      Server_HealthCheck req (nd_server n) w = (r, s', w') → request_step (RHealthCheck req) (n, e) (with_server s' n, e).

(** The goroutines of the parts. *)
Inductive background_step : NodeState → NodeState → Prop :=
  | NProbe cl addr n e w r p' l' e' w' :          (* a health check of a peer *)
      pb_peers (nd_probe n) !! addr = Some cl →
      checkPeer cl addr (nd_probe n, if nd_listening n then sv_reconciler (nd_server n) else None, e) w
        = (r, (p', l', e'), w') →
      background_step (n, e)
        (mkNode (nd_cfg n)
           (if nd_listening n then set_engine l' (sv_store (nd_server n)) (nd_server n) else nd_server n)
           p' (nd_listening n) (nd_adjuster n), e')
  | NAdjust reg a cc aq n e w r aq' cc' w' :      (* a tick of the adjuster *)
      nd_adjuster n = Some (a, cc) → sv_quorumProvider (nd_server n) = QAdaptive aq →
      adjustQuorum a reg (GetPeerAddresses (sv_coordinator (nd_server n))) (aq, cc) w = (r, (aq', cc'), w') →
      background_step (n, e)
        (mkNode (nd_cfg n) (set_quorum_provider (QAdaptive aq') (nd_server n)) (nd_probe n) (nd_listening n)
           (Some (a, cc')), e)
  | NEngine ev eng n e w go st' eng' w' :         (* an iteration of the engine's loop *)
      sv_reconciler (nd_server n) = Some eng →
      engine_iter ev (sv_store (nd_server n), eng) w = (go, (st', eng'), w') →
      background_step (n, e) (with_server (set_engine (Some eng') st' (nd_server n)) n, e)
  | NDiscover o1 o2 new n e :                     (* discovery of the coordinator *)
      fair_schedule o1 → fair_schedule o2 →
      background_step (n, e)
        (with_server (set_coordinator (reconcilePeers o1 o2 new (sv_coordinator (nd_server n))) (nd_server n)) n, e)
  | NDiscoverProbe o1 o2 new n e :                (* discovery of the probe *)
      fair_schedule o1 → fair_schedule o2 →
      background_step (n, e)
        (mkNode (nd_cfg n) (nd_server n) (Probe_reconcilePeers o1 o2 new (nd_probe n)).1.1 (nd_listening n)
           (nd_adjuster n), e).

Inductive node_step (st st' : NodeState) : Prop :=
  | NRequest rq : request_step rq st st' → node_step st st'
  | NBackground : background_step st st' → node_step st st'.
End Start.

(** ** Invariant of a running node *)

Definition quorum_inv (cfg : Config) (q : NodeQuorum) : Prop :=
  match q with
  | QStatic c => c = cfg
  | QAdaptive aq =>
      cfg_AdaptiveEnabled cfg = true ∧ small_limits aq ∧ small_quorum aq ∧ GetN aq = cfg_N cfg ∧
      GetR aq + GetW aq = cfg_R cfg + cfg_W cfg
  end.

Record node_inv (n : Node) : Prop := {
  ni_server : server_wf (nd_server n);
  ni_probe : coord_wf (probe_coord (nd_probe n));
  ni_quorum : quorum_inv (nd_cfg n) (sv_quorumProvider (nd_server n));
  ni_ccs : ∀ a cc, nd_adjuster n = Some (a, cc) → ccs_wf cc;
  ni_config : config_valid (nd_cfg n);
}.

Lemma node_inv_server n s' :
  node_inv n → server_wf s' → sv_quorumProvider s' = sv_quorumProvider (nd_server n) →
  node_inv (with_server s' n).
Proof. intros [H1 H2 H3 H4 H5] Hwf Hq. split; simpl; try done. by rewrite Hq. Qed.

Section Preservation.
Context {E : Type} `{!Network E, !ReplicaNetwork E}.
Implicit Types (e : E) (n : Node) (w : World).

Lemma probe_check_inv cl addr n e w r p' l' e' w' :
  checkPeer cl addr (nd_probe n, if nd_listening n then sv_reconciler (nd_server n) else None, e) w
    = (r, (p', l', e'), w') →
  node_inv n →
  node_inv (mkNode (nd_cfg n)
     (if nd_listening n then set_engine l' (sv_store (nd_server n)) (nd_server n) else nd_server n)
     p' (nd_listening n) (nd_adjuster n)).
Proof.
  intros Heq [[Hc He] Hp Hq Ha Hv].
  set (l := if nd_listening n then sv_reconciler (nd_server n) else None) in Heq.
  pose proof (check_peer_spec cl addr (nd_probe n) l e w) as Hs. cbv zeta in Hs.
  destruct (net_HealthCheck _ _ e _) as [[res e1] w1]. rewrite Heq in Hs. injection Hs as _ -> -> _ _.
  split; simpl; try done; destruct (nd_listening n) eqn:El; simpl; try done.
  - split; simpl; [done|]. intros eng. unfold notify_if, l. destruct (_ && _); [|by apply He].
    destruct (sv_reconciler (nd_server n)) as [e0|]; [|done]. simpl. intros [= <-].
    apply notify_engine_wf. by apply He.
Qed.

Lemma request_step_inv rq n e n' e' : request_step rq (n, e) (n', e') → node_inv n → node_inv n'.
Proof.
  intros Hstep Hinv. pose proof (ni_server n Hinv) as Hwf.
  inversion Hstep as [sched req n0 e0 w r s' e1 w' Hf Heq|sched req n0 e0 w r s' e1 w' Hf Heq|
    req n0 e0 w r s' w' Heq|req n0 e0 w r s' w' Heq|req n0 e0 w r s' w' Heq]; subst; clear Hstep.
  - destruct (server_put_spec sched req (nd_server n) e w Hf Hwf)
      as (resp & s2 & e2 & w2 & acked & Heq2 & Hwf2 & (_ & _ & Hq & _) & _).
    rewrite Heq2 in Heq. injection Heq as <- <- <- <-. by apply node_inv_server.
  - destruct (server_get_spec sched req (nd_server n) e w Hf Hwf) as (resp & e2 & w2 & Heq2 & _).
    rewrite Heq2 in Heq. injection Heq as <- <- <- <-. by apply node_inv_server.
  - destruct (server_replicate_spec req (nd_server n) w Hwf) as (s2 & w2 & vv & Heq2 & Hwf2 & (_ & _ & Hq & _) & _).
    rewrite Heq2 in Heq. injection Heq as <- <- <-. by apply node_inv_server.
  - destruct (server_getlocal_spec req (nd_server n) w) as (resp & w2 & Heq2 & _).
    rewrite Heq2 in Heq. injection Heq as <- <- <-. by apply node_inv_server.
  - destruct (server_healthcheck_spec req (nd_server n) w Hwf) as (resp & s2 & w2 & Heq2 & Hwf2 & (_ & _ & Hq & _) & _).
    rewrite Heq2 in Heq. injection Heq as <- <- <-. by apply node_inv_server.
Qed.

Lemma background_step_inv n e n' e' : background_step (n, e) (n', e') → node_inv n → node_inv n'.
Proof.
  intros Hstep Hinv. pose proof (ni_server n Hinv) as Hwf.
  inversion Hstep as [cl addr n0 e0 w r p' l' e1 w' Hcl Heq|reg a cc aq n0 e0 w r aq' cc' w' Hadj Hqp Heq|
    ev eng n0 e0 w go st' eng' w' Heng Heq|o1 o2 new n0 e0 Ho1 Ho2|o1 o2 new n0 e0 Ho1 Ho2]; subst; clear Hstep.
  - by eapply probe_check_inv.
  - destruct Hinv as [[Hc He] Hp Hq Ha Hv]. rewrite Hqp in Hq. destruct Hq as (Hen & HL & HQ & HN & Hsum).
    destruct (adjust_quorum_cases a reg (GetPeerAddresses (sv_coordinator (nd_server n))) aq cc w (Ha a cc Hadj))
      as (cc2 & aq2 & w2 & moved & _ & Hwfc & Heq2 & Hout & _). rewrite Heq2 in Heq. injection Heq as _ <- <- _.
    pose proof (cycle_outcome_rel _ _ _ _ _ HL HQ Hout) as (Hlim & HQ2 & Hsum2 & _).
    split; simpl; try done.
    + unfold small_limits, same_limits, GetN in *. simpl in *. naive_solver lia.
    + intros a' cc'' [= <- <-]. done.
  - pose proof (engine_iter_step ev (sv_store (nd_server n)) eng w (server_wf_engine _ Hwf eng Heng)) as Hs.
    rewrite Heq in Hs. destruct Hs as (Heng' & _ & _). apply node_inv_server; [done| |done].
    split; simpl; [apply Hwf|]. intros e0 [= <-]. done.
  - apply node_inv_server; [done| |done]. split; simpl; [|apply Hwf].
    apply reconcile_peers_spec; [done..|apply Hwf].
  - destruct Hinv as [H1' Hp Hq Ha Hv]. split; simpl; try done.
    rewrite probe_reconcile_coord. by apply reconcile_peers_spec.
Qed.

Lemma node_step_inv n e n' e' : node_step (n, e) (n', e') → node_inv n → node_inv n'.
Proof. intros [rq Hs|Hs]; [by eapply request_step_inv|by eapply background_step_inv]. Qed.

Lemma node_step_cfg (st st' : Node * E) : node_step st st' → nd_cfg st'.1 = nd_cfg st.1.
Proof. by intros [rq Hs|Hs]; destruct Hs. Qed.

Lemma node_reachable_inv (st st' : Node * E) : rtc node_step st st' → node_inv st.1 → node_inv st'.1.
Proof.
  induction 1 as [st|[n1 e1] [n2 e2] st Hs _ IH]; [done|]. intros Hi. apply IH. simpl in *.
  by eapply node_step_inv.
Qed.

(** The configured limits are far from the ends of int64. *)
Definition small_config (cfg : Config) : Prop :=
  cfg_N cfg < 2 ^ 61 ∧ 0 <= cfg_MinR cfg ∧ cfg_MaxR cfg < 2 ^ 62 ∧ 0 <= cfg_MinW cfg ∧ cfg_MaxW cfg < 2 ^ 62.

Lemma start_node_inv getenv ParseFloat w n w' :
  start_node getenv ParseFloat tt w = (inl n, tt, w') →
  (cfg_AdaptiveEnabled (nd_cfg n) = true → small_config (nd_cfg n)) → node_inv n.
Proof.
  unfold start_node. destruct (LoadConfig getenv ParseFloat) as [cfg|err]; [|done].
  destruct (Config_Validate cfg) as [err|] eqn:Hv; [done|]. apply validate_spec in Hv as Hval.
  unfold bind, emit, time_now, ret. simpl. intros [= <- _] Hsmall. simpl in *.
  pose proof Hval as (_ & H3 & HR & HW & _).
  split; simpl; try done.
  - split; simpl; [apply new_coordinator_wf|]. intros eng. destruct (cfg_ReconciliationEnabled cfg); [|done].
    intros [= <-]. apply new_engine_wf.
  - apply new_probe_coord.
  - destruct (cfg_AdaptiveEnabled cfg) eqn:Hen; [|done]. destruct (Hsmall eq_refl) as (HN & HminR & HmaxR & HminW & HmaxW).
    simpl in *. split; [done|]. unfold small_limits, small_quorum, GetR, GetW, GetN. simpl. lia.
  - intros a cc. destruct (cfg_AdaptiveEnabled cfg); [|done]. intros [= _ <-]. apply new_ccs_wf.
Qed.
End Preservation.

(** ** Properties *)

(** C3: a node stays sound as long as it runs.  From a successful start, under
    any interleaving of client requests, replication and health requests from
    peers, adjuster ticks, health checks, reconciliation and peer discovery, in
    whatever way the network behaves: its read and write quorums keep
    intersecting with N of its configuration, its client and connection maps
    agree in coordinator and probe, and the write log and healing queue stay
    well-formed (so no handler panics). *)
Theorem node_stays_sound {E} `{!Network E, !ReplicaNetwork E} (getenv : string → string)
    (ParseFloat : string → option float64) (w w' : World) (n n' : Node) (e e' : E) :
  start_node getenv ParseFloat tt w = (inl n, tt, w') → small_config (nd_cfg n) →
  rtc node_step (n, e) (n', e') →
  let q := sv_quorumProvider (nd_server n') in
  GetN q < GetR q + GetW q ∧ GetN q = cfg_N (nd_cfg n') ∧
  coord_wf (sv_coordinator (nd_server n')) ∧ coord_wf (probe_coord (nd_probe n')) ∧
  (∀ eng, sv_reconciler (nd_server n') = Some eng → engine_wf eng) ∧
  (∀ sched req w1, fair_schedule sched →
     is_Some (Server_Put sched req (nd_server n', e') w1).1.1).
Proof.
  intros Hstart Hsmall Hrun. cbv zeta.
  pose proof (start_node_inv _ _ _ _ _ Hstart (λ _, Hsmall)) as H0.
  destruct (node_reachable_inv _ _ Hrun H0) as [[Hc He] Hp Hq _ Hv]. simpl in *.
  assert (nd_cfg n' = nd_cfg n) as Hcfg.
  { clear -Hrun. change (nd_cfg (n', e').1 = nd_cfg (n, e).1).
    induction Hrun as [|st1 st2 st Hs _ IH]; [done|]. rewrite IH. by apply node_step_cfg. }
  rewrite <- Hcfg in Hsmall. destruct Hsmall as [HN _].
  pose proof (config_valid_intersection _ Hv ltac:(lia)) as Hint.
  split_and!; try done.
  - destruct (sv_quorumProvider (nd_server n')) as [c|aq]; simpl in *; [subst c; done|].
    destruct Hq as (_ & _ & _ & HNaq & Hsum). unfold GetN, GetR, GetW in *. simpl in *. lia.
  - destruct (sv_quorumProvider (nd_server n')) as [c|aq]; simpl in *; [by subst c|]. apply Hq.
  - intros sched req w1 Hf.
    destruct (server_put_spec sched req (nd_server n') e' w1 Hf) as (resp & s2 & e2 & w2 & acked & -> & _).
    { by split. }
    by eexists.
Qed.

Lemma surjective_pairing_3 {A B C} (p : A * B * C) : p = (p.1.1, p.1.2, p.2).
Proof. by destruct p as [[??]?]. Qed.

(** An adaptive three-node configuration. *)
Definition demo_adaptive_env (key : string) : string :=
  if bool_decide (key = "PEERS") then "b,c"
  else if bool_decide (key = "NODE_ID") then "a"
  else if bool_decide (key = "ADAPTIVE_ENABLED") then "true"
  else if bool_decide (key = "RECONCILIATION_ENABLED") then "1" else "".

Lemma node_stays_sound_witness :
  ∃ n n' w', start_node (E := Cluster AdaptiveQuorum) demo_adaptive_env (λ _, None) tt (ticking 0) = (inl n, tt, w') ∧
    nd_cfg n = nd_cfg n' ∧ cfg_AdaptiveEnabled (nd_cfg n) = true ∧
    sv_store (nd_server n') !! "k" ≠ None ∧
    let q := sv_quorumProvider (nd_server n') in GetN q < GetR q + GetW q.
Proof.
  destruct (start_node (E := Cluster AdaptiveQuorum) demo_adaptive_env (λ _, None) tt (ticking 0))
    as [[[n|err] []] w'] eqn:Hs; [|vm_compute in Hs; discriminate].
  pose (n' := with_server (Server_Replicate (mkReplicateRequest "k" [] 1 1 "b" None) (nd_server n) (ticking 0)).1.2 n).
  exists n, n', w'. split; [reflexivity|]. split; [reflexivity|].
  assert (cfg_AdaptiveEnabled (nd_cfg n) = true ∧ small_config (nd_cfg n) ∧ sv_store (nd_server n') !! "k" ≠ None)
    as (H1 & H2 & H3).
  { unfold n'. clear n'. vm_compute in Hs. injection Hs as <- <-. split_and!.
    - reflexivity.
    - unfold small_config. simpl. lia.
    - vm_compute. congruence. }
  split; [exact H1|]. split; [exact H3|].
  refine (proj1 (node_stays_sound demo_adaptive_env (λ _, None) (ticking 0) w' n n'
    (demo_mesh 2 2) (demo_mesh 2 2) Hs H2 _)).
  eapply rtc_l; [|apply rtc_refl].
  eapply NRequest, (NReplicate (mkReplicateRequest "k" [] 1 1 "b" None) n (demo_mesh 2 2) (ticking 0)).
  apply surjective_pairing_3.
Defined.
