(* ===== verification/YcsbUtil.v ===== *)
(** * YcsbUtil: the helpers of the YCSB framework
    (src/go-ycsb-vendor/pkg/util: hash.go, row.go, core.go, util.go)

    FNV hashes, the varint row format and the row codec of the bindings, and the
    outcome of a computation that may panic or end the process. *)

From Stdlib Require Import Ascii.
From S2P Require Import Prelude GoLib Storage.

Open Scope Z_scope.

(** A string of bytes below 128. *)
Fixpoint is_ascii (s : string) : bool :=
  match s with
  | EmptyString => true
  | String c s => (Ascii.nat_of_ascii c <? 128)%nat && is_ascii s
  end.

(** ** Outcomes: a result, a run-time panic, or [util.Fatalf] (os.Exit)

    [OutOfFuel] is a loop the model stopped following; only the loops whose
    length the code does not bound can give it.  The messages of panics and
    exits are the start of the text the code formats. *)

Inductive Outcome (A : Type) :=
  | Ok (a : A)
  | Panic (msg : string)
  | Exit (msg : string)
  | OutOfFuel.
Arguments Ok {A}.
Arguments Panic {A}.
Arguments Exit {A}.
Arguments OutOfFuel {A}.

Definition obind {A B} (m : Outcome A) (f : A → Outcome B) : Outcome B :=
  match m with
  | Ok a => f a
  | Panic msg => Panic msg
  | Exit msg => Exit msg
  | OutOfFuel => OutOfFuel
  end.
Notation "'let!' x := m 'in' k" := (obind m (λ x, k))
  (at level 200, x pattern, m at level 100, k at level 200) : acp_scope.
Open Scope acp_scope.

(** ** Bytes and fixed-width integers *)

Definition byte_val (b : Byte.byte) : Z := Z.of_N (Byte.to_N b).

(** The conversion [byte(x)]. *)
Definition byte_of (z : Z) : Byte.byte :=
  match Byte.of_N (Z.to_N (z mod 256)) with Some b => b | None => Byte.x00 end.

(** [binary.BigEndian.PutUint64]. *)
Definition put_uint64 (v : Z) : bytes :=
  map (λ i, byte_of (Z.shiftr v (8 * i))) [7; 6; 5; 4; 3; 2; 1; 0].

(** ** Hashes *)

Definition fnv_offset64 : Z := 14695981039346656037.
Definition fnv_prime64 : Z := 1099511628211.

(** [fnv.New64a], [Write], [Sum64]. *)
Definition fnv64a (b : bytes) : Z :=
  fold_left (λ h x, wrapu64 (Z.lxor h (byte_val x) * fnv_prime64)) b fnv_offset64.

Definition Hash64 (n : Z) : Z :=
  let result := wrap64 (fnv64a (put_uint64 (wrapu64 n))) in
  if result <? 0 then wrap64 (- result) else result.

Definition BytesHash64 (b : bytes) : Z := wrap64 (fnv64a b).
Definition StringHash64 (s : string) : Z := wrap64 (fnv64a (go_bytes s)).

Example fnv_ex :
  fnv64a [] = 0xcbf29ce484222325 ∧ fnv64a (go_bytes "a") = 0xaf63dc4c8601ec8c ∧
  fnv64a (go_bytes "foobar") = 0x85944171f73967e8.
Proof. vm_compute. done. Qed.

(** ** Varints (encoding/binary) *)

Definition MaxVarintLen64 : nat := 10.

(** [binary.PutUvarint] on a buffer of [n] bytes, [None] when it is too small. *)
Fixpoint put_uvarint (n : nat) (x : Z) : option bytes :=
  match n with
  | O => None
  | S n =>
      if x <? 128 then Some [byte_of x]
      else
        match put_uvarint n (Z.shiftr x 7) with
        | Some rest => Some (byte_of (Z.lor (x mod 256) 128) :: rest)
        | None => None
        end
  end.

Definition zigzag (x : Z) : Z :=
  let ux := wrapu64 (2 * x) in
  if x <? 0 then 2 ^ 64 - 1 - ux else ux.

(** [appendVarint]: [PutVarint] into a local array of [MaxVarintLen64] bytes. *)
Definition appendVarint (b : bytes) (v : Z) : option bytes :=
  match put_uvarint MaxVarintLen64 (zigzag v) with
  | Some data => Some (b ++ data)
  | None => None
  end.

(** [binary.Uvarint]: (value, bytes read); 0 read is a short buffer, a negative
    number an overflow.  [x] and [s] are the loop variables, [i] the index. *)
Fixpoint uvarint_loop (buf : bytes) (x s : Z) (i : nat) : Z * Z :=
  match buf with
  | [] => (0, 0)
  | b :: buf =>
      if (i =? MaxVarintLen64)%nat then (0, - Z.of_nat (i + 1))
      else if byte_val b <? 128 then
        if (i =? MaxVarintLen64 - 1)%nat && (byte_val b >? 1) then (0, - Z.of_nat (i + 1))
        else (Z.lor x (wrapu64 (Z.shiftl (byte_val b) s)), Z.of_nat (i + 1))
      else uvarint_loop buf (Z.lor x (wrapu64 (Z.shiftl (Z.land (byte_val b) 127) s))) (s + 7) (i + 1)
  end.

Definition Uvarint (buf : bytes) : Z * Z := uvarint_loop buf 0 0 0.

(** [binary.Varint]. *)
Definition Varint (buf : bytes) : Z * Z :=
  let '(ux, n) := Uvarint buf in
  let x := Z.shiftr ux 1 in
  (if Z.odd ux then - x - 1 else x, n).

(** ** Rows: colID1, value1, colID2, value2, ... *)

Definition compactBytesFlag : Byte.byte := byte_of 2.
Definition varintFlag : Byte.byte := byte_of 8.

Definition encodeInt64 (b : bytes) (v : Z) : option bytes := appendVarint (b ++ [varintFlag]) v.

Definition encodeBytes (b v : bytes) : option bytes :=
  match appendVarint (b ++ [compactBytesFlag]) (Z.of_nat (length v)) with
  | Some b => Some (b ++ v)
  | None => None
  end.

Fixpoint encode_cols (cols : list bytes) (colIDs : list Z) (valBuf : bytes) : option bytes :=
  match cols, colIDs with
  | v :: cols, c :: colIDs =>
      match encodeInt64 valBuf c with
      | None => None
      | Some valBuf =>
          match encodeBytes valBuf v with
          | None => None
          | Some valBuf => encode_cols cols colIDs valBuf
          end
      end
  | _, _ => Some valBuf
  end.

(** [EncodeRow]; the buffer it is given is truncated to length zero first. *)
Definition EncodeRow (cols : list bytes) (colIDs : list Z) : Outcome (bytes + error) :=
  if negb (length cols =? length colIDs)%nat then
    Ok (inr ("EncodeRow error: cols and colIDs count not match " +:+ itoa (Z.of_nat (length cols)) +:+
             " vs " +:+ itoa (Z.of_nat (length colIDs))))
  else if (length cols =? 0)%nat then Ok (inl [byte_of 0])
  else match encode_cols cols colIDs [] with
       | Some b => Ok (inl b)
       | None => Panic "index out of range"
       end.

Definition decodeVarint (b : bytes) : (bytes * Z) + error :=
  let '(v, n) := Varint b in
  if n >? 0 then inl (drop (Z.to_nat n) b, v)
  else if n <? 0 then inr "value larger than 64 bits"
  else inr "insufficient bytes to decode value".

(** [b[1:]]: a panic on an empty slice. *)
Definition slice1 (b : bytes) : Outcome bytes :=
  match b with [] => Panic "slice bounds out of range" | _ :: b => Ok b end.

Definition decodeInt64 (b : bytes) : Outcome ((bytes * Z) + error) :=
  let! b := slice1 b in Ok (decodeVarint b).

Definition decodeBytes (b : bytes) : Outcome ((bytes * bytes) + error) :=
  let! b := slice1 b in
  match decodeVarint b with
  | inr err => Ok (inr err)
  | inl (remain, n) =>
      if Z.of_nat (length remain) <? n then
        Ok (inr ("insufficient bytes to decode value, expected length: " +:+ itoa n))
      else if n <? 0 then Panic "slice bounds out of range"
      else Ok (inl (drop (Z.to_nat n) remain, take (Z.to_nat n) remain))
  end.

(** The loop of [DecodeRow]: the row so far is returned with an error.  An
    iteration consumes at least one byte, so the length of the input is enough
    fuel ([decode_row_fuel]); [None] is an exhausted fuel. *)
Fixpoint decode_loop (fuel : nat) (b : bytes) (row : gmap Z bytes) :
    option (Outcome (gmap Z bytes * option error)) :=
  match b with
  | [] => Some (Ok (row, None))
  | _ =>
      match fuel with
      | O => None
      | S fuel =>
          match decodeInt64 b with
          | Panic m => Some (Panic m)
          | Exit m => Some (Exit m)
          | OutOfFuel => Some OutOfFuel
          | Ok (inr err) => Some (Ok (row, Some err))
          | Ok (inl (remain, rowID)) =>
              match decodeBytes remain with
              | Panic m => Some (Panic m)
              | Exit m => Some (Exit m)
              | OutOfFuel => Some OutOfFuel
              | Ok (inr err) => Some (Ok (row, Some err))
              | Ok (inl (remain, v)) => decode_loop fuel remain (<[rowID := v]> row)
              end
          end
      end
  end.

Definition DecodeRow (b : bytes) : option (Outcome (gmap Z bytes * option error)) :=
  if decide (b = [byte_of 0]) then Some (Ok (∅, None))
  else decode_loop (length b) b ∅.

(** ** The row codec *)

Definition field_name (i : Z) : string := "field" +:+ itoa i.

(** [createFieldIndices] and [allFields] for a field count. *)
Definition createFieldIndices (fieldCount : Z) : gmap string Z :=
  fold_left (λ m i, <[field_name i := i]> m) (seqZ 0 fieldCount) ∅.
Definition allFields (fieldCount : Z) : list string := map field_name (seqZ 0 fieldCount).

Record RowCodec := mkCodec { rc_fieldIndices : gmap string Z; rc_fields : list string }.

Definition NewRowCodec (fieldCount : Z) : RowCodec :=
  mkCodec (createFieldIndices fieldCount) (allFields fieldCount).

(** A Go map read of a missing key gives the zero value. *)
Definition index_of (r : RowCodec) (field : string) : Z := default 0 (rc_fieldIndices r !! field).

Definition decode_fields (r : RowCodec) (data : gmap Z bytes) (fields : list string) : gmap string bytes :=
  fold_left (λ res field,
    match data !! index_of r field with Some v => <[field := v]> res | None => res end) fields ∅.

Definition RowCodec_Decode (r : RowCodec) (row : bytes) (fields : list string) :
    option (Outcome (gmap string bytes + error)) :=
  let fields := match fields with [] => rc_fields r | _ => fields end in
  match DecodeRow row with
  | Some (Ok (_, Some err)) => Some (Ok (inr err))
  | Some (Ok (data, None)) => Some (Ok (inl (decode_fields r data fields)))
  | Some (Panic m) => Some (Panic m)
  | Some (Exit m) => Some (Exit m)
  | Some OutOfFuel => Some OutOfFuel
  | None => None
  end.

(** [Encode]: the entries of the map in the order [entries] its iteration gives. *)
Definition RowCodec_Encode (r : RowCodec) (entries : list (string * bytes)) : Outcome (bytes + error) :=
  EncodeRow (map snd entries) (map (λ kv, index_of r kv.1) entries).

(** ** Sorted field pairs *)

Record FieldPair := mkPair { fp_Field : string; fp_Value : bytes }.

(** [Less] of the [sort.Interface] implementation. *)
Definition FieldPairs_Less (a b : FieldPair) : bool := go_string_lt (fp_Field a) (fp_Field b).

(** [sort.Sort] with [Less]: insertion into a sorted slice, element by element
    (which algorithm is used is not observable, see [field_pairs_canonical]). *)
Fixpoint insert_pair (p : FieldPair) (s : list FieldPair) : list FieldPair :=
  match s with
  | [] => [p]
  | q :: s' => if FieldPairs_Less q p then q :: insert_pair p s' else p :: s
  end.

Definition sort_pairs (l : list FieldPair) : list FieldPair := fold_right insert_pair [] l.

(** [NewFieldPairs] on the entries of the map in iteration order. *)
Definition NewFieldPairs (entries : list (string * bytes)) : list FieldPair :=
  sort_pairs (map (λ kv, mkPair kv.1 kv.2) entries).

(** ** Random letters *)

Definition letters : list Byte.byte :=
  go_bytes "abcdefghijklmnopqrstuvwxyzABCDEFGHIJKLMNOPQRSTUVWXYZ".

(** ** Lemmas *)

Lemma byte_val_range b : 0 <= byte_val b < 256.
Proof. unfold byte_val. pose proof (Byte.to_N_bounded b). lia. Qed.

Lemma byte_val_of z : byte_val (byte_of z) = z mod 256.
Proof.
  unfold byte_val, byte_of. pose proof (Z.mod_pos_bound z 256).
  destruct (Byte.of_N (Z.to_N (z mod 256))) as [b|] eqn:E.
  - apply Byte.to_of_N in E. lia.
  - apply Byte.of_N_None_iff in E. lia.
Qed.

(** The low seven bits and the rest of a number. *)
Lemma lor_low7 v s : 0 <= s → Z.lor (Z.shiftl (v mod 128) s) (Z.shiftl (Z.shiftr v 7) (s + 7)) = Z.shiftl v s.
Proof.
  intros Hs. apply Z.bits_inj'. intros i Hi. rewrite Z.lor_spec, !Z.shiftl_spec by done.
  change 128 with (2 ^ 7). destruct (Z.lt_ge_cases i s) as [H|H].
  { rewrite !Z.testbit_neg_r by lia. done. }
  destruct (Z.lt_ge_cases (i - s) 7) as [H7|H7].
  - rewrite Z.mod_pow2_bits_low by lia. rewrite (Z.testbit_neg_r _ (i - (s + 7))) by lia. apply orb_false_r.
  - rewrite Z.mod_pow2_bits_high by lia. rewrite Z.shiftr_spec by lia. simpl. f_equal. lia.
Qed.

(** A continuation byte: bit 7 is set, the other bits are the low seven. *)
Lemma flag_byte x : 0 <= x < 256 → 128 <= Z.lor x 128 < 256 ∧ Z.land (Z.lor x 128) 127 = x mod 128.
Proof.
  intros Hx.
  assert (Forall (λ x, 128 <= Z.lor x 128 < 256 ∧ Z.land (Z.lor x 128) 127 = x mod 128) (seqZ 0 256)) as H.
  { apply (bool_decide_unpack _). vm_compute. done. }
  rewrite Forall_forall in H. apply H, elem_of_seqZ. lia.
Qed.

Lemma flag_byte_val v : byte_val (byte_of (Z.lor (v mod 256) 128)) = Z.lor (v mod 256) 128.
Proof.
  rewrite byte_val_of. apply Z.mod_small.
  pose proof (flag_byte (v mod 256) (Z.mod_pos_bound v 256 ltac:(lia))). lia.
Qed.

Lemma mod256_128 v : (v mod 256) mod 128 = v mod 128.
Proof. apply Z.mod_mod_divide. exists 2. done. Qed.

Lemma wrapu64_small z : 0 <= z < 2 ^ 64 → wrapu64 z = z.
Proof. apply Z.mod_small. Qed.

Lemma shiftl_bound v s n : 0 <= s <= n → 0 <= v < 2 ^ (n - s) → 0 <= Z.shiftl v s < 2 ^ n.
Proof.
  intros Hs Hv. rewrite Z.shiftl_mul_pow2 by lia.
  replace (2 ^ n) with (2 ^ (n - s) * 2 ^ s) by (rewrite <- Z.pow_add_r by lia; f_equal; lia).
  pose proof (Z.pow_pos_nonneg 2 s). nia.
Qed.

(** Decoding what [put_uvarint] wrote, with any bytes behind it. *)
Lemma uvarint_roundtrip n : ∀ i v x data rest,
  (n + i = MaxVarintLen64)%nat → 0 <= v < 2 ^ (64 - 7 * Z.of_nat i) → put_uvarint n v = Some data →
  uvarint_loop (data ++ rest) x (7 * Z.of_nat i) i =
    (Z.lor x (Z.shiftl v (7 * Z.of_nat i)), Z.of_nat (i + length data)).
Proof.
  induction n as [|n IH]; intros i v x data rest Hn Hv Hput; [done|]. simpl in Hput.
  assert (i <= 9)%nat as Hi by (unfold MaxVarintLen64 in Hn; lia).
  destruct (Z.ltb_spec v 128) as [Hlt|Hge].
  - injection Hput as <-. simpl. rewrite byte_val_of, Z.mod_small by lia.
    replace (i =? MaxVarintLen64)%nat with false by (symmetry; apply Nat.eqb_neq; unfold MaxVarintLen64; lia).
    replace (v <? 128) with true by (symmetry; apply Z.ltb_lt; lia).
    replace ((i =? 9)%nat && (v >? 1)) with false.
    2:{ symmetry. apply andb_false_iff. destruct (Nat.eqb_spec i 9) as [->|]; [right|by left].
        change (64 - 7 * Z.of_nat 9) with 1 in Hv. lia. }
    rewrite wrapu64_small by (apply shiftl_bound; lia). done.
  - destruct (put_uvarint n (Z.shiftr v 7)) as [tl|] eqn:Htl; [|done]. injection Hput as <-. cbn [app uvarint_loop].
    assert (i <= 8)%nat as Hi8.
    { destruct (decide (i = 9%nat)) as [->|]; [|lia]. change (64 - 7 * Z.of_nat 9) with 1 in Hv. lia. }
    replace (i =? MaxVarintLen64)%nat with false by (symmetry; apply Nat.eqb_neq; unfold MaxVarintLen64; lia).
    rewrite flag_byte_val. destruct (flag_byte (v mod 256) (Z.mod_pos_bound v 256 ltac:(lia))) as [Hf Hl].
    replace (Z.lor (v mod 256) 128 <? 128) with false by (symmetry; apply Z.ltb_ge; lia).
    rewrite Hl, mod256_128. pose proof (Z.mod_pos_bound v 128 ltac:(lia)).
    rewrite wrapu64_small.
    2:{ apply shiftl_bound; [lia|]. split; [lia|]. eapply Z.lt_le_trans; [apply H|].
        change 128 with (2 ^ 7). apply Z.pow_le_mono_r; lia. }
    replace (7 * Z.of_nat i + 7) with (7 * Z.of_nat (i + 1)) by lia.
    rewrite (IH (i + 1)%nat (Z.shiftr v 7) _ tl rest); [|lia| |done].
    + rewrite <- Z.lor_assoc. replace (7 * Z.of_nat (i + 1)) with (7 * Z.of_nat i + 7) by lia.
      rewrite lor_low7 by lia. f_equal. simpl. lia.
    + rewrite Z.shiftr_div_pow2 by lia. split; [apply Z.div_pos; lia|]. apply Z.div_lt_upper_bound; [lia|].
      rewrite <- Z.pow_add_r by lia. eapply Z.lt_le_trans; [apply Hv|]. apply Z.pow_le_mono_r; lia.
Qed.

Lemma put_uvarint_some n : ∀ i v, (n + i = MaxVarintLen64)%nat → (0 < n)%nat → 0 <= v < 2 ^ (64 - 7 * Z.of_nat i) →
  ∃ data, put_uvarint n v = Some data ∧ (0 < length data)%nat.
Proof.
  induction n as [|n IH]; intros i v Hn Hpos Hv; [lia|]. simpl.
  destruct (Z.ltb_spec v 128) as [Hlt|Hge]; [eexists; split; [done|simpl; lia]|].
  destruct (decide (n = 0)%nat) as [->|Hn0].
  { exfalso. assert (i = 9)%nat as -> by (unfold MaxVarintLen64 in Hn; lia).
    change (64 - 7 * Z.of_nat 9) with 1 in Hv. lia. }
  unfold MaxVarintLen64 in *.
  destruct (IH (i + 1)%nat (Z.shiftr v 7)) as (data & -> & _); [lia|lia| |eexists; split; [done|simpl; lia]].
  rewrite Z.shiftr_div_pow2 by lia. split; [apply Z.div_pos; lia|]. apply Z.div_lt_upper_bound; [lia|].
  rewrite <- Z.pow_add_r by lia. eapply Z.lt_le_trans; [apply Hv|]. apply Z.pow_le_mono_r; lia.
Qed.

Lemma zigzag_range v : in_int64 v → 0 <= zigzag v < 2 ^ 64.
Proof.
  intros Hv. unfold zigzag, in_int64, wrapu64 in *. pose proof (Z.mod_pos_bound (2 * v) (2 ^ 64) ltac:(lia)).
  destruct (v <? 0); lia.
Qed.

(** Undoing the zigzag encoding. *)
Lemma zigzag_inv v : in_int64 v →
  (if Z.odd (zigzag v) then - Z.shiftr (zigzag v) 1 - 1 else Z.shiftr (zigzag v) 1) = v.
Proof.
  intros Hv. unfold zigzag, in_int64, wrapu64 in *. rewrite Z.shiftr_div_pow2 by lia. change (2 ^ 1) with 2.
  destruct (Z.ltb_spec v 0) as [Hn|Hp].
  - replace ((2 * v) mod 2 ^ 64) with (2 * v + 2 ^ 64) by (apply Z.mod_unique_pos with (-1); lia).
    replace (2 ^ 64 - 1 - (2 * v + 2 ^ 64)) with (1 + 2 * (- v - 1)) by lia.
    rewrite Z.odd_add_mul_2. cbn [Z.odd xorb]. rewrite (Z.mul_comm 2), Z.div_add by lia. change (1 / 2) with 0. lia.
  - rewrite Z.mod_small by lia. rewrite Z.odd_mul. cbn [Z.odd andb]. rewrite Z.mul_comm, Z.div_mul by lia. done.
Qed.

(** What [appendVarint] appends: at least one byte, read back by [decodeVarint]
    whatever follows. *)
Lemma append_varint_spec v : in_int64 v →
  ∃ data, (0 < length data)%nat ∧ (∀ b, appendVarint b v = Some (b ++ data)) ∧
    ∀ rest, decodeVarint (data ++ rest) = inl (rest, v).
Proof.
  intros Hv. pose proof (zigzag_range v Hv) as Hz.
  destruct (put_uvarint_some MaxVarintLen64 0 (zigzag v)) as (data & Hput & Hlen);
    [done|unfold MaxVarintLen64; lia|done|].
  exists data. split; [done|]. split; [intros b; unfold appendVarint; by rewrite Hput|].
  intros rest. unfold decodeVarint, Varint, Uvarint.
  pose proof (uvarint_roundtrip MaxVarintLen64 0 (zigzag v) 0 data rest eq_refl Hz Hput) as H.
  change (7 * Z.of_nat 0) with 0 in H. rewrite H. rewrite Z.lor_0_l, Z.shiftl_0_r, zigzag_inv by done.
  replace (Z.of_nat (0 + length data) >? 0) with true by (symmetry; apply Z.gtb_lt; lia).
  rewrite Nat2Z.id. f_equal. f_equal. apply drop_app_length.
Qed.

(** One column: its encoding and what decoding it gives. *)
Lemma encode_col_spec c v : in_int64 c → in_int64 (Z.of_nat (length v)) →
  ∃ data, (1 < length data)%nat ∧
    (∀ b, match encodeInt64 b c with Some b' => encodeBytes b' v | None => None end = Some (b ++ data)) ∧
    ∀ rest, ∃ mid, decodeInt64 (data ++ rest) = Ok (inl (mid, c)) ∧ decodeBytes mid = Ok (inl (rest, v)).
Proof.
  intros Hc Hv. destruct (append_varint_spec c Hc) as (d1 & Hl1 & He1 & Hd1).
  destruct (append_varint_spec _ Hv) as (d2 & Hl2 & He2 & Hd2).
  exists ((varintFlag :: d1) ++ (compactBytesFlag :: d2) ++ v). split; [rewrite !length_app; simpl; lia|]. split.
  - intros b. unfold encodeInt64, encodeBytes. rewrite He1, He2. f_equal. by rewrite <- !(assoc_L (++)).
  - intros rest. exists ((compactBytesFlag :: d2) ++ v ++ rest). rewrite <- !(assoc_L (++)). split.
    + unfold decodeInt64. simpl. by rewrite Hd1.
    + unfold decodeBytes. simpl. rewrite Hd2. rewrite length_app.
      replace (Z.of_nat (length v + length rest) <? Z.of_nat (length v)) with false by (symmetry; apply Z.ltb_ge; lia).
      replace (Z.of_nat (length v) <? 0) with false by (symmetry; apply Z.ltb_ge; lia).
      by rewrite Nat2Z.id, drop_app_length, take_app_length.
Qed.

Definition row_of (cols : list bytes) (colIDs : list Z) (row : gmap Z bytes) : gmap Z bytes :=
  fold_left (λ row cv, <[cv.1 := cv.2]> row) (zip colIDs cols) row.

Lemma encode_cols_spec cols : ∀ colIDs,
  length cols = length colIDs → Forall in_int64 colIDs → Forall (λ v, in_int64 (Z.of_nat (length v))) cols →
  ∃ data, (2 * length cols <= length data)%nat ∧ (∀ b, encode_cols cols colIDs b = Some (b ++ data)) ∧
    ∀ fuel row, (length data <= fuel)%nat → decode_loop fuel data row = Some (Ok (row_of cols colIDs row, None)).
Proof.
  induction cols as [|v cols IH]; intros [|c colIDs] Hlen Hc Hv; try done.
  { exists []. split; [simpl; lia|]. split; [intros b; by rewrite app_nil_r|]. by intros [|fuel] row _. }
  apply Forall_cons in Hc as [Hc Hcs], Hv as [Hv Hvs]. injection Hlen as Hlen.
  destruct (IH colIDs Hlen Hcs Hvs) as (data & Hl & He & Hd).
  destruct (encode_col_spec c v Hc Hv) as (d & Hld & Hed & Hdd).
  exists (d ++ data). split; [rewrite length_app; simpl; lia|]. split.
  - intros b. simpl. pose proof (Hed b) as Hb. destruct (encodeInt64 b c) as [b'|]; [|done].
    rewrite Hb, He. by rewrite (assoc_L (++)).
  - intros fuel row Hf. rewrite length_app in Hf. destruct fuel as [|fuel]; [lia|].
    destruct (Hdd data) as (mid & Hi & Hb). destruct d as [|x d]; [simpl in Hld; lia|].
    change ((x :: d) ++ data) with (x :: (d ++ data)) in *. cbn [decode_loop].
    rewrite Hi, Hb, Hd by (simpl in *; lia). done.
Qed.

(** Each iteration of [DecodeRow] consumes input, so its fuel never runs out. *)
Lemma decode_varint_shorter b remain v : decodeVarint b = inl (remain, v) → (length remain <= length b)%nat.
Proof.
  unfold decodeVarint. destruct (Varint b) as [x n]. destruct (n >? 0); [|by destruct (n <? 0)].
  intros [= <- _]. rewrite length_drop. lia.
Qed.

Lemma decode_loop_fuel b : ∀ fuel row, (length b <= fuel)%nat → is_Some (decode_loop fuel b row).
Proof.
  induction b as [b IH] using (induction_ltof1 _ (@length Byte.byte)). unfold ltof in IH. intros fuel row Hf.
  destruct b as [|x b]; [by destruct fuel|]. destruct fuel as [|fuel]; [simpl in Hf; lia|]. cbn [decode_loop].
  change (decodeInt64 (x :: b)) with (Ok (decodeVarint b)). cbn iota beta.
  destruct (decodeVarint b) as [[remain rowID]|err] eqn:Hi; [|by eexists].
  apply decode_varint_shorter in Hi. unfold decodeBytes. destruct remain as [|y remain]; [by eexists|].
  cbn [slice1 obind]. destruct (decodeVarint remain) as [[remain' n]|err] eqn:Hb; [|by eexists].
  apply decode_varint_shorter in Hb. destruct (_ <? n); [by eexists|]. destruct (n <? 0); [by eexists|].
  simpl in *. apply IH; rewrite length_drop; lia.
Qed.

Lemma decode_row_cols cols colIDs data :
  (2 * length cols <= length data)%nat → (0 < length cols)%nat →
  (∀ fuel row, (length data <= fuel)%nat → decode_loop fuel data row = Some (Ok (row_of cols colIDs row, None))) →
  DecodeRow data = Some (Ok (row_of cols colIDs ∅, None)).
Proof.
  intros Hl Hc Hd. unfold DecodeRow. rewrite decide_False; [by apply Hd|].
  intros ->. simpl in Hl. lia.
Qed.

Lemma encode_decode_row cols colIDs :
  length cols = length colIDs → Forall in_int64 colIDs → Forall (λ v, in_int64 (Z.of_nat (length v))) cols →
  ∃ data, EncodeRow cols colIDs = Ok (inl data) ∧ DecodeRow data = Some (Ok (row_of cols colIDs ∅, None)).
Proof.
  intros Hlen Hc Hv. unfold EncodeRow. replace (length cols =? length colIDs)%nat with true by (symmetry; by apply Nat.eqb_eq).
  cbn [negb]. destruct (Nat.eqb_spec (length cols) 0) as [H0|H0].
  - apply nil_length_inv in H0 as ->. exists [byte_of 0]. split; [done|].
    destruct colIDs; [|done]. unfold DecodeRow. by rewrite decide_True.
  - destruct (encode_cols_spec cols colIDs Hlen Hc Hv) as (data & Hl & He & Hd).
    exists data. rewrite He. split; [done|]. apply decode_row_cols; [done|lia|done].
Qed.

Lemma row_of_snoc cols ids row c v : length cols = length ids →
  row_of (cols ++ [v]) (ids ++ [c]) row = <[c := v]> (row_of cols ids row).
Proof. intros H. unfold row_of. rewrite zip_with_app by done. by rewrite fold_left_app. Qed.

Lemma find_app {A} (p : A → bool) (l k : list A) :
  List.find p (l ++ k) = match List.find p l with Some a => Some a | None => List.find p k end.
Proof. induction l as [|x l IH]; simpl; [done|]. by destruct (p x). Qed.

(** The row of columns with distinct ids. *)
Lemma row_of_lookup {A} (f : A → Z) (g : A → bytes) (l : list A) (i : Z) :
  NoDup (map f l) →
  row_of (map g l) (map f l) ∅ !! i = g <$> List.find (λ a, f a =? i) l.
Proof.
  induction l as [|x l IH] using rev_ind; intros Hnd; [done|].
  rewrite !map_app in *. cbn [map] in *. rewrite row_of_snoc by (by rewrite !length_map).
  apply NoDup_app in Hnd as (Hnd & Hx & _). rewrite find_app.
  destruct (decide (f x = i)) as [<-|Hne].
  - rewrite lookup_insert_eq. destruct (List.find (λ a, f a =? f x) l) as [a|] eqn:E.
    + exfalso. apply find_some in E as [Hin Heq]. apply Z.eqb_eq in Heq. apply (Hx (f x)); [|by left].
      rewrite <- Heq. by apply list_elem_of_In, in_map.
    + simpl. by rewrite Z.eqb_refl.
  - rewrite lookup_insert_ne, IH by done. destruct (List.find (λ a, f a =? i) l) as [a|]; [done|].
    simpl. destruct (Z.eqb_spec (f x) i); done.
Qed.

#[export] Instance field_name_inj : Inj (=) (=) field_name.
Proof.
  intros a b H. unfold field_name in H. apply (inj (String.append "field")) in H. unfold itoa in H. by apply (inj pretty).
Qed.

Lemma fold_index_lookup (l : list Z) (m : gmap string Z) i :
  fold_left (λ m i, <[field_name i := i]> m) l m !! field_name i = if decide (i ∈ l) then Some i else m !! field_name i.
Proof.
  revert m. induction l as [|a l IH]; intros m; [done|]. cbn [fold_left]. rewrite IH.
  destruct (decide (i ∈ l)); [rewrite decide_True by set_solver; done|].
  destruct (decide (a = i)) as [->|].
  - rewrite lookup_insert_eq, decide_True by set_solver. done.
  - rewrite lookup_insert_ne by (intros ?%(inj field_name); done). rewrite decide_False by set_solver. done.
Qed.

Lemma index_of_field n i : 0 <= i < n → index_of (NewRowCodec n) (field_name i) = i.
Proof.
  intros Hi. unfold index_of, NewRowCodec, createFieldIndices. cbn [rc_fieldIndices].
  rewrite fold_index_lookup, decide_True; [done|]. apply elem_of_seqZ. lia.
Qed.

Lemma elem_of_allFields n f : f ∈ allFields n ↔ ∃ i, 0 <= i < n ∧ f = field_name i.
Proof.
  unfold allFields. rewrite list_elem_of_In, in_map_iff. split.
  - intros (i & <- & Hi). apply list_elem_of_In, elem_of_seqZ in Hi. exists i. split; [lia|done].
  - intros (i & Hi & ->). exists i. split; [done|]. apply list_elem_of_In, elem_of_seqZ. lia.
Qed.

Lemma index_of_inj n f g :
  f ∈ allFields n → g ∈ allFields n → index_of (NewRowCodec n) f = index_of (NewRowCodec n) g → f = g.
Proof.
  intros (i & Hi & ->)%elem_of_allFields (j & Hj & ->)%elem_of_allFields.
  rewrite !index_of_field by done. by intros ->.
Qed.

Lemma decode_fields_lookup r data fields f :
  decode_fields r data fields !! f = if decide (f ∈ fields) then data !! index_of r f else None.
Proof.
  unfold decode_fields. cut (∀ m : gmap string bytes, (∀ g, is_Some (m !! g) → m !! g = data !! index_of r g) →
    fold_left (λ (res : gmap string bytes) field,
      match data !! index_of r field with Some v => <[field := v]> res | None => res end) fields m !! f
    = if decide (f ∈ fields) then data !! index_of r f else m !! f).
  { intros H. rewrite H; [by rewrite lookup_empty|]. intros g [x Hx]. by rewrite lookup_empty in Hx. }
  induction fields as [|g fields IH]; intros m Hm; [done|]. cbn [fold_left].
  rewrite IH.
  - destruct (decide (f ∈ fields)); [rewrite decide_True by set_solver; done|].
    destruct (decide (f = g)) as [->|Hne].
    + rewrite decide_True by set_solver. destruct (data !! index_of r g) eqn:E; [apply lookup_insert_eq|].
      destruct (m !! g) eqn:Eg; [|done]. rewrite <- Eg, <- E. apply Hm. by eexists.
    + rewrite decide_False by set_solver. destruct (data !! index_of r g); [|done]. by apply lookup_insert_ne.
  - intros h Hh. destruct (data !! index_of r g) eqn:E; [|by apply Hm].
    destruct (decide (g = h)) as [->|]; [by rewrite lookup_insert_eq, E|].
    rewrite lookup_insert_ne in * by done. by apply Hm.
Qed.

(** Looking a field up in the decoded row of a map's entries. *)
Lemma encoded_entries_lookup n (values : gmap string bytes) entries f :
  entries ≡ₚ map_to_list values → (∀ k, is_Some (values !! k) → k ∈ allFields n) → f ∈ allFields n →
  row_of (map snd entries) (map (λ kv, index_of (NewRowCodec n) kv.1) entries) ∅ !! index_of (NewRowCodec n) f
  = values !! f.
Proof.
  intros Hp Hdom Hf.
  assert (∀ k v, (k, v) ∈ entries ↔ values !! k = Some v) as Hin.
  { intros k v. rewrite Hp. apply elem_of_map_to_list. }
  rewrite row_of_lookup.
  - destruct (List.find _ entries) as [[k v]|] eqn:E.
    + apply find_some in E as [Hk Heq]. simpl in *. apply Z.eqb_eq in Heq. apply list_elem_of_In, Hin in Hk.
      apply index_of_inj in Heq as ->; [by rewrite Hk|apply Hdom; by eexists|done].
    + destruct (values !! f) as [v|] eqn:Ev; [|done]. exfalso.
      apply Hin in Ev. pose proof (find_none _ _ E (f, v)) as H. simpl in H. rewrite Z.eqb_refl in H.
      by discriminate H; apply list_elem_of_In.
  - change (map ?f ?l) with (f <$> l). rewrite Hp. apply NoDup_fmap_2_strong; [|apply NoDup_map_to_list].
    intros [k1 v1] [k2 v2] H1%elem_of_map_to_list H2%elem_of_map_to_list Heq. simpl in Heq.
    apply index_of_inj in Heq as ->; [congruence|apply Hdom; by eexists|apply Hdom; by eexists].
Qed.

Lemma insert_pair_perm p s : insert_pair p s ≡ₚ p :: s.
Proof.
  induction s as [|q s IH]; simpl; [done|]. destruct (FieldPairs_Less q p); [|done].
  rewrite IH. by rewrite Permutation_swap.
Qed.

Lemma sort_pairs_perm l : sort_pairs l ≡ₚ l.
Proof. induction l as [|p l IH]; simpl; [done|]. by rewrite insert_pair_perm, IH. Qed.

Definition pair_le (a b : FieldPair) : Prop := FieldPairs_Less b a = false.

Lemma insert_pair_sorted p s : StronglySorted pair_le s → StronglySorted pair_le (insert_pair p s).
Proof.
  induction 1 as [|q s Hs IH Hq]; simpl; [by repeat constructor|].
  destruct (FieldPairs_Less q p) eqn:E.
  - constructor; [done|]. rewrite insert_pair_perm. constructor; [|done]. by apply go_string_lt_asym.
  - constructor; [by constructor|]. constructor; [done|]. eapply Forall_impl; [done|].
    intros r Hr. unfold pair_le, FieldPairs_Less in *. destruct (go_string_lt (fp_Field r) (fp_Field p)) eqn:Erp; [|done].
    destruct (go_string_lt (fp_Field p) (fp_Field q)) eqn:Epq.
    + by rewrite (go_string_lt_trans _ _ _ Erp Epq) in Hr.
    + assert (fp_Field q = fp_Field p) as Hqp by (by apply go_string_lt_total). congruence.
Qed.

Lemma sort_pairs_sorted l : StronglySorted pair_le (sort_pairs l).
Proof. induction l as [|p l IH]; simpl; [constructor|]. by apply insert_pair_sorted. Qed.

Lemma sorted_pairs_unique l : ∀ k, StronglySorted pair_le l → StronglySorted pair_le k →
  l ≡ₚ k → NoDup (map fp_Field l) → l = k.
Proof.
  assert (∀ a b, pair_le a b → pair_le b a → fp_Field a = fp_Field b) as Hanti
    by (intros a b Ha Hb; by apply go_string_lt_total).
  induction l as [|a l IH]; intros k Hl Hk Hp Hnd; [by apply Permutation_nil_l in Hp|].
  destruct k as [|b k]; [by apply Permutation_nil_r in Hp|].
  apply StronglySorted_inv in Hl as [Hl Ha], Hk as [Hk Hb]. rewrite Forall_forall in Ha, Hb.
  assert (a = b) as ->.
  { assert (b ∈ a :: l) as Hbl by (rewrite Hp; by left). assert (a ∈ b :: k) as Hak by (rewrite <- Hp; by left).
    apply elem_of_cons in Hbl as [|Hbl]; [done|]. apply elem_of_cons in Hak as [|Hak]; [done|].
    pose proof (Hanti a b (Ha _ Hbl) (Hb _ Hak)) as Heq. cbn [map] in Hnd. apply NoDup_cons in Hnd as [Hnd _].
    exfalso. apply Hnd. rewrite Heq. by apply list_elem_of_In, in_map, list_elem_of_In. }
  f_equal. cbn [map] in Hnd. apply NoDup_cons in Hnd as [_ Hnd].
  apply IH; [done|done|by apply (Permutation_cons_inv (a := b))|done].
Qed.

(** ** Properties *)

(** rows survive the codec: for any number of columns with int64 ids,
    encoding succeeds, and decoding the result gives exactly the columns (the
    last one where an id occurs twice). *)
Theorem row_roundtrip (cols : list bytes) (colIDs : list Z) :
  length cols = length colIDs → Forall in_int64 colIDs → Forall (λ v, in_int64 (Z.of_nat (length v))) cols →
  ∃ data, EncodeRow cols colIDs = Ok (inl data) ∧ DecodeRow data = Some (Ok (row_of cols colIDs ∅, None)).
Proof. apply encode_decode_row. Qed.

Lemma row_roundtrip_witness :
  ∃ data, EncodeRow [go_bytes "147"; go_bytes ""] [-4; 2 ^ 62] = Ok (inl data) ∧
    DecodeRow data = Some (Ok (row_of [go_bytes "147"; go_bytes ""] [-4; 2 ^ 62] ∅, None)).
Proof.
  apply row_roundtrip; [reflexivity| |]; apply (bool_decide_unpack _); vm_compute; exact I.
Defined.

(** What the codec encodes, it decodes, whatever fields are asked for. *)
Lemma row_codec_spec (n : Z) (values : gmap string bytes) (entries : list (string * bytes)) :
  n <= 2 ^ 63 → entries ≡ₚ map_to_list values →
  (∀ k v, values !! k = Some v → k ∈ allFields n ∧ in_int64 (Z.of_nat (length v))) →
  ∃ data, RowCodec_Encode (NewRowCodec n) entries = Ok (inl data) ∧
    ∀ fields, ∃ res, RowCodec_Decode (NewRowCodec n) data fields = Some (Ok (inl res)) ∧
      (Forall (λ f, f ∈ allFields n) fields →
       ∀ f, res !! f = if decide (fields = [] ∨ f ∈ fields) then values !! f else None).
Proof.
  intros Hn Hp Hvals.
  assert (∀ kv, kv ∈ entries → values !! kv.1 = Some kv.2) as Hin.
  { intros [k v] H. rewrite Hp in H. by apply elem_of_map_to_list in H. }
  destruct (encode_decode_row (map snd entries) (map (λ kv, index_of (NewRowCodec n) kv.1) entries))
    as (data & Henc & Hdec); [by rewrite !length_map| | |].
  - apply Forall_map, Forall_forall. intros kv Hkv. destruct (Hvals _ _ (Hin kv Hkv)) as [(i & Hi & Hf)%elem_of_allFields _].
    cbn beta. rewrite Hf, index_of_field by done. unfold in_int64. lia.
  - apply Forall_map, Forall_forall. intros kv Hkv. apply (Hvals _ _ (Hin kv Hkv)).
  - exists data. split; [done|]. intros fields.
    exists (decode_fields (NewRowCodec n) (row_of (map snd entries) (map (λ kv, index_of (NewRowCodec n) kv.1) entries) ∅)
      (match fields with [] => allFields n | _ => fields end)).
    split; [unfold RowCodec_Decode; rewrite Hdec; by destruct fields|].
    intros Hfields f. assert (∀ k, is_Some (values !! k) → k ∈ allFields n) as Hdom by (intros k [v Hv]; by apply (Hvals k v)).
    rewrite Forall_forall in Hfields. rewrite decode_fields_lookup.
    destruct (decide (f ∈ allFields n)) as [Hf|Hf].
    + rewrite (encoded_entries_lookup n values entries f Hp Hdom Hf).
      destruct fields as [|g fields]; repeat case_decide; naive_solver.
    + assert (values !! f = None) as -> by (apply eq_None_not_Some; intros ?; by apply Hf, Hdom).
      destruct fields as [|g fields]; repeat case_decide; naive_solver.
Qed.

(** C31: the row codec gives back what was encoded: for fields the codec knows, in
    whatever order Go iterates over the map, decoding the encoded row returns
    each requested field (all of them when none is named) with its value, and
    nothing for fields that had none. *)
Theorem row_codec_roundtrip (n : Z) (values : gmap string bytes) (entries : list (string * bytes)) (fields : list string) :
  n <= 2 ^ 63 → entries ≡ₚ map_to_list values →
  (∀ k v, values !! k = Some v → k ∈ allFields n ∧ in_int64 (Z.of_nat (length v))) →
  Forall (λ f, f ∈ allFields n) fields →
  ∃ data res, RowCodec_Encode (NewRowCodec n) entries = Ok (inl data) ∧
    RowCodec_Decode (NewRowCodec n) data fields = Some (Ok (inl res)) ∧
    ∀ f, f ∈ allFields n → res !! f = if decide (fields = [] ∨ f ∈ fields) then values !! f else None.
Proof.
  intros Hn Hp Hvals Hfields. destruct (row_codec_spec n values entries Hn Hp Hvals) as (data & Henc & Hdec).
  destruct (Hdec fields) as (res & Hres & Hl). exists data, res. split; [done|]. split; [done|]. by auto.
Qed.

Lemma row_codec_roundtrip_witness :
  ∃ data res, RowCodec_Encode (NewRowCodec 3) [("field2", go_bytes "b"); ("field0", go_bytes "a")] = Ok (inl data) ∧
    RowCodec_Decode (NewRowCodec 3) data ["field2"; "field1"] = Some (Ok (inl res)) ∧
    ∀ f, f ∈ allFields 3 → res !! f = if decide (["field2"; "field1"] = [] ∨ f ∈ ["field2"; "field1"])
      then ({["field0" := go_bytes "a"; "field2" := go_bytes "b"]} : gmap string bytes) !! f else None.
Proof.
  apply row_codec_roundtrip.
  - lia.
  - apply (bool_decide_unpack _). vm_compute. exact I.
  - change (map_Forall (λ k v, k ∈ allFields 3 ∧ in_int64 (Z.of_nat (length v)))
      ({["field0" := go_bytes "a"; "field2" := go_bytes "b"]} : gmap string bytes)).
    apply (bool_decide_unpack _). vm_compute. exact I.
  - apply (bool_decide_unpack _). vm_compute. exact I.
Defined.

(** decoding a row always returns: whatever the bytes are, the loop of
    [DecodeRow] ends (with a row, an error or a panic) after at most one
    iteration per byte. *)
Theorem decode_row_returns (b : bytes) : is_Some (DecodeRow b).
Proof. unfold DecodeRow. destruct (decide _); [by eexists|]. by apply decode_loop_fuel. Qed.

(** A row cut off after a column id makes [DecodeRow] panic (a slice of an empty
    remainder), where other truncations are reported as errors; so does a
    negative length. *)
Theorem truncated_row_panics :
  DecodeRow [byte_of 8; byte_of 2] = Some (Panic "slice bounds out of range") ∧
  DecodeRow [byte_of 8; byte_of 2; byte_of 2; byte_of 1] = Some (Panic "slice bounds out of range") ∧
  (∃ err, DecodeRow [byte_of 8] = Some (Ok (∅, Some err))).
Proof. split_and!; [vm_compute; reflexivity..|]. eexists. vm_compute. reflexivity. Qed.

(** A field the codec does not know is read as field 0. *)
Theorem unknown_field_is_field0 :
  RowCodec_Decode (NewRowCodec 2) (match RowCodec_Encode (NewRowCodec 2) [("field0", go_bytes "x")] with
                                   | Ok (inl b) => b | _ => [] end) ["nosuchfield"]
  = Some (Ok (inl {["nosuchfield" := go_bytes "x"]})).
Proof. vm_compute. reflexivity. Qed.

(** the sorted field pairs of a row are its fields in increasing order, each
    once, and do not depend on the order Go iterates over the map. *)
Theorem field_pairs_canonical (values : gmap string bytes) (entries entries' : list (string * bytes)) :
  entries ≡ₚ map_to_list values → entries' ≡ₚ map_to_list values →
  NewFieldPairs entries = NewFieldPairs entries' ∧
  StronglySorted pair_le (NewFieldPairs entries) ∧
  map (λ p, (fp_Field p, fp_Value p)) (NewFieldPairs entries) ≡ₚ map_to_list values.
Proof.
  intros H H'. unfold NewFieldPairs.
  assert (map (λ kv, mkPair kv.1 kv.2) entries ≡ₚ map (λ kv, mkPair kv.1 kv.2) entries') as Hp
    by (apply Permutation_map; by rewrite H, H').
  split_and!.
  - apply sorted_pairs_unique; [apply sort_pairs_sorted..|by rewrite !sort_pairs_perm|].
    rewrite sort_pairs_perm, map_map. cbn [fp_Field]. change (map ?f ?l) with (f <$> l). rewrite H.
    apply NoDup_fst_map_to_list.
  - apply sort_pairs_sorted.
  - rewrite sort_pairs_perm, map_map. cbn [fp_Field fp_Value]. rewrite H.
    rewrite (map_ext (λ x : string * bytes, (x.1, x.2)) id) by (by intros []). by rewrite map_id.
Qed.

Lemma field_pairs_canonical_witness :
  NewFieldPairs [("f2", go_bytes "b"); ("f1", go_bytes "a")] = NewFieldPairs [("f1", go_bytes "a"); ("f2", go_bytes "b")].
Proof.
  refine (proj1 (field_pairs_canonical {["f1" := go_bytes "a"; "f2" := go_bytes "b"]} _ _ _ _));
    apply (bool_decide_unpack _); vm_compute; exact I.
Defined.

(** [Hash64] is meant to be non-negative: it is, except for the one hash value
    whose negation overflows. *)
Theorem hash64_range (n : Z) : 0 <= Hash64 n <= max_int64 ∨ Hash64 n = min_int64.
Proof.
  unfold Hash64. pose proof (wrap64_range (fnv64a (put_uint64 (wrapu64 n)))) as H.
  set (r := wrap64 _) in *. unfold in_int64, max_int64, min_int64 in *.
  destruct (Z.ltb_spec r 0) as [Hr|Hr]; [|lia].
  destruct (decide (r = - 2 ^ 63)) as [->|Hne]; [right; reflexivity|]. left. rewrite wrap64_id; unfold in_int64; lia.
Qed.
