(* ===== verification/Json.v ===== *)
(** * Json: rows as JSON (encoding/json and encoding/base64 of Go)

    The YCSB bindings for ACP, Redis, etcd and others store a row, a Go
    [map[string][]byte], as the JSON object that encoding/json makes of it: the
    fields in the order of their names, each value as a base64 string.  The
    encoder and the decoder are written out here for such maps, the decoder for
    every text, and the decoder is proved to return what the encoder was given. *)

From Stdlib Require Import Ascii String.
From S2P Require Import Prelude GoLib Storage YcsbUtil.

Open Scope Z_scope.

(** ** Base64 *)

Definition b64_alphabet : list ascii :=
  String.list_ascii_of_string "ABCDEFGHIJKLMNOPQRSTUVWXYZabcdefghijklmnopqrstuvwxyz0123456789+/".

Definition b64_char (k : Z) : ascii := nth (Z.to_nat k) b64_alphabet "="%char.

Fixpoint index_of (c : ascii) (l : list ascii) (k : Z) : option Z :=
  match l with
  | [] => None
  | d :: l => if Ascii.eqb c d then Some k else index_of c l (k + 1)
  end.
Definition b64_value (c : ascii) : option Z := index_of c b64_alphabet 0.

(** [base64.StdEncoding.EncodeToString]. *)
Fixpoint b64_encode (l : bytes) : string :=
  match l with
  | [] => ""
  | [a] =>
      let v := byte_val a * 65536 in
      String (b64_char (v / 262144)) (String (b64_char (v / 4096 mod 64)) "==")
  | [a; b] =>
      let v := byte_val a * 65536 + byte_val b * 256 in
      String (b64_char (v / 262144)) (String (b64_char (v / 4096 mod 64)) (String (b64_char (v / 64 mod 64)) "="))
  | a :: b :: c :: l =>
      let v := byte_val a * 65536 + byte_val b * 256 + byte_val c in
      String (b64_char (v / 262144)) (String (b64_char (v / 4096 mod 64))
        (String (b64_char (v / 64 mod 64)) (String (b64_char (v mod 64)) (b64_encode l))))
  end.

(** [base64.StdEncoding.Decode] without the ends of lines, which it skips. *)
Fixpoint b64_quanta (s : string) : option bytes :=
  match s with
  | EmptyString => Some []
  | String c1 (String c2 (String c3 (String c4 s))) =>
      k1 ← b64_value c1; k2 ← b64_value c2;
      if Ascii.eqb c3 "=" then
        if Ascii.eqb c4 "=" && String.eqb s "" then Some [byte_of (k1 * 4 + k2 / 16)] else None
      else
        k3 ← b64_value c3;
        if Ascii.eqb c4 "=" then
          if String.eqb s "" then Some [byte_of (k1 * 4 + k2 / 16); byte_of (k2 * 16 + k3 / 4)] else None
        else
          k4 ← b64_value c4; l ← b64_quanta s;
          Some (byte_of (k1 * 4 + k2 / 16) :: byte_of (k2 * 16 + k3 / 4) :: byte_of (k3 * 64 + k4) :: l)
  | _ => None
  end.

Fixpoint skip_line_ends (s : string) : string :=
  match s with
  | EmptyString => ""
  | String c s =>
      if Ascii.eqb c (ascii_of_nat 10) || Ascii.eqb c (ascii_of_nat 13) then skip_line_ends s
      else String c (skip_line_ends s)
  end.

Definition b64_decode (s : string) : option bytes := b64_quanta (skip_line_ends s).

(** ** Strings *)

Definition code (c : ascii) : N := N_of_ascii c.
Definition quote : ascii := ascii_of_nat 34.
Definition backslash : ascii := ascii_of_nat 92.
Definition between (lo hi : N) (c : ascii) : bool := (lo <=? code c)%N && (code c <=? hi)%N.
Definition cont (c : ascii) : bool := between 128 191 c.

(** The lengths of the encodings of a rune that starts in [c], not ASCII, by
    utf8.DecodeRune: the second byte has a range that depends on the first. *)
Definition second_ok (c d : ascii) : bool :=
  if (code c =? 224)%N then between 160 191 d
  else if (code c =? 237)%N then between 128 159 d
  else if (code c =? 240)%N then between 144 191 d
  else if (code c =? 244)%N then between 128 143 d
  else cont d.
Definition two_bytes (c d : ascii) : bool := between 194 223 c && cont d.
Definition three_bytes (c d e : ascii) : bool := between 224 239 c && second_ok c d && cont e.
Definition four_bytes (c d e f : ascii) : bool := between 240 244 c && second_ok c d && cont e && cont f.

Definition hex_digit (n : N) : ascii := nth (N.to_nat n) (String.list_ascii_of_string "0123456789abcdef") "0"%char.

(** One ASCII character of a string; the characters of HTML are escaped too. *)
Definition json_char (c : ascii) (rest : string) : string :=
  if Ascii.eqb c quote || Ascii.eqb c backslash then String backslash (String c rest)
  else if (code c =? 10)%N then String backslash (String "n" rest)
  else if (code c =? 13)%N then String backslash (String "r" rest)
  else if (code c =? 9)%N then String backslash (String "t" rest)
  else if (code c <? 32)%N || Ascii.eqb c "<" || Ascii.eqb c ">" || Ascii.eqb c "&" then
    String backslash (String "u" (String "0" (String "0" (String (hex_digit (code c / 16)) (String (hex_digit (code c mod 16)) rest)))))
  else String c rest.

(** Bytes that are no encoding of a rune become the replacement character; the
    line and paragraph separators are escaped. *)
Definition bad_rune (rest : string) : string := String backslash ("ufffd" +:+ rest).

Fixpoint json_string (s : string) : string :=
  match s with
  | EmptyString => ""
  | String c s1 =>
      if (code c <? 128)%N then json_char c (json_string s1)
      else
        match s1 with
        | String d s2 =>
            if two_bytes c d then String c (String d (json_string s2))
            else
              match s2 with
              | String e s3 =>
                  if three_bytes c d e then
                    if (code c =? 226)%N && (code d =? 128)%N && ((code e =? 168)%N || (code e =? 169)%N)
                    then String backslash ("u202" +:+ String (hex_digit (code e mod 16)) (json_string s3))
                    else String c (String d (String e (json_string s3)))
                  else
                    match s3 with
                    | String f s4 =>
                        if four_bytes c d e f then String c (String d (String e (String f (json_string s4))))
                        else bad_rune (json_string s1)
                    | EmptyString => bad_rune (json_string s1)
                    end
              | EmptyString => bad_rune (json_string s1)
              end
        | EmptyString => bad_rune (json_string s1)
        end
  end.

Definition quoted (s : string) : string := String quote (s +:+ String quote "").

(** [json.Marshal] of a map of byte slices.  (A slice that is not nil; a nil one
    is written as null.) *)
Definition json_members (pairs : list FieldPair) : list string :=
  map (λ p, quoted (json_string (fp_Field p)) +:+ ":" +:+ quoted (b64_encode (fp_Value p))) pairs.

Fixpoint join_comma (l : list string) : string :=
  match l with
  | [] => ""
  | [x] => x
  | x :: l => x +:+ String "," (join_comma l)
  end.

Definition json_object (pairs : list FieldPair) : string :=
  String "{" (join_comma (json_members pairs) +:+ "}").

Definition Marshal (values : gmap string bytes) : bytes + error :=
  inl (go_bytes (json_object (NewFieldPairs (map_to_list values)))).

(** ** Reading JSON *)

#[warnings="-register-all"]
Inductive json :=
  | JNull
  | JBool (b : bool)
  | JNum (text : string)
  | JStr (s : string)
  | JArr (l : list json)
  | JObj (l : list (string * json)).

Definition hex_value (c : ascii) : option N :=
  if between 48 57 c then Some (code c - 48)%N
  else if between 97 102 c then Some (code c - 87)%N
  else if between 65 70 c then Some (code c - 55)%N
  else None.

Definition hex4 (a b c d : ascii) : option N :=
  x ← hex_value a; y ← hex_value b; z ← hex_value c; t ← hex_value d;
  Some (((x * 16 + y) * 16 + z) * 16 + t)%N.

(** The UTF-8 encoding of a rune, and of the replacement character. *)
Definition chr (n : N) : ascii := ascii_of_N n.
Definition utf8 (r : N) (rest : string) : string :=
  if (r <? 128)%N then String (chr r) rest
  else if (r <? 2048)%N then String (chr (192 + r / 64)) (String (chr (128 + r mod 64)) rest)
  else if (r <? 65536)%N then
    String (chr (224 + r / 4096)) (String (chr (128 + r / 64 mod 64)) (String (chr (128 + r mod 64)) rest))
  else
    String (chr (240 + r / 262144)) (String (chr (128 + r / 4096 mod 64))
      (String (chr (128 + r / 64 mod 64)) (String (chr (128 + r mod 64)) rest))).
Definition replacement : N := 65533.
Definition surrogate (r : N) : bool := (55296 <=? r)%N && (r <=? 57343)%N.
Definition high (r : N) : bool := (55296 <=? r)%N && (r <=? 56319)%N.
Definition low (r : N) : bool := (56320 <=? r)%N && (r <=? 57343)%N.

Definition add_front (f : string → string) (r : option (string * string)) : option (string * string) :=
  match r with Some (s, rest) => Some (f s, rest) | None => None end.

(** The contents of a string after its opening quote, and what follows the
    closing one. *)
Fixpoint parse_string (s : string) : option (string * string) :=
  match s with
  | EmptyString => None
  | String c s1 =>
      if Ascii.eqb c quote then Some ("", s1)
      else if (code c <? 32)%N then None
      else if Ascii.eqb c backslash then
        match s1 with
        | EmptyString => None
        | String e s2 =>
            if Ascii.eqb e quote || Ascii.eqb e backslash || Ascii.eqb e "/" then add_front (String e) (parse_string s2)
            else if Ascii.eqb e "b" then add_front (String (chr 8)) (parse_string s2)
            else if Ascii.eqb e "f" then add_front (String (chr 12)) (parse_string s2)
            else if Ascii.eqb e "n" then add_front (String (chr 10)) (parse_string s2)
            else if Ascii.eqb e "r" then add_front (String (chr 13)) (parse_string s2)
            else if Ascii.eqb e "t" then add_front (String (chr 9)) (parse_string s2)
            else if Ascii.eqb e "u" then
              match s2 with
              | String h1 (String h2 (String h3 (String h4 s3))) =>
                  r ← hex4 h1 h2 h3 h4;
                  if high r then
                    match s3 with
                    | String b (String u (String i1 (String i2 (String i3 (String i4 s4))))) =>
                        if Ascii.eqb b backslash && Ascii.eqb u "u" then
                          match hex4 i1 i2 i3 i4 with
                          | Some r2 =>
                              if low r2 then add_front (utf8 (65536 + (r - 55296) * 1024 + (r2 - 56320))) (parse_string s4)
                              else add_front (utf8 replacement) (parse_string s3)
                          | None => None
                          end
                        else add_front (utf8 replacement) (parse_string s3)
                    | _ => add_front (utf8 replacement) (parse_string s3)
                    end
                  else if surrogate r then add_front (utf8 replacement) (parse_string s3)
                  else add_front (utf8 r) (parse_string s3)
              | _ => None
              end
            else None
        end
      else if (code c <? 128)%N then add_front (String c) (parse_string s1)
      else
        match s1 with
        | String d s2 =>
            if two_bytes c d then add_front (λ x, String c (String d x)) (parse_string s2)
            else
              match s2 with
              | String e s3 =>
                  if three_bytes c d e then add_front (λ x, String c (String d (String e x))) (parse_string s3)
                  else
                    match s3 with
                    | String f s4 =>
                        if four_bytes c d e f then add_front (λ x, String c (String d (String e (String f x)))) (parse_string s4)
                        else add_front (utf8 replacement) (parse_string s1)
                    | EmptyString => add_front (utf8 replacement) (parse_string s1)
                    end
              | EmptyString => add_front (utf8 replacement) (parse_string s1)
              end
        | EmptyString => None
        end
  end.

Definition is_space (c : ascii) : bool := existsb (λ n, (code c =? n)%N) [32; 9; 13; 10]%N.
Fixpoint skip (s : string) : string :=
  match s with
  | String c s' => if is_space c then skip s' else s
  | EmptyString => ""
  end.

(** Numbers: a minus, an integer without leading zeros, a fraction, an exponent. *)
Definition is_digit (c : ascii) : bool := between 48 57 c.
Fixpoint span_digits (s : string) : string * string :=
  match s with
  | String c s' => if is_digit c then let '(d, r) := span_digits s' in (String c d, r) else ("", s)
  | EmptyString => ("", "")
  end.

Definition digits1 (s : string) : option (string * string) :=
  let '(d, r) := span_digits s in if String.eqb d "" then None else Some (d, r).

Definition parse_int_part (s : string) : option (string * string) :=
  match s with
  | String c s' => if Ascii.eqb c "0" then Some ("0", s') else digits1 s
  | EmptyString => None
  end.

Definition parse_fraction (s : string) : option (string * string) :=
  match s with
  | String c s' => if Ascii.eqb c "." then '(d, r) ← digits1 s'; Some (String c d, r) else Some ("", s)
  | EmptyString => Some ("", s)
  end.

Definition parse_exponent (s : string) : option (string * string) :=
  match s with
  | String c s' =>
      if Ascii.eqb c "e" || Ascii.eqb c "E" then
        match s' with
        | String g s'' =>
            if Ascii.eqb g "+" || Ascii.eqb g "-" then '(d, r) ← digits1 s''; Some (String c (String g d), r)
            else '(d, r) ← digits1 s'; Some (String c d, r)
        | EmptyString => None
        end
      else Some ("", s)
  | EmptyString => Some ("", s)
  end.

Definition parse_number (s : string) : option (string * string) :=
  let '(sign, s) := match s with String c s' => if Ascii.eqb c "-" then ("-", s') else ("", s) | EmptyString => ("", s) end in
  '(i, s) ← parse_int_part s; '(f, s) ← parse_fraction s; '(e, s) ← parse_exponent s;
  Some (sign +:+ i +:+ f +:+ e, s).

(** The rest of an array or an object, after its first element. *)
Fixpoint elements (value : string → option (json * string)) (k : nat) (s : string) : option (list json * string) :=
  match k with
  | O => None
  | S k =>
      '(v, s) ← value s;
      match skip s with
      | String c s =>
          if Ascii.eqb c "," then '(l, s) ← elements value k s; Some (v :: l, s)
          else if Ascii.eqb c "]" then Some ([v], s)
          else None
      | EmptyString => None
      end
  end.

Fixpoint members (value : string → option (json * string)) (k : nat) (s : string) : option (list (string * json) * string) :=
  match k with
  | O => None
  | S k =>
      match skip s with
      | String q s =>
          if Ascii.eqb q quote then
            '(key, s) ← parse_string s;
            match skip s with
            | String col s =>
                if Ascii.eqb col ":" then
                  '(v, s) ← value s;
                  match skip s with
                  | String c s =>
                      if Ascii.eqb c "," then '(l, s) ← members value k s; Some ((key, v) :: l, s)
                      else if Ascii.eqb c "}" then Some ([(key, v)], s)
                      else None
                  | EmptyString => None
                  end
                else None
            | EmptyString => None
            end
          else None
      | EmptyString => None
      end
  end.

Definition after_word (w : string) (j : json) (s : string) : option (json * string) :=
  if String.prefix w s then Some (j, String.substring (String.length w) (String.length s - String.length w) s) else None.

(** A value and what follows it; [depth] is the nesting so far, which may not
    exceed 10000. *)
Fixpoint parse_value (fuel : nat) (depth : Z) (s : string) : option (json * string) :=
  match fuel with
  | O => None
  | S fuel =>
      match skip s with
      | EmptyString => None
      | String c s' =>
          if Ascii.eqb c quote then '(x, r) ← parse_string s'; Some (JStr x, r)
          else if Ascii.eqb c "{" then
            if 10000 <=? depth then None
            else
              match skip s' with
              | String "}" r => Some (JObj [], r)
              | _ => '(l, r) ← members (parse_value fuel (depth + 1)) fuel s'; Some (JObj l, r)
              end
          else if Ascii.eqb c "[" then
            if 10000 <=? depth then None
            else
              match skip s' with
              | String "]" r => Some (JArr [], r)
              | _ => '(l, r) ← elements (parse_value fuel (depth + 1)) fuel s'; Some (JArr l, r)
              end
          else if Ascii.eqb c "t" then after_word "true" (JBool true) (String c s')
          else if Ascii.eqb c "f" then after_word "false" (JBool false) (String c s')
          else if Ascii.eqb c "n" then after_word "null" JNull (String c s')
          else '(x, r) ← parse_number (String c s'); Some (JNum x, r)
      end
  end.

(** Every level and every element takes at least one character. *)
Definition parse_prefix (s : string) : option (json * string) := parse_value (S (String.length s)) 0 s.

(** ** Rows from JSON *)

(** An element of an array that is read into a byte: a number from 0 to 255, or
    null, which leaves the zero. *)
Fixpoint dec_nat (s : string) (acc : Z) : option Z :=
  match s with
  | EmptyString => Some acc
  | String c s => if is_digit c then dec_nat s (10 * acc + (Z.of_N (code c) - 48)) else None
  end.

Definition byte_element (j : json) : option Byte.byte :=
  match j with
  | JNull => Some (byte_of 0)
  | JNum t => n ← dec_nat t 0; if n <? 256 then Some (byte_of n) else None
  | _ => None
  end.

(** Decoding into a value goes on after an error of type, and the first one is
    reported in the end: into a []byte, *)
Definition into_bytes (j : json) : bytes * option error :=
  match j with
  | JNull => ([], None)
  | JStr s => match b64_decode s with Some b => (b, None) | None => ([], Some "illegal base64 data") end
  | JArr l =>
      (map (λ j, default (byte_of 0) (byte_element j)) l,
       if forallb (λ j, bool_decide (is_Some (byte_element j))) l then None
       else Some "cannot unmarshal value into Go value of type uint8")
  | _ => ([], Some "cannot unmarshal value into Go value of type []uint8")
  end.

(** into the entries of a map, where a later member of the same name replaces an
    earlier one, *)
Fixpoint into_members (l : list (string * json)) (m : gmap string bytes) : gmap string bytes * option error :=
  match l with
  | [] => (m, None)
  | (k, j) :: l =>
      let '(b, err) := into_bytes j in
      let '(m', err') := into_members l (<[k := b]> m) in
      (m', match err with Some _ => err | None => err' end)
  end.

(** and into a map, which may be nil: null makes it nil, an object allocates it. *)
Definition into_map (j : json) (m : option (gmap string bytes)) : option (gmap string bytes) * option error :=
  match j with
  | JNull => (None, None)
  | JObj l => let '(m', err) := into_members l (default ∅ m) in (Some m', err)
  | _ => (m, Some "cannot unmarshal value into Go value of type map[string][]uint8")
  end.

Definition json_text (data : bytes) : string := String.string_of_list_byte data.

(** [json.Unmarshal] into a map; a text that is not JSON leaves it alone. *)
Definition Unmarshal_into (data : bytes) (m : option (gmap string bytes)) : option (gmap string bytes) * option error :=
  match parse_prefix (json_text data) with
  | Some (j, r) => if String.eqb (skip r) "" then into_map j m else (m, Some "invalid character after top-level value")
  | None => (m, Some "unexpected end of JSON input or invalid character")
  end.

(** [json.NewDecoder(reader).Decode]: the first value of the text. *)
Definition Decode_into (data : bytes) (m : option (gmap string bytes)) : option (gmap string bytes) * option error :=
  match parse_prefix (json_text data) with
  | Some (j, _) => into_map j m
  | None => (m, Some "unexpected end of JSON input or invalid character")
  end.

(** The row or the error, for the callers that use the row only without one. *)
Definition row_or_error (r : option (gmap string bytes) * option error) : gmap string bytes + error :=
  match r.2 with Some err => inr err | None => inl (default ∅ r.1) end.

Definition Unmarshal (data : bytes) : gmap string bytes + error := row_or_error (Unmarshal_into data None).
Definition Decode (data : bytes) : gmap string bytes + error := row_or_error (Decode_into data None).

(** ** Base64 decodes what it encoded *)

Lemma bytes3_ind (P : bytes → Prop) :
  P [] → (∀ a, P [a]) → (∀ a b, P [a; b]) → (∀ a b c l, P l → P (a :: b :: c :: l)) → ∀ l, P l.
Proof.
  intros H0 H1 H2 H3 l. assert (P l ∧ (∀ a, P (a :: l)) ∧ ∀ a b, P (a :: b :: l)) as [H _]; [|done].
  induction l as [|c l (IH & IH1 & IH2)]; split_and!; auto.
Qed.

(** The characters base64 uses need no escape and are no padding. *)
Definition plain_char (c : ascii) : bool :=
  (32 <=? code c)%N && (code c <? 128)%N && negb (Ascii.eqb c quote) && negb (Ascii.eqb c backslash).

Lemma b64_char_spec k : 0 <= k < 64 →
  b64_value (b64_char k) = Some k ∧ Ascii.eqb (b64_char k) "=" = false ∧ plain_char (b64_char k) = true.
Proof.
  intros Hk.
  assert (forallb (λ k, bool_decide (b64_value (b64_char k) = Some k) && negb (Ascii.eqb (b64_char k) "=") && plain_char (b64_char k))
    (seqZ 0 64) = true) as H by (vm_compute; reflexivity).
  rewrite forallb_forall in H. specialize (H k). rewrite <- list_elem_of_In, elem_of_seqZ in H. specialize (H ltac:(lia)).
  apply andb_true_iff in H as [[H1 H2]%andb_true_iff H3]. by apply bool_decide_eq_true in H1; apply negb_true_iff in H2.
Qed.

Lemma byte_of_val z b : z mod 256 = byte_val b → byte_of z = b.
Proof. intros H. unfold byte_of. rewrite H. unfold byte_val. by rewrite N2Z.id, Byte.of_to_N. Qed.

Ltac sextets := Z.to_euclidean_division_equations; lia.

Lemma b64_quanta_encode l : b64_quanta (b64_encode l) = Some l.
Proof.
  induction l as [|a|a b|a b c l IH] using bytes3_ind; [done| | |];
    cbn [b64_encode]; cbv zeta; pose proof (byte_val_range a) as Ha; try pose proof (byte_val_range b) as Hb;
    try pose proof (byte_val_range c) as Hc.
  - set (v := byte_val a * 65536). destruct (b64_char_spec (v / 262144)) as (E1 & _ & _); [unfold v; sextets|].
    destruct (b64_char_spec (v / 4096 mod 64)) as (E2 & _ & _); [sextets|].
    cbn [b64_quanta]. rewrite E1, E2. cbn. do 2 f_equal. apply byte_of_val. unfold v. sextets.
  - set (v := byte_val a * 65536 + byte_val b * 256). destruct (b64_char_spec (v / 262144)) as (E1 & _ & _); [unfold v; sextets|].
    destruct (b64_char_spec (v / 4096 mod 64)) as (E2 & _ & _); [sextets|].
    destruct (b64_char_spec (v / 64 mod 64)) as (E3 & N3 & _); [sextets|].
    cbn [b64_quanta]. rewrite E1, E2, E3, N3. cbn. f_equal. f_equal; [|f_equal]; apply byte_of_val; unfold v; sextets.
  - set (v := byte_val a * 65536 + byte_val b * 256 + byte_val c).
    destruct (b64_char_spec (v / 262144)) as (E1 & _ & _); [unfold v; sextets|].
    destruct (b64_char_spec (v / 4096 mod 64)) as (E2 & _ & _); [sextets|].
    destruct (b64_char_spec (v / 64 mod 64)) as (E3 & N3 & _); [sextets|].
    destruct (b64_char_spec (v mod 64)) as (E4 & N4 & _); [sextets|].
    cbn [b64_quanta]. rewrite E1, E2, E3, N3, E4, N4, IH. cbn. f_equal.
    f_equal; [|f_equal; [|f_equal]]; apply byte_of_val; unfold v; sextets.
Qed.

Fixpoint all_chars (P : ascii → bool) (s : string) : bool :=
  match s with EmptyString => true | String c s => P c && all_chars P s end.

Lemma b64_encode_plain l : all_chars plain_char (b64_encode l) = true.
Proof.
  assert (∀ k, 0 <= k < 64 → plain_char (b64_char k) = true) as H by (intros k Hk; by apply b64_char_spec).
  induction l as [|a|a b|a b c l IH] using bytes3_ind; [done| | |]; cbn [b64_encode all_chars]; cbv zeta;
    pose proof (byte_val_range a) as Ha; try pose proof (byte_val_range b) as Hb; try pose proof (byte_val_range c) as Hc;
    rewrite !H by sextets; [done|done|exact IH].
Qed.

Lemma skip_line_ends_plain s : all_chars plain_char s = true → skip_line_ends s = s.
Proof.
  induction s as [|c s IH]; [done|]. cbn [all_chars skip_line_ends]. intros [Hc Hs]%andb_true_iff. rewrite (IH Hs).
  destruct (Ascii.eqb c (ascii_of_nat 10)) eqn:E1; [by apply Ascii.eqb_eq in E1 as ->|].
  destruct (Ascii.eqb c (ascii_of_nat 13)) eqn:E2; [by apply Ascii.eqb_eq in E2 as ->|]. done.
Qed.

Lemma b64_roundtrip l : b64_decode (b64_encode l) = Some l.
Proof. unfold b64_decode. rewrite skip_line_ends_plain by apply b64_encode_plain. apply b64_quanta_encode. Qed.

(** ** Strings are read as they were written *)

Lemma parse_plain s rest : all_chars plain_char s = true → parse_string (s +:+ String quote rest) = Some (s, rest).
Proof.
  induction s as [|c s IH]; intros Hs; [done|].
  change (String c s +:+ String quote rest) with (String c (s +:+ String quote rest)).
  cbn [all_chars] in Hs. apply andb_true_iff in Hs as [Hc Hs]. unfold plain_char in Hc.
  apply andb_true_iff in Hc as [[[H1 H2]%andb_true_iff H3%negb_true_iff]%andb_true_iff H4%negb_true_iff].
  cbn [parse_string]. rewrite H3, H4, H2. replace (code c <? 32)%N with false by (symmetry; apply N.ltb_ge; by apply N.leb_le in H1).
  by rewrite (IH Hs).
Qed.

(** An ASCII character, escaped or not. *)
Lemma ascii_code c : (Ascii.nat_of_ascii c <? 128)%nat = (code c <? 128)%N.
Proof. destruct c as [[] [] [] [] [] [] [] []]; reflexivity. Qed.

Lemma parse_char c rest : (code c <? 128)%N = true → parse_string (json_char c rest) = add_front (String c) (parse_string rest).
Proof.
  destruct c as [b0 b1 b2 b3 b4 b5 b6 b7]. destruct b7; [destruct b0, b1, b2, b3, b4, b5, b6; discriminate|]. intros _.
  destruct b0, b1, b2, b3, b4, b5, b6; reflexivity.
Qed.

Lemma json_char_app c a b : json_char c (a +:+ b) = json_char c a +:+ b.
Proof. unfold json_char. repeat case_match; reflexivity. Qed.

Lemma parse_json_string s rest : is_ascii s = true → parse_string (json_string s +:+ String quote rest) = Some (s, rest).
Proof.
  induction s as [|c s IH]; [done|]. cbn [is_ascii json_string]. intros [Hc Hs]%andb_true_iff.
  rewrite ascii_code in Hc. rewrite Hc.
  rewrite <- json_char_app, parse_char by done. by rewrite (IH Hs).
Qed.

(** ** Rows are read as they were written *)

Definition member_text (p : FieldPair) (tail : string) : string :=
  String quote (json_string (fp_Field p) +:+ String quote (String ":" (String quote (b64_encode (fp_Value p) +:+ String quote tail)))).

Lemma append_assoc' (a b c : string) : (a +:+ b) +:+ c = a +:+ (b +:+ c).
Proof. induction a as [|x a IH]; [done|]. change (String x ((a +:+ b) +:+ c) = String x (a +:+ b +:+ c)). by rewrite IH. Qed.

Lemma member_text_eq p tail :
  (quoted (json_string (fp_Field p)) +:+ ":" +:+ quoted (b64_encode (fp_Value p))) +:+ tail = member_text p tail.
Proof.
  assert (∀ c a b, String c a +:+ b = String c (a +:+ b)) as Hc by reflexivity. assert (∀ a, "" +:+ a = a) as Hn by reflexivity.
  unfold quoted, member_text. rewrite !Hc, !append_assoc', !Hc, !Hn, !Hc, !append_assoc', !Hc, !Hn. reflexivity.
Qed.

Fixpoint members_text (pairs : list FieldPair) (tail : string) : string :=
  match pairs with
  | [] => tail
  | [p] => member_text p tail
  | p :: pairs => member_text p (String "," (members_text pairs tail))
  end.

Lemma join_members pairs tail : join_comma (json_members pairs) +:+ tail = members_text pairs tail.
Proof.
  induction pairs as [|p pairs IH]; [done|]. destruct pairs as [|q pairs]; [apply member_text_eq|].
  change (json_members (p :: q :: pairs)) with
    ((quoted (json_string (fp_Field p)) +:+ ":" +:+ quoted (b64_encode (fp_Value p))) :: json_members (q :: pairs)).
  change (join_comma (?x :: json_members (q :: pairs))) with (x +:+ String "," (join_comma (json_members (q :: pairs)))).
  rewrite append_assoc', member_text_eq. change (String "," ?x +:+ tail) with (String "," (x +:+ tail)). by rewrite IH.
Qed.

Definition member_json (p : FieldPair) : string * json := (fp_Field p, JStr (b64_encode (fp_Value p))).

Section Members.
Context (value : string → option (json * string)).
Context (value_string : ∀ s rest, all_chars plain_char s = true →
  value (String quote (s +:+ String quote rest)) = Some (JStr s, rest)).

Lemma parse_member k p tail : is_ascii (fp_Field p) = true →
  members value (S k) (member_text p tail) =
  match skip tail with
  | String c s =>
      if Ascii.eqb c "," then '(l, s) ← members value k s; Some (member_json p :: l, s)
      else if Ascii.eqb c "}" then Some ([member_json p], s)
      else None
  | EmptyString => None
  end.
Proof.
  intros Hp. unfold member_text. cbn [members].
  change (skip (String quote ?x)) with (String quote x). cbv iota. rewrite Ascii.eqb_refl.
  rewrite parse_json_string by done. cbn [mbind option_bind].
  change (skip (String ":" ?x)) with (String ":" x). cbv iota. rewrite Ascii.eqb_refl.
  rewrite value_string by apply b64_encode_plain. reflexivity.
Qed.

Lemma parse_members pairs rest : Forall (λ p, is_ascii (fp_Field p) = true) pairs → pairs ≠ [] → ∀ k, (length pairs <= k)%nat →
  members value k (members_text pairs (String "}" rest)) = Some (map member_json pairs, rest).
Proof.
  induction 1 as [|p pairs Hp Hps IH]; [done|]. intros _ [|k] Hk; [simpl in Hk; lia|]. destruct pairs as [|q pairs].
  - cbn [members_text]. by rewrite parse_member.
  - change (members_text (p :: q :: pairs) ?t) with (member_text p (String "," (members_text (q :: pairs) t))).
    rewrite parse_member by done. change (skip (String "," ?x)) with (String "," x). cbv iota. rewrite Ascii.eqb_refl.
    rewrite IH by (simpl in *; done || lia). reflexivity.
Qed.
End Members.

Lemma parse_value_string fuel depth s rest : all_chars plain_char s = true →
  parse_value (S fuel) depth (String quote (s +:+ String quote rest)) = Some (JStr s, rest).
Proof.
  intros Hs. cbn [parse_value]. change (skip (String quote ?x)) with (String quote x). cbv iota. rewrite Ascii.eqb_refl.
  by rewrite parse_plain.
Qed.

Lemma members_text_length pairs tail : (length pairs <= String.length (members_text pairs tail))%nat.
Proof.
  induction pairs as [|p pairs IH]; [simpl; lia|].
  assert (∀ t, (S (String.length t) <= String.length (member_text p t))%nat) as Hm.
  { intros t. unfold member_text. simpl. assert (∀ a b, (String.length b <= String.length (a +:+ b))%nat) as Ha.
    { induction a as [|c a IHa]; intros b; [done|]. change (String c a +:+ b) with (String c (a +:+ b)). simpl. specialize (IHa b). lia. }
    etrans; [|apply le_n_S, Ha]. simpl. pose proof (Ha (b64_encode (fp_Value p)) (String quote t)) as Hb. simpl in Hb. lia. }
  destruct pairs as [|q pairs]; [specialize (Hm tail); simpl; lia|].
  change (members_text (p :: q :: pairs) tail) with (member_text p (String "," (members_text (q :: pairs) tail))).
  specialize (Hm (String "," (members_text (q :: pairs) tail))). simpl in *. lia.
Qed.

Lemma parse_object pairs : Forall (λ p, is_ascii (fp_Field p) = true) pairs →
  parse_prefix (json_object pairs) = Some (JObj (map member_json pairs), "").
Proof.
  intros Hp. unfold parse_prefix, json_object. rewrite join_members.
  destruct pairs as [|p pairs]; [reflexivity|]. set (t := members_text (p :: pairs) "}").
  assert (∃ x, t = String quote x) as [x Hx] by (unfold t; destruct pairs; by eexists).
  pose proof (members_text_length (p :: pairs) "}") as Hl. fold t in Hl.
  change (String.length (String "{" t)) with (S (String.length t)). cbn [parse_value].
  change (skip (String "{" t)) with (String "{" t). cbv iota. change (Ascii.eqb "{" quote) with false. cbv iota.
  change (Ascii.eqb "{" "{") with true. change (10000 <=? 0) with false. cbv iota.
  rewrite Hx at 1. change (skip (String quote x)) with (String quote x). cbv iota.
  destruct (String.length t) as [|n] eqn:En; [simpl in Hl; lia|].
  change (members ?v ?k t) with (members v k (members_text (p :: pairs) (String "}" ""))).
  rewrite (parse_members (parse_value (S (S n)) (0 + 1))); [reflexivity|by intros; apply parse_value_string|done|done|simpl in *; lia].
Qed.

(** A row of ASCII names comes back, whether the text is read as a whole or as
    the first value of a stream. *)
Lemma row_of_written pairs m : into_members (map member_json pairs) m =
  (fold_left (λ m p, <[fp_Field p := fp_Value p]> m) pairs m, None).
Proof.
  revert m. induction pairs as [|p pairs IH]; intros m; [done|]. cbn [map into_members member_json into_bytes].
  rewrite b64_roundtrip. by rewrite IH.
Qed.

Lemma fold_pairs (values : gmap string bytes) :
  fold_left (λ m p, <[fp_Field p := fp_Value p]> m) (NewFieldPairs (map_to_list values)) ∅ = values.
Proof.
  assert (∀ l (m : gmap string bytes), fold_left (λ m p, <[fp_Field p := fp_Value p]> m) l m =
    fold_left (λ m kv, <[kv.1 := kv.2]> m) (map (λ p, (fp_Field p, fp_Value p)) l) m) as ->.
  { induction l as [|p l IH]; intros m; [done|]. apply IH. }
  set (l := map _ _). assert (l ≡ₚ map_to_list values) as Hl.
  { unfold l, NewFieldPairs. rewrite sort_pairs_perm, map_map. cbn [fp_Field fp_Value].
    rewrite (map_ext (λ x : string * bytes, (x.1, x.2)) id) by (by intros []). by rewrite map_id. }
  rewrite <- fold_left_rev_right. trans (list_to_map (rev l) : gmap string bytes); [done|].
  rewrite <- (list_to_map_to_list values). apply list_to_map_proper.
  - rewrite <- Permutation_rev, Hl. apply NoDup_fst_map_to_list.
  - by rewrite <- Permutation_rev.
Qed.

Definition ascii_fields (values : gmap string bytes) : Prop := map_Forall (λ f _, is_ascii f = true) values.

Lemma written_fields values : ascii_fields values → Forall (λ p, is_ascii (fp_Field p) = true) (NewFieldPairs (map_to_list values)).
Proof.
  intros Hv. unfold NewFieldPairs. rewrite sort_pairs_perm. apply Forall_map, Forall_forall. intros [k v] Hin%elem_of_map_to_list.
  by apply (Hv k v).
Qed.

Lemma json_roundtrip_into values : ascii_fields values →
  ∃ data, Marshal values = inl data ∧
    Unmarshal_into data None = (Some values, None) ∧ Unmarshal_into data (Some ∅) = (Some values, None) ∧
    Decode_into data None = (Some values, None).
Proof.
  intros Hv. eexists. split; [reflexivity|]. unfold Unmarshal_into, Decode_into, json_text, go_bytes.
  rewrite String.string_of_list_byte_of_string, parse_object by (by apply written_fields).
  cbn [skip String.eqb into_map default]. unfold id. rewrite row_of_written, fold_pairs. done.
Qed.

Lemma json_roundtrip values : ascii_fields values →
  ∃ data, Marshal values = inl data ∧ Unmarshal data = inl values ∧ Decode data = inl values.
Proof.
  intros (data & Hm & Hu & _ & Hd)%json_roundtrip_into. exists data. unfold Unmarshal, Decode. by rewrite Hu, Hd.
Qed.

Example marshal_ex : Marshal {["field1" := go_bytes "hello"; "a<b" := []]} =
  inl (go_bytes (String "{" (quoted "a\u003cb" +:+ ":" +:+ quoted "" +:+ "," +:+ quoted "field1" +:+ ":" +:+ quoted "aGVsbG8=" +:+ "}"))).
Proof. vm_compute. reflexivity. Qed.

(** What the decoder makes of other texts. *)
Example unmarshal_ex :
  (Unmarshal (go_bytes (" { " +:+ quoted "a" +:+ " : " +:+ quoted "/w==" +:+ ", " +:+ quoted "\u00e9" +:+ ":[1, 255]," +:+ quoted "c" +:+ ":null}"))) =
    inl (<["c" := []]> (<[String (chr 195) (String (chr 169) "") := [byte_of 1; byte_of 255]]> {["a" := [byte_of 255]]})) ∧
  (∃ e, Unmarshal (go_bytes "{}x") = inr e) ∧ (∃ e, Unmarshal (go_bytes ("{" +:+ quoted "a" +:+ ":" +:+ quoted "b" +:+ "}")) = inr e) ∧
  (∃ e, Unmarshal (go_bytes "[]") = inr e) ∧ Unmarshal (go_bytes "null") = inl ∅ ∧ Decode (go_bytes "{}x") = inl ∅.
Proof. vm_compute. split_and!; try reflexivity; by eexists. Qed.

(** Decoding goes on after an error. *)
Example decode_into_ex :
  Decode_into (go_bytes ("{" +:+ quoted "_index" +:+ ":" +:+ quoted "ycsb" +:+ "," +:+ quoted "_version" +:+ ":1," +:+
    quoted "_source" +:+ ":{" +:+ quoted "field0" +:+ ":" +:+ quoted "YQ==" +:+ "}," +:+ quoted "found" +:+ ":true}")) None =
  (Some {["_index" := [byte_of 201; byte_of 203; byte_of 27]; "_version" := []; "_source" := []; "found" := []]},
   Some "cannot unmarshal value into Go value of type []uint8").
Proof. vm_compute. reflexivity. Qed.
