(* ===== verification/Clients.v ===== *)
(** * Clients: the programs that talk to a cluster

    The client library (src/pkg/client/client.go), the command line tool
    (src/cmd/acp-cli/main.go), the benchmark's connection pool
    (src/benchmark/adaptive/client_pool.go) and the YCSB binding
    (src/go-ycsb-vendor/db/acp/db.go), over an interface of remote calls whose
    instance is the cluster of [Cluster]. *)

From Stdlib Require Import Ascii.
From S2P Require Import Prelude GoLib Float64 Metrics Hlc Storage Staleness Ring WriteLog.
From S2P Require Import Reconcile GoParse Config Quorum Api Coordinator Server Cluster YcsbUtil Json.

Open Scope Z_scope.

(** ** The service, as a client sees it *)

Class Service (E : Type) := mkService {
  svc_NewClient : string → option error;
  svc_Put : string → PutRequest → GoM E (PutResponse + error);
  svc_Get : string → GetRequest → GoM E (GetResponse + error);
  svc_HealthCheck : string → HealthRequest → GoM E (HealthResponse + error);
}.
Arguments mkService {E}.

(** A cluster serves its clients; [sched] orders the calls between nodes. *)
Definition serve {Q A} (m : GoM (Cluster Q) (option (option A))) : GoM (Cluster Q) (A + error) :=
  r <- m ;; ret (match r with Some (Some a) => inl a | _ => inr "unavailable" end).

Definition cluster_service {Q} `{!QuorumProvider Q} (sched : schedule (string * ServiceClient)) :
    Service (Cluster Q) :=
  mkService (λ _, None)
    (λ addr req, serve (at_node (target_of addr) (Server_Put sched req)))
    (λ addr req, serve (at_node (target_of addr) (r <- Server_Get sched req ;; ret (Some r))))
    (λ addr req, serve (at_node (target_of addr)
                          (r <- on_server (Server_HealthCheck req) ;; ret (Some r)))).

(** ** The client library *)

Record Client := mkClientLib { lc_addr : string }.

Section Lib.
Context {E : Type} `{!Service E}.

Definition NewClient (addr : string) : Client + error :=
  match svc_NewClient addr with
  | Some err => inr ("failed to connect: " +:+ err)
  | None => inl (mkClientLib addr)
  end.

Definition Client_Put (c : Client) (key : string) (value : bytes) : GoM E (PutResponse + error) :=
  svc_Put (lc_addr c) (mkPutRequest key value).

Definition Client_Get (c : Client) (key : string) : GoM E (GetResponse + error) :=
  svc_Get (lc_addr c) (mkGetRequest key).

Definition Client_HealthCheck (c : Client) (sourceNodeID : string) : GoM E (HealthResponse + error) :=
  t <- time_now ;;
  svc_HealthCheck (lc_addr c) (mkHealthRequest sourceNodeID (UnixNano t) None).

(** ** The command line tool *)

(** What a run prints, line by line, and its exit status. *)
Record CliResult := mkCli { cli_stdout : list string; cli_stderr : list string; cli_status : Z }.

Definition bytes_string (v : bytes) : string := String.string_of_list_byte v.

Definition cli_usage : list string :=
  ["Usage:"; "	acp-cli <address> put <key> <value>"; "	acp-cli <address> get <key>"; "	acp-cli <address> health"].

Definition cli_put (c : Client) (args : list string) : GoM E CliResult :=
  match args with
  | _ :: _ :: _ :: key :: value :: _ =>
      r <- Client_Put c key (go_bytes value) ;;
      ret (match (r : PutResponse + error) with
           | inr err => mkCli [] ["PUT failed: " +:+ err] 1
           | inl resp =>
               if presp_Success resp then
                 mkCli ["put successful"; "version: " +:+ itoa (presp_Version resp);
                        "timestamp: " +:+ itoa (presp_Timestamp resp)] [] 0
               else mkCli ["put failed: " +:+ presp_Error resp] [] 1
           end)
  | _ => ret (mkCli ["Usage: acp-cli <address> put <key> <value>"] [] 1)
  end.

Definition cli_get (c : Client) (args : list string) : GoM E CliResult :=
  match args with
  | _ :: _ :: _ :: key :: _ =>
      r <- Client_Get c key ;;
      ret (match (r : GetResponse + error) with
           | inr err => mkCli [] ["GET failed: " +:+ err] 1
           | inl resp =>
               if gresp_Found resp then
                 mkCli ["key found"; "value: " +:+ bytes_string (gresp_Value resp);
                        "version: " +:+ itoa (gresp_Version resp);
                        "timestamp: " +:+ itoa (gresp_Timestamp resp)] [] 0
               else
                 mkCli (["key not found"] ++
                        (if decide (gresp_Error resp = "") then [] else ["error: " +:+ gresp_Error resp])) [] 1
           end)
  | _ => ret (mkCli ["Usage: acp-cli <address> get <key>"] [] 1)
  end.

Definition cli_health (c : Client) : GoM E CliResult :=
  r <- Client_HealthCheck c "cli" ;;
  ret (match (r : HealthResponse + error) with
       | inr err => mkCli [] ["health check failed: " +:+ err] 1
       | inl resp =>
           if hresp_Healthy resp then
             mkCli ["node healthy"; "node ID: " +:+ hresp_NodeId resp;
                    "timestamp: " +:+ itoa (hresp_Timestamp resp)] [] 0
           else mkCli ["node unhealthy"] [] 1
       end).

(** [main], with [os.Args] as its argument. *)
Definition cli_main (args : list string) : GoM E CliResult :=
  match args with
  | _ :: addr :: cmd :: _ =>
      match NewClient addr with
      | inr err => ret (mkCli [] ["error connecting: " +:+ err] 1)
      | inl c =>
          if decide (cmd = "put") then cli_put c args
          else if decide (cmd = "get") then cli_get c args
          else if decide (cmd = "health") then cli_health c
          else ret (mkCli ["unknown command: " +:+ cmd; "valid commands: put, get, health"] [] 1)
      end
  | _ => ret (mkCli cli_usage [] 1)
  end.

(** ** The benchmark's connection pool *)

Record ClientPool := mkPool { cp_clients : list string; cp_index : Z (* uint32 *) }.

Definition wrapu32 (z : Z) : Z := z mod 2 ^ 32.

(** The connection loop: a failure closes what was opened. *)
Fixpoint pool_connect (endpoints : list string) (acc : list string) : list string + error :=
  match endpoints with
  | [] => inl acc
  | endpoint :: rest =>
      match svc_NewClient endpoint with
      | Some err => inr ("failed to connect to " +:+ endpoint +:+ ": " +:+ err)
      | None => pool_connect rest (acc ++ [endpoint])
      end
  end.

Definition NewClientPool (endpoints : list string) : ClientPool + error :=
  match endpoints with
  | [] => inr "no endpoints provided"
  | _ => match pool_connect endpoints [] with
         | inl clients => inl (mkPool clients 0)
         | inr err => inr err
         end
  end.

(** [Get]: nil for an empty pool. *)
Definition Pool_Get (p : ClientPool) : option string * ClientPool :=
  match cp_clients p with
  | [] => (None, p)
  | _ =>
      let index := wrapu32 (cp_index p + 1) in
      let idx := index mod (wrapu32 (Z.of_nat (length (cp_clients p)))) in
      (cp_clients p !! Z.to_nat idx, mkPool (cp_clients p) index)
  end.

Definition Pool_Close (p : ClientPool) : ClientPool := mkPool [] (cp_index p).

Fixpoint pool_health_loop (i : Z) (clients : list string) : GoM E (option error) :=
  match clients with
  | [] => ret None
  | c :: rest =>
      r <- svc_Get c (mkGetRequest "__health_check__") ;;
      match (r : GetResponse + error) with
      | inr err =>
          if decide (err = "rpc error: code = Unknown desc = key not found") then pool_health_loop (i + 1) rest
          else ret (Some ("health check failed for client " +:+ itoa i +:+ ": " +:+ err))
      | inl _ => pool_health_loop (i + 1) rest
      end
  end.

Definition Pool_HealthCheck (p : ClientPool) : GoM E (option error) :=
  match cp_clients p with
  | [] => ret (Some "no clients available")
  | cs => pool_health_loop 0 cs
  end.

(** [grpcClient]: only transport errors are errors. *)
Definition grpcClient_Get (c : string) (key : string) : GoM E (bytes + error) :=
  r <- svc_Get c (mkGetRequest key) ;;
  ret (match (r : GetResponse + error) with inr err => inr err | inl resp => inl (gresp_Value resp) end).

Definition grpcClient_Put (c : string) (key : string) (value : bytes) : GoM E (Z + error) :=
  r <- svc_Put c (mkPutRequest key value) ;;
  ret (match (r : PutResponse + error) with inr err => inr err | inl resp => inl (presp_Version resp) end).

(** ** The YCSB binding *)

Record acpDB := mkDB { db_clients : list string; db_nextClient : nat }.

Fixpoint db_connect (addrs : list string) (acc : list string) : list string + error :=
  match addrs with
  | [] => inl acc
  | addr :: rest =>
      let addr := TrimSpace addr in
      match svc_NewClient addr with
      | Some err => inr ("failed to connect to " +:+ addr +:+ ": " +:+ err)
      | None => db_connect rest (acc ++ [addr])
      end
  end.

(** [Create] with the value of the property acp.endpoints. *)
Definition acp_Create (endpoints : string) : acpDB + error :=
  match db_connect (go_split "," endpoints) [] with
  | inl clients => inl (mkDB clients 0)
  | inr err => inr err
  end.

(** [getClient]; [None] is the panic of an index out of range. *)
Definition getClient (db : acpDB) : option (string * acpDB) :=
  match db_clients db !! db_nextClient db with
  | None => None
  | Some client => Some (client, mkDB (db_clients db) ((db_nextClient db + 1) mod length (db_clients db))%nat)
  end.

Definition getRowKey (table key : string) : string := table +:+ ":" +:+ key.

Definition filter_fields (fields : list string) (result : gmap string bytes) : gmap string bytes :=
  match fields with
  | [] => result
  | _ => fold_left (λ filtered field,
           match result !! field with Some val => <[field := val]> filtered | None => filtered end) fields ∅
  end.

Definition acp_Read (db : acpDB) (table key : string) (fields : list string) :
    GoM E (option ((gmap string bytes + error) * acpDB)) :=
  match getClient db with
  | None => ret None
  | Some (client, db') =>
      r <- svc_Get client (mkGetRequest (getRowKey table key)) ;;
      ret (Some (match (r : GetResponse + error) with
        | inr err => inr ("acp get failed: " +:+ err)
        | inl resp =>
            if decide (gresp_Error resp = "") then
              if negb (gresp_Found resp) then inl ∅
              else match Unmarshal (gresp_Value resp) with
                   | inr err => inr ("failed to decode value: " +:+ err)
                   | inl result => inl (filter_fields fields result)
                   end
            else inr ("acp get error: " +:+ gresp_Error resp)
        end, db'))
  end.

Definition acp_Insert (db : acpDB) (table key : string) (values : gmap string bytes) :
    GoM E (option (option error * acpDB)) :=
  match getClient db with
  | None => ret None
  | Some (client, db') =>
      match Marshal values with
      | inr err => ret (Some (Some ("failed to encode values: " +:+ err), db'))
      | inl data =>
          r <- svc_Put client (mkPutRequest (getRowKey table key) data) ;;
          ret (Some (match (r : PutResponse + error) with
            | inr err => Some ("acp put failed: " +:+ err)
            | inl resp =>
                if decide (presp_Error resp = "") then
                  if negb (presp_Success resp) then Some "acp put unsuccessful (no specific error provided)"
                  else None
                else Some ("acp put error: " +:+ presp_Error resp)
            end, db'))
      end
  end.

Definition acp_Update := acp_Insert.
Definition acp_Scan : list (gmap string bytes) + error := inr "scan operation not supported by acp".
Definition acp_Delete : option error := Some "delete operation not supported by acp".
End Lib.

(** ** Lemmas *)

Section ClusterService.
Context {Q : Type} `{!QuorumProvider Q}.
Implicit Types (c : Cluster Q) (w : World).

Lemma service_put sched addr req c w r c' w' :
  at_node (target_of addr) (Server_Put sched req) c w = (Some (Some r), c', w') →
  svc_Put (Service := cluster_service sched) addr req c w = (inl r, c', w').
Proof. intros H. simpl. unfold serve, bind. by rewrite H. Qed.

Lemma service_get sched addr req c w r c' w' :
  at_node (target_of addr) (Server_Get sched req) c w = (Some r, c', w') →
  svc_Get (Service := cluster_service sched) addr req c w = (inl r, c', w').
Proof.
  unfold svc_Get, cluster_service, serve, bind at 1, at_node.
  destruct (cl_nodes c !! target_of addr) as [s|]; [|done]. unfold bind.
  destruct (Server_Get _ _ _ _) as [[a [s' e']] w1]. simpl. intros [= -> <- <-]. done.
Qed.
End ClusterService.

Lemma get_client_next db client db' :
  getClient db = Some (client, db') → client ∈ db_clients db ∧ db_clients db' = db_clients db.
Proof.
  unfold getClient. destruct (db_clients db !! db_nextClient db) eqn:E1; [|done]. intros [= <- <-].
  split; [by eapply list_elem_of_lookup_2|done].
Qed.

(** The round-robin of the pool, as long as its uint32 counter has not wrapped. *)
Lemma pool_get_step p (m : nat) :
  length (cp_clients p) = m → (0 < m)%nat → Z.of_nat m < 2 ^ 32 → 0 <= cp_index p < 2 ^ 32 - 1 →
  Pool_Get p = (cp_clients p !! (Z.to_nat (cp_index p + 1) mod m)%nat, mkPool (cp_clients p) (cp_index p + 1)).
Proof.
  intros <- H0 Hlt Hi. unfold Pool_Get, wrapu32.
  destruct (cp_clients p) as [|x l] eqn:E1; [simpl in H0; lia|].
  rewrite (Z.mod_small (cp_index p + 1) (2 ^ 32)), (Z.mod_small (Z.of_nat (length (x :: l))) (2 ^ 32)) by lia.
  do 2 f_equal.
  rewrite <- (Z2Nat.id (cp_index p + 1)) at 1 by lia. by rewrite <- Nat2Z.inj_mod, Nat2Z.id.
Qed.

(** [n] calls of [Pool_Get]. *)
Fixpoint pool_gets (n : nat) (p : ClientPool) : list (option string) * ClientPool :=
  match n with
  | O => ([], p)
  | S n => let '(r, p') := Pool_Get p in let '(rs, p'') := pool_gets n p' in (r :: rs, p'')
  end.

Lemma pool_gets_spec n : ∀ p m,
  length (cp_clients p) = m → (0 < m)%nat → Z.of_nat m < 2 ^ 32 → 0 <= cp_index p →
  cp_index p + Z.of_nat n < 2 ^ 32 →
  pool_gets n p = (map (λ i, cp_clients p !! ((Z.to_nat (cp_index p) + i) mod m)%nat) (seq 1 n),
                   mkPool (cp_clients p) (cp_index p + Z.of_nat n)).
Proof.
  induction n as [|n IH]; intros p m Hm H0 Hlt Hi Hn; cbn [pool_gets seq map].
  { rewrite Z.add_0_r. by destruct p. }
  rewrite (pool_get_step p m Hm H0 Hlt) by lia.
  rewrite (IH (mkPool (cp_clients p) (cp_index p + 1)) m) by (simpl; lia || done).
  cbn [cp_clients cp_index]. f_equal; [f_equal|f_equal; lia].
  - do 2 f_equal. lia.
  - rewrite <- (seq_shift n 1), map_map. apply map_ext. intros i. do 2 f_equal. lia.
Qed.

(** ** Properties *)

(** the pool is fair: as long as its counter has not reached 2^32, the i-th
    request (from 1) goes to endpoint number [i mod m], so any [m] consecutive
    requests reach every endpoint once. *)
Theorem pool_round_robin (clients : list string) (n : nat) :
  clients ≠ [] → Z.of_nat (length clients) < 2 ^ 32 → Z.of_nat n < 2 ^ 32 →
  (pool_gets n (mkPool clients 0)).1 = map (λ i, clients !! (i mod length clients)%nat) (seq 1 n) ∧
  (∀ k, (k + length clients <= n)%nat →
     take (length clients) (drop k (pool_gets n (mkPool clients 0)).1) ≡ₚ map Some clients).
Proof.
  intros Hne Hm Hn. assert (0 < length clients)%nat as H0 by (destruct clients; simpl; [done|lia]).
  rewrite (pool_gets_spec n (mkPool clients 0) (length clients)) by (simpl; lia || done). simpl.
  split; [done|]. intros k Hk.
  change (map ?f ?l) with (f <$> l). rewrite <- fmap_drop, <- fmap_take.
  rewrite drop_seq, take_seq. replace (length clients `min` (n - k))%nat with (length clients) by lia.
  rewrite <- map_lookup_seq, <- (seq_mod_perm (length clients) (1 + k) H0).
  by rewrite map_map.
Qed.

Lemma pool_round_robin_witness :
  (pool_gets 5 (mkPool ["a"; "b"; "c"] 0)).1 = map Some ["b"; "c"; "a"; "b"; "c"] ∧
  take 3 (drop 1 (pool_gets 5 (mkPool ["a"; "b"; "c"] 0)).1) ≡ₚ map Some ["a"; "b"; "c"].
Proof.
  split; [vm_compute; reflexivity|].
  refine (proj2 (pool_round_robin ["a"; "b"; "c"] 5 _ _ _) 1%nat _); simpl; try lia. discriminate.
Defined.

(** the command line tool reports a write truthfully: with the arguments of
    a put it exits with status 0 exactly when the service answered and accepted
    the write, and makes no other request. *)
Theorem cli_put_status {E} `{!Service E} (prog addr key value : string) (rest : list string) (e : E) (w : World) :
  svc_NewClient addr = None →
  let '(r, e', w') := svc_Put addr (mkPutRequest key (go_bytes value)) e w in
  (cli_main (prog :: addr :: "put" :: key :: value :: rest) e w).1.2 = e' ∧
  (cli_status (cli_main (prog :: addr :: "put" :: key :: value :: rest) e w).1.1 = 0 ↔
     ∃ resp, r = inl resp ∧ presp_Success resp = true).
Proof.
  intros Hc. unfold cli_main, NewClient. rewrite Hc. rewrite decide_True by done.
  unfold cli_put, Client_Put, bind, ret. cbn [lc_addr].
  destruct (svc_Put _ _ e w) as [[[resp|err] e'] w']; simpl; (split; [done|]).
  - destruct (presp_Success resp) eqn:Es; simpl; (split; [try done; by eexists|]); [done|].
    intros (resp' & [= <-] & ?). congruence.
  - split; [done|]. by intros (resp' & ? & _).
Qed.

Abbreviation demo_service := (cluster_service (Q := AdaptiveQuorum) (λ l, l)).

Lemma cli_put_status_witness :
  let run := cli_main (Service0 := demo_service) ["acp-cli"; "b"; "put"; "k"; "v"] (demo_mesh 2 2) (ticking Second) in
  cli_stdout run.1.1 = ["put successful"; "version: 1001000000"; "timestamp: 1001000000"] ∧
  cli_status run.1.1 = 0.
Proof.
  cbv zeta. split; [vm_compute; reflexivity|].
  pose proof (cli_put_status (Service0 := demo_service) "acp-cli" "b" "k" "v" []
    (demo_mesh 2 2) (ticking Second) eq_refl) as H.
  destruct (svc_Put (Service := demo_service) "b" (mkPutRequest "k" (go_bytes "v")) (demo_mesh 2 2) (ticking Second))
    as [[r e'] w'] eqn:Hr.
  apply (proj2 (proj2 H)). change r with (r, e', w').1.1. rewrite <- Hr. vm_compute. eexists. split; reflexivity.
Defined.

(** a read rejected as stale looks like a success: for the response a node
    sends when the staleness bound is exceeded, the tool prints "key found" with
    an empty value, drops the error text and exits with status 0. *)
Theorem cli_get_stale_as_found {E} `{!Service E} (prog addr key : string) (rest : list string)
    (e e' : E) (w w' : World) (err : error) :
  svc_NewClient addr = None →
  svc_Get addr (mkGetRequest key) e w = (inl (stale_response err), e', w') →
  cli_main (prog :: addr :: "get" :: key :: rest) e w =
    (mkCli ["key found"; "value: "; "version: 0"; "timestamp: 0"] [] 0, e', w').
Proof.
  intros Hc Hg. unfold cli_main, NewClient. rewrite Hc.
  rewrite decide_False, decide_True by done.
  unfold cli_get, Client_Get, bind, ret. cbn [lc_addr]. by rewrite Hg.
Qed.

Lemma cli_get_stale_as_found_witness :
  let c := (demo_put "a" "v" [] (demo_mesh 2 2) (ticking Second)).1.2 in
  (cli_main (Service0 := demo_service) ["acp-cli"; "a"; "get"; "k"] c (ticking Minute)).1.1
  = mkCli ["key found"; "value: "; "version: 0"; "timestamp: 0"] [] 0.
Proof.
  cbv zeta. set (c := (demo_put "a" "v" [] (demo_mesh 2 2) (ticking Second)).1.2).
  destruct (svc_Get (Service := demo_service) "a" (mkGetRequest "k") c (ticking Minute)) as [[r e'] w'] eqn:Hg.
  assert (r = inl (stale_response "staleness bound exceeded: data age 59.002s > max 3s")) as ->.
  { change r with (r, e', w').1.1. rewrite <- Hg. vm_compute. reflexivity. }
  exact (f_equal (λ x, x.1.1) (cli_get_stale_as_found (Service0 := demo_service) "acp-cli" "a" "k" [] c e'
    (ticking Minute) w' _ eq_refl Hg)).
Defined.

(** the benchmark does not notice rejected writes: its client returns the
    version of whatever response arrives, so a [Put] the cluster refused for
    want of acknowledgements is a success (with version 0) for it. *)
Theorem bench_put_ignores_rejection {E} `{!Service E} (addr key : string) (value : bytes)
    (e e' : E) (w w' : World) (resp : PutResponse) :
  svc_Put addr (mkPutRequest key value) e w = (inl resp, e', w') → presp_Success resp = false →
  grpcClient_Put addr key value e w = (inl (presp_Version resp), e', w').
Proof. intros Hp _. unfold grpcClient_Put, bind, ret. by rewrite Hp. Qed.

Lemma bench_put_ignores_rejection_witness :
  let c := mkCluster (cl_nodes (demo_mesh 2 2)) [DropRequest; DropRequest] in
  (grpcClient_Put (Service0 := demo_service) "a" "k" [] c (ticking Second)).1.1 = inl 0.
Proof.
  cbv zeta. set (c := mkCluster _ _).
  destruct (svc_Put (Service := demo_service) "a" (mkPutRequest "k" []) c (ticking Second)) as [[r e'] w'] eqn:Hp.
  assert (r = inl (mkPutResponse false "insufficient acknowledgements: got 1, need 2" 0 0 None)) as ->.
  { change r with (r, e', w').1.1. rewrite <- Hp. vm_compute. reflexivity. }
  exact (f_equal (λ x, x.1.1) (bench_put_ignores_rejection (Service0 := demo_service) "a" "k" [] c e'
    (ticking Second) w' _ Hp eq_refl)).
Defined.

(** C12: what YCSB inserts, it reads back: on a cluster whose nodes use quorums
    with R + W > N, after an [Insert] of a row that did not exist, with ASCII field names, reported no
    error, the following [Read] (at the next node of the rotation, under any
    faults and clock skew) returns exactly the inserted fields asked for, or an
    error; it never returns an empty or a different row. *)
Theorem ycsb_insert_then_read {Q} `{!QuorumProvider Q}
    (sched : schedule (string * ServiceClient)) (U : gset string) (c1 c2 : Cluster Q) (w1 w2 w3 : World)
    (db db2 : acpDB) (table key : string) (values : gmap string bytes) (fields : list string) (W : Z) :
  ascii_fields values →
  fair_schedule sched → (2 <= size U)%nat → cluster_wf U c1 →
  Forall (λ a, a ∈ U) (db_clients db) →
  (∀ t, lookup_at c1 t (getRowKey table key) = None) →
  (∀ t s, cl_nodes c1 !! t = Some s → GetW (sv_quorumProvider s) = W) →
  (∀ t s, cl_nodes c2 !! t = Some s → Z.of_nat (size U) < W + GetR (sv_quorumProvider s)) →
  acp_Insert (Service0 := cluster_service sched) db table key values c1 w1 = (Some (None, db2), c2, w2) →
  is_Some (getClient db2) →
  ∃ res db3 c3 w4,
    acp_Read (Service0 := cluster_service sched) db2 table key fields c2 w3 = (Some (res, db3), c3, w4) ∧
    (res = inl (filter_fields fields values) ∨ ∃ err, res = inr err).
Proof.
  intros Hasc Hf HU Hwf Hcl Habs HW HR Hins [[b db3] Hb]. destruct (json_roundtrip values Hasc) as (data & Hm & Hu & _).
  unfold acp_Insert in Hins. destruct (getClient db) as [[a db']|] eqn:Ha; [|done]. rewrite Hm in Hins.
  destruct (get_client_next _ _ _ Ha) as [HaU Hdb']. rewrite Forall_forall in Hcl.
  set (req := mkPutRequest (getRowKey table key) data) in Hins.
  destruct (cluster_put U c1 a sched req w1 Hwf (Hcl a HaU) Hf)
    as (s & resp & c' & w' & acked & Hs & Heq & _ & _ & _ & _ & _ & _ & Hng).
  unfold bind in Hins. rewrite (service_put sched a req c1 w1 resp c' w' Heq) in Hins.
  assert (presp_Success resp = true ∧ db2 = db' ∧ c2 = c') as (Hok & -> & ->).
  { unfold ret in Hins. destruct (decide (presp_Error resp = "")); [|done].
    destruct (presp_Success resp); [|done]. by injection Hins as -> -> _. }
  destruct (put_written U c1 a sched req w1 s resp c' w' Hwf (Hcl a HaU) Hf HU Hs Heq Hok) as (Hwf2 & _ & Hwr).
  rewrite (HW _ _ Hs) in Hwr. destruct (get_client_next _ _ _ Hb) as [HbU _]. rewrite Hdb' in HbU.
  destruct (cluster_get U c' b sched (mkGetRequest (getRowKey table key)) w3 Hwf2 (Hcl b HbU) Hf)
    as (sb & r & c3 & w4 & Hsb & Hnode & Hget & _ & _ & Hout).
  pose proof (get_sees U c' b sb r _ _ W Hwr Hsb Hnode (Hcl b HbU) (HR _ _ Hsb) Hout) as Hsee.
  assert (∀ t h v, holds_write (lookup_at c' t (getRowKey table key)) h v → v = data) as Honly.
  { intros t h v (vv & Hl & _ & Hv). destruct (Hng t) as [Hu0|(vv' & Hl' & _ & Hv')]; simpl in *.
    - rewrite Habs in Hu0. congruence.
    - rewrite Hl in Hl'. injection Hl' as <-. congruence. }
  unfold acp_Read. rewrite Hb. unfold bind. rewrite (service_get sched b _ c' w3 r c3 w4 Hget).
  eexists _, db3, c3, w4. split; [done|].
  destruct (decide (gresp_Error r = "")) as [He|He]; [|right; by eexists].
  destruct Hsee as [Hbad|[Hfound _]]; [done|]. rewrite Hfound. simpl. left.
  destruct Hout as [| | |h value ver ts Hrq]; try done. simpl.
  assert (value = data) as ->; [|by rewrite Hu].
  destruct Hrq as [X _ _ _ _ [Hl|(a' & Ha' & Hl)]].
  - apply (Honly (target_of b) h). unfold lookup_at. by rewrite Hsb.
  - apply (Honly (target_of a') h). change net_lookup with (lookup_at (Q := Q)) in Hl.
    destruct (decide (target_of a' = target_of b)) as [Hab|Hab]; [|by rewrite lookup_others in Hl].
    exfalso. apply (inj target_of) in Hab as ->. destruct Hnode as [_ Hd]. rewrite Hd in Ha'.
    apply elem_of_difference in Ha' as [_ Ha']. by apply Ha', elem_of_singleton.
Qed.

Definition demo_row : gmap string bytes := {["field0" := go_bytes "1"; "field1" := go_bytes "2"]}.

Lemma ycsb_insert_then_read_witness :
  let db := mkDB ["a"; "b"; "c"] 0 in
  let ins := acp_Insert (Service0 := demo_service) db "usertable" "user1" demo_row (demo_mesh 2 2)
               (ticking Second) in
  ∃ res db3 c3 w4,
    acp_Read (Service0 := demo_service) (mkDB ["a"; "b"; "c"] 1) "usertable" "user1" ["field1"]
      ins.1.2 (ticking Second) = (Some (res, db3), c3, w4) ∧
    (res = inl (filter_fields ["field1"] demo_row) ∨ ∃ err, res = inr err).
Proof.
  cbv zeta.
  destruct (acp_Insert (Service0 := demo_service) (mkDB ["a"; "b"; "c"] 0) "usertable" "user1" demo_row
    (demo_mesh 2 2) (ticking Second)) as [[r c2] w2] eqn:Hins.
  assert (r = Some (None, mkDB ["a"; "b"; "c"] 1)) as ->.
  { change r with (r, c2, w2).1.1. rewrite <- Hins. vm_compute. reflexivity. }
  assert (∀ t s, cl_nodes (demo_mesh 2 2) !! t = Some s → GetW (sv_quorumProvider s) = 2) as HW.
  { change (map_Forall (λ (_ : string) s, GetW (sv_quorumProvider s) = 2) (cl_nodes (demo_mesh 2 2))).
    apply (bool_decide_unpack _). vm_compute. exact I. }
  assert (∀ t s, cl_nodes c2 !! t = Some s → 3 < 2 + GetR (sv_quorumProvider s)) as HR.
  { change (map_Forall (λ (_ : string) s, 3 < 2 + GetR (sv_quorumProvider s)) (cl_nodes c2)).
    apply (bool_decide_unpack _).
    change c2 with (Some (None : option error, mkDB ["a"; "b"; "c"] 1), c2, w2).1.2. rewrite <- Hins.
    vm_compute. exact I. }
  refine (ycsb_insert_then_read (λ l, l) (list_to_set ["a"; "b"; "c"]) (demo_mesh 2 2) c2
    (ticking Second) w2 (ticking Second) (mkDB ["a"; "b"; "c"] 0) (mkDB ["a"; "b"; "c"] 1) "usertable" "user1" demo_row
    ["field1"] 2 _ _ _ _ _ _ HW HR Hins _).
  - apply (bool_decide_unpack _). vm_compute. exact I.
  - apply fair_id.
  - vm_compute. lia.
  - apply mesh_wf.
  - repeat constructor; apply (bool_decide_unpack _); vm_compute; exact I.
  - intros t. unfold lookup_at. destruct (cl_nodes (demo_mesh 2 2) !! t) as [s|] eqn:Hs; [|reflexivity].
    revert t s Hs.
    change (map_Forall (λ (_ : string) s, sv_store s !! getRowKey "usertable" "user1" = None) (cl_nodes (demo_mesh 2 2))).
    apply (bool_decide_unpack _). vm_compute. exact I.
  - eexists. reflexivity.
Defined.

(** row keys of one table never collide, and rows of different tables do not
    either as long as table names contain no colon; with colons they can. *)
Theorem row_keys_injective (t1 t2 k1 k2 : string) :
  str_has ":"%char t1 = false → str_has ":"%char t2 = false →
  getRowKey t1 k1 = getRowKey t2 k2 → t1 = t2 ∧ k1 = k2.
Proof.
  unfold getRowKey. change (":" +:+ ?x) with (String ":" x). revert t2.
  induction t1 as [|c t1 IH]; intros [|d t2] H1 H2 Heq.
  - split; [done|]. by injection Heq.
  - simpl in H2. injection Heq as <- _. by rewrite Ascii.eqb_refl in H2.
  - simpl in H1. injection Heq as -> _. by rewrite Ascii.eqb_refl in H1.
  - simpl in H1, H2. apply orb_false_iff in H1 as [_ H1], H2 as [_ H2].
    injection Heq as -> Heq. destruct (IH t2 H1 H2 Heq) as [-> ->]. done.
Qed.

Lemma row_keys_injective_witness :
  ("usertable" = "usertable" ∧ "user1" = "user1") ∧ getRowKey "a:b" "c" = getRowKey "a" "b:c".
Proof.
  split; [|reflexivity].
  refine (row_keys_injective "usertable" "usertable" "user1" "user1" _ _ _); reflexivity.
Defined.
