(* ===== verification/Bench.v ===== *)
(** * Bench: the adaptive benchmark (src/cmd/acp-adaptive-bench/main.go and the
    Prometheus collector of src/benchmark/adaptive/metrics.go)

    The random draws of a worker, the answers of the Prometheus server and
    [strconv.ParseFloat] are inputs.  Printing and the CSV file are not
    modelled. *)

From S2P Require Import Prelude GoLib Float64 Metrics Hlc Storage Staleness Ring WriteLog.
From S2P Require Import Reconcile GoParse Config Quorum Api Coordinator Server Cluster Clients.

Open Scope Z_scope.

(** ** Statistics *)

Record BenchmarkStats := mkBench {
  bs_totalOps : Z;
  bs_successOps : Z;
  bs_failedOps : Z;
  bs_totalLatencyNs : Z;
  bs_minLatencyNs : Z;
  bs_maxLatencyNs : Z;
  bs_readOps : Z;
  bs_writeOps : Z;
}.

(** [&BenchmarkStats{}] with [minLatencyNs.Store(1<<63 - 1)]. *)
Definition new_stats : BenchmarkStats := mkBench 0 0 0 0 max_int64 0 0 0.

Definition getReadRatio (workload : string) : float64 :=
  if decide (workload = "read-heavy") then f64_lit 95 100
  else if decide (workload = "write-heavy") then f64_lit 5 100
  else if decide (workload = "mixed") then f64_lit 5 10
  else f64_lit 5 10.

(** [zipfian], with the draw of [rng.ExpFloat64()]. *)
Definition zipfian (expDraw : float64) (max : Z) : Z :=
  f64_to_int (f64_mul (f64_of_Z max) (f64_sub f64_one (f64_div expDraw (f64_lit 10 1)))).

(** The statistics updates after an operation; a compare-and-swap loop that is
    not disturbed leaves the smaller (larger) of the two values. *)
Definition update_stats (isRead failed : bool) (latencyNs : Z) (s : BenchmarkStats) : BenchmarkStats :=
  mkBench (wrap64 (bs_totalOps s + 1))
    (if failed then bs_successOps s else wrap64 (bs_successOps s + 1))
    (if failed then wrap64 (bs_failedOps s + 1) else bs_failedOps s)
    (wrap64 (bs_totalLatencyNs s + latencyNs))
    (if latencyNs >=? bs_minLatencyNs s then bs_minLatencyNs s else latencyNs)
    (if latencyNs <=? bs_maxLatencyNs s then bs_maxLatencyNs s else latencyNs)
    (if isRead then wrap64 (bs_readOps s + 1) else bs_readOps s)
    (if isRead then bs_writeOps s else wrap64 (bs_writeOps s + 1)).

Section Worker.
Context {E : Type} `{!Service E}.

(** The worker's state: statistics, pool and network. *)
Abbreviation WorkerState := (BenchmarkStats * ClientPool * E)%type.

Definition pool_get : GoM WorkerState (option string) :=
  st <- get ;;
  let '(c, p) := Pool_Get st.1.2 in
  modify (λ st, (st.1.1, p, st.2)) ;;; ret c.

Definition on_service {A} (m : GoM E A) : GoM WorkerState A := focus snd (λ e st, (st.1, e)) m.

(** One iteration of [runWorker] on a tick, with the draws of its generator.
    [None] is the nil dereference of a closed pool. *)
Definition worker_iter (workerID : Z) (readRatio draw expDraw : float64) : GoM WorkerState (option unit) :=
  let isRead := f64_lt draw readRatio in
  let key := "key" +:+ itoa (zipfian expDraw 100000) in
  start <- time_now ;;
  failed <- (if isRead then
               c <- pool_get ;;
               match c with
               | None => ret None
               | Some c => r <- on_service (grpcClient_Get c key) ;;
                           ret (Some (match r with inl _ => false | inr _ => true end))
               end
             else
               t <- time_now ;;
               let value := go_bytes ("value-" +:+ itoa workerID +:+ "-" +:+ itoa (UnixNano t)) in
               c <- pool_get ;;
               match c with
               | None => ret None
               | Some c => r <- on_service (grpcClient_Put c key value) ;;
                           ret (Some (match r with inl _ => false | inr _ => true end))
               end) ;;
  match failed with
  | None => ret None
  | Some failed =>
      now <- time_now ;;
      let latencyNs := Duration_Nanoseconds (Since now start) in
      modify (λ st, (update_stats isRead failed latencyNs st.1.1, st.1.2, st.2)) ;;;
      ret (Some tt)
  end.

(** The rest of [runWorker]: the ticks that fire before the context is done. *)
Fixpoint runWorker (workerID : Z) (readRatio : float64) (draws : list (float64 * float64)) :
    GoM WorkerState (option unit) :=
  match draws with
  | [] => ret (Some tt)
  | (draw, expDraw) :: draws =>
      r <- worker_iter workerID readRatio draw expDraw ;;
      match r with
      | None => ret None
      | Some _ => runWorker workerID readRatio draws
      end
  end.
End Worker.

(** The interval of a worker's ticker; a quotient of 0 becomes 1. *)
Definition throttle_interval (targetThroughput concurrency : Z) : option Duration :=
  if concurrency =? 0 then None                (* integer division by zero panics *)
  else
    let targetOpsPerSec := Z.quot targetThroughput concurrency in
    let targetOpsPerSec := if targetOpsPerSec =? 0 then 1 else targetOpsPerSec in
    Some (Z.quot Second targetOpsPerSec).

(** ** The compare-and-swap loops, interleaved *)

(** A worker inside the min-latency loop. *)
Inductive cas_pc := CasTop | CasLoaded (current : Z) | CasDone.

Record cas_sys := mkCas { cas_cell : Z; cas_workers : gmap nat (Z * cas_pc) }.

Inductive cas_step : cas_sys → cas_sys → Prop :=
  | CasLoad i lat s :
      cas_workers s !! i = Some (lat, CasTop) →
      cas_step s (mkCas (cas_cell s) (<[i := (lat, CasLoaded (cas_cell s))]> (cas_workers s)))
  | CasBreak i lat cur s :                         (* latencyNs >= current *)
      cas_workers s !! i = Some (lat, CasLoaded cur) → cur <= lat →
      cas_step s (mkCas (cas_cell s) (<[i := (lat, CasDone)]> (cas_workers s)))
  | CasSwap i lat cur s :                          (* CompareAndSwap succeeds *)
      cas_workers s !! i = Some (lat, CasLoaded cur) → lat < cur → cas_cell s = cur →
      cas_step s (mkCas lat (<[i := (lat, CasDone)]> (cas_workers s)))
  | CasRetry i lat cur s :                         (* CompareAndSwap fails *)
      cas_workers s !! i = Some (lat, CasLoaded cur) → lat < cur → cas_cell s ≠ cur →
      cas_step s (mkCas (cas_cell s) (<[i := (lat, CasTop)]> (cas_workers s))).

(** ** The Prometheus collector *)

Record MetricsSnapshot := mkSnapshot {
  ms_Timestamp : Time;
  ms_CCSRaw : float64;
  ms_CCSSmoothed : float64;
  ms_CurrentR : Z;
  ms_CurrentW : Z;
  ms_QuorumAdjustments : Z;
  ms_StalenessViolations : Z;
  ms_ConflictsDetected : Z;
  ms_ConflictsResolved : Z;
  ms_ReadLatencyP95 : float64;
  ms_WriteLatencyP95 : float64;
  ms_Throughput : float64;
  ms_SuccessRate : float64;
}.

(** A decoded reply: HTTP status and body, or the JSON fields used. *)
Inductive json_value := JString (s : string) | JOther.
Record prom_result := mkProm { pr_Status : string; pr_Result : list (list json_value) }.
Record http_reply := mkReply {
  hr_StatusCode : Z;
  hr_Status : string;
  hr_Body : string;
  hr_Decoded : prom_result + error;
}.

Section Collector.
Context (http_get : string → http_reply + error) (url_encode : string → string)
        (ParseFloat : string → float64 + error).

Definition queryMetric (prometheusURL query : string) : float64 + error :=
  let queryURL := prometheusURL +:+ "/api/v1/query" in
  match http_get (queryURL +:+ "?" +:+ "query=" +:+ url_encode query) with
  | inr err => inr err
  | inl resp =>
      if negb (hr_StatusCode resp =? 200) then
        inr ("prometheus query failed: " +:+ hr_Status resp +:+ " - " +:+ hr_Body resp)
      else
        match hr_Decoded resp with
        | inr err => inr err
        | inl result =>
            if decide (pr_Status result = "success") then
              match pr_Result result with
              | [] => inr "no data returned"
              | value :: _ =>
                  match value with
                  | _ :: v :: _ =>
                      match v with
                      | JString s =>
                          match ParseFloat s with
                          | inr err => inr ("failed to parse value: " +:+ err)
                          | inl f => inl f
                          end
                      | JOther => inr "value is not a string"
                      end
                  | _ => inr "invalid result format"
                  end
              end
            else inr ("prometheus query status: " +:+ pr_Status result)
        end
  end.

(** [if val, err := query; err == nil { field = conv(val) }] over the zero value. *)
Definition fetch {A} (url query : string) (zero : A) (conv : float64 → A) : A :=
  match queryMetric url query with inl v => conv v | inr _ => zero end.

Definition p95_query (metric : string) : string :=
  "histogram_quantile(0.95, rate(" +:+ metric +:+ "_bucket[1m]))".

Definition Collector_Update (url : string) (now : Time) : MetricsSnapshot :=
  let to_ms v := f64_mul v (f64_of_Z 1000) in
  {| ms_Timestamp := now;
     ms_CCSRaw := fetch url "acp_ccs_raw" f64_zero (λ v, v);
     ms_CCSSmoothed := fetch url "acp_ccs_smoothed" f64_zero (λ v, v);
     ms_CurrentR := fetch url "acp_current_r" 0 f64_to_int;
     ms_CurrentW := fetch url "acp_current_w" 0 f64_to_int;
     ms_QuorumAdjustments := fetch url "acp_quorum_adjustments_total" 0 f64_to_int;
     ms_StalenessViolations := fetch url "acp_staleness_violations_total" 0 f64_to_int;
     ms_ConflictsDetected := fetch url "acp_conflicts_detected_total" 0 f64_to_int;
     ms_ConflictsResolved := fetch url "acp_conflicts_resolved_total" 0 f64_to_int;
     ms_ReadLatencyP95 := fetch url (p95_query "acp_get_latency_seconds") f64_zero to_ms;
     ms_WriteLatencyP95 := fetch url (p95_query "acp_put_latency_seconds") f64_zero to_ms;
     ms_Throughput := fetch url "rate(acp_gets_total[1m]) + rate(acp_puts_total[1m])" f64_zero (λ v, v);
     ms_SuccessRate :=
       match queryMetric url "rate(acp_reads_success_total[1m])",
             queryMetric url "rate(acp_writes_success_total[1m])",
             queryMetric url "rate(acp_reads_failure_total[1m])",
             queryMetric url "rate(acp_writes_failure_total[1m])" with
       | inl successReads, inl successWrites, inl failedReads, inl failedWrites =>
           let total := f64_add (f64_add (f64_add successReads successWrites) failedReads) failedWrites in
           if f64_gt total f64_zero then f64_div (f64_add successReads successWrites) total else f64_zero
       | _, _, _, _ => f64_zero
       end |}.
End Collector.

(** [collectMetrics]: a non-blocking send on a channel of capacity 1000. *)
Definition push_snapshot (snapshot : MetricsSnapshot) (ch : list MetricsSnapshot) : list MetricsSnapshot :=
  if (length ch <? 1000)%nat then ch ++ [snapshot] else ch.

(** ** Lemmas *)

(** Counters after [k] operations, [reads] of them reads. *)
Record stats_ok (k reads : Z) (s : BenchmarkStats) : Prop := {
  so_total : bs_totalOps s = k;
  so_outcomes : bs_successOps s + bs_failedOps s = k;
  so_reads : bs_readOps s = reads;
  so_writes : bs_writeOps s = k - reads;
  so_range : 0 <= bs_successOps s <= k ∧ 0 <= reads <= k;
}.

Lemma update_stats_ok k reads isRead failed lat s :
  stats_ok k reads s → k + 1 <= max_int64 →
  stats_ok (k + 1) (if (isRead : bool) then reads + 1 else reads) (update_stats isRead failed lat s).
Proof.
  intros [H1 H2 H3 H4 H5] Hk. unfold max_int64 in *. unfold update_stats.
  split; simpl; rewrite ?H1, ?H3, ?H4; destruct isRead, failed; rewrite ?wrap64_id; unfold in_int64; lia.
Qed.

Section WorkerLemmas.
Context {E : Type} `{!Service E}.

Lemma pool_get_some p : cp_clients p ≠ [] → Z.of_nat (length (cp_clients p)) < 2 ^ 32 →
  ∃ c p', Pool_Get p = (Some c, p') ∧ cp_clients p' = cp_clients p.
Proof.
  intros Hne Hlt. unfold Pool_Get. destruct (cp_clients p) as [|x l] eqn:Ec; [done|]. rewrite <- Ec in *.
  assert (0 < Z.of_nat (length (cp_clients p))) as Hpos by (rewrite Ec; simpl; lia).
  unfold wrapu32 at 2. rewrite (Z.mod_small (Z.of_nat _)) by lia.
  set (idx := wrapu32 (cp_index p + 1) mod Z.of_nat (length (cp_clients p))).
  assert (0 <= idx < Z.of_nat (length (cp_clients p))) as Hidx by (apply Z.mod_pos_bound; lia).
  destruct (lookup_lt_is_Some_2 (cp_clients p) (Z.to_nat idx)) as [c Hc]; [lia|].
  eexists c, _. rewrite Hc. done.
Qed.

Lemma worker_iter_spec workerID readRatio draw expDraw s p (e : E) w :
  cp_clients p ≠ [] → Z.of_nat (length (cp_clients p)) < 2 ^ 32 →
  ∃ failed lat p' e' w',
    worker_iter workerID readRatio draw expDraw (s, p, e) w =
      (Some tt, (update_stats (f64_lt draw readRatio) failed lat s, p', e'), w') ∧
    cp_clients p' = cp_clients p.
Proof.
  intros Hne Hlt. destruct (pool_get_some p Hne Hlt) as (c & p' & Hp & Hp').
  unfold worker_iter, pool_get, on_service, bind, time_now, get, modify, focus, ret. simpl.
  destruct (f64_lt draw readRatio); simpl; rewrite Hp; simpl.
  - destruct (grpcClient_Get _ _ _ _) as [[r e'] w']. simpl. eexists _, _, p', e', _. by split.
  - destruct (grpcClient_Put _ _ _ _ _) as [[r e'] w']. simpl. eexists _, _, p', e', _. by split.
Qed.

Lemma run_worker_ok workerID readRatio draws : ∀ k reads s p (e : E) w,
  cp_clients p ≠ [] → Z.of_nat (length (cp_clients p)) < 2 ^ 32 →
  stats_ok k reads s → k + Z.of_nat (length draws) <= max_int64 →
  ∃ s' p' e' w', runWorker workerID readRatio draws (s, p, e) w = (Some tt, (s', p', e'), w') ∧
    stats_ok (k + Z.of_nat (length draws))
      (reads + Z.of_nat (length (List.filter (λ d, f64_lt d.1 readRatio) draws))) s'.
Proof.
  induction draws as [|[d x] draws IH]; intros k reads s p e w Hne Hlt Hok Hk.
  { exists s, p, e, w. split; [done|]. simpl. by rewrite !Z.add_0_r. }
  cbn [runWorker]. unfold bind.
  destruct (worker_iter_spec workerID readRatio d x s p e w Hne Hlt) as (f & lat & p1 & e1 & w1 & -> & Hp1).
  cbn [length] in Hk. rewrite <- Hp1 in Hne, Hlt.
  destruct (IH (k + 1) _ _ p1 e1 w1 Hne Hlt (update_stats_ok k reads (f64_lt d readRatio) f lat s Hok ltac:(lia))
    ltac:(lia))
    as (s' & p' & e' & w' & -> & Hok').
  exists s', p', e', w'. split; [done|]. cbn [length List.filter fst].
  destruct (f64_lt d readRatio); cbn [length] in *.
  - replace (k + Z.of_nat (S (length draws))) with (k + 1 + Z.of_nat (length draws)) by lia.
    by replace (reads + Z.of_nat (S _)) with
      (reads + 1 + Z.of_nat (length (List.filter (λ d, f64_lt d.1 readRatio) draws))) by lia.
  - by replace (k + Z.of_nat (S (length draws))) with (k + 1 + Z.of_nat (length draws)) by lia.
Qed.
End WorkerLemmas.

(** Invariant of the compare-and-swap loops. *)
Record cas_inv (init : Z) (lats : gmap nat Z) (s : cas_sys) : Prop := {
  ci_workers : fst <$> cas_workers s = lats;
  ci_init : cas_cell s <= init;
  ci_done : ∀ i lat, cas_workers s !! i = Some (lat, CasDone) → cas_cell s <= lat;
  ci_loaded : ∀ i lat cur, cas_workers s !! i = Some (lat, CasLoaded cur) → cas_cell s <= cur;
  ci_source : cas_cell s = init ∨ ∃ i, lats !! i = Some (cas_cell s);
}.

Lemma cas_set_worker (ws : gmap nat (Z * cas_pc)) i lat pc pc' :
  ws !! i = Some (lat, pc) → fst <$> (<[i := (lat, pc')]> ws) = fst <$> ws.
Proof.
  intros Hi. rewrite fmap_insert. apply insert_id. by rewrite lookup_fmap, Hi.
Qed.

Lemma cas_step_inv init lats s s' : cas_step s s' → cas_inv init lats s → cas_inv init lats s'.
Proof.
  intros Hstep [H1 H2 H3 H4 H5].
  destruct Hstep as [i lat s Hi|i lat cur s Hi Hle|i lat cur s Hi Hlt Hc|i lat cur s Hi Hlt Hc];
    split; simpl; try done; try (erewrite cas_set_worker; done).
  - intros j l. rewrite lookup_insert_Some. intros [[_ ?]|[_ ?]]; [done|by eapply H3].
  - intros j l c. rewrite lookup_insert_Some. intros [[_ [= <- <-]]|[_ ?]]; [done|by eapply H4].
  - intros j l. rewrite lookup_insert_Some. intros [[_ [= <-]]|[_ ?]]; [|by eapply H3].
    specialize (H4 _ _ _ Hi). lia.
  - intros j l c. rewrite lookup_insert_Some. intros [[_ ?]|[_ ?]]; [done|by eapply H4].
  - lia.
  - intros j l. rewrite lookup_insert_Some. intros [[_ [= <-]]|[_ Hj]]; [done|]. apply H3 in Hj. lia.
  - intros j l c. rewrite lookup_insert_Some. intros [[_ ?]|[_ Hj]]; [done|]. apply H4 in Hj. lia.
  - right. exists i. rewrite <- H1, lookup_fmap, Hi. done.
  - intros j l. rewrite lookup_insert_Some. intros [[_ ?]|[_ ?]]; [done|by eapply H3].
  - intros j l c. rewrite lookup_insert_Some. intros [[_ ?]|[_ ?]]; [done|by eapply H4].
Qed.

(** ** Properties *)

(** the benchmark's counters add up: a worker on a non-empty pool never
    panics, and after its ticks the operations are exactly the ticks, split into
    successes and failures and, by the draws below the read ratio, into reads
    and writes. *)
Theorem bench_counters_add_up {E} `{!Service E} (workerID : Z) (readRatio : float64)
    (draws : list (float64 * float64)) (clients : list string) (e : E) (w : World) :
  clients ≠ [] → Z.of_nat (length clients) < 2 ^ 32 → Z.of_nat (length draws) <= max_int64 →
  ∃ s' p' e' w',
    runWorker workerID readRatio draws (new_stats, mkPool clients 0, e) w = (Some tt, (s', p', e'), w') ∧
    bs_totalOps s' = Z.of_nat (length draws) ∧
    bs_successOps s' + bs_failedOps s' = bs_totalOps s' ∧
    bs_readOps s' + bs_writeOps s' = bs_totalOps s' ∧
    bs_readOps s' = Z.of_nat (length (List.filter (λ d, f64_lt d.1 readRatio) draws)).
Proof.
  intros Hne Hlt Hk.
  destruct (run_worker_ok workerID readRatio draws 0 0 new_stats (mkPool clients 0) e w)
    as (s' & p' & e' & w' & Heq & [H1 H2 H3 H4 _]); [done|done|by split|lia|].
  exists s', p', e', w'. split_and!; [done|lia..].
Qed.

Lemma bench_counters_add_up_witness :
  ∃ s' p' e' w', runWorker (Service0 := demo_service) 7 (getReadRatio "mixed")
    [(f64_lit 1 4, f64_zero); (f64_lit 3 4, f64_zero)] (new_stats, mkPool ["a"; "b"; "c"] 0, demo_mesh 2 2)
    (ticking Second) = (Some tt, (s', p', e'), w') ∧ bs_readOps s' = 1.
Proof.
  destruct (bench_counters_add_up (Service0 := demo_service) 7 (getReadRatio "mixed")
    [(f64_lit 1 4, f64_zero); (f64_lit 3 4, f64_zero)] ["a"; "b"; "c"] (demo_mesh 2 2) (ticking Second))
    as (s' & p' & e' & w' & H & _ & _ & _ & Hr).
  - discriminate.
  - simpl. lia.
  - vm_compute. discriminate.
  - exists s', p', e', w'. split; [exact H|]. rewrite Hr. vm_compute. reflexivity.
Defined.

(** the compare-and-swap loops lose no minimum: when any number of workers
    have run the min-latency loop, in any interleaving of their loads and swaps,
    the cell is at most the initial value and every latency, and is one of
    them. *)
Theorem min_latency_cas_correct (init : Z) (lats : gmap nat Z) (s : cas_sys) :
  rtc cas_step (mkCas init ((λ lat, (lat, CasTop)) <$> lats)) s →
  (∀ i lat pc, cas_workers s !! i = Some (lat, pc) → pc = CasDone) →
  cas_cell s <= init ∧ (∀ i lat, lats !! i = Some lat → cas_cell s <= lat) ∧
  (cas_cell s = init ∨ ∃ i, lats !! i = Some (cas_cell s)).
Proof.
  intros Hrun Hdone.
  assert (cas_inv init lats s) as [H1 H2 H3 _ H5].
  { assert (cas_inv init lats (mkCas init ((λ lat, (lat, CasTop)) <$> lats))) as H0.
    { split; simpl; try done; [|intros i lat; by rewrite lookup_fmap_Some; intros (? & ? & _)
        |intros i lat cur; by rewrite lookup_fmap_Some; intros (? & ? & _)|by left].
      rewrite <- map_fmap_compose. apply map_fmap_id. }
    clear Hdone. induction Hrun as [|x y z Hs _ IH]; [done|]. apply IH. by eapply cas_step_inv. }
  split_and!; [done| |done]. intros i lat Hi. rewrite <- H1, lookup_fmap in Hi.
  destruct (cas_workers s !! i) as [[l pc]|] eqn:Ei; [|done]. injection Hi as <-.
  apply (H3 i). by rewrite <- (Hdone i l pc Ei).
Qed.

Lemma min_latency_cas_correct_witness :
  cas_cell (mkCas 5 {[0%nat := (5, CasDone)]}) <= max_int64.
Proof.
  refine (proj1 (min_latency_cas_correct max_int64 {[0%nat := 5]} (mkCas 5 {[0%nat := (5, CasDone)]}) _ _)).
  - eapply rtc_l; [eapply (CasLoad 0%nat 5); reflexivity|].
    eapply rtc_l; [eapply (CasSwap 0%nat 5); [reflexivity|vm_compute; reflexivity|reflexivity]|].
    vm_compute. apply rtc_refl.
  - intros i lat pc Hi. cbn [cas_workers] in Hi. apply lookup_singleton_Some in Hi as [_ [= _ <-]]. reflexivity.
Defined.

(** the collector's success rate and throughput are always zero against a
    node: they are computed from counters that no node registers, and a query
    without data leaves the zero value. *)
Theorem collector_rates_never_measured (http_get : string → http_reply + error) (url_encode : string → string)
    (ParseFloat : string → float64 + error) (url : string) (now : Time) (e1 e2 : error) :
  queryMetric http_get url_encode ParseFloat url "rate(acp_reads_success_total[1m])" = inr e1 →
  queryMetric http_get url_encode ParseFloat url "rate(acp_gets_total[1m]) + rate(acp_puts_total[1m])" = inr e2 →
  let s := Collector_Update http_get url_encode ParseFloat url now in
  ms_SuccessRate s = f64_zero ∧ ms_Throughput s = f64_zero ∧
  Forall (λ n, n ∉ fq_names "acp")
    ["acp_reads_success_total"; "acp_writes_success_total"; "acp_reads_failure_total";
     "acp_writes_failure_total"; "acp_gets_total"; "acp_puts_total"].
Proof.
  intros H1 H2. cbv zeta. unfold Collector_Update, fetch. cbn [ms_SuccessRate ms_Throughput].
  rewrite H1, H2. split_and!; [done|done|]. repeat constructor; apply (bool_decide_unpack _); vm_compute; done.
Qed.

(** A Prometheus that knows only the metrics of the node. *)
Definition demo_prometheus (u : string) : http_reply + error :=
  inl (mkReply 200 "200 OK" ""
    (inl (mkProm "success" (if decide (u = "http://p/api/v1/query?query=acp_current_r")
                            then [[JOther; JString "2"]] else [])))).

Lemma collector_rates_never_measured_witness :
  let s := Collector_Update demo_prometheus (λ q, q) (λ _, inl (f64_of_Z 2)) "http://p" (tm 0) in
  ms_CurrentR s = 2 ∧ ms_SuccessRate s = f64_zero.
Proof.
  cbv zeta. split; [vm_compute; reflexivity|].
  refine (proj1 (collector_rates_never_measured demo_prometheus (λ q, q) (λ _, inl (f64_of_Z 2)) "http://p" (tm 0)
    "no data returned" "no data returned" _ _)); vm_compute; reflexivity.
Defined.

(** the benchmark's key generator leaves its range: for an exponential draw
    above ten the "zipfian" number is negative, giving keys such as
    "key-10000". *)
Theorem zipfian_can_be_negative :
  zipfian (f64_of_Z 11) 100000 = -10000 ∧ zipfian f64_zero 100000 = 100000.
Proof. split; vm_compute; reflexivity. Qed.
