(* ===== verification/Generators.v ===== *)
(** * Generators: the number generators of the YCSB framework
    (src/go-ycsb-vendor/pkg/generator)

    [math/rand] is used through the class [Rand], which states what its
    documentation promises of [Float64] and [Int63n]; [math.Pow] and [math.Log]
    are parameters of the generators that use them.  A generator is a record and
    its [Next] a function of the record and the random source. *)

From Stdlib Require Import Ascii String.
From S2P Require Import Prelude GoLib Float64 Storage GoParse YcsbUtil.

Open Scope Z_scope.

(** ** math/rand *)

(** [r.Float64()] is in [0.0,1.0), [r.Int63n(n)] and [r.Intn(n)] in [0,n) for
    positive [n]. *)
Class Rand (R : Type) := mkRand {
  rand_Float64 : R → float64 * R;
  rand_Int63n : Z → R → Z * R;
  rand_Intn : Z → R → Z * R;
  rand_Float64_range r : f64_le f64_zero (rand_Float64 r).1 = true ∧ f64_lt (rand_Float64 r).1 f64_one = true;
  rand_Int63n_range n r : 0 < n → 0 <= (rand_Int63n n r).1 < n;
  rand_Intn_range n r : 0 < n → 0 <= (rand_Intn n r).1 < n;
}.

(** Computations on a state that may panic or exit. *)
Definition PM (S A : Type) : Type := S → Outcome A * S.

Definition pret {S A} (a : A) : PM S A := λ s, (Ok a, s).
Definition pfail {S A} (o : Outcome A) : PM S A := λ s, (o, s).
Definition pbind {S A B} (m : PM S A) (f : A → PM S B) : PM S B :=
  λ s, match m s with
       | (Ok a, s') => f a s'
       | (Panic msg, s') => (Panic msg, s')
       | (Exit msg, s') => (Exit msg, s')
       | (OutOfFuel, s') => (OutOfFuel, s')
       end.
Definition pget {S} : PM S S := λ s, (Ok s, s).
Definition pmodify {S} (f : S → S) : PM S unit := λ s, (Ok tt, f s).
Definition pfocus {S T A} (view : S → T) (upd : T → S → S) (m : PM T A) : PM S A :=
  λ s, let '(a, t) := m (view s) in (a, upd t s).

Notation "x <~ m ;; k" := (pbind m (λ x, k))
  (at level 100, m at next level, right associativity) : acp_scope.
Notation "m ~; k" := (pbind m (λ _, k))
  (at level 100, right associativity) : acp_scope.

Section Generators.
Context {R : Type} `{!Rand R}.

Definition Float64 : PM R float64 := λ r, let '(f, r') := rand_Float64 r in (Ok f, r').
Definition Int63n (n : Z) : PM R Z :=
  λ r, if n <=? 0 then (Panic "invalid argument to Int63n", r)
       else let '(v, r') := rand_Int63n n r in (Ok v, r').

(** ** Constant *)

Record Constant := mkConstant { ct_value : Z }.
Definition NewConstant (value : Z) : Constant := mkConstant value.
Definition Constant_Next (c : Constant) : Z := ct_value c.
Definition Constant_Last (c : Constant) : Z := ct_value c.

(** ** Counter: [0, 1, ...] *)

Record Counter := mkCounter { cn_counter : Z }.
Definition NewCounter (start : Z) : Counter := mkCounter start.
Definition Counter_Next (c : Counter) : Z * Counter :=
  let v := wrap64 (cn_counter c + 1) in (wrap64 (v - 1), mkCounter v).
Definition Counter_Last (c : Counter) : Z := wrap64 (cn_counter c - 1).

(** ** Sequential *)

Record Sequential := mkSequential { sq_counter : Z; sq_interval : Z; sq_start : Z }.
Definition NewSequential (countStart countEnd : Z) : Sequential :=
  mkSequential 0 (wrap64 (wrap64 (countEnd - countStart) + 1)) countStart.
Definition Sequential_Next (s : Sequential) : Outcome Z * Sequential :=
  let c := wrap64 (sq_counter s + 1) in
  let s' := mkSequential c (sq_interval s) (sq_start s) in
  if sq_interval s =? 0 then (Panic "integer divide by zero", s')
  else (Ok (wrap64 (sq_start s + go_rem c (sq_interval s))), s').
Definition Sequential_Last (s : Sequential) : Z := wrap64 (sq_counter s + 1).

(** ** Uniform *)

Record Uniform := mkUniform { un_LastValue : Z; un_lb : Z; un_ub : Z; un_interval : Z }.
Definition NewUniform (lb ub : Z) : Uniform := mkUniform 0 lb ub (wrap64 (wrap64 (ub - lb) + 1)).
Definition Uniform_Next (u : Uniform) : PM R (Z * Uniform) :=
  n <~ Int63n (un_interval u) ;;
  let n := wrap64 (n + un_lb u) in
  pret (n, mkUniform n (un_lb u) (un_ub u) (un_interval u)).

(** ** Hotspot *)

Record Hotspot := mkHotspot {
  ht_LastValue : Z;
  ht_lowerBound : Z;
  ht_upperBound : Z;
  ht_hotInterval : Z;
  ht_coldInterval : Z;
  ht_hotsetFraction : float64;
  ht_hotOpnFraction : float64;
}.

(** A fraction outside [0.0, 1.0] is replaced by zero. *)
Definition clamp_fraction (f : float64) : float64 :=
  if f64_lt f f64_zero || f64_gt f f64_one then f64_zero else f.

Definition NewHotspot (lowerBound upperBound : Z) (hotsetFraction hotOpnFraction : float64) : Hotspot :=
  let hotsetFraction := clamp_fraction hotsetFraction in
  let hotOpnFraction := clamp_fraction hotOpnFraction in
  let '(lowerBound, upperBound) :=
    if lowerBound >? upperBound then (upperBound, lowerBound) else (lowerBound, upperBound) in
  let interval := wrap64 (wrap64 (upperBound - lowerBound) + 1) in
  let hotInterval := f64_to_int (f64_mul (f64_of_Z interval) hotsetFraction) in
  mkHotspot 0 lowerBound upperBound hotInterval (wrap64 (interval - hotInterval)) hotsetFraction hotOpnFraction.

Definition Hotspot_Next (h : Hotspot) : PM R (Z * Hotspot) :=
  f <~ Float64 ;;
  value <~ (if f64_lt f (ht_hotOpnFraction h) then
              n <~ Int63n (ht_hotInterval h) ;; pret (wrap64 (ht_lowerBound h + n))
            else
              n <~ Int63n (ht_coldInterval h) ;;
              pret (wrap64 (wrap64 (ht_lowerBound h + ht_hotInterval h) + n))) ;;
  pret (value, mkHotspot value (ht_lowerBound h) (ht_upperBound h) (ht_hotInterval h)
                 (ht_coldInterval h) (ht_hotsetFraction h) (ht_hotOpnFraction h)).

(** ** Discrete *)

Record discretePair := mkDPair { dp_Weight : float64; dp_Value : Z }.
Record Discrete := mkDiscrete { ds_LastValue : Z; ds_values : list discretePair }.
Definition NewDiscrete : Discrete := mkDiscrete 0 [].
Definition Discrete_Add (weight : float64) (value : Z) (d : Discrete) : Discrete :=
  mkDiscrete (ds_LastValue d) (ds_values d ++ [mkDPair weight value]).

(** The second loop of [Next]: the first pair whose share exceeds what is left. *)
Fixpoint discrete_pick (sum val : float64) (l : list discretePair) : option Z :=
  match l with
  | [] => None
  | p :: l =>
      let pw := f64_div (dp_Weight p) sum in
      if f64_lt val pw then Some (dp_Value p)
      else discrete_pick sum (f64_sub val pw) l
  end.

Definition discrete_sum (d : Discrete) : float64 :=
  fold_left (λ sum p, f64_add sum (dp_Weight p)) (ds_values d) f64_zero.

Definition Discrete_Next (d : Discrete) : PM R (Z * Discrete) :=
  val <~ Float64 ;;
  match discrete_pick (discrete_sum d) val (ds_values d) with
  | Some v => pret (v, mkDiscrete v (ds_values d))
  | None => pfail (Panic "oops, should not get here.")
  end.

(** ** Histogram *)

Record Histogram := mkHistogram {
  hi_LastValue : Z;
  hi_blockSize : Z;
  hi_buckets : list Z;
  hi_area : Z;
  hi_weightedArea : Z;
}.

Definition NewHistogram (buckets : list Z) (blockSize : Z) : Histogram :=
  let '(area, weightedArea) :=
    fold_left (λ acc ib, (wrap64 (acc.1 + ib.2), wrap64 (acc.2 + wrap64 (Z.of_nat ib.1 * ib.2))))
      (imap (λ i b, (i, b)) buckets) (0, 0) in
  mkHistogram 0 blockSize buckets area weightedArea.

(** The loop of [Next] over all buckets but the last: [inl] the value returned
    from inside the loop, [inr] the index after it. *)
Fixpoint histogram_loop (blockSize n : Z) (i : Z) (buckets : list Z) : Z + Z :=
  match buckets with
  | [] => inr i
  | b :: rest =>
      match rest with
      | [] => inr i
      | _ =>
          let n := wrap64 (n - b) in
          if n <=? 0 then inl (wrap64 ((i + 1) * blockSize))
          else histogram_loop blockSize n (i + 1) rest
      end
  end.

(** The early return does not set the last value. *)
Definition Histogram_Next (h : Histogram) : PM R (Z * Histogram) :=
  n <~ Int63n (hi_area h) ;;
  match histogram_loop (hi_blockSize h) n 0 (hi_buckets h) with
  | inl v => pret (v, h)
  | inr i =>
      let v := wrap64 (i * hi_blockSize h) in
      pret (v, mkHistogram v (hi_blockSize h) (hi_buckets h) (hi_area h) (hi_weightedArea h))
  end.

(** [strconv.ParseInt(s, 10, 64)]: (value, no error).  The value is 0 for a
    syntax error and the nearest int64 for a range error. *)
Definition ParseInt (s : string) : Z * bool :=
  let '(neg, body) :=
    match s with
    | String "-"%char s' => (true, s')
    | String "+"%char s' => (false, s')
    | _ => (false, s)
    end in
  match body with
  | EmptyString => (0, false)
  | _ =>
      match parse_digits body 0 with
      | None => (0, false)
      | Some n =>
          let v := if (neg : bool) then - n else n in
          if (min_int64 <=? v) && (v <=? max_int64) then (v, true)
          else (Z.max min_int64 (Z.min max_int64 v), false)
      end
  end.

Definition newline : Ascii.ascii := Ascii.ascii_of_nat 10.
Definition tab : Ascii.ascii := Ascii.ascii_of_nat 9.

(** The bucket lines: (location, value) pairs and the largest location. *)
Fixpoint bucket_lines (lines : list string) (ay : list (Z * Z)) (maxLocation : Z) : Outcome (list (Z * Z) * Z) :=
  match lines with
  | [] => Ok (ay, maxLocation)
  | s :: lines =>
      let s := TrimSpace s in
      match s with
      | EmptyString => Ok (ay, maxLocation)
      | _ =>
          match go_split tab s with
          | l0 :: l1 :: _ =>
              let location := (ParseInt l0).1 in
              bucket_lines lines (ay ++ [(location, (ParseInt l1).1)]) (Z.max maxLocation location)
          | _ => Panic "index out of range"
          end
      end
  end.

Fixpoint fill_buckets (ay : list (Z * Z)) (buckets : list Z) : Outcome (list Z) :=
  match ay with
  | [] => Ok buckets
  | (location, value) :: ay =>
      if (0 <=? location) && (location <? Z.of_nat (length buckets))
      then fill_buckets ay (<[Z.to_nat location := value]> buckets)
      else Panic "index out of range"
  end.

(** [NewHistogramFromFile] on what reading the file gives. *)
Definition NewHistogramFromFile (name : string) (data : string + error) : Outcome Histogram :=
  match data with
  | inr err => Exit ("load histogram file " +:+ name +:+ " failed " +:+ err)
  | inl data =>
      match go_split newline (TrimSpace data) with
      | [] => Panic "index out of range"
      | line0 :: lines =>
          match go_split tab (TrimSpace line0) with
          | "BlockSize" :: rest =>
              match rest with
              | [] => Panic "index out of range"
              | l1 :: _ =>
                  let '(blockSize, ok) := ParseInt l1 in
                  if negb ok then Exit "parse BlockSize failed"
                  else
                    let! p := bucket_lines lines [] 0 in
                    let n := wrap64 (p.2 + 1) in
                    if n <? 0 then Panic "makeslice: len out of range"
                    else
                      let! buckets := fill_buckets p.1 (replicate (Z.to_nat n) 0) in
                      Ok (NewHistogram buckets blockSize)
              end
          | _ => Exit "First line of histogram is not the BlockSize"
          end
      end
  end.

(** ** Exponential and Zipfian: [math.Log] and [math.Pow] *)

Context (Log : float64 → float64) (Pow : float64 → float64 → float64).

Record Exponential := mkExponential { ex_LastValue : Z; ex_gamma : float64 }.

Definition f64_neg (x : float64) : float64 := SFopp x.

Definition NewExponentialWithMean (mean : float64) : Exponential := mkExponential 0 (f64_div f64_one mean).

Definition NewExponential (percentile rng : float64) : Exponential :=
  mkExponential 0
    (f64_div (f64_neg (Log (f64_sub f64_one (f64_div percentile (f64_of_Z 100))))) rng).

Definition Exponential_Next (e : Exponential) : PM R (Z * Exponential) :=
  f <~ Float64 ;;
  let v := f64_to_int (f64_div (f64_neg (Log f)) (ex_gamma e)) in
  pret (v, mkExponential v (ex_gamma e)).

Definition ZipfianConstant : float64 := f64_lit 99 100.

Record Zipfian := mkZipfian {
  zf_LastValue : Z;
  zf_items : Z;
  zf_base : Z;
  zf_zipfianConstant : float64;
  zf_alpha : float64;
  zf_zetan : float64;
  zf_theta : float64;
  zf_eta : float64;
  zf_zeta2Theta : float64;
  zf_countForZeta : Z;
  zf_allowItemCountDecrease : bool;
}.

(** The sum over [i] from [st] to [n - 1]. *)
Definition zetaStatic (st n : Z) (theta initialSum : float64) : float64 :=
  fold_left (λ sum i, f64_add sum (f64_div f64_one (Pow (f64_of_Z (wrap64 (i + 1))) theta)))
    (seqZ st (n - st)) initialSum.

Definition zipfian_eta (items : Z) (theta zeta2Theta zetan : float64) : float64 :=
  f64_div (f64_sub f64_one (Pow (f64_div (f64_of_Z 2) (f64_of_Z items)) (f64_sub f64_one theta)))
          (f64_sub f64_one (f64_div zeta2Theta zetan)).

(** [z.zeta] also sets [countForZeta]. *)
Definition with_zeta (zetan : float64) (n : Z) (z : Zipfian) : Zipfian :=
  mkZipfian (zf_LastValue z) (zf_items z) (zf_base z) (zf_zipfianConstant z) (zf_alpha z) zetan (zf_theta z)
    (zipfian_eta (zf_items z) (zf_theta z) (zf_zeta2Theta z) zetan) (zf_zeta2Theta z) n (zf_allowItemCountDecrease z).

Definition zipfian_resize (itemCount : Z) (z : Zipfian) : Zipfian :=
  if itemCount =? zf_countForZeta z then z
  else if itemCount >? zf_countForZeta z then
    with_zeta (zetaStatic (zf_countForZeta z) itemCount (zf_theta z) (zf_zetan z)) itemCount z
  else if (itemCount <? zf_countForZeta z) && zf_allowItemCountDecrease z then
    with_zeta (zetaStatic 0 itemCount (zf_theta z) f64_zero) itemCount z
  else z.

Definition set_zipfian_last (v : Z) (z : Zipfian) : Zipfian :=
  mkZipfian v (zf_items z) (zf_base z) (zf_zipfianConstant z) (zf_alpha z) (zf_zetan z) (zf_theta z) (zf_eta z)
    (zf_zeta2Theta z) (zf_countForZeta z) (zf_allowItemCountDecrease z).

Definition Zipfian_next (itemCount : Z) (z : Zipfian) : PM R (Z * Zipfian) :=
  let z := zipfian_resize itemCount z in
  u <~ Float64 ;;
  let uz := f64_mul u (zf_zetan z) in
  if f64_lt uz f64_one then pret (zf_base z, z)
  else if f64_lt uz (f64_add f64_one (Pow (f64_lit 1 2) (zf_theta z))) then pret (wrap64 (zf_base z + 1), z)
  else
    let ret := wrap64 (zf_base z +
      f64_to_int (f64_mul (f64_of_Z itemCount)
        (Pow (f64_add (f64_sub (f64_mul (zf_eta z) u) (zf_eta z)) f64_one) (zf_alpha z)))) in
    pret (ret, set_zipfian_last ret z).

Definition Zipfian_Next (z : Zipfian) : PM R (Z * Zipfian) := Zipfian_next (zf_items z) z.

(** [NewZipfian] ends with a first [Next] on a source of its own. *)
Definition NewZipfian (min max : Z) (zipfianConstant zetan : float64) : PM R Zipfian :=
  let items := wrap64 (wrap64 (max - min) + 1) in
  let theta := zipfianConstant in
  let zeta2Theta := zetaStatic 0 2 theta f64_zero in
  let z := mkZipfian 0 items min zipfianConstant (f64_div f64_one (f64_sub f64_one theta)) zetan theta
             (zipfian_eta items theta zeta2Theta zetan) zeta2Theta items false in
  vz <~ Zipfian_Next z ;; pret vz.2.

Definition NewZipfianWithRange (min max : Z) (zipfianConstant : float64) : PM R Zipfian :=
  NewZipfian min max zipfianConstant
    (zetaStatic 0 (wrap64 (wrap64 (max - min) + 1)) zipfianConstant f64_zero).

Definition NewZipfianWithItems (items : Z) (zipfianConstant : float64) : PM R Zipfian :=
  NewZipfianWithRange 0 (wrap64 (items - 1)) zipfianConstant.

(** ** Scrambled zipfian *)

Record ScrambledZipfian := mkScrambled {
  sz_LastValue : Z;
  sz_gen : Zipfian;
  sz_min : Z;
  sz_max : Z;
  sz_itemCount : Z;
}.

Definition NewScrambledZipfian (min max : Z) (zipfianConstant : float64) : PM R ScrambledZipfian :=
  let zetan := f64_lit 2646902820178302 (10 ^ 14) in
  let usedZipfianConstant := f64_lit 99 100 in
  let itemCount := 10000000000 in
  gen <~ (if f64_eq zipfianConstant usedZipfianConstant then NewZipfian 0 itemCount zipfianConstant zetan
          else NewZipfianWithRange 0 itemCount zipfianConstant) ;;
  pret (mkScrambled 0 gen min max (wrap64 (wrap64 (max - min) + 1))).

Definition ScrambledZipfian_Next (s : ScrambledZipfian) : PM R (Z * ScrambledZipfian) :=
  ng <~ Zipfian_Next (sz_gen s) ;;
  if sz_itemCount s =? 0 then pfail (Panic "integer divide by zero")
  else
    let n := wrap64 (sz_min s + go_rem (Hash64 ng.1) (sz_itemCount s)) in
    pret (n, mkScrambled n ng.2 (sz_min s) (sz_max s) (sz_itemCount s)).

(** ** Skewed latest: the basis is a counter shared with the workload, whose
    [Last()] at the time of the call is an argument *)

Record SkewedLatest := mkSkewed { sl_LastValue : Z; sl_zipfian : Zipfian }.

Definition SkewedLatest_Next (basisLast : Z) (s : SkewedLatest) : PM R (Z * SkewedLatest) :=
  nz <~ Zipfian_next basisLast (sl_zipfian s) ;;
  let next := wrap64 (basisLast - nz.1) in
  pret (next, mkSkewed next nz.2).

(** The constructor takes first draws from sources of its own (one stream here). *)
Definition NewSkewedLatest (basisLast : Z) : PM R SkewedLatest :=
  z <~ NewZipfianWithItems basisLast ZipfianConstant ;;
  ns <~ SkewedLatest_Next basisLast (mkSkewed 0 z) ;;
  pret ns.2.

(** ** The interface [ycsb.Generator] *)

Inductive Generator :=
  | GConstant (c : Constant)
  | GCounter (c : Counter)
  | GSequential (s : Sequential)
  | GUniform (u : Uniform)
  | GHotspot (h : Hotspot)
  | GHistogram (h : Histogram)
  | GExponential (e : Exponential)
  | GZipfian (z : Zipfian)
  | GScrambled (s : ScrambledZipfian)
  | GLatest (s : SkewedLatest).

Definition wrap_gen {A} (k : A → Generator) (m : PM R (Z * A)) : PM R (Z * Generator) :=
  va <~ m ;; pret (va.1, k va.2).

Definition Generator_Next (basisLast : Z) (g : Generator) : PM R (Z * Generator) :=
  match g with
  | GConstant c => pret (Constant_Next c, g)
  | GCounter c => let '(v, c') := Counter_Next c in pret (v, GCounter c')
  | GSequential s =>
      let '(o, s') := Sequential_Next s in
      match o with
      | Ok v => pret (v, GSequential s')
      | Panic m => pfail (Panic m)
      | Exit m => pfail (Exit m)
      | OutOfFuel => pfail OutOfFuel
      end
  | GUniform u => wrap_gen GUniform (Uniform_Next u)
  | GHotspot h => wrap_gen GHotspot (Hotspot_Next h)
  | GHistogram h => wrap_gen GHistogram (Histogram_Next h)
  | GExponential e => wrap_gen GExponential (Exponential_Next e)
  | GZipfian z => wrap_gen GZipfian (Zipfian_Next z)
  | GScrambled s => wrap_gen GScrambled (ScrambledZipfian_Next s)
  | GLatest s => wrap_gen GLatest (SkewedLatest_Next basisLast s)
  end.
End Generators.

(** ** A concrete source, for examples: a finite list of draws *)

Definition demo_floats : list float64 :=
  [f64_zero; f64_lit 1 4; f64_lit 1 2; f64_lit 3 4; f64_sub f64_one (f64_lit 1 (2 ^ 53))].

Definition demo_float (z : Z) : float64 := nth (Z.to_nat (z mod 5)) demo_floats f64_zero.

#[export] Instance list_rand : Rand (list Z).
Proof.
  refine (mkRand _
    (λ l, match l with [] => (f64_zero, []) | z :: l => (demo_float z, l) end)
    (λ n l, match l with [] => (0, []) | z :: l => (z mod n, l) end)
    (λ n l, match l with [] => (0, []) | z :: l => (z mod n, l) end) _ _ _).
  - assert (Forall (λ f, f64_le f64_zero f = true ∧ f64_lt f f64_one = true) demo_floats) as H.
    { apply (bool_decide_unpack _). vm_compute. exact I. }
    intros [|z l]; cbn [fst]; [split; vm_compute; reflexivity|]. rewrite Forall_forall in H.
    apply H, list_elem_of_In, nth_In. pose proof (Z.mod_pos_bound z 5 ltac:(lia)).
    change (length demo_floats) with 5%nat. lia.
  - intros n [|z l] Hn; cbn [fst]; [lia|]. apply Z.mod_pos_bound. lia.
  - intros n [|z l] Hn; cbn [fst]; [lia|]. apply Z.mod_pos_bound. lia.
Defined.

(** ** Lemmas *)

Section Lemmas.
Context {R : Type} `{!Rand R}.
Implicit Types r : R.

Lemma int63n_ok n r : 0 < n → ∃ v r', Int63n n r = (Ok v, r') ∧ 0 <= v < n.
Proof.
  intros Hn. unfold Int63n. replace (n <=? 0) with false by (symmetry; apply Z.leb_gt; lia).
  pose proof (rand_Int63n_range n r Hn) as H. destruct (rand_Int63n n r) as [v r']. by exists v, r'.
Qed.

Lemma int63n_panics n r : n <= 0 → Int63n n r = (Panic "invalid argument to Int63n", r).
Proof. intros Hn. unfold Int63n. by replace (n <=? 0) with true by (symmetry; apply Z.leb_le; lia). Qed.

Lemma float64_ok r : ∃ f r', Float64 r = (Ok f, r') ∧ f64_le f64_zero f = true ∧ f64_lt f f64_one = true.
Proof.
  unfold Float64. pose proof (rand_Float64_range r) as H. destruct (rand_Float64 r) as [f r']. by exists f, r'.
Qed.

Lemma uniform_next lb ub l r :
  in_int64 lb → in_int64 ub → lb <= ub → ub - lb < max_int64 →
  ∃ v r', Uniform_Next (mkUniform l lb ub (wrap64 (wrap64 (ub - lb) + 1))) r =
    (Ok (v, mkUniform v lb ub (wrap64 (wrap64 (ub - lb) + 1))), r') ∧ lb <= v <= ub.
Proof.
  unfold in_int64, max_int64. intros Hl Hu Hle Hd.
  assert (wrap64 (wrap64 (ub - lb) + 1) = ub - lb + 1) as Hi by (rewrite !wrap64_id; unfold in_int64; rewrite ?wrap64_id; unfold in_int64; lia).
  rewrite Hi. unfold Uniform_Next, pbind. cbn [un_interval un_lb un_ub].
  destruct (int63n_ok (ub - lb + 1) r ltac:(lia)) as (v & r' & -> & Hv).
  exists (v + lb), r'. rewrite wrap64_id by (unfold in_int64; lia). split; [done|lia].
Qed.

Lemma hotspot_next h r :
  let interval := ht_upperBound h - ht_lowerBound h + 1 in
  in_int64 (ht_lowerBound h) → in_int64 (ht_upperBound h) →
  0 <= ht_hotInterval h <= interval → ht_coldInterval h = interval - ht_hotInterval h →
  (∃ v h' r', Hotspot_Next h r = (Ok (v, h'), r') ∧ ht_lowerBound h <= v <= ht_upperBound h ∧
     ht_LastValue h' = v ∧ ht_lowerBound h' = ht_lowerBound h ∧ ht_upperBound h' = ht_upperBound h ∧
     ht_hotInterval h' = ht_hotInterval h ∧ ht_coldInterval h' = ht_coldInterval h) ∨
  (∃ m r', Hotspot_Next h r = (Panic m, r') ∧ (ht_hotInterval h = 0 ∨ ht_coldInterval h = 0)).
Proof.
  cbv zeta. unfold in_int64. intros Hl Hu Hh Hc. unfold Hotspot_Next, pbind.
  destruct (float64_ok r) as (f & r1 & -> & _).
  destruct (f64_lt f (ht_hotOpnFraction h)).
  - destruct (decide (0 < ht_hotInterval h)) as [Hp|Hp].
    + destruct (int63n_ok (ht_hotInterval h) r1 Hp) as (v & r2 & -> & Hv). left.
      exists (ht_lowerBound h + v). eexists _, r2. unfold pret. rewrite wrap64_id by (unfold in_int64; lia).
      split_and!; try done; lia.
    + right. rewrite int63n_panics by lia. eexists _, r1. split; [done|]. lia.
  - destruct (decide (0 < ht_coldInterval h)) as [Hp|Hp].
    + destruct (int63n_ok (ht_coldInterval h) r1 Hp) as (v & r2 & -> & Hv). left.
      exists (ht_lowerBound h + ht_hotInterval h + v). eexists _, r2. unfold pret.
      rewrite !wrap64_id by (unfold in_int64; rewrite ?wrap64_id; unfold in_int64; lia).
      split_and!; try done; lia.
    + right. rewrite int63n_panics by lia. eexists _, r1. split; [done|]. lia.
Qed.

Lemma discrete_pick_in sum val l v : discrete_pick sum val l = Some v → v ∈ map dp_Value l.
Proof.
  revert val. induction l as [|p l IH]; intros val; [done|]. simpl.
  destruct (f64_lt val (f64_div (dp_Weight p) sum)); [intros [= <-]; by left|]. intros H. right. by eapply IH.
Qed.

Lemma histogram_loop_spec bs n i buckets : (0 < length buckets)%nat →
  match histogram_loop bs n i buckets with
  | inl v => ∃ j, i < j < i + Z.of_nat (length buckets) ∧ v = wrap64 (j * bs)
  | inr j => j = i + Z.of_nat (length buckets) - 1
  end.
Proof.
  revert n i. induction buckets as [|b buckets IH]; intros n i Hl; [simpl in Hl; lia|].
  destruct buckets as [|b' buckets]; [simpl; lia|].
  change (histogram_loop bs n i (b :: b' :: buckets)) with
    (if wrap64 (n - b) <=? 0 then inl (wrap64 ((i + 1) * bs))
     else histogram_loop bs (wrap64 (n - b)) (i + 1) (b' :: buckets)).
  destruct (wrap64 (n - b) <=? 0).
  - exists (i + 1). split; [cbn [length]; lia|done].
  - specialize (IH (wrap64 (n - b)) (i + 1) ltac:(cbn [length]; lia)).
    revert IH. destruct (histogram_loop bs (wrap64 (n - b)) (i + 1) (b' :: buckets)) as [v|j]; intros IH.
    + destruct IH as (j & Hj & ->). exists j. split; [cbn [length] in *; lia|done].
    + cbn [length] in *. lia.
Qed.

Lemma scrambled_next Pow (s : ScrambledZipfian) r v s' r' :
  ScrambledZipfian_Next Pow s r = (Ok (v, s'), r') →
  ∃ n, v = wrap64 (sz_min s + go_rem (Hash64 n) (sz_itemCount s)) ∧
    sz_min s' = sz_min s ∧ sz_max s' = sz_max s ∧ sz_itemCount s' = sz_itemCount s ∧ sz_LastValue s' = v.
Proof.
  unfold ScrambledZipfian_Next, pbind. destruct (Zipfian_Next Pow (sz_gen s) r) as [[ng|?|?|] r1]; [|done..].
  destruct (sz_itemCount s =? 0); [done|]. unfold pret. intros Heq. injection Heq as <- <- _. by exists ng.1.
Qed.
End Lemmas.

(** Successive values of a sequential generator and of a counter. *)
Fixpoint sequential_run (n : nat) (s : Sequential) : list (Outcome Z) :=
  match n with
  | O => []
  | S n => let '(o, s') := Sequential_Next s in o :: sequential_run n s'
  end.

Fixpoint counter_run (n : nat) (c : Counter) : list Z :=
  match n with
  | O => []
  | S n => let '(v, c') := Counter_Next c in v :: counter_run n c'
  end.

Lemma sequential_run_values n : ∀ c interval start,
  0 <= c → c + Z.of_nat n < 2 ^ 63 → 0 < interval → in_int64 start → in_int64 (start + interval - 1) →
  sequential_run n (mkSequential c interval start) =
    map (λ i, Ok (start + (c + 1 + i) mod interval)) (seqZ 0 (Z.of_nat n)).
Proof.
  induction n as [|n IH]; intros c interval start Hc Hn Hi Hs He; [done|].
  cbn [sequential_run]. unfold Sequential_Next. cbn [sq_counter sq_interval sq_start].
  unfold in_int64 in *. rewrite (wrap64_id (c + 1)) by (unfold in_int64; lia).
  replace (interval =? 0) with false by (symmetry; apply Z.eqb_neq; lia).
  unfold go_rem. rewrite Z.rem_mod_nonneg by lia. pose proof (Z.mod_pos_bound (c + 1) interval Hi).
  rewrite wrap64_id by (unfold in_int64; lia).
  rewrite Nat2Z.inj_succ, seqZ_cons by lia. cbn [map]. f_equal; [f_equal; f_equal; f_equal; lia|].
  rewrite IH by lia. rewrite Z.pred_succ.
  rewrite <- (fmap_add_seqZ 1 0). change (?f <$> ?l) with (map f l). rewrite map_map.
  apply map_ext. intros i. do 3 f_equal. lia.
Qed.

Lemma counter_run_values n : ∀ c, in_int64 c → c + Z.of_nat n < 2 ^ 63 →
  counter_run n (mkCounter c) = seqZ c (Z.of_nat n).
Proof.
  unfold in_int64. induction n as [|n IH]; intros c Hc Hn; [done|].
  cbn [counter_run]. unfold Counter_Next. cbn [cn_counter].
  rewrite (wrap64_id (c + 1)) by (unfold in_int64; lia). rewrite wrap64_id by (unfold in_int64; lia).
  rewrite Nat2Z.inj_succ, seqZ_cons by lia. rewrite IH by lia. f_equal; [lia|]. f_equal; lia.
Qed.

(** ** Properties *)

(** a sequential generator visits every key: whenever it has been drawn from
    [c] times, the next [end - start + 1] draws are the keys from [start] to
    [end], each exactly once. *)
Theorem sequential_visits_all (start stop c : Z) :
  in_int64 start → in_int64 stop → start <= stop → stop - start < max_int64 →
  0 <= c → c + (stop - start + 1) < 2 ^ 63 →
  let s := NewSequential start stop in
  sequential_run (Z.to_nat (stop - start + 1)) (mkSequential c (sq_interval s) (sq_start s))
    ≡ₚ map Ok (seqZ start (stop - start + 1)).
Proof.
  unfold in_int64, max_int64. intros Hs He Hle Hd Hc Hb. cbv zeta. unfold NewSequential. cbn [sq_interval sq_start].
  rewrite !wrap64_id by (unfold in_int64; rewrite ?wrap64_id; unfold in_int64; lia).
  set (k := stop - start + 1) in *. rewrite sequential_run_values by (unfold in_int64; lia).
  rewrite Z2Nat.id by lia.
  rewrite <- (map_map (λ i, (c + 1 + i) mod k) (λ z, Ok (start + z))).
  assert (map (λ i, (c + 1 + i) mod k) (seqZ 0 k) ≡ₚ seqZ 0 k) as ->.
  { pose proof (seq_mod_perm (Z.to_nat k) (Z.to_nat (c + 1)) ltac:(lia)) as Hp.
    apply (fmap_Permutation Z.of_nat) in Hp. change (?f <$> ?l) with (map f l) in Hp. rewrite map_map in Hp.
    assert (seqZ 0 k = map Z.of_nat (seq 0 (Z.to_nat k))) as Hk.
    { unfold seqZ. apply map_ext. intros i. lia. }
    rewrite Hk at 2. rewrite <- Hp, Hk, map_map. apply reflexive_eq.
    replace (seq (Z.to_nat (c + 1)) (Z.to_nat k)) with (map (Nat.add (Z.to_nat (c + 1))) (seq 0 (Z.to_nat k)))
      by (rewrite fmap_add_seq; f_equal; lia).
    rewrite map_map. apply map_ext. intros i. rewrite Nat2Z.inj_mod, Nat2Z.inj_add, !Z2Nat.id by lia. done. }
  replace (seqZ start k) with (map (Z.add start) (seqZ 0 k)); [by rewrite map_map|].
  change (map ?f ?l) with (f <$> l). rewrite fmap_add_seqZ. f_equal. lia.
Qed.

Lemma sequential_visits_all_witness :
  sequential_run 3 (mkSequential 4 3 10) ≡ₚ map Ok (seqZ 10 3).
Proof.
  refine (sequential_visits_all 10 12 4 _ _ _ _ _ _); try lia;
    apply (bool_decide_unpack _); vm_compute; exact I.
Defined.

(** a scrambled zipfian draw stays inside the key range, whatever the source
    and [math.Pow] give; the only exception is a draw whose hash is the one int64
    whose negation overflows, which gives a key below the range. *)
Theorem scrambled_in_range {R} `{!Rand R} (Pow : float64 → float64 → float64) (s s' : ScrambledZipfian)
    (r r' : R) (v : Z) :
  in_int64 (sz_min s) → in_int64 (sz_max s) → sz_itemCount s = sz_max s - sz_min s + 1 → 0 < sz_itemCount s →
  ScrambledZipfian_Next Pow s r = (Ok (v, s'), r') →
  sz_min s <= v <= sz_max s ∨
  ∃ n, Hash64 n = min_int64 ∧ v = wrap64 (sz_min s - 2 ^ 63 mod sz_itemCount s).
Proof.
  unfold in_int64. intros Hmin Hmax Hc Hpos Hn. destruct (scrambled_next _ _ _ _ _ _ Hn) as (n & -> & _).
  unfold go_rem. destruct (hash64_range n) as [Hr|Hr].
  - left. rewrite Z.rem_mod_nonneg by lia. pose proof (Z.mod_pos_bound (Hash64 n) (sz_itemCount s) Hpos).
    rewrite wrap64_id; unfold in_int64; lia.
  - right. exists n. split; [done|]. rewrite Hr. unfold min_int64. rewrite Z.rem_opp_l' by lia.
    rewrite Z.rem_mod_nonneg by lia. f_equal.
Qed.

(** A [math.Pow] for examples: every power is 1. *)
Definition pow_one (_ _ : float64) : float64 := f64_one.

Definition demo_scrambled (min max : Z) : ScrambledZipfian :=
  match NewScrambledZipfian pow_one min max ZipfianConstant ([0; 0] : list Z) with
  | (Ok s, _) => s
  | _ => mkScrambled 0 (mkZipfian 0 0 0 f64_zero f64_zero f64_zero f64_zero f64_zero f64_zero 0 false) 0 0 0
  end.

Lemma scrambled_in_range_witness :
  ∃ v s', ScrambledZipfian_Next pow_one (demo_scrambled 5 104) ([3] : list Z) = (Ok (v, s'), []) ∧
  (5 <= v <= 104 ∨ ∃ n, Hash64 n = min_int64 ∧ v = wrap64 (5 - 2 ^ 63 mod 100)).
Proof.
  destruct (ScrambledZipfian_Next pow_one (demo_scrambled 5 104) ([3] : list Z)) as [[[v s']|m|m|] r'] eqn:E;
    [|vm_compute in E; discriminate E..].
  exists v, s'. assert (r' = []) as -> by (vm_compute in E; by injection E).
  split; [reflexivity|].
  refine (scrambled_in_range pow_one (demo_scrambled 5 104) s' [3] [] v _ _ _ _ E);
    try (apply (bool_decide_unpack _); vm_compute; exact I); reflexivity.
Defined.


(** The panic is reachable: with the proportions 0.3 and 0.7, the largest value
    [rand.Float64] returns is not below the sum of the two shares as they are
    subtracted one by one in float64. *)
Theorem discrete_can_panic :
  (Discrete_Next (Discrete_Add (f64_lit 7 10) 2 (Discrete_Add (f64_lit 3 10) 1 NewDiscrete)) ([4] : list Z)).1
  = Panic "oops, should not get here.".
Proof. vm_compute. reflexivity. Qed.

(** adding items to a zipfian generator gives the same constant as starting
    over: the zeta sum continued from [m] items to [n] is bit for bit the sum
    computed from scratch, in the order the loop adds it. *)
Theorem zeta_incremental (Pow : float64 → float64 → float64) (st m n : Z) (theta init : float64) :
  st <= m <= n → zetaStatic Pow m n theta (zetaStatic Pow st m theta init) = zetaStatic Pow st n theta init.
Proof.
  intros H. unfold zetaStatic. rewrite <- fold_left_app. f_equal.
  replace (n - st) with ((m - st) + (n - m)) by lia. rewrite seqZ_app by lia. do 2 f_equal; lia.
Qed.

Lemma zeta_incremental_witness :
  zetaStatic pow_one 2 5 ZipfianConstant (zetaStatic pow_one 0 2 ZipfianConstant f64_zero) =
  zetaStatic pow_one 0 5 ZipfianConstant f64_zero.
Proof. apply zeta_incremental. lia. Defined.

(** a histogram draw is a multiple of the block size below the number of
    buckets; it panics exactly when the histogram is empty. *)
Theorem histogram_next_range {R} `{!Rand R} (h : Histogram) (r : R) :
  (0 < length (hi_buckets h))%nat →
  match Histogram_Next h r with
  | (Ok (v, h'), _) => 0 < hi_area h ∧ ∃ j, 0 <= j < Z.of_nat (length (hi_buckets h)) ∧ v = wrap64 (j * hi_blockSize h)
  | (Panic _, _) => hi_area h <= 0
  | _ => False
  end.
Proof.
  intros Hl. unfold Histogram_Next, pbind. destruct (decide (0 < hi_area h)) as [Ha|Ha].
  - destruct (int63n_ok (hi_area h) r Ha) as (n & r' & -> & _).
    pose proof (histogram_loop_spec (hi_blockSize h) n 0 (hi_buckets h) Hl) as H.
    destruct (histogram_loop (hi_blockSize h) n 0 (hi_buckets h)) as [v|i]; simpl.
    + split; [done|]. destruct H as (j & Hj & ->). exists j. split; [lia|done].
    + split; [done|]. exists i. split; [lia|done].
  - rewrite int63n_panics by lia. lia.
Qed.

(** A draw inside the loop is not remembered: [Last] is not the value [Next]
    returned. *)
Theorem histogram_last_not_updated :
  match Histogram_Next (NewHistogram [5; 5; 5] 10) ([7] : list Z) with
  | (Ok (v, h'), _) => v = 20 ∧ hi_LastValue h' = 0
  | _ => False
  end.
Proof. vm_compute. split; reflexivity. Qed.

(** A hotspot distribution over few records panics on its first hot operation:
    20% of four records is no record at all. *)
Theorem hotspot_small_range_panics :
  (Hotspot_Next (NewHotspot 0 3 (f64_lit 2 10) (f64_lit 8 10)) ([0] : list Z)).1 = Panic "invalid argument to Int63n".
Proof. vm_compute. reflexivity. Qed.

(** The first key of a sequential generator is not its start. *)
Theorem sequential_skips_start : (Sequential_Next (NewSequential 10 19)).1 = Ok 11.
Proof. reflexivity. Qed.

Example histogram_file_ex :
  NewHistogramFromFile "hist.txt" (inl ("BlockSize" +:+ String tab "10" +:+ String newline
    ("0" +:+ String tab "3" +:+ String newline ("2" +:+ String tab "4"))))
  = Ok (NewHistogram [3; 0; 4] 10).
Proof. vm_compute. reflexivity. Qed.
