(* ===== verification/AckCounter.v ===== *)
(** * AckCounter: the acknowledged counter of the YCSB framework
    (src/go-ycsb-vendor/pkg/generator/acknowledged_counter.go, with the spin
    lock of pkg/util/spinlock.go)

    Keys handed out by [Next] become visible through [Last] only once they and
    all keys before them have been acknowledged.  The window of pending
    acknowledgements is an array of booleans indexed by the low bits of a key;
    here it is the set of the slots that hold [true] (a slot is masked, so it is
    never out of range).  [Acknowledge] first as one call, then as the steps
    concurrent workers interleave. *)

From S2P Require Import Prelude GoLib Storage YcsbUtil Float64 Generators.

Open Scope Z_scope.

Definition WindowSize : Z := 2 ^ 20.
Definition WindowMask : Z := WindowSize - 1.

(** [SpinLock]: true is locked. *)
Definition TryLock (f : bool) : bool * bool := if f then (false, true) else (true, true).
Definition Unlock (f : bool) : bool := false.

Record AcknowledgedCounter := mkAck {
  ac_c : Counter;
  ac_lock : bool;
  ac_window : gset Z;
  ac_limit : Z;
}.

Definition NewAcknowledgedCounter (start : Z) : AcknowledgedCounter :=
  mkAck (mkCounter start) false ∅ (wrap64 (start - 1)).

Definition Ack_Next (a : AcknowledgedCounter) : Z * AcknowledgedCounter :=
  let '(v, c) := Counter_Next (ac_c a) in (v, mkAck c (ac_lock a) (ac_window a) (ac_limit a)).

Definition Ack_Last (a : AcknowledgedCounter) : Z := ac_limit a.

Definition ack_slot (v : Z) : Z := Z.land v WindowMask.

(** The loop that moves a contiguous sequence from the window to the limit:
    window and index when it stops.  Each round clears a slot, so the number of
    slots set is enough fuel ([ack_loop_some]). *)
Fixpoint ack_loop (fuel : nat) (window : gset Z) (index beforeFirstSlot : Z) : option (gset Z * Z) :=
  if index =? beforeFirstSlot then Some (window, index)
  else
    let slot := ack_slot index in
    if bool_decide (slot ∈ window) then
      match fuel with
      | O => None
      | S fuel => ack_loop fuel (window ∖ {[slot]}) (wrap64 (index + 1)) beforeFirstSlot
      end
    else Some (window, index).

(** [None] is a loop out of fuel, which [ack_loop_some] excludes. *)
Definition Acknowledge (value : Z) (a : AcknowledgedCounter) : option (Outcome unit * AcknowledgedCounter) :=
  let currentSlot := ack_slot value in
  if bool_decide (currentSlot ∈ ac_window a) then
    Some (Panic "Too many unacknowledged insertion keys.", a)
  else
    let window := {[currentSlot]} ∪ ac_window a in
    let '(got, lock) := TryLock (ac_lock a) in
    if negb got then Some (Ok tt, mkAck (ac_c a) lock window (ac_limit a))
    else
      let limit := ac_limit a in
      let beforeFirstSlot := ack_slot limit in
      match ack_loop (size window) window (wrap64 (limit + 1)) beforeFirstSlot with
      | None => None
      | Some (window, index) => Some (Ok tt, mkAck (ac_c a) (Unlock lock) window (wrap64 (index - 1)))
      end.

(** ** Lemmas *)

(** The slot of a key is its remainder modulo the window size. *)
Lemma ack_slot_mod v : ack_slot v = v mod WindowSize.
Proof. unfold ack_slot, WindowMask, WindowSize. change (2 ^ 20 - 1) with (Z.ones 20). apply Z.land_ones. lia. Qed.

Lemma ack_slot_inj L u v : L < u <= L + WindowSize → L < v <= L + WindowSize → ack_slot u = ack_slot v → u = v.
Proof.
  rewrite !ack_slot_mod. intros Hu Hv Heq. unfold WindowSize in *.
  pose proof (Z.div_mod u (2 ^ 20) ltac:(lia)). pose proof (Z.div_mod v (2 ^ 20) ltac:(lia)). nia.
Qed.

Lemma ack_slot_le L : 0 <= L → 0 <= ack_slot L <= L.
Proof.
  intros. rewrite ack_slot_mod. unfold WindowSize. pose proof (Z.mod_pos_bound L (2 ^ 20)).
  pose proof (Z.mod_le L (2 ^ 20)). lia.
Qed.

Lemma ack_loop_some fuel : ∀ window index before, (size window <= fuel)%nat → is_Some (ack_loop fuel window index before).
Proof.
  induction fuel as [|fuel IH]; intros window index before Hs; simpl.
  - destruct (index =? before); [by eexists|]. apply Nat.le_0_r, size_empty_inv in Hs.
    rewrite bool_decide_eq_false_2 by set_solver. by eexists.
  - destruct (index =? before); [by eexists|]. case_bool_decide as Hin; [|by eexists]. apply IH.
    rewrite size_difference by set_solver. rewrite size_singleton. lia.
Qed.

(** [L] is the last key of the acknowledged prefix of [A] from [start]. *)
Definition is_last (start : Z) (A : gset Z) (L : Z) : Prop :=
  start - 1 <= L ∧ (∀ v, start <= v <= L → v ∈ A) ∧ L + 1 ∉ A.

Lemma is_last_unique start A L L' : is_last start A L → is_last start A L' → L = L'.
Proof.
  intros (H1 & H2 & H3) (H1' & H2' & H3').
  destruct (Z.lt_trichotomy L L') as [Hlt|[?|Hlt]]; [|done|].
  - exfalso. apply H3, H2'. lia.
  - exfalso. apply H3', H2. lia.
Qed.

(** The same as a test, for sets that hold nothing beyond [start]'s prefix. *)
Definition start_ok (start : Z) (A : gset Z) (L : Z) : bool :=
  (start - 1 <=? L) && bool_decide (Forall (λ v, v ∈ A) (seqZ start (L - start + 1))) && bool_decide (L + 1 ∉ A).

Lemma start_ok_spec start A L : start_ok start A L = true → is_last start A L.
Proof.
  unfold start_ok. intros [[Hl%Z.leb_le Hf%bool_decide_eq_true]%andb_true_iff Hn%bool_decide_eq_true]%andb_true_iff.
  rewrite Forall_forall in Hf. split_and!; [done| |done]. intros v Hv. apply Hf, elem_of_seqZ. lia.
Qed.

(** [window] holds the slots of the keys of [A] from [from] on. *)
Definition window_of (A : gset Z) (from : Z) (window : gset Z) : Prop :=
  ∀ s, s ∈ window ↔ ∃ u, u ∈ A ∧ from <= u ∧ ack_slot u = s.

Definition acked_upto (start : Z) (A : gset Z) (L : Z) : Prop := ∀ v, start <= v <= L → v ∈ A.
Definition within (A : gset Z) (top : Z) : Prop := ∀ v, v ∈ A → v <= top.

Lemma window_hit L A i window :
  L < i → i <= L + WindowSize → within A (L + WindowSize) → window_of A i window →
  (ack_slot i ∈ window ↔ i ∈ A).
Proof.
  intros HL Hi Hw Hwin. rewrite (Hwin (ack_slot i)). split.
  - intros (u & Hu & Hle & Hs). apply (ack_slot_inj L) in Hs as ->; [done| |lia].
    specialize (Hw u Hu). lia.
  - intros Hin. exists i. split_and!; [done|lia|done].
Qed.

(** Clearing the slot of [i] leaves the keys from [i + 1] on. *)
Lemma window_clear L A i window :
  L < i → i <= L + WindowSize → within A (L + WindowSize) → window_of A i window →
  window_of A (i + 1) (window ∖ {[ack_slot i]}).
Proof.
  intros HL Hi Hw Hwin s. rewrite elem_of_difference, elem_of_singleton, (Hwin s). split.
  - intros [(u & Hu & Hle & Hs) Hne]. exists u. split_and!; [done| |done].
    destruct (decide (u = i)) as [->|]; [by rewrite Hs in Hne|lia].
  - intros (u & Hu & Hle & Hs). split; [exists u; split_and!; [done|lia|done]|]. subst s. intros Heq.
    apply (ack_slot_inj L) in Heq; [lia| |lia]. specialize (Hw u Hu). lia.
Qed.

Lemma window_mark A from v window :
  from <= v → window_of A from window → window_of ({[v]} ∪ A) from ({[ack_slot v]} ∪ window).
Proof.
  intros Hv Hwin s. rewrite elem_of_union, elem_of_singleton, (Hwin s). split.
  - intros [->|(u & Hu & Hle & Hs)]; [exists v; split_and!; [set_solver|lia|done]|].
    exists u. split_and!; [set_solver|lia|done].
  - intros (u & Hu & Hle & Hs). apply elem_of_union in Hu as [->%elem_of_singleton|Hu]; [by left|right].
    exists u. split_and!; done.
Qed.

Lemma ack_loop_spec fuel : ∀ start L A i window before window' index,
  start <= i → L < i → i <= L + WindowSize + 1 → before <= L → in_int64 L → L + WindowSize + 2 < 2 ^ 63 →
  within A (L + WindowSize) → window_of A i window → acked_upto start A (i - 1) →
  ack_loop fuel window i before = Some (window', index) →
  is_last start A (index - 1) ∧ window_of A index window' ∧ i <= index <= L + WindowSize + 1.
Proof.
  unfold in_int64, WindowSize.
  induction fuel as [|fuel IH]; intros start L A i window before window' index Hs HL Hi Hb HLr Hmax Hw Hwin Hup Heq;
    simpl in Heq; replace (i =? before) with false in Heq by (symmetry; apply Z.eqb_neq; lia);
    (destruct (decide (i <= L + WindowSize)) as [Hle|Hgt]; unfold WindowSize in *;
     [pose proof (window_hit L A i window HL Hle Hw Hwin) as Hhit|]).
  - case_bool_decide as Hin; [done|]. injection Heq as <- <-. split_and!; try lia; try done.
    unfold is_last. split_and!; [lia|done|]. replace (i - 1 + 1) with i by lia. by rewrite <- Hhit.
  - assert (i ∉ A) as Hni by (intros ?%Hw; lia).
    case_bool_decide as Hin; [done|]. injection Heq as <- <-. split_and!; try lia; try done.
    unfold is_last. split_and!; [lia|done|]. by replace (i - 1 + 1) with i by lia.
  - case_bool_decide as Hin.
    + rewrite wrap64_id in Heq by (unfold in_int64; lia).
      apply (IH start L A) in Heq; try lia; try done.
      * destruct Heq as (? & ? & ?). split_and!; [done|done|lia..].
      * by apply window_clear with L.
      * intros v Hv. destruct (decide (v = i)) as [->|]; [by apply Hhit|]. apply Hup. lia.
    + injection Heq as <- <-. split_and!; try lia; try done.
      unfold is_last. split_and!; [lia|done|]. replace (i - 1 + 1) with i by lia. by rewrite <- Hhit.
  - assert (i ∉ A) as Hni by (intros ?%Hw; lia). case_bool_decide as Hin.
    + exfalso. apply (Hwin (ack_slot i)) in Hin as (u & Hu%Hw & ? & _). lia.
    + injection Heq as <- <-. split_and!; try lia; try done.
      unfold is_last. split_and!; [lia|done|]. by replace (i - 1 + 1) with i by lia.
Qed.

(** What links a counter to the set of acknowledged keys: nothing beyond the
    acknowledged prefix is visible, and the window holds the pending ones. *)
Record ack_rel (start : Z) (A : gset Z) (a : AcknowledgedCounter) : Prop := {
  ar_start : 1 <= start;
  ar_limit : start - 1 <= ac_limit a;
  ar_upto : acked_upto start A (ac_limit a);
  ar_within : within A (ac_limit a + WindowSize);
  ar_window : window_of A (ac_limit a + 1) (ac_window a);
  ar_max : ac_limit a + 2 * WindowSize + 2 < 2 ^ 63;
}.

Lemma acknowledge_spec start A a v :
  ack_rel start A a → ac_lock a = false → v ∉ A → start <= v <= ac_limit a + WindowSize →
  ∃ a', Acknowledge v a = Some (Ok tt, a') ∧ ac_lock a' = false ∧ ac_c a' = ac_c a ∧
    is_last start ({[v]} ∪ A) (ac_limit a') ∧ window_of ({[v]} ∪ A) (ac_limit a' + 1) (ac_window a') ∧
    ac_limit a <= ac_limit a' <= ac_limit a + WindowSize.
Proof.
  intros [Hst Hl Hup Hw Hwin Hmax] Hlock Hv Hr. unfold Acknowledge.
  assert (ac_limit a < v) as Hlt.
  { destruct (decide (ac_limit a < v)); [done|]. exfalso. apply Hv, Hup. lia. }
  unfold WindowSize in *.
  assert (ack_slot v ∉ ac_window a) as Hni.
  { intros (u & Hu & Hle & Hs)%Hwin. apply (ack_slot_inj (ac_limit a)) in Hs as ->; [done|..]; unfold WindowSize.
    - specialize (Hw u Hu). lia.
    - lia. }
  rewrite bool_decide_eq_false_2 by done. rewrite Hlock. cbn [TryLock negb].
  rewrite (wrap64_id (ac_limit a + 1)) by (unfold in_int64; lia).
  destruct (ack_loop_some (size ({[ack_slot v]} ∪ ac_window a)) ({[ack_slot v]} ∪ ac_window a) (ac_limit a + 1)
    (ack_slot (ac_limit a)) ltac:(lia)) as [[window' index] Heq].
  rewrite Heq. apply (ack_loop_spec _ start (ac_limit a) ({[v]} ∪ A)) in Heq; unfold WindowSize in *.
  - destruct Heq as (Hlast & Hwin' & Hi). rewrite wrap64_id by (unfold in_int64; lia).
    eexists. split; [done|]. cbn [ac_lock ac_c ac_limit ac_window]. split_and!; try done; try lia.
    by replace (index - 1 + 1) with index by lia.
  - lia.
  - lia.
  - lia.
  - apply ack_slot_le. lia.
  - unfold in_int64. lia.
  - lia.
  - intros u [->%elem_of_singleton|Hu%Hw]%elem_of_union; lia.
  - apply window_mark; [lia|done].
  - intros u Hu. apply elem_of_union_r, Hup. lia.
Qed.

(** A sequence of acknowledgements, none repeated and none further than the
    window ahead of the acknowledged prefix at its time. *)
Inductive window_ok (start : Z) : gset Z → list Z → Prop :=
  | wk_nil A : window_ok start A []
  | wk_cons A L v vs :
      is_last start A L → v ∉ A → start <= v <= L + WindowSize → v + 3 * WindowSize < 2 ^ 63 →
      window_ok start ({[v]} ∪ A) vs → window_ok start A (v :: vs).

Fixpoint ack_all (vs : list Z) (a : AcknowledgedCounter) : option (Outcome unit * AcknowledgedCounter) :=
  match vs with
  | [] => Some (Ok tt, a)
  | v :: vs =>
      match Acknowledge v a with
      | Some (Ok _, a') => ack_all vs a'
      | r => r
      end
  end.

Lemma ack_all_spec start vs : ∀ A a,
  window_ok start A vs → ack_rel start A a → is_last start A (ac_limit a) → ac_lock a = false →
  (∀ v, v ∈ A → v + 3 * WindowSize < 2 ^ 63) → start + 3 * WindowSize < 2 ^ 63 →
  ∃ a', ack_all vs a = Some (Ok tt, a') ∧ is_last start (list_to_set vs ∪ A) (Ack_Last a').
Proof.
  induction vs as [|v vs IH]; intros A a Hok Hrel Hlast Hlock HA Hst.
  { exists a. split; [done|]. simpl. by rewrite (left_id_L ∅ (∪)). }
  inversion Hok as [|A' L v' vs' HL Hv Hr Hm Hok']; subst.
  rewrite (is_last_unique _ _ _ _ HL Hlast) in Hr.
  destruct (acknowledge_spec start A a v Hrel Hlock Hv Hr) as (a' & Heq & Hlock' & _ & Hlast' & Hwin' & Hle).
  assert (∀ u, u ∈ {[v]} ∪ A → u + 3 * WindowSize < 2 ^ 63) as HA'.
  { intros u [->%elem_of_singleton|Hu]%elem_of_union; [done|by apply HA]. }
  destruct (IH ({[v]} ∪ A) a') as (a2 & Ha2 & Hl2); try done.
  - destruct Hlast' as (H1 & H2 & H3). destruct Hrel as [? ? ? Hw ? ?]. split; try done.
    + intros u [->%elem_of_singleton|Hu%Hw]%elem_of_union; lia.
    + destruct (decide (ac_limit a' < start)); [unfold WindowSize in *; lia|].
      specialize (HA' (ac_limit a') (H2 (ac_limit a') ltac:(lia))). unfold WindowSize in *. lia.
  - exists a2. simpl. rewrite Heq, Ha2. split; [done|].
    replace ({[v]} ∪ list_to_set vs ∪ A) with (list_to_set vs ∪ ({[v]} ∪ A)) by set_solver. done.
Qed.

Lemma new_ack_rel start : 1 <= start → start + 3 * WindowSize < 2 ^ 63 →
  ack_rel start ∅ (NewAcknowledgedCounter start) ∧ is_last start ∅ (ac_limit (NewAcknowledgedCounter start)).
Proof.
  unfold WindowSize. intros Hs Hm. unfold NewAcknowledgedCounter. cbn [ac_limit].
  assert (wrap64 (start - 1) = start - 1) as Hw by (apply wrap64_id; unfold in_int64; lia). split.
  - split; unfold acked_upto, within, window_of, WindowSize; cbn [ac_limit ac_window]; rewrite ?Hw; try lia; set_solver.
  - rewrite Hw. unfold is_last. split_and!; [lia|intros v Hv; lia|set_solver].
Qed.

(** ** Concurrent acknowledgements *)

(** Where a worker is in [Acknowledge]. *)
Inductive ack_pc :=
  | PCheck                              (* about to test window[currentSlot] *)
  | PMark                               (* about to set it *)
  | PTry                                (* about to call TryLock *)
  | PLoad                               (* holds the lock, about to read limit *)
  | PScan (index before : Z)            (* at the loop condition and test *)
  | PClear (index before : Z)           (* about to clear the slot of index *)
  | PStore (index : Z)                  (* about to store limit *)
  | PUnlock
  | PDone
  | PPanicked.

Record ack_worker := mkWorker { aw_value : Z; aw_pc : ack_pc }.

Record ack_state := mkAckState {
  as_lock : bool;
  as_window : gset Z;
  as_limit : Z;
  as_workers : gmap nat ack_worker;
}.

Definition marked_pc (pc : ack_pc) : bool :=
  match pc with PCheck | PMark | PPanicked => false | _ => true end.

Definition holds_lock (pc : ack_pc) : bool :=
  match pc with PLoad | PScan _ _ | PClear _ _ | PStore _ | PUnlock => true | _ => false end.

Definition goto (id : nat) (v : Z) (pc : ack_pc) (s : ack_state) : ack_state :=
  mkAckState (as_lock s) (as_window s) (as_limit s) (<[id := mkWorker v pc]> (as_workers s)).

Definition set_window (w : gset Z) (s : ack_state) : ack_state :=
  mkAckState (as_lock s) w (as_limit s) (as_workers s).
Definition set_lock (b : bool) (s : ack_state) : ack_state :=
  mkAckState b (as_window s) (as_limit s) (as_workers s).
Definition set_limit (l : Z) (s : ack_state) : ack_state :=
  mkAckState (as_lock s) (as_window s) l (as_workers s).

Definition used (s : ack_state) (v : Z) : Prop := ∃ id w, as_workers s !! id = Some w ∧ aw_value w = v.

(** A worker starts to acknowledge a key no one else acknowledges, at most a
    window ahead of the limit; then its steps. *)
Inductive ack_step (start : Z) : ack_state → ack_state → Prop :=
  | AStart s id v :
      as_workers s !! id = None → ¬ used s v → start <= v <= as_limit s + WindowSize →
      v + 3 * WindowSize < 2 ^ 63 →
      ack_step start s (goto id v PCheck s)
  | ACheckFree s id v :
      as_workers s !! id = Some (mkWorker v PCheck) → ack_slot v ∉ as_window s →
      ack_step start s (goto id v PMark s)
  | ACheckTaken s id v :
      as_workers s !! id = Some (mkWorker v PCheck) → ack_slot v ∈ as_window s →
      ack_step start s (goto id v PPanicked s)
  | AMark s id v :
      as_workers s !! id = Some (mkWorker v PMark) →
      ack_step start s (goto id v PTry (set_window ({[ack_slot v]} ∪ as_window s) s))
  | ATryFail s id v lock' :
      as_workers s !! id = Some (mkWorker v PTry) → TryLock (as_lock s) = (false, lock') →
      ack_step start s (goto id v PDone (set_lock lock' s))
  | ATryOk s id v lock' :
      as_workers s !! id = Some (mkWorker v PTry) → TryLock (as_lock s) = (true, lock') →
      ack_step start s (goto id v PLoad (set_lock lock' s))
  | ALoad s id v :
      as_workers s !! id = Some (mkWorker v PLoad) →
      ack_step start s (goto id v (PScan (wrap64 (as_limit s + 1)) (ack_slot (as_limit s))) s)
  | AScanHit s id v i b :
      as_workers s !! id = Some (mkWorker v (PScan i b)) → i ≠ b → ack_slot i ∈ as_window s →
      ack_step start s (goto id v (PClear i b) s)
  | AScanStop s id v i b :
      as_workers s !! id = Some (mkWorker v (PScan i b)) → i = b ∨ ack_slot i ∉ as_window s →
      ack_step start s (goto id v (PStore i) s)
  | AClear s id v i b :
      as_workers s !! id = Some (mkWorker v (PClear i b)) →
      ack_step start s (goto id v (PScan (wrap64 (i + 1)) b) (set_window (as_window s ∖ {[ack_slot i]}) s))
  | AStore s id v i :
      as_workers s !! id = Some (mkWorker v (PStore i)) →
      ack_step start s (goto id v PUnlock (set_limit (wrap64 (i - 1)) s))
  | AUnlock s id v :
      as_workers s !! id = Some (mkWorker v PUnlock) →
      ack_step start s (goto id v PDone (set_lock (Unlock (as_lock s)) s)).

Definition initial_ack (start : Z) : ack_state := mkAckState false ∅ (wrap64 (start - 1)) ∅.

(** *** The invariant *)

(** The keys that have been marked as acknowledged. *)
Definition acked (s : ack_state) : gset Z :=
  list_to_set (map (λ iw, aw_value iw.2) (List.filter (λ iw, marked_pc (aw_pc iw.2)) (map_to_list (as_workers s)))).

Lemma elem_of_acked s v :
  v ∈ acked s ↔ ∃ id w, as_workers s !! id = Some w ∧ aw_value w = v ∧ marked_pc (aw_pc w) = true.
Proof.
  unfold acked. rewrite elem_of_list_to_set, list_elem_of_In, in_map_iff. split.
  - intros ([id w] & <- & [Hin%list_elem_of_In%elem_of_map_to_list Hm]%filter_In). by exists id, w.
  - intros (id & w & Hl & <- & Hm). exists (id, w). split; [done|]. apply filter_In.
    split; [by apply list_elem_of_In, elem_of_map_to_list|done].
Qed.

(** A step of one worker that does not take its mark back. *)
Definition keeps_mark (s : ack_state) (id : nat) (v : Z) (pc : ack_pc) : Prop :=
  match as_workers s !! id with
  | None => True
  | Some w => aw_value w = v ∧ (marked_pc (aw_pc w) = true → marked_pc pc = true)
  end.

Lemma acked_goto s id v pc : keeps_mark s id v pc →
  acked (goto id v pc s) = if marked_pc pc then {[v]} ∪ acked s else acked s.
Proof.
  unfold keeps_mark. intros Hk. apply set_eq. intros u.
  assert (u ∈ acked (goto id v pc s) ↔ (u = v ∧ marked_pc pc = true) ∨ u ∈ acked s) as ->.
  { rewrite !elem_of_acked. unfold goto. cbn [as_workers]. split.
    - intros (id' & w & Hl & Hv & Hm). destruct (decide (id' = id)) as [->|Hne].
      + rewrite lookup_insert_eq in Hl. injection Hl as <-. by left.
      + rewrite lookup_insert_ne in Hl by done. right. by exists id', w.
    - intros [[-> Hm]|(id' & w & Hl & Hv & Hm)].
      + exists id, (mkWorker v pc). by rewrite lookup_insert_eq.
      + destruct (decide (id' = id)) as [->|Hne].
        * rewrite Hl in Hk. destruct Hk as [Hk1 Hk2]. exists id, (mkWorker v pc). rewrite lookup_insert_eq.
          split_and!; [done|simpl; congruence|by apply Hk2].
        * exists id', w. by rewrite lookup_insert_ne. }
  destruct (marked_pc pc); set_solver.
Qed.

Definition frontier_pc (limit : Z) (pc : ack_pc) : Z :=
  match pc with PScan i _ | PClear i _ | PStore i => i | _ => limit + 1 end.

Definition pc_ok (limit : Z) (A : gset Z) (pc : ack_pc) : Prop :=
  match pc with
  | PScan _ b => b <= limit
  | PClear i b => b <= limit ∧ i ∈ A
  | PPanicked => False
  | _ => True
  end.

Definition worker_ok (start limit : Z) (A : gset Z) (w : ack_worker) : Prop :=
  start <= aw_value w <= limit + WindowSize ∧ aw_value w + 3 * WindowSize < 2 ^ 63 ∧ pc_ok limit A (aw_pc w).

Definition values_distinct (ws : gmap nat ack_worker) : Prop :=
  ∀ i j wi wj, ws !! i = Some wi → ws !! j = Some wj → aw_value wi = aw_value wj → i = j.

(** [h] is the worker that holds the lock, [f] the first key not yet moved from
    the window to the limit. *)
Record ack_inv (start : Z) (h : option nat) (f : Z) (s : ack_state) : Prop := {
  iv_start : 1 <= start ∧ start + 3 * WindowSize < 2 ^ 63;
  iv_limit : start - 1 <= as_limit s;
  iv_distinct : values_distinct (as_workers s);
  iv_workers : map_Forall (λ _ w, worker_ok start (as_limit s) (acked s) w) (as_workers s);
  iv_holder : map_Forall (λ id w, holds_lock (aw_pc w) = bool_decide (h = Some id)) (as_workers s);
  iv_lock : as_lock s = bool_decide (is_Some h);
  iv_front : f = match h with
                 | None => as_limit s + 1
                 | Some id => match as_workers s !! id with
                              | Some w => frontier_pc (as_limit s) (aw_pc w)
                              | None => 0
                              end
                 end;
  iv_range : as_limit s < f <= as_limit s + WindowSize + 1;
  iv_upto : acked_upto start (acked s) (f - 1);
  iv_window : window_of (acked s) f (as_window s);
}.

Section Inv.
Context (start : Z).

Lemma inv_within h f s : ack_inv start h f s → within (acked s) (as_limit s + WindowSize).
Proof.
  intros Hi v (id & w & Hl & <- & _)%elem_of_acked. apply (iv_workers _ _ _ _ Hi) in Hl as [? _]. lia.
Qed.

(** The key of a worker that has not marked it is at or beyond the frontier. *)
Lemma inv_unmarked h f s id v pc : ack_inv start h f s → as_workers s !! id = Some (mkWorker v pc) →
  marked_pc pc = false → v ∉ acked s ∧ f <= v <= as_limit s + WindowSize.
Proof.
  intros Hi Hl Hm. assert (v ∉ acked s) as Hni.
  { intros (id' & w & Hl' & Hv & Hm')%elem_of_acked.
    pose proof (iv_distinct _ _ _ _ Hi id' id _ _ Hl' Hl Hv) as ->. rewrite Hl in Hl'. injection Hl' as <-.
    simpl in Hm'. congruence. }
  split; [done|]. destruct (iv_workers _ _ _ _ Hi _ _ Hl) as [Hr _]. simpl in Hr.
  destruct (decide (f <= v)); [lia|]. exfalso. apply Hni, (iv_upto _ _ _ _ Hi). lia.
Qed.

Lemma inv_frontier_holder h f s id w : ack_inv start h f s → as_workers s !! id = Some w →
  holds_lock (aw_pc w) = true → h = Some id ∧ f = frontier_pc (as_limit s) (aw_pc w).
Proof.
  intros Hi Hl Hh. pose proof (iv_holder _ _ _ _ Hi _ _ Hl) as Hb. simpl in Hb. rewrite Hh in Hb. symmetry in Hb.
  apply bool_decide_eq_true in Hb as ->. split; [done|]. rewrite (iv_front _ _ _ _ Hi). by rewrite Hl.
Qed.

Lemma inv_limit_bound h f s : ack_inv start h f s → as_limit s + 3 * WindowSize < 2 ^ 63.
Proof.
  intros Hi. destruct (iv_start _ _ _ _ Hi) as [_ Hs]. pose proof (iv_limit _ _ _ _ Hi).
  destruct (decide (as_limit s < start)); [lia|].
  assert (as_limit s ∈ acked s) as (id & w & Hl & <- & _)%elem_of_acked.
  { apply (iv_upto _ _ _ _ Hi). pose proof (iv_range _ _ _ _ Hi). lia. }
  by apply (iv_workers _ _ _ _ Hi) in Hl as (_ & ? & _).
Qed.

(** The general step: worker [id] moves to [pc] while lock, window and limit
    change to given values; the new state satisfies the invariant if the new
    shared values and the moved worker do. *)
Lemma inv_step h f s id v pc h' f' lock' window' limit' :
  ack_inv start h f s → keeps_mark s id v pc →
  (as_workers s !! id = None → ¬ used s v) →
  let A' := if marked_pc pc then {[v]} ∪ acked s else acked s in
  as_limit s <= limit' → worker_ok start limit' A' (mkWorker v pc) →
  (∀ j w, j ≠ id → as_workers s !! j = Some w → holds_lock (aw_pc w) = bool_decide (h' = Some j)) →
  holds_lock pc = bool_decide (h' = Some id) → lock' = bool_decide (is_Some h') →
  f' = match h' with
       | None => limit' + 1
       | Some j => if decide (j = id) then frontier_pc limit' pc
                   else match as_workers s !! j with Some w => frontier_pc limit' (aw_pc w) | None => 0 end
       end →
  limit' < f' <= limit' + WindowSize + 1 → acked_upto start A' (f' - 1) → window_of A' f' window' →
  ack_inv start h' f' (goto id v pc (mkAckState lock' window' limit' (as_workers s))).
Proof.
  intros Hi Hk Hfresh A' Hlim Hok Hh Hhp Hlock Hf Hr Hup Hwin.
  assert (acked (goto id v pc (mkAckState lock' window' limit' (as_workers s))) = A') as HA.
  { rewrite acked_goto by done. done. }
  split; rewrite ?HA; cbn [goto as_lock as_window as_limit as_workers].
  - apply (iv_start _ _ _ _ Hi).
  - pose proof (iv_limit _ _ _ _ Hi). lia.
  - intros i j wi wj Hwi Hwj Heq. destruct (decide (i = id)) as [->|Hni], (decide (j = id)) as [->|Hnj]; [done|..].
    1, 2: rewrite lookup_insert_eq in *; rewrite lookup_insert_ne in * by done; simplify_eq; simpl in *; exfalso;
      unfold keeps_mark in Hk; destruct (as_workers s !! id) as [w0|] eqn:E0;
      [destruct Hk as [Hk _]|apply Hfresh; [done|]; by eexists _, _].
    + apply Hnj. eapply (iv_distinct _ _ _ _ Hi); [done..|]. congruence.
    + apply Hni. eapply (iv_distinct _ _ _ _ Hi); [done..|]. congruence.
    + rewrite !lookup_insert_ne in * by done. by eapply (iv_distinct _ _ _ _ Hi).
  - intros j w Hl. destruct (decide (j = id)) as [->|Hne]; [rewrite lookup_insert_eq in Hl; by simplify_eq|].
    rewrite lookup_insert_ne in Hl by done. destruct (iv_workers _ _ _ _ Hi _ _ Hl) as (H1 & H2 & H3).
    split_and!; [lia|lia|done|].
    assert (acked s ⊆ A') as Hsub by (subst A'; destruct (marked_pc pc); set_solver).
    destruct (aw_pc w); simpl in *; try done; try lia. split; [lia|set_solver].
  - intros j w Hl. destruct (decide (j = id)) as [->|Hne]; [rewrite lookup_insert_eq in Hl; by simplify_eq|].
    rewrite lookup_insert_ne in Hl by done. by apply Hh.
  - done.
  - rewrite Hf. destruct h' as [j|]; [|done]. destruct (decide (j = id)) as [->|Hne]; [by rewrite lookup_insert_eq|].
    by rewrite lookup_insert_ne.
  - done.
  - done.
  - done.
Qed.

(** A step that leaves lock, window and limit alone. *)
Lemma inv_step_local h f s id v pc :
  ack_inv start h f s → keeps_mark s id v pc → (as_workers s !! id = None → ¬ used s v) →
  (if marked_pc pc then v ∈ acked s else True) → worker_ok start (as_limit s) (acked s) (mkWorker v pc) →
  (h ≠ Some id → holds_lock pc = false) →
  (h = Some id → holds_lock pc = true ∧ frontier_pc (as_limit s) pc = f) →
  ack_inv start h f (goto id v pc s).
Proof.
  intros Hi Hk Hfresh Hin Hok Hn Hh.
  assert ((if marked_pc pc then {[v]} ∪ acked s else acked s) = acked s) as HA by (destruct (marked_pc pc); set_solver).
  destruct s as [lk wd lm ws]. cbn [as_limit as_lock as_window as_workers] in *.
  eapply (inv_step h f (mkAckState lk wd lm ws)); cbn [as_limit as_lock as_window as_workers]; try done; rewrite ?HA; try done.
  - intros j w Hne Hl. by apply (iv_holder _ _ _ _ Hi).
  - destruct (decide (h = Some id)) as [He|He].
    + rewrite bool_decide_eq_true_2 by done. by apply Hh.
    + rewrite bool_decide_eq_false_2 by done. by apply Hn.
  - apply (iv_lock _ _ _ _ Hi).
  - rewrite (iv_front _ _ _ _ Hi) at 1. cbn [as_limit as_workers]. destruct h as [j|]; [|done].
    destruct (decide (j = id)) as [->|]; [|done]. destruct (Hh eq_refl) as [_ ->].
    rewrite (iv_front _ _ _ _ Hi). done.
  - apply (iv_range _ _ _ _ Hi).
  - apply (iv_upto _ _ _ _ Hi).
  - apply (iv_window _ _ _ _ Hi).
Qed.

Lemma keeps_mark_same s id v pc pc' : as_workers s !! id = Some (mkWorker v pc) →
  (marked_pc pc = true → marked_pc pc' = true) → keeps_mark s id v pc'.
Proof. intros Hl Hm. unfold keeps_mark. by rewrite Hl. Qed.

Lemma not_holder h f s id v pc : ack_inv start h f s → as_workers s !! id = Some (mkWorker v pc) →
  holds_lock pc = false → h ≠ Some id.
Proof.
  intros Hi Hl Hp ->. pose proof (iv_holder _ _ _ _ Hi _ _ Hl) as Hb. simpl in Hb. rewrite Hp in Hb.
  symmetry in Hb. by apply bool_decide_eq_false in Hb.
Qed.

Lemma marked_acked s id v pc : as_workers s !! id = Some (mkWorker v pc) → marked_pc pc = true → v ∈ acked s.
Proof. intros Hl Hm. apply elem_of_acked. by exists id, (mkWorker v pc). Qed.

(** One lemma per kind of step. *)

Lemma inv_start h f s id v : ack_inv start h f s →
  as_workers s !! id = None → ¬ used s v → start <= v <= as_limit s + WindowSize → v + 3 * WindowSize < 2 ^ 63 →
  ∃ h' f', ack_inv start h' f' (goto id v PCheck s).
Proof.
  intros Hi Hn Hu Hv Hm. pose proof (iv_range _ _ _ _ Hi) as Hrange.
  pose proof (iv_limit _ _ _ _ Hi). destruct (iv_start _ _ _ _ Hi) as [Hs1 _].
  exists h, f. apply inv_step_local; try done.
  - unfold keeps_mark. by rewrite Hn.
  - intros ->. rewrite (iv_front _ _ _ _ Hi), Hn in Hrange. lia.
Qed.

Lemma inv_check h f s id v : ack_inv start h f s →
  as_workers s !! id = Some (mkWorker v PCheck) →
  ∃ h' f', ack_inv start h' f' (goto id v PMark s).
Proof.
  intros Hi Hl.
  exists h, f. pose proof (not_holder _ _ _ _ _ _ Hi Hl eq_refl).
  apply inv_step_local; try done; [by eapply keeps_mark_same|by rewrite Hl|].
  apply (iv_workers _ _ _ _ Hi _ _ Hl).
Qed.

Lemma inv_not_taken h f s id v : ack_inv start h f s →
  as_workers s !! id = Some (mkWorker v PCheck) →
  ack_slot v ∉ as_window s.
Proof.
  intros Hi Hl Htaken. pose proof (iv_range _ _ _ _ Hi) as Hrange.
  exfalso. destruct (inv_unmarked _ _ _ _ _ _ Hi Hl eq_refl) as [Hni Hr].
  apply (iv_window _ _ _ _ Hi) in Htaken as (u & Hu & Hle & Heq).
  apply (ack_slot_inj (as_limit s)) in Heq as ->; [done| |lia].
  pose proof (inv_within _ _ _ Hi u Hu). lia.
Qed.

Lemma inv_mark h f s id v : ack_inv start h f s →
  as_workers s !! id = Some (mkWorker v PMark) →
  ∃ h' f', ack_inv start h' f' (goto id v PTry (set_window ({[ack_slot v]} ∪ as_window s) s)).
Proof.
  intros Hi Hl. pose proof (iv_range _ _ _ _ Hi) as Hrange.
  destruct (inv_unmarked _ _ _ _ _ _ Hi Hl eq_refl) as [Hni Hr]. exists h, f.
  destruct (iv_workers _ _ _ _ Hi _ _ Hl) as (H1 & H2 & _). simpl in *.
  pose proof (not_holder _ _ _ _ _ _ Hi Hl eq_refl) as Hnh.
  eapply (inv_step h f s id v PTry); try done; cbn [marked_pc].
  - by eapply keeps_mark_same.
  - by rewrite Hl.
  - intros j w _ Hlj. by apply (iv_holder _ _ _ _ Hi).
  - by rewrite bool_decide_eq_false_2.
  - apply (iv_lock _ _ _ _ Hi).
  - rewrite (iv_front _ _ _ _ Hi) at 1. destruct h as [j|]; [|done]. rewrite decide_False by congruence. done.
  - intros u Hu2. apply elem_of_union_r, (iv_upto _ _ _ _ Hi). done.
  - apply window_mark; [lia|apply (iv_window _ _ _ _ Hi)].
Qed.

Lemma inv_try_fail h f s id v lk : ack_inv start h f s →
  as_workers s !! id = Some (mkWorker v PTry) → TryLock (as_lock s) = (false, lk) →
  ∃ h' f', ack_inv start h' f' (goto id v PDone (set_lock lk s)).
Proof.
  intros Hi Hl Ht.
  exists h, f. pose proof (not_holder _ _ _ _ _ _ Hi Hl eq_refl).
  assert (lk = as_lock s) as -> by (unfold TryLock in Ht; destruct (as_lock s); congruence).
  replace (goto id v PDone (set_lock (as_lock s) s)) with (goto id v PDone s) by (by destruct s).
  apply inv_step_local; try done.
  - by eapply keeps_mark_same.
  - by rewrite Hl.
  - by eapply marked_acked.
  - apply (iv_workers _ _ _ _ Hi _ _ Hl).
Qed.

Lemma inv_try_ok h f s id v lk : ack_inv start h f s →
  as_workers s !! id = Some (mkWorker v PTry) → TryLock (as_lock s) = (true, lk) →
  ∃ h' f', ack_inv start h' f' (goto id v PLoad (set_lock lk s)).
Proof.
  intros Hi Hl Ht. pose proof (iv_range _ _ _ _ Hi) as Hrange.
  pose proof (not_holder _ _ _ _ _ _ Hi Hl eq_refl) as Hnh.
  assert (lk = true ∧ as_lock s = false) as [-> Hlk] by (unfold TryLock in Ht; destruct (as_lock s); by simplify_eq).
  assert (h = None) as ->.
  { rewrite (iv_lock _ _ _ _ Hi) in Hlk. apply bool_decide_eq_false in Hlk. destruct h; [|done]. exfalso. by apply Hlk. }
  exists (Some id), f. pose proof (marked_acked _ _ _ _ Hl eq_refl) as Hin.
  assert ({[v]} ∪ acked s = acked s) as HA by set_solver.
  eapply (inv_step None f s id v PLoad); try done; cbn [marked_pc]; rewrite ?HA.
  - by eapply keeps_mark_same.
  - by rewrite Hl.
  - apply (iv_workers _ _ _ _ Hi _ _ Hl).
  - intros j w Hj Hlj. rewrite (iv_holder _ _ _ _ Hi _ _ Hlj). rewrite !bool_decide_eq_false_2 by congruence. done.
  - by rewrite bool_decide_eq_true_2.
  - rewrite decide_True by done. rewrite (iv_front _ _ _ _ Hi). done.
  - apply (iv_upto _ _ _ _ Hi).
  - apply (iv_window _ _ _ _ Hi).
Qed.

Lemma inv_load h f s id v : ack_inv start h f s →
  as_workers s !! id = Some (mkWorker v PLoad) →
  ∃ h' f', ack_inv start h' f' (goto id v (PScan (wrap64 (as_limit s + 1)) (ack_slot (as_limit s))) s).
Proof.
  intros Hi Hl. pose proof (inv_limit_bound h f s Hi) as Hmax. pose proof (iv_limit _ _ _ _ Hi) as Hlim.
  destruct (iv_start _ _ _ _ Hi) as [Hs1 _]. pose proof (iv_range _ _ _ _ Hi) as Hrange.
  destruct (inv_frontier_holder _ _ _ _ _ Hi Hl eq_refl) as [-> Hf]. exists (Some id), f. simpl in Hf.
  rewrite wrap64_id by (unfold in_int64, WindowSize in *; lia).
  apply inv_step_local; try done; [by eapply keeps_mark_same|by rewrite Hl|by eapply marked_acked|].
  destruct (iv_workers _ _ _ _ Hi _ _ Hl) as (H1 & H2 & _). split_and!; try done; simpl in *; try lia.
  apply ack_slot_le. lia.
Qed.

Lemma inv_scan_hit h f s id v i b : ack_inv start h f s →
  as_workers s !! id = Some (mkWorker v (PScan i b)) → ack_slot i ∈ as_window s →
  ∃ h' f', ack_inv start h' f' (goto id v (PClear i b) s).
Proof.
  intros Hi Hl Hin. pose proof (iv_range _ _ _ _ Hi) as Hrange.
  destruct (inv_frontier_holder _ _ _ _ _ Hi Hl eq_refl) as [-> Hf]. exists (Some id), f. simpl in Hf.
  apply inv_step_local; try done; [by eapply keeps_mark_same|by rewrite Hl|by eapply marked_acked|].
  destruct (iv_workers _ _ _ _ Hi _ _ Hl) as (H1 & H2 & H3). split_and!; try done; simpl in *; try lia.
  split; [done|]. pose proof (iv_window _ _ _ _ Hi) as Hwin. rewrite Hf in Hwin. subst f.
  destruct (decide (i <= as_limit s + WindowSize)) as [Hle|Hgt].
  - apply (window_hit (as_limit s) _ i (as_window s)); [lia|lia|by eapply inv_within|done|done].
  - exfalso. apply Hwin in Hin as (u & Hu%(inv_within _ _ _ Hi) & ? & _). lia.
Qed.

Lemma inv_scan_stop h f s id v i b : ack_inv start h f s →
  as_workers s !! id = Some (mkWorker v (PScan i b)) →
  ∃ h' f', ack_inv start h' f' (goto id v (PStore i) s).
Proof.
  intros Hi Hl.
  destruct (inv_frontier_holder _ _ _ _ _ Hi Hl eq_refl) as [-> Hf]. exists (Some id), f. simpl in Hf.
  apply inv_step_local; try done; [by eapply keeps_mark_same|by rewrite Hl|by eapply marked_acked|].
  destruct (iv_workers _ _ _ _ Hi _ _ Hl) as (H1 & H2 & H3). done.
Qed.

Lemma inv_clear h f s id v i b : ack_inv start h f s →
  as_workers s !! id = Some (mkWorker v (PClear i b)) →
  ∃ h' f', ack_inv start h' f' (goto id v (PScan (wrap64 (i + 1)) b) (set_window (as_window s ∖ {[ack_slot i]}) s)).
Proof.
  intros Hi Hl. pose proof (inv_limit_bound h f s Hi) as Hmax. pose proof (iv_limit _ _ _ _ Hi) as Hlim.
  destruct (iv_start _ _ _ _ Hi) as [Hs1 _]. pose proof (iv_range _ _ _ _ Hi) as Hrange.
  destruct (inv_frontier_holder _ _ _ _ _ Hi Hl eq_refl) as [-> Hf]. simpl in Hf. subst f.
  destruct (iv_workers _ _ _ _ Hi _ _ Hl) as (H1 & H2 & H3 & HiA). simpl in *.
  pose proof (inv_within _ _ _ Hi i HiA) as Hiw.
  rewrite wrap64_id by (unfold in_int64, WindowSize in *; lia).
  exists (Some id), (i + 1). pose proof (marked_acked _ _ _ _ Hl eq_refl) as Hin.
  assert ({[v]} ∪ acked s = acked s) as HA by set_solver.
  eapply (inv_step (Some id) i s id v (PScan (i + 1) b)); try done; cbn [marked_pc]; rewrite ?HA.
  - by eapply keeps_mark_same.
  - by rewrite Hl.
  - intros j w _ Hlj. by apply (iv_holder _ _ _ _ Hi).
  - by rewrite bool_decide_eq_true_2.
  - apply (iv_lock _ _ _ _ Hi).
  - by rewrite decide_True.
  - lia.
  - intros u Hu. destruct (decide (u = i)) as [->|]; [done|]. apply (iv_upto _ _ _ _ Hi). lia.
  - apply (window_clear (as_limit s)); [lia|lia|by eapply inv_within|apply (iv_window _ _ _ _ Hi)].
Qed.

Lemma inv_store h f s id v i : ack_inv start h f s →
  as_workers s !! id = Some (mkWorker v (PStore i)) →
  ∃ h' f', ack_inv start h' f' (goto id v PUnlock (set_limit (wrap64 (i - 1)) s)).
Proof.
  intros Hi Hl. pose proof (inv_limit_bound h f s Hi) as Hmax. pose proof (iv_limit _ _ _ _ Hi) as Hlim.
  destruct (iv_start _ _ _ _ Hi) as [Hs1 _]. pose proof (iv_range _ _ _ _ Hi) as Hrange.
  destruct (inv_frontier_holder _ _ _ _ _ Hi Hl eq_refl) as [-> Hf]. simpl in Hf. subst f.
  destruct (iv_workers _ _ _ _ Hi _ _ Hl) as (H1 & H2 & _). simpl in *.
  rewrite wrap64_id by (unfold in_int64, WindowSize in *; lia).
  exists (Some id), i. pose proof (marked_acked _ _ _ _ Hl eq_refl) as Hin.
  assert ({[v]} ∪ acked s = acked s) as HA by set_solver.
  eapply (inv_step (Some id) i s id v PUnlock); try done; cbn [marked_pc]; rewrite ?HA; try lia.
  - by eapply keeps_mark_same.
  - by rewrite Hl.
  - split_and!; simpl; lia || done.
  - intros j w _ Hlj. by apply (iv_holder _ _ _ _ Hi).
  - by rewrite bool_decide_eq_true_2.
  - apply (iv_lock _ _ _ _ Hi).
  - rewrite decide_True by done. simpl. lia.
  - apply (iv_upto _ _ _ _ Hi).
  - apply (iv_window _ _ _ _ Hi).
Qed.

Lemma inv_unlock h f s id v : ack_inv start h f s →
  as_workers s !! id = Some (mkWorker v PUnlock) →
  ∃ h' f', ack_inv start h' f' (goto id v PDone (set_lock (Unlock (as_lock s)) s)).
Proof.
  intros Hi Hl. pose proof (iv_range _ _ _ _ Hi) as Hrange.
  destruct (inv_frontier_holder _ _ _ _ _ Hi Hl eq_refl) as [-> Hf]. simpl in Hf.
  exists None, f. pose proof (marked_acked _ _ _ _ Hl eq_refl) as Hin.
  assert ({[v]} ∪ acked s = acked s) as HA by set_solver.
  eapply (inv_step (Some id) f s id v PDone); try done; cbn [marked_pc]; rewrite ?HA.
  - by eapply keeps_mark_same.
  - by rewrite Hl.
  - apply (iv_workers _ _ _ _ Hi _ _ Hl).
  - intros j w Hj Hlj. rewrite (iv_holder _ _ _ _ Hi _ _ Hlj). rewrite !bool_decide_eq_false_2 by congruence. done.
  - apply (iv_upto _ _ _ _ Hi).
  - apply (iv_window _ _ _ _ Hi).
Qed.

Lemma ack_step_inv h f s s' : ack_inv start h f s → ack_step start s s' → ∃ h' f', ack_inv start h' f' s'.
Proof.
  intros Hi Hst. destruct Hst.
  - by eapply inv_start.
  - by eapply inv_check.
  - exfalso. by eapply inv_not_taken.
  - by eapply inv_mark.
  - by eapply inv_try_fail.
  - by eapply inv_try_ok.
  - by eapply inv_load.
  - by eapply inv_scan_hit.
  - by eapply inv_scan_stop.
  - by eapply inv_clear.
  - by eapply inv_store.
  - by eapply inv_unlock.
Qed.

Lemma ack_reachable_inv s : 1 <= start → start + 3 * WindowSize < 2 ^ 63 →
  rtc (ack_step start) (initial_ack start) s → ∃ h f, ack_inv start h f s.
Proof.
  intros Hs Hm Hrun.
  assert (∃ h f, ack_inv start h f (initial_ack start)) as H0.
  { exists None, start. unfold initial_ack, WindowSize in *.
    assert (wrap64 (start - 1) = start - 1) as Hw by (apply wrap64_id; unfold in_int64; lia).
    assert (acked (mkAckState false ∅ (wrap64 (start - 1)) ∅) = ∅) as HA by done.
    split; rewrite ?HA; cbn [as_limit as_lock as_window as_workers]; rewrite ?Hw; unfold WindowSize; try done; try lia.
    - intros v Hv. lia.
    - intros x. split; [set_solver|]. intros (u & Hu & _). set_solver. }
  revert H0. induction Hrun as [|s1 s2 s3 Hst _ IH]; [done|]. intros (h & f & Hi). apply IH.
  by eapply ack_step_inv.
Qed.
End Inv.

Lemma not_used s v : map_Forall (λ _ w, aw_value w ≠ v) (as_workers s) → ¬ used s v.
Proof. intros H (id & w & Hl & Hv). by apply (H id w). Qed.

(** No worker is inside [Acknowledge]. *)
Definition quiescent (s : ack_state) : Prop := map_Forall (λ _ w, aw_pc w = PDone) (as_workers s).

Lemma quiescent_rel start h f s c : ack_inv start h f s → quiescent s →
  as_lock s = false ∧ ack_rel start (acked s) (mkAck c (as_lock s) (as_window s) (as_limit s)).
Proof.
  intros Hi Hq. assert (h = None) as ->.
  { destruct h as [id|]; [|done]. pose proof (iv_front _ _ _ _ Hi) as Hf. pose proof (iv_range _ _ _ _ Hi).
    pose proof (iv_limit _ _ _ _ Hi). destruct (iv_start _ _ _ _ Hi).
    destruct (as_workers s !! id) as [w|] eqn:El; [|simpl in Hf; rewrite El in Hf; lia].
    pose proof (iv_holder _ _ _ _ Hi _ _ El) as Hb. pose proof (Hq _ _ El) as Hpc. simpl in Hb, Hpc. rewrite Hpc in Hb. simpl in Hb.
    by rewrite bool_decide_eq_true_2 in Hb. }
  pose proof (iv_front _ _ _ _ Hi) as Hf. simpl in Hf. subst f. split; [apply (iv_lock _ _ _ _ Hi)|].
  pose proof (inv_limit_bound _ _ _ _ Hi). pose proof (iv_upto _ _ _ _ Hi) as Hup.
  replace (as_limit s + 1 - 1) with (as_limit s) in Hup by lia.
  split; cbn [ac_limit ac_window]; try done.
  - apply (iv_start _ _ _ _ Hi).
  - apply (iv_limit _ _ _ _ Hi).
  - by eapply inv_within.
  - apply (iv_window _ _ _ _ Hi).
  - unfold WindowSize in *. lia.
Qed.

(** ** Properties *)

(** keys become visible in order: after any sequence of acknowledgements that
    repeats none and runs at most a window ahead, no call panics and [Last] is
    the last key of the acknowledged prefix, that is, every key from the start up
    to it has been acknowledged and the next one has not. *)
Theorem ack_last_is_prefix (start : Z) (vs : list Z) :
  1 <= start → start + 3 * WindowSize < 2 ^ 63 → window_ok start ∅ vs →
  ∃ a, ack_all vs (NewAcknowledgedCounter start) = Some (Ok tt, a) ∧ is_last start (list_to_set vs) (Ack_Last a).
Proof.
  intros Hs Hm Hok. destruct (new_ack_rel start Hs Hm) as [Hrel Hlast].
  destruct (ack_all_spec start vs ∅ _ Hok Hrel Hlast eq_refl) as (a & Ha & Hl); [set_solver|done|].
  exists a. by rewrite (right_id_L ∅ (∪)) in Hl.
Qed.

Lemma ack_last_is_prefix_witness :
  ∃ a, ack_all [11; 13; 10; 12] (NewAcknowledgedCounter 10) = Some (Ok tt, a) ∧
    is_last 10 (list_to_set [11; 13; 10; 12]) (Ack_Last a).
Proof.
  refine (ack_last_is_prefix 10 [11; 13; 10; 12] _ _ _); [unfold WindowSize; lia..|].
  eapply (wk_cons 10 _ 9); [apply start_ok_spec; vm_compute; reflexivity|set_solver|unfold WindowSize; lia..|].
  eapply (wk_cons 10 _ 9); [apply start_ok_spec; vm_compute; reflexivity|set_solver|unfold WindowSize; lia..|].
  eapply (wk_cons 10 _ 9); [apply start_ok_spec; vm_compute; reflexivity|set_solver|unfold WindowSize; lia..|].
  eapply (wk_cons 10 _ 11); [apply start_ok_spec; vm_compute; reflexivity|set_solver|unfold WindowSize; lia..|].
  constructor.
Defined.

(** acknowledging always returns: the loop that advances the limit clears a
    slot of the window in each round, so it ends whatever the state is. *)
Theorem acknowledge_returns (value : Z) (a : AcknowledgedCounter) : is_Some (Acknowledge value a).
Proof.
  unfold Acknowledge. case_bool_decide; [by eexists|]. destruct (ac_lock a); cbn [TryLock negb]; [by eexists|].
  destruct (ack_loop_some (size ({[ack_slot value]} ∪ ac_window a)) ({[ack_slot value]} ∪ ac_window a)
    (wrap64 (ac_limit a + 1)) (ack_slot (ac_limit a)) (Nat.le_refl _)) as [[w i] ->]. by eexists.
Qed.


(** A run in which two workers interleave: the second marks its key after the
    first has looked at it, and finds the lock taken. *)
Ltac ack_side :=
  first [vm_compute; reflexivity | discriminate | vm_compute; split; discriminate
        | apply (bool_decide_unpack _); vm_compute; exact I
        | apply not_used, (bool_decide_unpack _); vm_compute; exact I
        | right; apply (bool_decide_unpack _); vm_compute; exact I].
Tactic Notation "ack_move" uconstr(c) := eapply rtc_l; [refine (c _); ack_side|].

Definition lagging : ack_state :=
  mkAckState false {[2]} 1 {[0%nat := mkWorker 1 PDone; 1%nat := mkWorker 2 PDone]}.

Lemma lagging_reachable : rtc (ack_step 1) (initial_ack 1) lagging.
Proof.
  ack_move (AStart 1 _ 0 1 _ _ _).
  ack_move (AStart 1 _ 1 2 _ _ _).
  ack_move (ACheckFree 1 _ 0 1 _).
  ack_move (AMark 1 _ 0 1).
  ack_move (ATryOk 1 _ 0 1 true _).
  ack_move (ALoad 1 _ 0 1).
  ack_move (AScanHit 1 _ 0 1 1 0 _ _).
  ack_move (AClear 1 _ 0 1 1 0).
  ack_move (AScanStop 1 _ 0 1 2 0 _).
  ack_move (ACheckFree 1 _ 1 2 _).
  ack_move (AMark 1 _ 1 2).
  ack_move (ATryFail 1 _ 1 2 true _).
  ack_move (AStore 1 _ 0 1 2).
  ack_move (AUnlock 1 _ 0 1).
  match goal with |- rtc _ ?x ?y => replace x with y; [apply rtc_refl|] end. vm_compute. reflexivity.
Qed.




(** Until then a key can stay hidden although it and all before it have been
    acknowledged and no worker is running. *)
Theorem ack_can_lag :
  ∃ s, rtc (ack_step 1) (initial_ack 1) s ∧ quiescent s ∧ as_limit s + 1 ∈ acked s.
Proof.
  exists lagging. split; [apply lagging_reachable|]. split.
  - unfold quiescent. apply map_Forall_insert_2; [reflexivity|]. apply map_Forall_singleton. reflexivity.
  - apply (bool_decide_unpack _). vm_compute. exact I.
Qed.

(** The panic "Too many unacknowledged insertion keys." does not guard the
    window: acknowledging a key a full window ahead is accepted and makes the
    key one window before it visible, which nobody acknowledged. *)
Theorem ack_too_far_exposes_key :
  ∃ a, Acknowledge (1 + WindowSize) (NewAcknowledgedCounter 1) = Some (Ok tt, a) ∧ Ack_Last a = 1.
Proof. eexists. split; vm_compute; reflexivity. Qed.
