(* ===== verification/Ycsb.v ===== *)
(** * Ycsb: the interfaces of the YCSB framework and its measurements
    (src/go-ycsb-vendor/pkg/ycsb, pkg/measurement, pkg/client/dbwrapper.go)

    A database binding is an instance of [YcsbDB]; [DbWrapper] adds measurements
    to one.  The properties file (github.com/magiconair/properties) and the HDR
    histogram are third-party: the first is the record of its getters, of the
    second only the values recorded are kept. *)

From S2P Require Import Prelude GoLib Storage YcsbUtil Float64 Generators.

Open Scope Z_scope.

(** ** Properties: the typed getters, each with a default *)

Record Properties := mkProperties {
  GetString : string → string → string;
  GetInt : string → Z → Z;
  GetInt64 : string → Z → Z;
  GetFloat64 : string → float64 → float64;
  GetBool : string → bool → bool;
  p_Has : string → bool;
}.

(** ** Databases *)

Abbreviation row := (gmap string bytes).

Record BatchDB (D : Type) := mkBatchDB {
  BatchInsert : string → list string → list row → PM D (option error);
  BatchRead : string → list string → list string → PM D (list row + error);
  BatchUpdate : string → list string → list row → PM D (option error);
  BatchDelete : string → list string → PM D (option error);
}.
Arguments BatchInsert {D}.
Arguments BatchRead {D}.
Arguments BatchUpdate {D}.
Arguments BatchDelete {D}.

(** [ycsb.DB]; [db_batch] is the type assertion [db.(ycsb.BatchDB)]. *)
Class YcsbDB (D : Type) := mkYcsbDB {
  db_Read : string → string → list string → PM D (row + error);
  db_Scan : string → string → Z → list string → PM D (list row + error);
  db_Update : string → string → row → PM D (option error);
  db_Insert : string → string → row → PM D (option error);
  db_Delete : string → string → PM D (option error);
  db_batch : option (BatchDB D);
}.

(** [dbCreators] and [workloadCreators]: registering a name twice panics. *)
Definition RegisterCreator {A} (name : string) (creator : A) (m : gmap string A) : Outcome (gmap string A) :=
  match m !! name with
  | Some _ => Panic ("duplicate register database " +:+ name)
  | None => Ok (<[name := creator]> m)
  end.

(** ** Measurements *)

Record csventry := mkEntryUs { ce_startUs : Z; ce_latencyUs : Z }.

(** The two measurers: raw entries per operation, or the latencies recorded in
    the histogram of each operation. *)
Inductive Measurer :=
  | MCsv (opCsv : gmap string (list csventry))
  | MHistograms (histograms : gmap string (list Z)).

Definition UnixMicro (t : Time) : Z := wrap64 (t_wall t / 1000).
Definition Duration_Microseconds (d : Duration) : Z := Z.quot d 1000.

Definition csvs_Measure (op : string) (start : Time) (lan : Duration) (opCsv : gmap string (list csventry)) :
    gmap string (list csventry) :=
  <[op := default [] (opCsv !! op) ++ [mkEntryUs (UnixMicro start) (Duration_Microseconds lan)]]> opCsv.

(** An operation seen for the first time gets a new histogram. *)
Definition histograms_Measure (op : string) (lan : Duration) (hs : gmap string (list Z)) : gmap string (list Z) :=
  let opM := match hs !! op with Some opM => opM | None => [] end in
  <[op := opM ++ [Duration_Microseconds lan]]> hs.

Definition Measurer_Measure (op : string) (start : Time) (lan : Duration) (m : Measurer) : Measurer :=
  match m with
  | MCsv opCsv => MCsv (csvs_Measure op start lan opCsv)
  | MHistograms hs => MHistograms (histograms_Measure op lan hs)
  end.

(** The lines [Output] of the csv measurer writes, for the order in which [range]
    visits the operations. *)
Definition csvs_Output (order : gmap string (list csventry) → list (string * list csventry))
    (opCsv : gmap string (list csventry)) : list string :=
  "operation,timestamp_us,latency_us" ::
  concat (map (λ oe, map (λ e, oe.1 +:+ "," +:+ itoa (ce_startUs e) +:+ "," +:+ itoa (ce_latencyUs e)) oe.2) (order opCsv)).

(** The globals of package measurement, and the clock. *)
Record YWorld := mkYW {
  yw_clock : nat → Time;
  yw_tick : nat;
  yw_warmUp : bool;
  yw_measurer : Measurer;
}.

Definition InitMeasure (p : Properties) : Outcome (Measurer * bool) :=
  let measurementType := GetString p "measurementtype" "histogram" in
  let warmUp := GetInt64 p "warmuptime" 0 >? 0 in
  if decide (measurementType = "histogram") then Ok (MHistograms ∅, warmUp)
  else if decide (measurementType = "raw" ∨ measurementType = "csv") then Ok (MCsv ∅, warmUp)
  else Panic ("unsupported measurement type: " +:+ measurementType).

Definition EnableWarmUp (b : bool) (w : YWorld) : YWorld :=
  mkYW (yw_clock w) (yw_tick w) b (yw_measurer w).
Definition IsWarmUpFinished (w : YWorld) : bool := negb (yw_warmUp w).

(** [measurement.Measure]. *)
Definition Measure (op : string) (start : Time) (lan : Duration) (w : YWorld) : YWorld :=
  if IsWarmUpFinished w then
    mkYW (yw_clock w) (yw_tick w) (yw_warmUp w) (Measurer_Measure op start lan (yw_measurer w))
  else w.

(** What a workload needs besides the database: the clock and [Measure]. *)
Class Measured (D : Type) := mkMeasured {
  m_Now : PM D Time;
  m_Measure : string → Time → Duration → PM D unit;
}.

Section Wrapper.
Context {D : Type} `{!YcsbDB D}.

(** The wrapped database and the measurement globals. *)
Abbreviation W := (D * YWorld)%type.

Definition on_db {A} (m : PM D A) : PM W A := pfocus fst (λ d s, (d, s.2)) m.

Definition y_now : PM W Time := λ s,
  (Ok (yw_clock s.2 (yw_tick s.2)),
   (s.1, mkYW (yw_clock s.2) (yw_tick s.2 + 1) (yw_warmUp s.2) (yw_measurer s.2))).

Definition y_measure (op : string) (start : Time) (lan : Duration) : PM W unit :=
  pmodify (λ s, (s.1, Measure op start lan s.2)).

#[export] Instance wrapper_measured : Measured W := mkMeasured W y_now y_measure.

(** [measure] of dbwrapper.go: an error is counted under its own name and not in
    the total. *)
Definition measure (start : Time) (op : string) (err : option error) : PM W unit :=
  now <~ y_now ;;
  let lan := Time_Sub now start in
  match err with
  | Some _ => y_measure (op +:+ "_ERROR") start lan
  | None => y_measure op start lan ~; y_measure "TOTAL" start lan
  end.

(** An operation with the deferred [measure].  (A panic also runs the deferred
    call; it then ends the process.) *)
Definition measured {A} (op : string) (err_of : A → option error) (m : PM D A) : PM W A :=
  start <~ y_now ;;
  res <~ on_db m ;;
  measure start op (err_of res) ~;
  pret res.

Definition err_of_sum {A} (r : A + error) : option error := match r with inl _ => None | inr e => Some e end.

(** Batch operations on a database without them: one by one, stopping at the
    first error, and not measured. *)
Fixpoint each_read (table : string) (keys fields : list string) : PM D (option error) :=
  match keys with
  | [] => pret None
  | key :: keys =>
      r <~ db_Read table key fields ;;
      match r with inr err => pret (Some err) | inl _ => each_read table keys fields end
  end.

Fixpoint each_write (op : string → string → row → PM D (option error)) (table : string)
    (keys : list string) (values : list row) : PM D (option error) :=
  match keys with
  | [] => pret None
  | key :: keys =>
      match values with
      | [] => pfail (Panic "index out of range")
      | v :: values =>
          r <~ op table key v ;;
          match r with Some err => pret (Some err) | None => each_write op table keys values end
      end
  end.

Fixpoint each_delete (table : string) (keys : list string) : PM D (option error) :=
  match keys with
  | [] => pret None
  | key :: keys =>
      r <~ db_Delete table key ;;
      match r with Some err => pret (Some err) | None => each_delete table keys end
  end.

Definition wrapper_Read (table key : string) (fields : list string) : PM W (row + error) :=
  measured "READ" err_of_sum (db_Read table key fields).
Definition wrapper_Scan (table startKey : string) (count : Z) (fields : list string) : PM W (list row + error) :=
  measured "SCAN" err_of_sum (db_Scan table startKey count fields).
Definition wrapper_Update (table key : string) (values : row) : PM W (option error) :=
  measured "UPDATE" id (db_Update table key values).
Definition wrapper_Insert (table key : string) (values : row) : PM W (option error) :=
  measured "INSERT" id (db_Insert table key values).
Definition wrapper_Delete (table key : string) : PM W (option error) :=
  measured "DELETE" id (db_Delete table key).

Definition wrapper_BatchRead (table : string) (keys fields : list string) : PM W (list row + error) :=
  match db_batch with
  | Some b => measured "BATCH_READ" err_of_sum (BatchRead b table keys fields)
  | None =>
      r <~ on_db (each_read table keys fields) ;;
      pret (match r with Some err => inr err | None => inl [] end)
  end.

Definition wrapper_BatchInsert (table : string) (keys : list string) (values : list row) : PM W (option error) :=
  match db_batch with
  | Some b => measured "BATCH_INSERT" id (BatchInsert b table keys values)
  | None => on_db (each_write db_Insert table keys values)
  end.

Definition wrapper_BatchUpdate (table : string) (keys : list string) (values : list row) : PM W (option error) :=
  match db_batch with
  | Some b => measured "BATCH_UPDATE" id (BatchUpdate b table keys values)
  | None => on_db (each_write db_Update table keys values)
  end.

Definition wrapper_BatchDelete (table : string) (keys : list string) : PM W (option error) :=
  match db_batch with
  | Some b => measured "BATCH_DELETE" id (BatchDelete b table keys)
  | None => on_db (each_delete table keys)
  end.

#[export] Instance DbWrapper : YcsbDB W :=
  mkYcsbDB W wrapper_Read wrapper_Scan wrapper_Update wrapper_Insert wrapper_Delete
    (Some (mkBatchDB W wrapper_BatchInsert wrapper_BatchRead wrapper_BatchUpdate wrapper_BatchDelete)).
End Wrapper.

(** ** Reasoning about computations that may panic or exit

    [keeps I m Q]: started in a state of [I], [m] never ends the process with
    [util.Fatal]; when it returns, the state is in [I] again and the result in [Q]. *)

Definition keeps {S A} (I : S → Prop) (m : PM S A) (Q : A → Prop) : Prop :=
  ∀ s, I s → match m s with
             | (Ok a, s') => I s' ∧ Q a
             | (Exit _, _) => False
             | _ => True
             end.

Create HintDb keeps.

Section Keeps.
Context {S : Type} (I : S → Prop).

Lemma keeps_ret {A} (a : A) (Q : A → Prop) : Q a → keeps I (pret a) Q.
Proof. by intros HQ s HI. Qed.

Lemma keeps_bind {A B} (m : PM S A) (f : A → PM S B) (Qa : A → Prop) (Qb : B → Prop) :
  keeps I m Qa → (∀ a, Qa a → keeps I (f a) Qb) → keeps I (pbind m f) Qb.
Proof.
  intros Hm Hf s HI. unfold pbind. specialize (Hm s HI). destruct (m s) as [[a|?|?|] s']; [|done..].
  destruct Hm as [HI' Ha]. by apply Hf.
Qed.

Lemma keeps_panic {A} msg (Q : A → Prop) : keeps I (pfail (Panic msg)) Q.
Proof. by intros s HI. Qed.

Lemma keeps_fuel {A} (Q : A → Prop) : keeps I (pfail OutOfFuel) Q.
Proof. by intros s HI. Qed.

Lemma keeps_weaken {A} (m : PM S A) (Q Q' : A → Prop) : keeps I m Q → (∀ a, Q a → Q' a) → keeps I m Q'.
Proof.
  intros Hm HQ s HI. specialize (Hm s HI). destruct (m s) as [[a|?|?|] s']; [|done..]. naive_solver.
Qed.

Lemma keeps_any {A} (m : PM S A) (Q : A → Prop) : keeps I m Q → keeps I m (λ _, True).
Proof. intros Hm. by apply (keeps_weaken m Q). Qed.

(** A computation on a part of the state. *)
Lemma keeps_focus {T A} (J : T → Prop) (view : S → T) (upd : T → S → S) (m : PM T A) (Q : A → Prop) :
  keeps J m Q → (∀ s, I s → J (view s)) → (∀ s t, I s → J t → I (upd t s)) → keeps I (pfocus view upd m) Q.
Proof.
  intros Hm Hv Hu s HI. unfold pfocus. specialize (Hm (view s) (Hv s HI)).
  destruct (m (view s)) as [[a|?|?|] t]; [|done..]. destruct Hm. split; [by apply Hu|done].
Qed.

Lemma keeps_modify (f : S → S) (Q : unit → Prop) : (∀ s, I s → I (f s)) → Q tt → keeps I (pmodify f) Q.
Proof. intros Hf HQ s HI. split; [by apply Hf|done]. Qed.
End Keeps.

#[export] Hint Resolve keeps_panic keeps_fuel : keeps.

(** ** Databases that return what was written

    [holds_values table P d]: whatever [d] returns for a field of a row of [table]
    satisfies [P].  A binding states once that writing values of [P] and any other
    call on the table keep this; the workload is verified against the class. *)

Definition value_pred := string → string → bytes → Prop.

Definition row_ok (P : value_pred) (key : string) (values : row) : Prop :=
  map_Forall (λ field value, P key field value) values.

Lemma row_ok_empty P key : row_ok P key ∅.
Proof. apply map_Forall_empty. Qed.

Lemma row_ok_insert P key field value values :
  P key field value → row_ok P key values → row_ok P key (<[field := value]> values).
Proof. intros. by apply map_Forall_insert_2. Qed.

(** Fields for which [P] has a value: a database may answer anything under a name
    that was never written. *)
Definition known_fields (P : value_pred) (fields : list string) : Prop :=
  ∀ f, f ∈ fields → ∃ key v, P key f v.

Record batch_holds {D} (table : string) (P : value_pred) (I : D → Prop) (b : BatchDB D) : Prop := mkBatchHolds {
  vb_Insert keys values : Forall2 (row_ok P) keys values → keeps I (BatchInsert b table keys values) (λ _, True);
  vb_Read keys fields : keeps I (BatchRead b table keys fields) (λ _, True);
  vb_Update keys values : Forall2 (row_ok P) keys values → keeps I (BatchUpdate b table keys values) (λ _, True);
  vb_Delete keys : keeps I (BatchDelete b table keys) (λ _, True);
}.

Class ValueDB (D : Type) `{!YcsbDB D} := mkValueDB {
  holds_values : string → value_pred → D → Prop;
  vd_Read table P key fields :
    keeps (holds_values table P) (db_Read table key fields) (λ r, known_fields P fields → ∀ v, r = inl v → row_ok P key v);
  vd_Scan table P key n fields : keeps (holds_values table P) (db_Scan table key n fields) (λ _, True);
  vd_Update table P key values :
    row_ok P key values → keeps (holds_values table P) (db_Update table key values) (λ _, True);
  vd_Insert table P key values :
    row_ok P key values → keeps (holds_values table P) (db_Insert table key values) (λ _, True);
  vd_Delete table P key : keeps (holds_values table P) (db_Delete table key) (λ _, True);
  vd_batch b table P : db_batch = Some b → batch_holds table P (holds_values table P) b;
}.

(** Reading the clock and measuring do not touch the values. *)
Class ValueMeasured (D : Type) `{!YcsbDB D} `{!ValueDB D} `{!Measured D} := mkValueMeasured {
  vm_Now table P : keeps (holds_values (D := D) table P) (m_Now (D := D)) (λ _, True);
  vm_Measure table P op start lan :
    keeps (holds_values (D := D) table P) (m_Measure (D := D) op start lan) (λ _, True);
}.

(** The wrapper keeps the promise of the database it wraps. *)
Section WrapperHolds.
Context {D : Type} `{!YcsbDB D} `{!ValueDB D}.

Definition wrapper_holds (table : string) (P : value_pred) (s : D * YWorld) : Prop := holds_values table P s.1.

Lemma wrapper_on_db {A} table P (m : PM D A) (Q : A → Prop) :
  keeps (holds_values table P) m Q → keeps (wrapper_holds table P) (on_db m) Q.
Proof. intros Hm. by apply (keeps_focus _ (holds_values table P)). Qed.

Lemma wrapper_now table P : keeps (wrapper_holds table P) y_now (λ _, True).
Proof. by intros s HI. Qed.

Lemma wrapper_measure table P op start lan : keeps (wrapper_holds table P) (y_measure op start lan) (λ _, True).
Proof. by apply keeps_modify. Qed.

Lemma wrapper_measured_keeps {A} table P op (err_of : A → option error) (m : PM D A) (Q : A → Prop) :
  keeps (holds_values table P) m Q → keeps (wrapper_holds table P) (measured op err_of m) Q.
Proof.
  intros Hm. unfold measured, measure.
  eapply keeps_bind; [apply wrapper_now|]. intros start _.
  eapply keeps_bind; [by apply wrapper_on_db|]. intros a Ha.
  eapply keeps_bind; [|intros ? _; by apply keeps_ret].
  eapply keeps_bind; [apply wrapper_now|]. intros now _.
  destruct (err_of a); [apply wrapper_measure|].
  eapply keeps_bind; [apply wrapper_measure|]. intros ? _. apply wrapper_measure.
Qed.

Lemma each_read_keeps table P keys fields : keeps (holds_values table P) (each_read table keys fields) (λ _, True).
Proof.
  induction keys as [|key keys IH]; [by apply keeps_ret|].
  eapply keeps_bind; [apply vd_Read|]. intros [?|?] _; [done|by apply keeps_ret].
Qed.

Lemma each_write_keeps table P op keys values :
  (∀ key v, row_ok P key v → keeps (holds_values table P) (op table key v) (λ _, True)) →
  Forall2 (row_ok P) keys values → keeps (holds_values table P) (each_write op table keys values) (λ _, True).
Proof.
  intros Hop. induction 1 as [|key v keys values Hv _ IH]; [by apply keeps_ret|].
  eapply keeps_bind; [by apply Hop|]. intros [?|] _; [by apply keeps_ret|done].
Qed.

Lemma each_delete_keeps table P keys : keeps (holds_values table P) (each_delete table keys) (λ _, True).
Proof.
  induction keys as [|key keys IH]; [by apply keeps_ret|].
  eapply keeps_bind; [apply vd_Delete|]. intros [?|] _; [by apply keeps_ret|done].
Qed.

Lemma wrapper_batch_holds table P :
  batch_holds table P (wrapper_holds table P) (mkBatchDB _ wrapper_BatchInsert wrapper_BatchRead wrapper_BatchUpdate wrapper_BatchDelete).
Proof.
  constructor; intros keys; simpl; unfold wrapper_BatchInsert, wrapper_BatchRead, wrapper_BatchUpdate,
    wrapper_BatchDelete; destruct db_batch as [b|] eqn:E.
  - intros. by apply wrapper_measured_keeps, (vb_Insert _ _ _ b (vd_batch b table P E)).
  - intros. apply wrapper_on_db, each_write_keeps; [apply vd_Insert|done].
  - intros. apply wrapper_measured_keeps, (vb_Read _ _ _ b (vd_batch b table P E)).
  - intros. eapply keeps_bind; [apply wrapper_on_db, each_read_keeps|]. intros ? _. by apply keeps_ret.
  - intros. by apply wrapper_measured_keeps, (vb_Update _ _ _ b (vd_batch b table P E)).
  - intros. apply wrapper_on_db, each_write_keeps; [apply vd_Update|done].
  - apply wrapper_measured_keeps, (vb_Delete _ _ _ b (vd_batch b table P E)).
  - apply wrapper_on_db, each_delete_keeps.
Qed.

#[export, refine] Instance wrapper_values : ValueDB (D * YWorld) :=
  mkValueDB _ _ wrapper_holds _ _ _ _ _ _.
Proof.
  - intros. apply wrapper_measured_keeps, vd_Read.
  - intros. apply wrapper_measured_keeps, vd_Scan.
  - intros. by apply wrapper_measured_keeps, vd_Update.
  - intros. by apply wrapper_measured_keeps, vd_Insert.
  - intros. apply wrapper_measured_keeps, vd_Delete.
  - intros b table P [= <-]. apply wrapper_batch_holds.
Defined.

#[export, refine] Instance wrapper_measured_values : ValueMeasured (D * YWorld) := mkValueMeasured _ _ _ _ _ _.
Proof.
  - intros. apply wrapper_now.
  - intros. apply wrapper_measure.
Defined.
End WrapperHolds.

(** ** A reference database

    What the comments of pkg/ycsb/db.go ask of a database: [Insert] stores a row,
    [Update] overwrites the given fields of a row, [Read] returns the fields asked
    for (all of them for an empty list).  It has no scans and no batches. *)

Definition MemDB : Type := gmap (string * string) row.

Definition mem_row (table key : string) (m : MemDB) : row := default ∅ (m !! (table, key)).

Definition select_fields (fields : list string) (values : row) : row :=
  match fields with [] => values | _ => filter (λ fv, fv.1 ∈ fields) values end.

#[export] Instance mem_db : YcsbDB MemDB :=
  mkYcsbDB MemDB
    (λ table key fields m, (Ok (inl (select_fields fields (mem_row table key m))), m))
    (λ table startKey count fields m, (Ok (inr "scan is not supported"), m))
    (λ table key values m, (Ok None, <[(table, key) := values ∪ mem_row table key m]> m))
    (λ table key values m, (Ok None, <[(table, key) := values]> m))
    (λ table key m, (Ok None, delete (table, key) m))
    None.

#[export] Instance mem_measured : Measured MemDB :=
  mkMeasured MemDB (pret (mkTime 0 None)) (λ _ _ _, pret tt).

Lemma row_ok_select P key fields values : row_ok P key values → row_ok P key (select_fields fields values).
Proof.
  intros Hv. unfold select_fields. destruct fields; [done|]. intros f v [Hl _]%map_lookup_filter_Some. by apply Hv.
Qed.

(** The rows of one table. *)
Definition mem_holds (table : string) (P : value_pred) (m : MemDB) : Prop :=
  ∀ key values, m !! (table, key) = Some values → row_ok P key values.

Lemma row_ok_mem (P : value_pred) (table key : string) (m : MemDB) : mem_holds table P m → row_ok P key (mem_row table key m).
Proof.
  intros Hm. unfold mem_row. destruct (m !! (table, key)) as [r|] eqn:E; simpl; [|apply row_ok_empty].
  apply (Hm _ _ E).
Qed.

Lemma mem_holds_insert (P : value_pred) (table key : string) (values : row) (m : MemDB) :
  row_ok P key values → mem_holds table P m → mem_holds table P (<[(table, key) := values]> m).
Proof.
  unfold mem_holds, MemDB. intros Hv Hm key' values' [[[= <-] <-]|[_ Hl]]%lookup_insert_Some; [done|]. by apply Hm.
Qed.

#[export, refine] Instance mem_values : ValueDB MemDB := mkValueDB MemDB _ mem_holds _ _ _ _ _ _.
Proof.
  - intros table P key fields m Hm. simpl. split; [done|]. intros _ v [= <-]. by apply row_ok_select, row_ok_mem.
  - by intros table P key n fields m Hm.
  - intros table P key values Hv m Hm. simpl. split; [|done]. apply mem_holds_insert; [|done].
    apply map_Forall_union_2; [done|by apply row_ok_mem].
  - intros table P key values Hv m Hm. simpl. split; [|done]. by apply mem_holds_insert.
  - intros table P key m Hm. simpl. split; [|done]. intros key' values [_ Hl]%lookup_delete_Some. by apply Hm.
  - done.
Defined.

#[export] Instance mem_measured_values : ValueMeasured MemDB.
Proof. split; by intros. Qed.

(** A database whose inserts always succeed and store the row; the measuring
    wrapper passes them on. *)
Class RowStore (D : Type) `{!YcsbDB D} := mkRowStore {
  rs_rows : D → MemDB;
  rs_Insert table key values d :
    ∃ d', db_Insert table key values d = (Ok None, d') ∧ rs_rows d' = <[(table, key) := values]> (rs_rows d);
}.

#[export, refine] Instance mem_store : RowStore MemDB := mkRowStore MemDB _ id _.
Proof. intros table key values d. by eexists. Defined.

#[export, refine] Instance wrapper_store `{!YcsbDB D} `{!RowStore D} : RowStore (D * YWorld) :=
  mkRowStore (D * YWorld) _ (λ s, rs_rows s.1) _.
Proof.
  intros table key values [d w]. destruct (rs_Insert table key values d) as (d' & Hi & Hr).
  cbn. unfold wrapper_Insert, measured, on_db, pfocus, y_now, measure, y_measure, pmodify, pbind, pret. cbn. rewrite Hi. cbn.
  eexists. split; [reflexivity|]. exact Hr.
Defined.

(** ** Properties of the measurements *)

(** How many measurements an operation has. *)
Definition measured_count (op : string) (m : Measurer) : nat :=
  match m with
  | MCsv opCsv => length (default [] (opCsv !! op))
  | MHistograms hs => length (default [] (hs !! op))
  end.

Lemma measure_count op op' start lan m :
  measured_count op' (Measurer_Measure op start lan m) =
    (measured_count op' m + if decide (op' = op) then 1 else 0)%nat.
Proof.
  destruct m as [c|h]; simpl; unfold csvs_Measure, histograms_Measure; (destruct (decide (op' = op)) as [->|Hne];
    [rewrite lookup_insert_eq; simpl; rewrite length_app; by destruct (_ !! op)|rewrite lookup_insert_ne by done; lia]).
Qed.

Lemma string_app_ne (a b : string) : b ≠ "" → a ≠ a +:+ b.
Proof. intros Hb. induction a as [|c a IH]; simpl; [by intros H; apply Hb|]. intros [= H]. by apply IH. Qed.

Lemma measure_world op' op start lan yw : yw_warmUp yw = false →
  yw_warmUp (Measure op start lan yw) = false ∧
  measured_count op' (yw_measurer (Measure op start lan yw)) =
    (measured_count op' (yw_measurer yw) + if decide (op' = op) then 1 else 0)%nat.
Proof. intros Hw. unfold Measure, IsWarmUpFinished. rewrite Hw. simpl. split; [done|]. apply measure_count. Qed.

(** measuring is transparent and complete: an operation through the wrapper
    answers what the database answers and leaves the database as it would be
    without the wrapper; after the warm-up a successful operation adds one
    measurement under its name and one to the total, a failed one adds one under
    its error name only. *)
Theorem wrapper_measures_once {D A : Type} (op : string) (err_of : A → option error) (m : PM D A) (d : D) (yw : YWorld) :
  yw_warmUp yw = false → op ≠ "TOTAL" → op +:+ "_ERROR" ≠ "TOTAL" →
  let '(o, d') := m d in
  let '(o', (d'', yw')) := measured op err_of m (d, yw) in
  o' = o ∧ d'' = d' ∧
  ∀ a, o = Ok a →
    let count k := (measured_count k (yw_measurer yw') - measured_count k (yw_measurer yw))%nat in
    let failed := negb (is_nil (err_of a)) in
    count "TOTAL" = (if failed then 0 else 1)%nat ∧ count op = (if failed then 0 else 1)%nat ∧
    count (op +:+ "_ERROR") = (if failed then 1 else 0)%nat.
Proof.
  intros Hw Ht He. pose proof (string_app_ne op "_ERROR" ltac:(done)) as Hne.
  destruct (m d) as [o d'] eqn:Em. unfold measured, measure, pbind, y_now, on_db, pfocus, y_measure, pmodify, pret. simpl.
  rewrite Em. destruct o as [a|?|?|]; [|done..]. destruct (err_of a) as [err|] eqn:Eerr; simpl.
  - split; [done|]. split; [done|]. intros a' [= <-]. rewrite Eerr. simpl.
    set (yw0 := mkYW _ _ _ _).
    split_and!; rewrite (proj2 (measure_world _ (op +:+ "_ERROR") _ _ yw0 Hw)); simpl; case_decide; simpl; congruence || lia.
  - split; [done|]. split; [done|]. intros a' [= <-]. rewrite Eerr. simpl.
    set (yw0 := mkYW _ _ _ _). set (lan := Time_Sub _ _).
    destruct (measure_world "TOTAL" op (yw_clock yw (yw_tick yw)) lan yw0 Hw) as [Hw1 _].
    split_and!; rewrite (proj2 (measure_world _ "TOTAL" _ _ _ Hw1));
      rewrite (proj2 (measure_world _ op _ _ yw0 Hw)); simpl; repeat case_decide; simpl; congruence || lia.
Qed.

Lemma wrapper_measures_once_witness :
  let yw := mkYW (λ k, tm (Z.of_nat k)) 0 false (MHistograms ∅) in
  let ins := measured "INSERT" id (db_Insert "usertable" "user1" ∅) (∅ : MemDB, yw) in
  ins.1 = Ok None ∧ ins.2.1 = {[("usertable", "user1") := ∅]} ∧
  measured_count "TOTAL" (yw_measurer ins.2.2) = 1%nat.
Proof.
  cbv zeta.
  pose proof (wrapper_measures_once "INSERT" id (db_Insert "usertable" "user1" ∅) (∅ : MemDB)
    (mkYW (λ k, tm (Z.of_nat k)) 0 false (MHistograms ∅)) eq_refl ltac:(discriminate) ltac:(discriminate)) as H.
  destruct (measured "INSERT" id _ _) as [o [d'' yw']] eqn:E. cbn [db_Insert mem_db] in H.
  destruct H as (Ho & Hd & Hc). split; [exact Ho|]. split; [rewrite Hd; reflexivity|].
  destruct (Hc None eq_refl) as [Ht _].
  change (measured_count "TOTAL" (yw_measurer yw') - 0 = 1)%nat in Ht. cbn [fst snd]. lia.
Defined.

(** Batch operations on a database that has none are not measured at all. *)
Theorem batch_fallback_unmeasured {D} `{!YcsbDB D} (table : string) (keys : list string) (values : list row)
    (d : D) (yw : YWorld) :
  db_batch = None → (wrapper_BatchInsert table keys values (d, yw)).2.2 = yw.
Proof.
  intros Hb. unfold wrapper_BatchInsert, on_db, pfocus. rewrite Hb. simpl.
  by destruct (each_write db_Insert table keys values d).
Qed.
