(* ===== verification/Workload.v ===== *)
(** * Workload: the core workload of the YCSB framework
    (src/go-ycsb-vendor/pkg/workload/core.go)

    Keys, deterministic and random values, inserts with retries, and the
    transactions a worker runs against a database.  A worker's computation acts on
    the workload (its generators), on the worker's random source and field names,
    on the database and on its context.  The buffers of [valuePool] are always
    overwritten from the start, so of the pool only the sizes it refuses are kept:
    [getValueBuffer] panics on a negative size and [putValues] does nothing. *)

From Stdlib Require Import Ascii String.
From S2P Require Import Prelude GoLib Float64 Storage GoParse YcsbUtil Generators AckCounter Ycsb.

Open Scope Z_scope.

(** ** Strings *)

Definition lower_ascii (c : ascii) : ascii :=
  let n := Ascii.nat_of_ascii c in
  if (65 <=? n)%nat && (n <=? 90)%nat then Ascii.ascii_of_nat (n + 32) else c.

Fixpoint ascii_lower (s : string) : string :=
  match s with
  | EmptyString => EmptyString
  | String c s => String (lower_ascii c) (ascii_lower s)
  end.

(** [strings.ToLower]; the Unicode tables are an argument, used only for strings
    that are not ASCII. *)
Definition ToLower (unicode_lower : string → string) (s : string) : string :=
  if is_ascii s then ascii_lower s else unicode_lower s.

Fixpoint repeat_char (c : ascii) (n : nat) : string :=
  match n with O => EmptyString | S n => String c (repeat_char c n) end.

(** [fmt.Sprintf("%0*d", width, n)]: a negative width pads with spaces on the
    right, a width beyond a million is refused. *)
Definition fmt_zero_padded (width n : Z) : string :=
  if (width >? 1000000) || (width <? - 1000000) then "%!(BADWIDTH)" +:+ itoa n
  else if width <? 0 then
    itoa n +:+ repeat_char " "%char (Z.to_nat (- width) - String.length (itoa n))
  else
    let digits := itoa (Z.abs n) in
    let prec := if n <? 0 then width - 1 else width in
    (if n <? 0 then "-" else "") +:+ repeat_char "0"%char (Z.to_nat prec - String.length digits) +:+ digits.

Example fmt_zero_padded_ex :
  map (λ wn, fmt_zero_padded wn.1 wn.2) [(1, 42); (5, 42); (5, -42); (-5, 42); (0, 0); (2000000, 7)] =
    ["42"; "00042"; "-0042"; "42   "; "0"; "%!(BADWIDTH)7"].
Proof. vm_compute. reflexivity. Qed.

(** [strconv.FormatUint(uint64(n), 10)]. *)
Definition FormatUint (n : Z) : string := itoa (wrapu64 n).

(** [util.RandBytes] on a buffer of [n] bytes. *)
Fixpoint RandBytes {R} `{!Rand R} (n : nat) : PM R bytes :=
  match n with
  | O => pret []
  | S n =>
      k <~ (λ r, let '(v, r') := rand_Intn (Z.of_nat (length letters)) r in (Ok v, r')) ;;
      rest <~ RandBytes n ;;
      pret (nth (Z.to_nat k) letters Byte.x00 :: rest)
  end.

(** ** Data *)

Inductive operationType := op_read | op_update | op_insert | op_scan | op_readModifyWrite.

(** The constants are [iota + 1]. *)
Definition op_code (o : operationType) : Z :=
  match o with op_read => 1 | op_update => 2 | op_insert => 3 | op_scan => 4 | op_readModifyWrite => 5 end.

Record core := mkCore {
  c_p : Properties;
  c_table : string;
  c_fieldCount : Z;
  c_fieldNames : list string;
  c_fieldLengthGenerator : Generator;
  c_readAllFields : bool;
  c_writeAllFields : bool;
  c_dataIntegrity : bool;
  c_keySequence : Generator;
  c_operationChooser : Discrete;
  c_keyChooser : Generator;
  c_fieldChooser : Generator;
  c_transactionInsertKeySequence : AcknowledgedCounter;
  c_scanLength : Generator;
  c_orderedInserts : bool;
  c_recordCount : Z;
  c_zeroPadding : Z;
  c_insertionRetryLimit : Z;
  c_insertionRetryInterval : Z;
  c_poolLength : Z;
}.

#[local] Ltac core_upd c :=
  destruct c as [p tb fc fn flg raf waf di ks oc kc fch tks sl oi rc zp irl iri pl].

Definition set_fieldLengthGenerator (g : Generator) (c : core) : core :=
  ltac:(core_upd c; exact (mkCore p tb fc fn g raf waf di ks oc kc fch tks sl oi rc zp irl iri pl)).
Definition set_keySequence (g : Generator) (c : core) : core :=
  ltac:(core_upd c; exact (mkCore p tb fc fn flg raf waf di g oc kc fch tks sl oi rc zp irl iri pl)).
Definition set_operationChooser (d : Discrete) (c : core) : core :=
  ltac:(core_upd c; exact (mkCore p tb fc fn flg raf waf di ks d kc fch tks sl oi rc zp irl iri pl)).
Definition set_keyChooser (g : Generator) (c : core) : core :=
  ltac:(core_upd c; exact (mkCore p tb fc fn flg raf waf di ks oc g fch tks sl oi rc zp irl iri pl)).
Definition set_fieldChooser (g : Generator) (c : core) : core :=
  ltac:(core_upd c; exact (mkCore p tb fc fn flg raf waf di ks oc kc g tks sl oi rc zp irl iri pl)).
Definition set_insertSequence (a : AcknowledgedCounter) (c : core) : core :=
  ltac:(core_upd c; exact (mkCore p tb fc fn flg raf waf di ks oc kc fch a sl oi rc zp irl iri pl)).
Definition set_scanLength (g : Generator) (c : core) : core :=
  ltac:(core_upd c; exact (mkCore p tb fc fn flg raf waf di ks oc kc fch tks g oi rc zp irl iri pl)).

(** The goroutine-local state. *)
Record coreState (R : Type) := mkCoreState { cs_r : R; cs_fieldNames : list string }.
Arguments mkCoreState {R}.
Arguments cs_r {R}.
Arguments cs_fieldNames {R}.

Inductive ctx_error := Canceled | DeadlineExceeded.

(** What one worker acts on; [cw_polls] counts its looks at the context. *)
Record CoreW (R D : Type) := mkCoreW {
  cw_core : core;
  cw_state : coreState R;
  cw_db : D;
  cw_polls : nat;
}.
Arguments mkCoreW {R D}.
Arguments cw_core {R D}.
Arguments cw_state {R D}.
Arguments cw_db {R D}.
Arguments cw_polls {R D}.

Definition InitThread {R} (r : R) (c : core) : coreState R := mkCoreState r (c_fieldNames c).

(** ** Creating the workload *)

Section Create.
Context {R : Type} `{!Rand R}.
Context (Log : float64 → float64) (Pow : float64 → float64 → float64).
Context (unicode_lower : string → string).
(** Reading a file. *)
Context (ReadFile : string → string + error).

Definition plift {S A} (o : Outcome A) : PM S A := λ s, (o, s).

Definition getFieldLengthGenerator (p : Properties) : PM R Generator :=
  let fieldLengthDistribution := GetString p "fieldlengthdistribution" "constant" in
  let fieldLength := GetInt64 p "fieldlength" 100 in
  let fieldLengthHistogram := GetString p "fieldlengthhistogram" "hist.txt" in
  let d := ToLower unicode_lower fieldLengthDistribution in
  if decide (d = "constant") then pret (GConstant (NewConstant fieldLength))
  else if decide (d = "uniform") then pret (GUniform (NewUniform 1 fieldLength))
  else if decide (d = "zipfian") then
    z <~ NewZipfianWithRange Pow 1 fieldLength ZipfianConstant ;; pret (GZipfian z)
  else if decide (d = "histogram") then
    h <~ plift (NewHistogramFromFile fieldLengthHistogram (ReadFile fieldLengthHistogram)) ;; pret (GHistogram h)
  else pfail (Exit ("unknown field length distribution " +:+ fieldLengthDistribution)).

Definition add_if_positive (proportion : float64) (o : operationType) (d : Discrete) : Discrete :=
  if f64_gt proportion f64_zero then Discrete_Add proportion (op_code o) d else d.

Definition createOperationGenerator (p : Properties) : Discrete :=
  let readProportion := GetFloat64 p "readproportion" (f64_lit 95 100) in
  let updateProportion := GetFloat64 p "updateproportion" (f64_lit 5 100) in
  let insertProportion := GetFloat64 p "insertproportion" f64_zero in
  let scanProportion := GetFloat64 p "scanproportion" f64_zero in
  let readModifyWriteProportion := GetFloat64 p "readmodifywriteproportion" f64_zero in
  let d := add_if_positive readProportion op_read NewDiscrete in
  let d := add_if_positive updateProportion op_update d in
  let d := add_if_positive insertProportion op_insert d in
  let d := add_if_positive scanProportion op_scan d in
  add_if_positive readModifyWriteProportion op_readModifyWrite d.

(** The [switch] on the request distribution. *)
Definition createKeyChooser (p : Properties) (requestDistrib : string) (insertStart insertCount recordCount : Z)
    (seq : AcknowledgedCounter) : PM R Generator :=
  let keyrangeLowerBound := insertStart in
  let keyrangeUpperBound := wrap64 (wrap64 (insertStart + insertCount) - 1) in
  if decide (requestDistrib = "uniform") then pret (GUniform (NewUniform keyrangeLowerBound keyrangeUpperBound))
  else if decide (requestDistrib = "sequential") then
    pret (GSequential (NewSequential keyrangeLowerBound keyrangeUpperBound))
  else if decide (requestDistrib = "zipfian") then
    let insertProportion := GetFloat64 p "insertproportion" f64_zero in
    let opCount := GetInt64 p "operationcount" 0 in
    let expectedNewKeys := f64_to_int (f64_mul (f64_mul (f64_of_Z opCount) insertProportion) (f64_of_Z 2)) in
    let keyrangeUpperBound := wrap64 (wrap64 (insertStart + insertCount) + expectedNewKeys) in
    s <~ NewScrambledZipfian Pow keyrangeLowerBound keyrangeUpperBound ZipfianConstant ;; pret (GScrambled s)
  else if decide (requestDistrib = "latest") then
    s <~ NewSkewedLatest Pow (Ack_Last seq) ;; pret (GLatest s)
  else if decide (requestDistrib = "hotspot") then
    let hotsetFraction := GetFloat64 p "hotspotdatafraction" (f64_lit 2 10) in
    let hotopnFraction := GetFloat64 p "hotspotopnfraction" (f64_lit 8 10) in
    pret (GHotspot (NewHotspot keyrangeLowerBound keyrangeUpperBound hotsetFraction hotopnFraction))
  else if decide (requestDistrib = "exponential") then
    let percentile := GetFloat64 p "exponential.percentile" (f64_of_Z 95) in
    let frac := GetFloat64 p "exponential.frac" (f64_lit 8571428571 (10 ^ 10)) in
    pret (GExponential (NewExponential Log percentile (f64_mul (f64_of_Z recordCount) frac)))
  else pfail (Exit ("unknown request distribution " +:+ requestDistrib)).

Definition createScanLength (maxScanLength : Z) (scanLengthDistrib : string) : PM R Generator :=
  if decide (scanLengthDistrib = "uniform") then pret (GUniform (NewUniform 1 maxScanLength))
  else if decide (scanLengthDistrib = "zipfian") then
    z <~ NewZipfianWithRange Pow 1 maxScanLength ZipfianConstant ;; pret (GZipfian z)
  else pfail (Exit ("distribution " +:+ scanLengthDistrib +:+ " not allowed for scan length")).

Definition field_names (n : Z) : list string := map (λ i, "field" +:+ itoa i) (seqZ 0 n).

(** [coreCreator.Create]; the generators' first draws come from the source given. *)
Definition Create (p : Properties) : PM R core :=
  let table := GetString p "table" "usertable" in
  let fieldCount := GetInt64 p "fieldcount" 10 in
  (if fieldCount <? 0 then pfail (Panic "makeslice: len out of range") else pret tt) ~;
  fieldLengthGenerator <~ getFieldLengthGenerator p ;;
  let recordCount := GetInt64 p "recordcount" 0 in
  let recordCount := if recordCount =? 0 then 2 ^ 31 - 1 else recordCount in
  let requestDistrib := GetString p "requestdistribution" "uniform" in
  let maxScanLength := GetInt64 p "maxscanlength" 1000 in
  let scanLengthDistrib := GetString p "scanlengthdistribution" "uniform" in
  let insertStart := GetInt64 p "insertstart" 0 in
  let insertCount := GetInt64 p "insertcount" (wrap64 (recordCount - insertStart)) in
  (if recordCount <? wrap64 (insertStart + insertCount) then
     pfail (Exit ("record count " +:+ itoa recordCount +:+ " must be bigger than insert start " +:+
                  itoa insertStart +:+ " + count " +:+ itoa insertCount))
   else pret tt) ~;
  let zeroPadding := GetInt64 p "zeropadding" 1 in
  let readAllFields := GetBool p "readallfields" true in
  let writeAllFields := GetBool p "writeallfields" false in
  let dataIntegrity := GetBool p "dataintegrity" false in
  let fieldLengthDistribution := GetString p "fieldlengthdistribution" "constant" in
  (if dataIntegrity && negb (bool_decide (fieldLengthDistribution = "constant")) then
     pfail (Exit "must have constant field size to check data integrity")
   else pret tt) ~;
  let orderedInserts := negb (bool_decide (GetString p "insertorder" "hashed" = "hashed")) in
  let seq := NewAcknowledgedCounter recordCount in
  keyChooser <~ createKeyChooser p requestDistrib insertStart insertCount recordCount seq ;;
  scanLength <~ createScanLength maxScanLength scanLengthDistrib ;;
  pret {|
    c_p := p; c_table := table; c_fieldCount := fieldCount; c_fieldNames := field_names fieldCount;
    c_fieldLengthGenerator := fieldLengthGenerator; c_readAllFields := readAllFields;
    c_writeAllFields := writeAllFields; c_dataIntegrity := dataIntegrity;
    c_keySequence := GCounter (NewCounter insertStart);
    c_operationChooser := createOperationGenerator p; c_keyChooser := keyChooser;
    c_fieldChooser := GUniform (NewUniform 0 (wrap64 (fieldCount - 1)));
    c_transactionInsertKeySequence := seq; c_scanLength := scanLength; c_orderedInserts := orderedInserts;
    c_recordCount := recordCount; c_zeroPadding := zeroPadding;
    c_insertionRetryLimit := GetInt64 p "core_workload_insertion_retry_limit" 0;
    c_insertionRetryInterval := GetInt64 p "core_workload_insertion_retry_interval" 3;
    c_poolLength := GetInt64 p "fieldlength" 100;
  |}.
End Create.

(** ** Operations *)

Section Core.
Context {R D : Type} `{!Rand R} `{!YcsbDB D} `{!Measured D}.
Context (Log : float64 → float64) (Pow : float64 → float64 → float64).
Context (unicode_lower : string → string).
(** The order in which [range] visits a map. *)
Context (range : row → list (string * bytes)).
(** The context of the worker, as its successive looks find it. *)
Context (ctx : nat → option ctx_error).
(** Rounds of the one loop of the workload that is not bounded (exponential keys). *)
Context (fuel : nat).

Abbreviation CW := (CoreW R D).

Definition get_core : PM CW core := λ w, (Ok (cw_core w), w).
Definition modify_core (f : core → core) : PM CW unit :=
  pmodify (λ w, mkCoreW (f (cw_core w)) (cw_state w) (cw_db w) (cw_polls w)).
Definition get_fieldNames : PM CW (list string) := λ w, (Ok (cs_fieldNames (cw_state w)), w).
Definition on_rand {A} (m : PM R A) : PM CW A :=
  pfocus (λ w, cs_r (cw_state w))
    (λ r w, mkCoreW (cw_core w) (mkCoreState r (cs_fieldNames (cw_state w))) (cw_db w) (cw_polls w)) m.
Definition on_workDB {A} (m : PM D A) : PM CW A :=
  pfocus cw_db (λ d w, mkCoreW (cw_core w) (cw_state w) d (cw_polls w)) m.
Definition ctx_Err : PM CW (option ctx_error) := λ w,
  (Ok (ctx (cw_polls w)), mkCoreW (cw_core w) (cw_state w) (cw_db w) (cw_polls w + 1)).

(** [c.g.Next(r)] for a generator of the workload. *)
Definition draw (get : core → Generator) (set : Generator → core → core) : PM CW Z :=
  c <~ get_core ;;
  vg <~ on_rand (Generator_Next Log Pow (Ack_Last (c_transactionInsertKeySequence c)) (get c)) ;;
  modify_core (set vg.2) ~;
  pret vg.1.

Definition draw_fieldLength : PM CW Z := draw c_fieldLengthGenerator set_fieldLengthGenerator.
Definition draw_keySequence : PM CW Z := draw c_keySequence set_keySequence.
Definition draw_keyChooser : PM CW Z := draw c_keyChooser set_keyChooser.
Definition draw_fieldChooser : PM CW Z := draw c_fieldChooser set_fieldChooser.
Definition draw_scanLength : PM CW Z := draw c_scanLength set_scanLength.
Definition draw_operation : PM CW Z :=
  c <~ get_core ;;
  vd <~ on_rand (Discrete_Next (c_operationChooser c)) ;;
  modify_core (set_operationChooser vd.2) ~;
  pret vd.1.
Definition draw_insertKey : PM CW Z :=
  c <~ get_core ;;
  let '(v, a) := Ack_Next (c_transactionInsertKeySequence c) in
  modify_core (set_insertSequence a) ~;
  pret v.
Definition acknowledge (keyNum : Z) : PM CW unit :=
  c <~ get_core ;;
  match Acknowledge keyNum (c_transactionInsertKeySequence c) with
  | None => pfail OutOfFuel
  | Some (o, a) => modify_core (set_insertSequence a) ~; plift o
  end.

Definition buildKeyName (c : core) (keyNum : Z) : string :=
  let keyNum := if c_orderedInserts c then keyNum else Hash64 keyNum in
  GetString (c_p c) "keyprefix" "user" +:+ fmt_zero_padded (c_zeroPadding c) keyNum.

(** [c.buildKeyName(n)] inside a computation. *)
Definition key_of (keyNum : Z) : PM CW string := c <~ get_core ;; pret (buildKeyName c keyNum).

(** A random field name: the index is the field chooser's. *)
Definition draw_fieldName : PM CW string :=
  i <~ draw_fieldChooser ;;
  names <~ get_fieldNames ;;
  if (0 <=? i) && (i <? Z.of_nat (length names)) then pret (nth (Z.to_nat i) names "")
  else pfail (Panic "index out of range").

(** The buffer's contents do not matter, only whether it can be had. *)
Definition getValueBuffer (size : Z) : PM CW unit :=
  c <~ get_core ;;
  if c_poolLength c <? 0 then pfail (Panic "makeslice: len out of range")
  else if size <? 0 then pfail (Panic "slice bounds out of range")
  else pret tt.

Definition buildRandomValue : PM CW bytes :=
  size <~ draw_fieldLength ;;
  getValueBuffer size ~;
  on_rand (RandBytes (Z.to_nat size)).

(** The loop of [buildDeterministicValue]: each round adds a colon and at least
    one digit, so [size] rounds are enough ([det_loop_exits]). *)
Fixpoint det_loop (fuel : nat) (size : Z) (b : bytes) : bytes :=
  if Z.of_nat (length b) <? size then
    match fuel with
    | O => b
    | S fuel =>
        let b := b ++ go_bytes ":" in
        det_loop fuel size (b ++ go_bytes (FormatUint (BytesHash64 b)))
    end
  else b.

(** What the buffer holds before it is truncated. *)
Definition deterministic_bytes (size : Z) (key fieldKey : string) : bytes :=
  det_loop (Z.to_nat size) size (go_bytes key ++ go_bytes ":" ++ go_bytes (ToLower unicode_lower fieldKey)).

Definition buildDeterministicValue (key fieldKey : string) : PM CW bytes :=
  size <~ draw_fieldLength ;;
  getValueBuffer (wrap64 (size + 21)) ~;
  let b := deterministic_bytes size key fieldKey in
  if (size <? 0) || (size >? Z.of_nat (length b)) then pfail (Panic "bytes.Buffer: truncation out of range")
  else pret (take (Z.to_nat size) b).

Definition buildValue (key fieldKey : string) : PM CW bytes :=
  c <~ get_core ;;
  if c_dataIntegrity c then buildDeterministicValue key fieldKey else buildRandomValue.

Definition buildSingleValue (key : string) : PM CW row :=
  fieldKey <~ draw_fieldName ;;
  buf <~ buildValue key fieldKey ;;
  pret {[fieldKey := buf]}.

Fixpoint build_fields (key : string) (names : list string) (values : row) : PM CW row :=
  match names with
  | [] => pret values
  | fieldKey :: names =>
      buf <~ buildValue key fieldKey ;;
      build_fields key names (<[fieldKey := buf]> values)
  end.

(** [make(map, c.fieldCount)] takes any count. *)
Definition buildValues (key : string) : PM CW row :=
  names <~ get_fieldNames ;;
  build_fields key names ∅.

(** One field, or all of them with [writeallfields]. *)
Definition build_update (key : string) : PM CW row :=
  c <~ get_core ;;
  if c_writeAllFields c then buildValues key else buildSingleValue key.

Fixpoint verify_fields (key : string) (values : list (string * bytes)) : PM CW unit :=
  match values with
  | [] => pret tt
  | (fieldKey, value) :: values =>
      expected <~ buildDeterministicValue key fieldKey ;;
      if decide (expected = value) then verify_fields key values
      else pfail (Exit "unexpected deterministic value")
  end.

Definition verifyRow (key : string) (values : row) : PM CW unit :=
  if decide (values = ∅) then pret tt
  else verify_fields key (range values).

(** The loop of [DoInsert] and [DoBatchInsert]: the call is repeated until it
    succeeds, the context is cancelled or the retries are used up. *)
Fixpoint retry_loop (fuel : nat) (op : PM D (option error)) (numOfRetries : Z) : PM CW (option error) :=
  err <~ on_workDB op ;;
  match err with
  | None => pret None
  | Some _ =>
      e <~ ctx_Err ;;
      match e with
      | Some Canceled => pret None
      | _ =>
          let numOfRetries := wrap64 (numOfRetries + 1) in
          c <~ get_core ;;
          if numOfRetries >? c_insertionRetryLimit c then pret err
          else
            on_rand Float64 ~;
            match fuel with
            | O => pfail OutOfFuel
            | S fuel => retry_loop fuel op numOfRetries
            end
      end
  end.

Definition with_retries (op : PM D (option error)) : PM CW (option error) :=
  c <~ get_core ;;
  retry_loop (Z.to_nat (c_insertionRetryLimit c)) op 0.

Definition DoInsert : PM CW (option error) :=
  keyNum <~ draw_keySequence ;;
  dbKey <~ key_of keyNum ;;
  values <~ buildValues dbKey ;;
  c <~ get_core ;;
  with_retries (db_Insert (c_table c) dbKey values).

Fixpoint build_batch (n : nat) (key : PM CW Z) (values : string → PM CW row) (ack : Z → PM CW unit) :
    PM CW (list string * list row) :=
  match n with
  | O => pret ([], [])
  | S n =>
      keyNum <~ key ;;
      dbKey <~ key_of keyNum ;;
      vs <~ values dbKey ;;
      ack keyNum ~;
      kvs <~ build_batch n key values ack ;;
      pret (dbKey :: kvs.1, vs :: kvs.2)
  end.

Definition no_ack (_ : Z) : PM CW unit := pret tt.

Definition no_batch : error := "the db does't implement the batchDB interface".

Definition DoBatchInsert (batchSize : Z) : PM CW (option error) :=
  match db_batch with
  | None => pret (Some no_batch)
  | Some batchDB =>
      kvs <~ build_batch (Z.to_nat batchSize) draw_keySequence buildValues no_ack ;;
      c <~ get_core ;;
      with_retries (BatchInsert batchDB (c_table c) kvs.1 kvs.2)
  end.

(** ** Transactions *)

Definition is_exponential (g : Generator) : bool := match g with GExponential _ => true | _ => false end.

(** [for keyNum < 0 { keyNum = Last() - Next(r) }]. *)
Fixpoint exponential_loop (fuel : nat) : PM CW Z :=
  c <~ get_core ;;
  v <~ draw_keyChooser ;;
  let keyNum := wrap64 (Ack_Last (c_transactionInsertKeySequence c) - v) in
  if keyNum <? 0 then
    match fuel with
    | O => pfail OutOfFuel
    | S fuel => exponential_loop fuel
    end
  else pret keyNum.

Definition nextKeyNum : PM CW Z :=
  c <~ get_core ;;
  if is_exponential (c_keyChooser c) then exponential_loop fuel else draw_keyChooser.

(** The fields a read asks for. *)
Definition read_fields : PM CW (list string) :=
  c <~ get_core ;;
  if negb (c_readAllFields c) then fieldName <~ draw_fieldName ;; pret [fieldName]
  else get_fieldNames.

Definition verify_if (keyName : string) (values : row) : PM CW unit :=
  c <~ get_core ;;
  if c_dataIntegrity c then verifyRow keyName values else pret tt.

Definition doTransactionRead : PM CW (option error) :=
  keyNum <~ nextKeyNum ;;
  keyName <~ key_of keyNum ;;
  fields <~ read_fields ;;
  c <~ get_core ;;
  res <~ on_workDB (db_Read (c_table c) keyName fields) ;;
  match res with
  | inr err => pret (Some err)
  | inl values => verify_if keyName values ~; pret None
  end.

(** The body of [doTransactionReadModifyWrite] ... *)
Definition readModifyWrite_body : PM CW (option error) :=
  keyNum <~ nextKeyNum ;;
  keyName <~ key_of keyNum ;;
  fields <~ read_fields ;;
  values <~ build_update keyName ;;
  c <~ get_core ;;
  res <~ on_workDB (db_Read (c_table c) keyName fields) ;;
  match res with
  | inr err => pret (Some err)
  | inl readValues =>
      err <~ on_workDB (db_Update (c_table c) keyName values) ;;
      match err with
      | Some err => pret (Some err)
      | None => verify_if keyName readValues ~; pret None
      end
  end.

(** ... and the deferred measurement around it. *)
Definition doTransactionReadModifyWrite : PM CW (option error) :=
  start <~ on_workDB m_Now ;;
  err <~ readModifyWrite_body ;;
  stop <~ on_workDB m_Now ;;
  on_workDB (m_Measure "READ_MODIFY_WRITE" start (Time_Sub stop start)) ~;
  pret err.

(** The key is acknowledged by a deferred call, whatever [Insert] returns. *)
Definition doTransactionInsert : PM CW (option error) :=
  keyNum <~ draw_insertKey ;;
  dbKey <~ key_of keyNum ;;
  values <~ buildValues dbKey ;;
  c <~ get_core ;;
  err <~ on_workDB (db_Insert (c_table c) dbKey values) ;;
  acknowledge keyNum ~;
  pret err.

Definition doTransactionScan : PM CW (option error) :=
  keyNum <~ nextKeyNum ;;
  startKeyName <~ key_of keyNum ;;
  scanLen <~ draw_scanLength ;;
  fields <~ read_fields ;;
  c <~ get_core ;;
  res <~ on_workDB (db_Scan (c_table c) startKeyName scanLen fields) ;;
  pret (match res with inr err => Some err | inl _ => None end).

Definition doTransactionUpdate : PM CW (option error) :=
  keyNum <~ nextKeyNum ;;
  keyName <~ key_of keyNum ;;
  values <~ build_update keyName ;;
  c <~ get_core ;;
  on_workDB (db_Update (c_table c) keyName values).

(** An operation number outside the constants is a read-modify-write. *)
Definition DoTransaction : PM CW (option error) :=
  operation <~ draw_operation ;;
  if operation =? op_code op_read then doTransactionRead
  else if operation =? op_code op_update then doTransactionUpdate
  else if operation =? op_code op_insert then doTransactionInsert
  else if operation =? op_code op_scan then doTransactionScan
  else doTransactionReadModifyWrite.

(** [make([]string, batchSize)]. *)
Definition make_batch (batchSize : Z) : PM CW unit :=
  if batchSize <? 0 then pfail (Panic "makeslice: len out of range") else pret tt.

Fixpoint next_keys (n : nat) : PM CW (list string) :=
  match n with
  | O => pret []
  | S n =>
      keyNum <~ nextKeyNum ;;
      key <~ key_of keyNum ;;
      keys <~ next_keys n ;;
      pret (key :: keys)
  end.

Definition doBatchTransactionRead (batchSize : Z) (db : BatchDB D) : PM CW (option error) :=
  fields <~ read_fields ;;
  make_batch batchSize ~;
  keys <~ next_keys (Z.to_nat batchSize) ;;
  c <~ get_core ;;
  res <~ on_workDB (BatchRead db (c_table c) keys fields) ;;
  pret (match res with inr err => Some err | inl _ => None end).

(** The keys are acknowledged while the batch is built, before it is inserted. *)
Definition doBatchTransactionInsert (batchSize : Z) (db : BatchDB D) : PM CW (option error) :=
  make_batch batchSize ~;
  kvs <~ build_batch (Z.to_nat batchSize) draw_insertKey build_update acknowledge ;;
  c <~ get_core ;;
  on_workDB (BatchInsert db (c_table c) kvs.1 kvs.2).

Definition doBatchTransactionUpdate (batchSize : Z) (db : BatchDB D) : PM CW (option error) :=
  make_batch batchSize ~;
  kvs <~ build_batch (Z.to_nat batchSize) nextKeyNum build_update no_ack ;;
  c <~ get_core ;;
  on_workDB (BatchUpdate db (c_table c) kvs.1 kvs.2).

(** A batch of read-modify-writes does nothing. *)
Definition DoBatchTransaction (batchSize : Z) : PM CW (option error) :=
  match db_batch with
  | None => pret (Some no_batch)
  | Some batchDB =>
      operation <~ draw_operation ;;
      if operation =? op_code op_read then doBatchTransactionRead batchSize batchDB
      else if operation =? op_code op_insert then doBatchTransactionInsert batchSize batchDB
      else if operation =? op_code op_update then doBatchTransactionUpdate batchSize batchDB
      else if operation =? op_code op_scan then pfail (Panic "The batch mode don't support the scan operation")
      else pret None
  end.
End Core.

(** ** Lemmas *)

(** Field names are ASCII. *)
Lemma is_ascii_app a b : is_ascii (a +:+ b) = is_ascii a && is_ascii b.
Proof. induction a as [|c a IH]; [done|]. simpl. rewrite <- andb_assoc. f_equal. apply IH. Qed.

Lemma pretty_go_ascii x : ∀ s, is_ascii s = true → is_ascii (pretty_N_go x s) = true.
Proof.
  induction (N.lt_wf_0 x) as [x _ IH]. intros s Hs.
  destruct (decide (x = 0)%N) as [->|Hx]; [by rewrite pretty_N_go_0|].
  rewrite pretty_N_go_step by lia. apply IH; [apply N.div_lt; lia|]. simpl.
  rewrite Hs, andb_true_r. unfold pretty_N_char. by repeat case_match.
Qed.

Lemma itoa_ascii i : 0 <= i → is_ascii (itoa i) = true.
Proof.
  intros Hi. unfold itoa. destruct i as [|p|p]; [done| |lia].
  change (pretty (Z.pos p)) with (pretty p). unfold pretty, pretty_positive, pretty, pretty_N.
  rewrite decide_False by done. by apply pretty_go_ascii.
Qed.

Lemma field_names_ascii n f : f ∈ field_names n → is_ascii f = true.
Proof.
  unfold field_names. intros (i & -> & Hi)%list_elem_of_fmap. apply elem_of_seqZ in Hi.
  rewrite is_ascii_app, itoa_ascii by lia. done.
Qed.

Lemma format_nonempty n : (0 < length (go_bytes (FormatUint n)))%nat.
Proof.
  unfold FormatUint, itoa. pose proof (Z.mod_pos_bound n (2 ^ 64) ltac:(lia)) as Hn. fold (wrapu64 n) in Hn.
  destruct (wrapu64 n) as [|p|p]; [simpl; lia| |lia].
  change (pretty (Z.pos p)) with (pretty p). pose proof (pretty_pos_nonempty p) as Hp.
  destruct (pretty p); [done|simpl; lia].
Qed.

(** The loop leaves with its condition false: the fuel is enough. *)
Lemma det_loop_exits fuel size : ∀ b,
  size <= Z.of_nat (length b) + Z.of_nat fuel → size <= Z.of_nat (length (det_loop fuel size b)).
Proof.
  induction fuel as [|fuel IH]; intros b Hb; simpl; (destruct (Z.of_nat (length b) <? size) eqn:E;
    [apply Z.ltb_lt in E|by apply Z.ltb_ge in E]); [lia|].
  apply IH. rewrite !length_app. pose proof (format_nonempty (BytesHash64 (b ++ go_bytes ":"))). simpl. lia.
Qed.

Lemma deterministic_enough lower size key field : size <= Z.of_nat (length (deterministic_bytes lower size key field)).
Proof. unfold deterministic_bytes. apply det_loop_exits. lia. Qed.

(** The generators never end the process. *)
Section GeneratorsKeep.
Context {R : Type} `{!Rand R}.

Lemma float64_keeps : keeps (λ _ : R, True) Float64 (λ _, True).
Proof. intros r _. unfold Float64. by destruct (rand_Float64 r). Qed.

Lemma int63n_keeps n : keeps (λ _ : R, True) (Int63n n) (λ _, True).
Proof. intros r _. unfold Int63n. destruct (n <=? 0); [done|]. by destruct (rand_Int63n n r). Qed.

Lemma rand_bytes_keeps n : keeps (λ _ : R, True) (RandBytes n) (λ b, length b = n).
Proof.
  induction n as [|n IH]; [by apply keeps_ret|]. cbn [RandBytes].
  eapply (keeps_bind _ _ _ (λ _, True)).
  { intros r _. by destruct (rand_Intn (Z.of_nat (length letters)) r). }
  intros k _. eapply keeps_bind; [apply IH|]. intros rest Hr. apply keeps_ret. cbn [length]. by rewrite Hr.
Qed.

#[local] Hint Resolve float64_keeps int63n_keeps : keeps.
#[local] Ltac kauto :=
  repeat first [ apply keeps_ret; done | discriminate | apply keeps_panic | apply keeps_fuel
    | eapply keeps_bind; [solve [eauto with keeps]|intros ? _]
    | progress cbn zeta | case_match; subst
    | eapply (keeps_bind _ _ _ (λ _, True)); [|intros ? _] ].

Lemma zipfian_next_keeps Pow n z : keeps (λ _ : R, True) (Zipfian_next Pow n z) (λ _, True).
Proof. unfold Zipfian_next. kauto. Qed.

#[local] Hint Resolve zipfian_next_keeps : keeps.

Lemma generator_next_keeps Log Pow last g : keeps (λ _ : R, True) (Generator_Next Log Pow last g) (λ _, True).
Proof.
  destruct g; cbn [Generator_Next]; unfold wrap_gen, Sequential_Next, Uniform_Next, Hotspot_Next, Histogram_Next,
    Exponential_Next, Zipfian_Next, ScrambledZipfian_Next, SkewedLatest_Next; kauto.
Qed.

Lemma discrete_next_keeps d : keeps (λ _ : R, True) (Discrete_Next d) (λ _, True).
Proof. unfold Discrete_Next. kauto. Qed.
End GeneratorsKeep.

(** ** Data integrity: what the workload writes is what it expects to read *)

Section Integrity.
Context {R D : Type} `{!Rand R} `{!YcsbDB D} `{!ValueDB D} `{!Measured D} `{!ValueMeasured D}.
Context (Log : float64 → float64) (Pow : float64 → float64 → float64).
Context (unicode_lower : string → string) (range : row → list (string * bytes)).
Context (ctx : nat → option ctx_error) (fuel : nat).
Context (range_ok : ∀ m, range m ≡ₚ map_to_list m).
(** The table, its fields and their constant length. *)
Context (table : string) (names : list string) (n : Z).

Abbreviation CW := (CoreW R D).

(** The workload checks its data, with fields of [n] bytes. *)
Definition checks_data (c : core) : Prop :=
  c_dataIntegrity c = true ∧ c_fieldLengthGenerator c = GConstant (mkConstant n) ∧ c_table c = table.

(** A field of the workload with its deterministic value. *)
Definition deterministic : value_pred := λ key field v,
  field ∈ names ∧ v = take (Z.to_nat n) (deterministic_bytes unicode_lower n key field).

Definition integrity (w : CW) : Prop :=
  checks_data (cw_core w) ∧ cs_fieldNames (cw_state w) = names ∧ holds_values table deterministic (cw_db w).

Lemma get_core_keeps : keeps integrity get_core checks_data.
Proof. by intros w (Hc & Hn & Hd). Qed.

Lemma modify_core_keeps f : (∀ c, checks_data c → checks_data (f c)) → keeps integrity (modify_core f) (λ _, True).
Proof. intros Hf. apply keeps_modify; [|done]. intros w (Hc & Hn & Hd). split; [by apply Hf|done]. Qed.

Lemma on_rand_keeps {A} (m : PM R A) Q : keeps (λ _, True) m Q → keeps integrity (on_rand m) Q.
Proof. intros Hm. by apply (keeps_focus _ (λ _, True)). Qed.

Lemma on_workDB_keeps {A} (m : PM D A) Q : keeps (holds_values table deterministic) m Q → keeps integrity (on_workDB m) Q.
Proof. intros Hm. apply (keeps_focus _ (holds_values table deterministic)); [done|by intros ? (?&?&?)|]. by intros w d (?&?&?). Qed.

Lemma ctx_err_keeps : keeps integrity (ctx_Err ctx) (λ _, True).
Proof. by intros w (?&?&?). Qed.

Lemma get_fieldNames_keeps : keeps integrity get_fieldNames (λ l, l = names).
Proof. by intros w (?&?&?). Qed.

#[local] Hint Resolve get_core_keeps ctx_err_keeps get_fieldNames_keeps on_rand_keeps modify_core_keeps : keeps.
#[local] Hint Resolve generator_next_keeps discrete_next_keeps float64_keeps rand_bytes_keeps : keeps.

(** Step over the next call, keeping what is known of its result. *)
#[local] Ltac kstep H := eapply keeps_bind; [solve [eauto with keeps]|intros ? H; cbn beta in H].
#[local] Ltac kcore := eapply keeps_bind; [apply get_core_keeps|intros ? (_ & _ & Ht); rewrite ?Ht; clear Ht].
#[local] Ltac kret := apply keeps_ret; try done.

Lemma draw_keeps get set : (∀ g c, checks_data c → checks_data (set g c)) →
  keeps integrity (draw Log Pow get set) (λ _, True).
Proof. intros Hs. unfold draw. kstep Hc. kstep Hv. kstep Hm. kret. Qed.

Lemma draw_fieldLength_keeps : keeps integrity (draw_fieldLength Log Pow) (λ v, v = n).
Proof.
  intros w [(Hd & Hl & Ht) [Hn Hh]]. unfold draw_fieldLength, draw, pbind, get_core, on_rand, pfocus, modify_core, pmodify.
  rewrite Hl. simpl. split; [|done]. split; [by destruct (cw_core w)|done].
Qed.

Lemma draw_keySequence_keeps : keeps integrity (draw_keySequence Log Pow) (λ _, True).
Proof. apply draw_keeps. by intros g [] (H1 & H2 & H3). Qed.
Lemma draw_keyChooser_keeps : keeps integrity (draw_keyChooser Log Pow) (λ _, True).
Proof. apply draw_keeps. by intros g [] (H1 & H2 & H3). Qed.
Lemma draw_fieldChooser_keeps : keeps integrity (draw_fieldChooser Log Pow) (λ _, True).
Proof. apply draw_keeps. by intros g [] (H1 & H2 & H3). Qed.
Lemma draw_scanLength_keeps : keeps integrity (draw_scanLength Log Pow) (λ _, True).
Proof. apply draw_keeps. by intros g [] (H1 & H2 & H3). Qed.

Lemma draw_operation_keeps : keeps integrity draw_operation (λ _, True).
Proof.
  unfold draw_operation. kstep Hc. kstep Hv. eapply keeps_bind; [apply modify_core_keeps|intros ? _; kret].
  by intros [] (H1 & H2 & H3).
Qed.

Lemma set_insertSequence_keeps a : keeps integrity (modify_core (set_insertSequence a)) (λ _, True).
Proof. apply modify_core_keeps. by intros [] (H1 & H2 & H3). Qed.

#[local] Hint Resolve draw_operation_keeps set_insertSequence_keeps draw_fieldLength_keeps : keeps.
#[local] Hint Resolve draw_keySequence_keeps draw_keyChooser_keeps draw_fieldChooser_keeps draw_scanLength_keeps : keeps.

Lemma draw_insertKey_keeps : keeps integrity draw_insertKey (λ _, True).
Proof. unfold draw_insertKey. kstep Hc. destruct (Ack_Next _) as [v a']. kstep Hm. kret. Qed.

Lemma acknowledge_keeps keyNum : keeps integrity (acknowledge keyNum) (λ _, True).
Proof.
  unfold acknowledge. kstep Hc. unfold Acknowledge.
  case_bool_decide; [kstep Hm; apply keeps_panic|].
  destruct (TryLock _) as [[|] lock]; simpl; [|kstep Hm; kret].
  destruct (ack_loop _ _ _ _) as [[??]|]; [kstep Hm; kret|apply keeps_fuel].
Qed.

Lemma key_of_keeps keyNum : keeps integrity (key_of keyNum) (λ _, True).
Proof. unfold key_of. kstep Hc. kret. Qed.

Lemma draw_fieldName_keeps : keeps integrity (draw_fieldName Log Pow) (λ f, f ∈ names).
Proof.
  unfold draw_fieldName. kstep Hi. kstep Hn. subst. destruct (_ && _) eqn:E; [|apply keeps_panic]. kret.
  apply andb_true_iff in E as [E1%Z.leb_le E2%Z.ltb_lt]. apply list_elem_of_In, nth_In. lia.
Qed.

Lemma getValueBuffer_keeps size : keeps integrity (getValueBuffer size) (λ _, True).
Proof.
  unfold getValueBuffer. kstep Hc. destruct (_ <? 0); [apply keeps_panic|].
  destruct (_ <? 0); [apply keeps_panic|kret].
Qed.

#[local] Hint Resolve draw_insertKey_keeps acknowledge_keeps key_of_keeps draw_fieldName_keeps getValueBuffer_keeps : keeps.

(** The value [buildDeterministicValue] returns. *)
Definition expected_value (key field : string) : bytes :=
  take (Z.to_nat n) (deterministic_bytes unicode_lower n key field).

Lemma buildDeterministicValue_keeps key field :
  keeps integrity (buildDeterministicValue Log Pow unicode_lower key field) (λ v, v = expected_value key field).
Proof.
  unfold buildDeterministicValue. kstep Hsize. subst. kstep Hb. cbv zeta.
  destruct (_ || _); [apply keeps_panic|]. kret.
Qed.

Lemma buildValue_keeps key field : field ∈ names →
  keeps integrity (buildValue Log Pow unicode_lower key field) (deterministic key field).
Proof.
  intros Hf. unfold buildValue. kstep Hc. rewrite (proj1 Hc).
  eapply keeps_weaken; [apply buildDeterministicValue_keeps|]. intros v ->. by split.
Qed.

Lemma build_fields_keeps key fields : Forall (λ f, f ∈ names) fields → ∀ values, row_ok deterministic key values →
  keeps integrity (build_fields Log Pow unicode_lower key fields values) (row_ok deterministic key).
Proof.
  induction 1 as [|name fields Hn _ IH]; intros values Hv; [kret|]. cbn [build_fields].
  eapply keeps_bind; [by apply buildValue_keeps|]. intros buf Hb. apply IH. by apply row_ok_insert.
Qed.

(** The rows the workload writes. *)
Abbreviation built := (row_ok deterministic).

Lemma buildValues_keeps key : keeps integrity (buildValues Log Pow unicode_lower key) (built key).
Proof.
  unfold buildValues. kstep Hn. subst. apply build_fields_keeps; [by apply Forall_forall|apply row_ok_empty].
Qed.

Lemma buildSingleValue_keeps key : keeps integrity (buildSingleValue Log Pow unicode_lower key) (built key).
Proof.
  unfold buildSingleValue. kstep Hf. eapply keeps_bind; [by apply buildValue_keeps|]. intros buf Hb. kret.
  by apply row_ok_insert, row_ok_empty.
Qed.

#[local] Hint Resolve buildValues_keeps buildSingleValue_keeps : keeps.

Lemma build_update_keeps key : keeps integrity (build_update Log Pow unicode_lower key) (built key).
Proof. unfold build_update. kstep Hc. destruct (c_writeAllFields _); eauto with keeps. Qed.

Lemma verify_fields_keeps key l : Forall (λ fv, deterministic key fv.1 fv.2) l →
  keeps integrity (verify_fields Log Pow unicode_lower key l) (λ _, True).
Proof.
  induction 1 as [|[field value] l Hf _ IH]; [kret|]. cbn [verify_fields].
  eapply keeps_bind; [apply buildDeterministicValue_keeps|]. intros expected He.
  rewrite decide_True; [done|]. destruct Hf as [_ Hf]. simpl in Hf. by rewrite Hf.
Qed.

Lemma verifyRow_keeps key values : built key values →
  keeps integrity (verifyRow Log Pow unicode_lower range key values) (λ _, True).
Proof.
  intros Hb. unfold verifyRow. case_decide; [kret|]. apply verify_fields_keeps.
  rewrite range_ok. apply Forall_forall. intros [field value] Hin. by apply elem_of_map_to_list, Hb in Hin.
Qed.

Lemma verify_if_keeps key values : built key values →
  keeps integrity (verify_if Log Pow unicode_lower range key values) (λ _, True).
Proof.
  intros Hb. unfold verify_if. kstep Hc. destruct (c_dataIntegrity _); [by apply verifyRow_keeps|kret].
Qed.

#[local] Hint Resolve build_update_keeps verify_if_keeps : keeps.
#[local] Hint Extern 2 (keeps _ (on_workDB _) _) => apply on_workDB_keeps : keeps.
#[local] Hint Resolve vd_Read vd_Scan vd_Update vd_Insert vm_Now vm_Measure : keeps.

Lemma retry_loop_keeps op rounds : keeps (holds_values table deterministic) op (λ _, True) →
  ∀ k, keeps integrity (retry_loop ctx rounds op k) (λ _, True).
Proof.
  intros Hop. induction rounds as [|rounds IH]; intros k; cbn [retry_loop];
    (eapply keeps_bind; [apply on_workDB_keeps, Hop|]); intros [err|] _; try kret;
    kstep He; destruct a as [[|]|]; try kret; kstep Hc; destruct (_ >? _); try kret; kstep Hf;
    (apply keeps_fuel || apply IH).
Qed.

Lemma with_retries_keeps op : keeps (holds_values table deterministic) op (λ _, True) →
  keeps integrity (with_retries ctx op) (λ _, True).
Proof. intros Hop. unfold with_retries. kstep Hc. by apply retry_loop_keeps. Qed.

Lemma DoInsert_keeps : keeps integrity (DoInsert Log Pow unicode_lower ctx) (λ _, True).
Proof.
  unfold DoInsert. kstep Hk. kstep Hn. kstep Hv. kcore.
  apply with_retries_keeps. by apply vd_Insert.
Qed.

(** A batch: as many rows as keys, each row built for its key. *)
Lemma build_batch_keeps m key values ack : keeps integrity key (λ _, True) →
  (∀ k, keeps integrity (values k) (built k)) → (∀ k, keeps integrity (ack k) (λ _, True)) →
  keeps integrity (build_batch m key values ack) (λ kvs, Forall2 built kvs.1 kvs.2).
Proof.
  intros Hkey Hval Hack. induction m as [|m IH]; cbn [build_batch]; [kret|].
  eapply keeps_bind; [apply Hkey|]. intros k _. kstep Hn. eapply keeps_bind; [apply Hval|]. intros vs Hvs.
  eapply keeps_bind; [apply Hack|]. intros ? _. eapply keeps_bind; [apply IH|]. intros kvs Hkvs. kret. by constructor.
Qed.

Lemma no_ack_keeps k : keeps integrity (no_ack k) (λ _, True).
Proof. kret. Qed.

Lemma DoBatchInsert_keeps m : keeps integrity (DoBatchInsert Log Pow unicode_lower ctx m) (λ _, True).
Proof.
  unfold DoBatchInsert. destruct db_batch as [b|] eqn:Eb; [|kret].
  eapply keeps_bind; [apply build_batch_keeps; eauto using no_ack_keeps with keeps|]. intros kvs Hkvs.
  kcore. by apply with_retries_keeps, (vb_Insert _ _ _ b (vd_batch b table deterministic Eb)).
Qed.

Lemma exponential_loop_keeps rounds : keeps integrity (exponential_loop Log Pow rounds) (λ _, True).
Proof.
  induction rounds as [|rounds IH]; cbn [exponential_loop]; kstep Hc; kstep Hv; (destruct (_ <? 0); [|kret]);
    [apply keeps_fuel|apply IH].
Qed.

Lemma nextKeyNum_keeps : keeps integrity (nextKeyNum Log Pow fuel) (λ _, True).
Proof.
  unfold nextKeyNum. kstep Hc. destruct (is_exponential _); [apply exponential_loop_keeps|eauto with keeps].
Qed.

Lemma read_fields_keeps : keeps integrity (read_fields Log Pow) (known_fields deterministic).
Proof.
  assert (∀ fields, (∀ f, f ∈ fields → f ∈ names) → known_fields deterministic fields) as Hk.
  { intros fields Hin f Hf. eexists "", _. split; [by apply Hin|reflexivity]. }
  unfold read_fields. kstep Hc. destruct (negb _).
  - kstep Hf. kret. apply Hk. intros f. rewrite list_elem_of_singleton. by intros ->.
  - eapply keeps_weaken; [apply get_fieldNames_keeps|]. intros l ->. by apply Hk.
Qed.

#[local] Hint Resolve nextKeyNum_keeps read_fields_keeps DoInsert_keeps DoBatchInsert_keeps : keeps.

Lemma db_read_keeps key fields : known_fields deterministic fields →
  keeps integrity (on_workDB (db_Read table key fields)) (λ r, ∀ v, r = inl v → built key v).
Proof.
  intros Hk. eapply keeps_weaken; [apply on_workDB_keeps, vd_Read|]. intros r Hr. by apply Hr.
Qed.

Lemma db_update_keeps key values : built key values →
  keeps integrity (on_workDB (db_Update table key values)) (λ _, True).
Proof. intros Hb. by apply on_workDB_keeps, vd_Update. Qed.

#[local] Hint Resolve db_read_keeps db_update_keeps : keeps.

Lemma doTransactionRead_keeps : keeps integrity (doTransactionRead Log Pow unicode_lower range fuel) (λ _, True).
Proof.
  unfold doTransactionRead. kstep Hk. kstep Hn. kstep Hf. kcore. kstep Hr.
  destruct a3 as [values|err]; [|kret]. specialize (Hr values eq_refl). kstep Hv. kret.
Qed.

Lemma readModifyWrite_keeps :
  keeps integrity (doTransactionReadModifyWrite Log Pow unicode_lower range fuel) (λ _, True).
Proof.
  unfold doTransactionReadModifyWrite. kstep Hs.
  eapply (keeps_bind _ _ _ (λ _, True)); [|intros err _; kstep Ht; kstep Hm; kret].
  unfold readModifyWrite_body. kstep Hk. kstep Hn. kstep Hf. kstep Hb. kcore. kstep Hr.
  destruct a5 as [values|err]; [|kret]. specialize (Hr values eq_refl). kstep Hu. destruct a5; [kret|].
  kstep Hv. kret.
Qed.

Lemma doTransactionInsert_keeps : keeps integrity (doTransactionInsert Log Pow unicode_lower) (λ _, True).
Proof.
  unfold doTransactionInsert. kstep Hk. kstep Hn. kstep Hb. kcore.
  eapply keeps_bind; [by apply on_workDB_keeps, vd_Insert|]. intros err _. kstep Ha. kret.
Qed.

Lemma doTransactionScan_keeps : keeps integrity (doTransactionScan Log Pow fuel) (λ _, True).
Proof. unfold doTransactionScan. kstep Hk. kstep Hn. kstep Hl. kstep Hf. kcore. kstep Hr. kret. Qed.

Lemma doTransactionUpdate_keeps : keeps integrity (doTransactionUpdate Log Pow unicode_lower fuel) (λ _, True).
Proof. unfold doTransactionUpdate. kstep Hk. kstep Hn. kstep Hb. kcore. eauto with keeps. Qed.

#[local] Hint Resolve doTransactionRead_keeps doTransactionUpdate_keeps doTransactionInsert_keeps : keeps.
#[local] Hint Resolve doTransactionScan_keeps readModifyWrite_keeps : keeps.

Lemma DoTransaction_keeps : keeps integrity (DoTransaction Log Pow unicode_lower range fuel) (λ _, True).
Proof. unfold DoTransaction. kstep Ho. repeat case_match; eauto with keeps. Qed.

Lemma make_batch_keeps m : keeps integrity (make_batch m) (λ _, True).
Proof. unfold make_batch. destruct (m <? 0); [apply keeps_panic|kret]. Qed.

Lemma next_keys_keeps m : keeps integrity (next_keys Log Pow fuel m) (λ _, True).
Proof.
  induction m as [|m IH]; cbn [next_keys]; [kret|]. kstep Hk. kstep Hn.
  eapply keeps_bind; [apply IH|]. intros ? _. kret.
Qed.

#[local] Hint Resolve make_batch_keeps next_keys_keeps : keeps.

Lemma DoBatchTransaction_keeps m : keeps integrity (DoBatchTransaction Log Pow unicode_lower fuel m) (λ _, True).
Proof.
  unfold DoBatchTransaction. destruct db_batch as [b|] eqn:Eb; [|kret]. pose proof (vd_batch b table deterministic Eb) as Hb.
  kstep Ho. repeat case_match; try kret; try apply keeps_panic.
  - unfold doBatchTransactionRead. kstep Hf. kstep Hm. kstep Hk. kcore.
    eapply keeps_bind; [apply on_workDB_keeps, (vb_Read _ _ _ b Hb)|]. intros ? _. kret.
  - unfold doBatchTransactionInsert. kstep Hm.
    eapply keeps_bind; [apply build_batch_keeps; eauto with keeps|]. intros kvs Hkvs. kcore.
    by apply on_workDB_keeps, (vb_Insert _ _ _ b Hb).
  - unfold doBatchTransactionUpdate. kstep Hm.
    eapply keeps_bind; [apply build_batch_keeps; eauto using no_ack_keeps with keeps|]. intros kvs Hkvs. kcore.
    by apply on_workDB_keeps, (vb_Update _ _ _ b Hb).
Qed.
End Integrity.

(** What [Create] gives a workload. *)
Definition p_recordCount (p : Properties) : Z :=
  let recordCount := GetInt64 p "recordcount" 0 in
  if recordCount =? 0 then 2 ^ 31 - 1 else recordCount.
Definition p_insertStart (p : Properties) : Z := GetInt64 p "insertstart" 0.
Definition p_insertCount (p : Properties) : Z := GetInt64 p "insertcount" (wrap64 (p_recordCount p - p_insertStart p)).

Lemma create_spec {R} `{!Rand R} Log Pow lower ReadFile p (r r' : R) c :
  Create Log Pow lower ReadFile p r = (Ok c, r') →
  c_p c = p ∧ c_table c = GetString p "table" "usertable" ∧
  c_fieldNames c = field_names (GetInt64 p "fieldcount" 10) ∧
  c_dataIntegrity c = GetBool p "dataintegrity" false ∧
  c_keySequence c = GCounter (NewCounter (GetInt64 p "insertstart" 0)) ∧
  (∃ r1 r2, createKeyChooser Log Pow p (GetString p "requestdistribution" "uniform") (p_insertStart p)
     (p_insertCount p) (p_recordCount p) (NewAcknowledgedCounter (p_recordCount p)) r1 = (Ok (c_keyChooser c), r2)) ∧
  (GetBool p "dataintegrity" false = true → checks_data (GetString p "table" "usertable") (GetInt64 p "fieldlength" 100) c).
Proof.
  unfold Create, pbind at 1. destruct (GetInt64 p "fieldcount" 10 <? 0); [done|]. simpl.
  unfold pbind at 1. destruct (getFieldLengthGenerator Pow lower ReadFile p r) as [[g|?|?|] r1] eqn:Eg; [|done..].
  unfold pbind at 1. destruct (_ <? _); [done|]. simpl.
  unfold pbind at 1. destruct (_ && _) eqn:Ed; [done|]. simpl.
  unfold pbind at 1. destruct (createKeyChooser _ _ _ _ _ _ _ _ r1) as [[kc|?|?|] r2] eqn:Ek; [|done..].
  unfold pbind at 1. destruct (createScanLength _ _ _ r2) as [[sl|?|?|] r3]; [|done..].
  unfold pret. intros [= <- _]. simpl. split_and!; try done; [by exists r1, r2|]. intros Hd. split; [done|]. simpl.
  rewrite Hd in Ed. simpl in Ed. apply negb_false_iff, bool_decide_eq_true in Ed.
  revert Eg. unfold getFieldLengthGenerator. rewrite Ed. vm_compute (ToLower lower "constant").
  rewrite decide_True by done. by intros [= <- _].
Qed.

(** ** Loading the reference database *)

Section Load.
Context {R D : Type} `{!Rand R} `{!YcsbDB D} `{!RowStore D}.
Context (Log : float64 → float64) (Pow : float64 → float64 → float64).
Context (unicode_lower : string → string) (ctx : nat → option ctx_error).

(** The parts of the workload an insert does not change. *)
Definition same_names (c c' : core) : Prop :=
  c_p c' = c_p c ∧ c_table c' = c_table c ∧ c_orderedInserts c' = c_orderedInserts c ∧
  c_zeroPadding c' = c_zeroPadding c.

Lemma same_names_key c c' k : same_names c c' → buildKeyName c' k = buildKeyName c k.
Proof. intros (H1 & _ & H3 & H4). unfold buildKeyName. by rewrite H1, H3, H4. Qed.

(** Between the draw of the key and the call of the database. *)
Record building (c : core) (ks : Generator) (names : list string) (m : D) (w : CoreW R D) : Prop := {
  bu_core : same_names c (cw_core w);
  bu_seq : c_keySequence (cw_core w) = ks;
  bu_names : cs_fieldNames (cw_state w) = names;
  bu_db : cw_db w = m;
}.

Section Building.
Context (c : core) (ks : Generator) (names : list string) (m : D).
Abbreviation B := (building c ks names m).

Lemma building_on_rand {A} (pm : PM R A) Q : keeps (λ _, True) pm Q → keeps B (on_rand pm) Q.
Proof. intros Hm. apply (keeps_focus _ (λ _, True)); [done|done|]. intros w r [] _. by constructor. Qed.

Lemma building_core : keeps B get_core (same_names c).
Proof. by intros w [H1 H2 H3 H4]. Qed.

Lemma building_fieldLength : keeps B (draw_fieldLength Log Pow) (λ _, True).
Proof.
  unfold draw_fieldLength, draw. eapply keeps_bind; [apply building_core|]. intros c' _.
  eapply keeps_bind; [apply building_on_rand, generator_next_keeps|]. intros vg _.
  eapply (keeps_bind _ _ _ (λ _, True)); [|intros; by apply keeps_ret]. apply keeps_modify; [|done].
  intros [[] st db k] [H1 H2 H3 H4]. by constructor.
Qed.

Lemma building_buffer size : keeps B (getValueBuffer size) (λ _, True).
Proof.
  unfold getValueBuffer. eapply keeps_bind; [apply building_core|]. intros c' _.
  destruct (_ <? 0); [apply keeps_panic|]. destruct (_ <? 0); [apply keeps_panic|by apply keeps_ret].
Qed.

Lemma building_value key field : keeps B (buildValue Log Pow unicode_lower key field) (λ _, True).
Proof.
  unfold buildValue, buildDeterministicValue, buildRandomValue.
  eapply keeps_bind; [apply building_core|]. intros c' _. destruct (c_dataIntegrity c');
    (eapply keeps_bind; [apply building_fieldLength|]; intros size _);
    (eapply keeps_bind; [apply building_buffer|]; intros ? _).
  - cbv zeta. destruct (_ || _); [apply keeps_panic|by apply keeps_ret].
  - eapply keeps_any, building_on_rand, rand_bytes_keeps.
Qed.

Lemma building_fields key fields : ∀ values,
  keeps B (build_fields Log Pow unicode_lower key fields values) (λ r, dom r = list_to_set fields ∪ dom values).
Proof.
  induction fields as [|f fields IH]; intros values; cbn [build_fields]; [apply keeps_ret; set_solver|].
  eapply keeps_bind; [apply building_value|]. intros buf _.
  eapply keeps_weaken; [apply IH|]. intros r ->. rewrite dom_insert_L. set_solver.
Qed.

Lemma building_values key : keeps B (buildValues Log Pow unicode_lower key) (λ r, dom r = list_to_set names).
Proof.
  unfold buildValues. eapply (keeps_bind _ _ _ (λ l, l = names)); [by intros w [H1 H2 <- H4]|].
  intros l ->. eapply keeps_weaken; [apply building_fields|]. intros r ->. set_solver.
Qed.
End Building.

(** The key sequence is a counter. *)
Lemma draw_counter v (w : CoreW R D) :
  c_keySequence (cw_core w) = GCounter (mkCounter v) → in_int64 v → v + 1 < 2 ^ 63 →
  ∃ w1, draw_keySequence Log Pow w = (Ok v, w1) ∧ c_keySequence (cw_core w1) = GCounter (mkCounter (v + 1)) ∧
    same_names (cw_core w) (cw_core w1) ∧ cw_state w1 = cw_state w ∧ cw_db w1 = cw_db w.
Proof.
  unfold in_int64. intros Hk Hv Hlt. unfold draw_keySequence, draw, pbind, get_core, on_rand, pfocus, modify_core, pmodify.
  rewrite Hk. simpl. unfold Counter_Next. simpl.
  rewrite (wrap64_id (v + 1)), wrap64_id by (unfold in_int64; lia). rewrite Z.add_simpl_r.
  eexists. split; [reflexivity|]. by destruct w as [[] [] ? ?].
Qed.

(** An insert that returns has stored one row, with every field, under the next
    key of the sequence. *)
Lemma do_insert_store c v w err w' :
  same_names c (cw_core w) → c_keySequence (cw_core w) = GCounter (mkCounter v) → in_int64 v → v + 1 < 2 ^ 63 →
  DoInsert Log Pow unicode_lower ctx w = (Ok err, w') →
  same_names c (cw_core w') ∧ c_keySequence (cw_core w') = GCounter (mkCounter (v + 1)) ∧
  cs_fieldNames (cw_state w') = cs_fieldNames (cw_state w) ∧
  ∃ values, dom values = list_to_set (cs_fieldNames (cw_state w)) ∧
    rs_rows (cw_db w') = <[(c_table c, buildKeyName c v) := values]> (rs_rows (cw_db w)).
Proof.
  intros Hc Hk Hv Hlt. destruct (draw_counter v w Hk Hv Hlt) as (w1 & Hd & Hk1 & Hn1 & Hs1 & Hm1).
  unfold DoInsert, pbind at 1. rewrite Hd. unfold key_of, pbind at 1, pbind at 1, get_core, pret.
  assert (same_names c (cw_core w1)) as Hc1.
  { destruct Hc as (A1 & A2 & A3 & A4), Hn1 as (B1 & B2 & B3 & B4). unfold same_names. by rewrite B1, B2, B3, B4. }
  rewrite (same_names_key c _ v Hc1). unfold pbind at 1.
  pose proof (building_values c (GCounter (mkCounter (v + 1))) (cs_fieldNames (cw_state w)) (cw_db w)
    (buildKeyName c v) w1) as Hb.
  specialize (Hb ltac:(constructor; [done|done|by rewrite Hs1|done])).
  destruct (buildValues Log Pow unicode_lower (buildKeyName c v) w1) as [[values|?|?|] w2]; [|done..].
  destruct Hb as [[H1 H2 H3 H4] Hdom]. unfold with_retries, get_core, pbind at 1, pbind at 1.
  destruct (rs_Insert (c_table (cw_core w2)) (buildKeyName c v) values (cw_db w2)) as (d' & Hi & Hr).
  destruct (Z.to_nat (c_insertionRetryLimit (cw_core w2))); simpl; unfold pbind, on_workDB, pfocus; simpl; rewrite Hi;
    intros [= _ <-]; simpl; (split_and!; [done..|]); exists values; rewrite Hr, H4;
    destruct H1 as (_ & -> & _); by split.
Qed.
End Load.

(** ** Retries and key ranges *)

Section Bounds.
Context {R D : Type} `{!Rand R}.
Context (ctx : nat → option ctx_error).

(** [calls] counts the attempts. *)
Lemma retry_loop_bounded (op : PM D (option error)) (calls : D → nat) :
  (∀ d, ∃ err d', op d = (Ok err, d') ∧ calls d' = S (calls d)) →
  ∀ fuel k (w : CoreW R D), 0 <= k → Z.of_nat fuel = c_insertionRetryLimit (cw_core w) - k →
    c_insertionRetryLimit (cw_core w) < max_int64 →
  ∃ err w', retry_loop ctx fuel op k w = (Ok err, w') ∧
    (calls (cw_db w) < calls (cw_db w') <= calls (cw_db w) + fuel + 1)%nat ∧
    (err ≠ None → calls (cw_db w') = (calls (cw_db w) + fuel + 1)%nat).
Proof.
  intros Hop. unfold max_int64.
  induction fuel as [|fuel IH]; intros k w Hk Hf Hlim; cbn [retry_loop]; unfold pbind at 1, on_workDB at 1, pfocus at 1;
    destruct (Hop (cw_db w)) as (err & d & -> & Hc); destruct err as [err|];
    try (eexists _, _; split; [reflexivity|]; simpl; rewrite Hc; split; [lia|done]);
    unfold pbind at 1, ctx_Err at 1; cbn [cw_polls cw_core cw_db cw_state];
    (destruct (ctx (cw_polls w)) as [[]|];
     [eexists _, _; split; [reflexivity|]; simpl; rewrite Hc; split; [lia|done]| |]);
    unfold pbind at 1, get_core at 1; cbn [cw_core]; rewrite wrap64_id by (unfold in_int64; lia).
  1,2: replace (k + 1 >? _) with true by (symmetry; apply Z.gtb_lt; lia);
    eexists _, _; split; [reflexivity|]; simpl; rewrite Hc; split; lia.
  all: replace (k + 1 >? _) with false by (symmetry; rewrite Z.gtb_ltb; apply Z.ltb_ge; lia);
    unfold pbind at 1, on_rand at 1, pfocus at 1; cbn [cw_state];
    destruct (float64_ok (cs_r (cw_state w))) as (f & r' & -> & _);
    edestruct (IH (k + 1)) as (e & w' & -> & Hb & He); [lia| | |];
    [| |exists e, w'; split; [done|]]; cbn [cw_core cw_db] in *; try lia; rewrite Hc in Hb, He; split; lia || (intros; rewrite He by done; lia).
Qed.

(** A key chooser over the keys from [lo] to [hi], good for [k] more draws. *)
Definition chooses (lo hi k : Z) (g : Generator) : Prop :=
  in_int64 lo ∧ in_int64 hi ∧ lo <= hi ∧ hi - lo < max_int64 ∧
  match g with
  | GUniform u => un_lb u = lo ∧ un_ub u = hi ∧ un_interval u = wrap64 (wrap64 (hi - lo) + 1)
  | GSequential s => sq_start s = lo ∧ sq_interval s = hi - lo + 1 ∧ 0 <= sq_counter s ∧ sq_counter s + k < 2 ^ 63
  | _ => False
  end.

Lemma chooses_next Log Pow last lo hi k g (r : R) : 1 <= k → chooses lo hi k g →
  ∃ v g' r', Generator_Next Log Pow last g r = (Ok (v, g'), r') ∧ lo <= v <= hi ∧ chooses lo hi (k - 1) g'.
Proof.
  intros Hk (Hlo & Hhi & Hle & Hd & Hg). destruct g as [| |s|u| | | | | |]; try done.
  - destruct Hg as (H1 & H2 & H3 & H4). cbn [Generator_Next]. unfold Sequential_Next. rewrite H1, H2.
    unfold in_int64, max_int64 in *. rewrite (wrap64_id (sq_counter s + 1)) by (unfold in_int64; lia).
    replace (hi - lo + 1 =? 0) with false by (symmetry; apply Z.eqb_neq; lia).
    unfold go_rem. rewrite Z.rem_mod_nonneg by lia. pose proof (Z.mod_pos_bound (sq_counter s + 1) (hi - lo + 1)).
    rewrite wrap64_id by (unfold in_int64; lia). eexists _, _, _. split; [reflexivity|]. split; [lia|].
    unfold chooses, in_int64, max_int64. simpl. lia.
  - destruct u as [l lb ub i]. simpl in Hg. destruct Hg as (-> & -> & ->).
    destruct (uniform_next lo hi l r Hlo Hhi Hle Hd) as (v & r' & Hu & Hv).
    cbn [Generator_Next]. unfold wrap_gen, pbind. rewrite Hu. eexists _, _, _. split; [reflexivity|].
    split; [done|]. by unfold chooses.
Qed.
End Bounds.

Definition demo_props (strs : list (string * string)) (ints : list (string * Z)) (bools : list (string * bool)) : Properties :=
  mkProperties (λ k d, default d ((list_to_map strs : gmap string string) !! k))
    (λ k d, default d ((list_to_map ints : gmap string Z) !! k))
    (λ k d, default d ((list_to_map ints : gmap string Z) !! k)) (λ k d, d)
    (λ k d, default d ((list_to_map bools : gmap string bool) !! k))
    (λ k, bool_decide (k ∈ strs.*1 ++ ints.*1 ++ bools.*1)).

(** The workload of a property file; the alternative is never needed. *)
Definition core_of (p : Properties) : core :=
  match Create (λ x, x) pow_one (λ x, x) (λ _, inr "no such file") p ([] : list Z) with
  | (Ok c, _) => c
  | _ => mkCore p "" 0 [] (GConstant (mkConstant 0)) true true true (GConstant (mkConstant 0)) NewDiscrete
           (GConstant (mkConstant 0)) (GConstant (mkConstant 0)) (NewAcknowledgedCounter 0) (GConstant (mkConstant 0))
           true 0 0 0 0 0
  end.

(** ** Properties *)

(** the value of a field is built: for a constant field length the loop that
    extends the value with its own hash ends, and the value has exactly that many
    bytes. *)
Theorem deterministic_value_built {R D} `{!Rand R} `{!YcsbDB D} `{!Measured D} (Log : float64 → float64)
    (Pow : float64 → float64 → float64) (lower : string → string) (n : Z) (key field : string) (w : CoreW R D) :
  0 <= n → n + 21 < 2 ^ 63 → c_fieldLengthGenerator (cw_core w) = GConstant (mkConstant n) →
  0 <= c_poolLength (cw_core w) →
  ∃ v w', buildDeterministicValue Log Pow lower key field w = (Ok v, w') ∧ Z.of_nat (length v) = n ∧
    v = take (Z.to_nat n) (deterministic_bytes lower n key field).
Proof.
  intros Hn Hb Hg Hp. unfold buildDeterministicValue, draw_fieldLength, draw, pbind, get_core, on_rand, pfocus, modify_core,
    pmodify. rewrite Hg. simpl. unfold getValueBuffer, get_core, pbind. simpl.
  assert (0 <= c_poolLength (set_fieldLengthGenerator (GConstant (mkConstant n)) (cw_core w))) as Hp'
    by (by destruct (cw_core w)).
  replace (_ <? 0) with false by (symmetry; apply Z.ltb_ge; lia).
  rewrite wrap64_id by (unfold in_int64; lia). replace (n + 21 <? 0) with false by (symmetry; apply Z.ltb_ge; lia).
  pose proof (deterministic_enough lower n key field) as Hd.
  simpl. replace ((n <? 0) || _) with false.
  - eexists _, _. split; [reflexivity|]. split; [|done]. rewrite length_take. lia.
  - symmetry. apply orb_false_iff. split; [by apply Z.ltb_ge|]. rewrite Z.gtb_ltb. apply Z.ltb_ge. lia.
Qed.

Lemma deterministic_value_built_witness :
  let c := core_of (demo_props [] [("fieldlength", 30); ("fieldcount", 1); ("recordcount", 1)] []) in
  ∃ v w', buildDeterministicValue (λ x, x) pow_one (λ x, x) "user1" "field0"
      (mkCoreW c (InitThread ([] : list Z) c) (∅ : MemDB) 0) = (Ok v, w') ∧ Z.of_nat (length v) = 30 ∧
    v = take 30 (deterministic_bytes (λ x, x) 30 "user1" "field0").
Proof.
  apply (deterministic_value_built (λ x, x) pow_one (λ x, x) 30); try reflexivity; vm_compute; discriminate.
Defined.

(** inserts are retried, but not forever: whatever the database answers, an
    insert makes at least one and at most [limit + 1] attempts and then returns;
    it reports an error only after using them all. *)
Theorem insert_retries_bounded {R D} `{!Rand R} (ctx : nat → option ctx_error) (op : PM D (option error))
    (calls : D → nat) (w : CoreW R D) :
  (∀ d, ∃ err d', op d = (Ok err, d') ∧ calls d' = S (calls d)) →
  0 <= c_insertionRetryLimit (cw_core w) < max_int64 →
  let limit := Z.to_nat (c_insertionRetryLimit (cw_core w)) in
  ∃ err w', with_retries ctx op w = (Ok err, w') ∧
    (calls (cw_db w) < calls (cw_db w') <= calls (cw_db w) + limit + 1)%nat ∧
    (err ≠ None → calls (cw_db w') = (calls (cw_db w) + limit + 1)%nat).
Proof.
  cbv zeta. intros Hop Hl. unfold with_retries, pbind, get_core.
  apply retry_loop_bounded; [done|lia|lia|lia].
Qed.

Lemma insert_retries_bounded_witness :
  let c := core_of (demo_props [] [("recordcount", 1); ("core_workload_insertion_retry_limit", 2)] []) in
  ∃ err w', with_retries (λ _, None) (λ k : nat, (Ok (Some "down"), S k)) (mkCoreW c (InitThread ([] : list Z) c) 0%nat 0)
      = (Ok err, w') ∧
    (0 < cw_db w' <= 3)%nat ∧ (err ≠ None → cw_db w' = 3%nat).
Proof.
  refine (insert_retries_bounded (λ _, None) (λ k : nat, (Ok (Some "down"), S k)) (λ k, k)
    (mkCoreW _ (InitThread ([] : list Z) _) 0%nat 0) _ _).
  - intros d. eexists _, _. split; reflexivity.
  - vm_compute. split; [discriminate|reflexivity].
Defined.

(** The key numbers of [n] requests. *)
Fixpoint key_draws {R D} `{!Rand R} (Log : float64 → float64) (Pow : float64 → float64 → float64) (fuel n : nat) :
    PM (CoreW R D) (list Z) :=
  match n with
  | O => pret []
  | S n => k <~ nextKeyNum Log Pow fuel ;; ks <~ key_draws Log Pow fuel n ;; pret (k :: ks)
  end.

Lemma key_draws_chosen {R D} `{!Rand R} Log Pow fuel lo hi n : ∀ (w : CoreW R D),
  chooses lo hi (Z.of_nat n) (c_keyChooser (cw_core w)) →
  ∃ ks w', key_draws Log Pow fuel n w = (Ok ks, w') ∧ length ks = n ∧ Forall (λ k, lo <= k <= hi) ks.
Proof.
  induction n as [|n IH]; intros w Hc; [by exists [], w|]. cbn [key_draws]. unfold pbind at 1, nextKeyNum, pbind at 1, get_core.
  assert (is_exponential (c_keyChooser (cw_core w)) = false) as ->.
  { destruct Hc as (_ & _ & _ & _ & Hg). by destruct (c_keyChooser (cw_core w)). }
  unfold draw_keyChooser, draw, pbind, get_core, on_rand, pfocus.
  destruct (chooses_next Log Pow (Ack_Last (c_transactionInsertKeySequence (cw_core w))) lo hi (Z.of_nat (S n))
    (c_keyChooser (cw_core w)) (cs_r (cw_state w)) ltac:(lia) Hc) as (v & g & r' & -> & Hv & Hg).
  unfold modify_core, pmodify. cbn [cw_core cw_state cw_db cw_polls fst snd pret].
  edestruct IH as (ks & w' & Hks & Hl & Hf); [|unfold pret; rewrite Hks; eexists _, w'; split; [reflexivity|]].
  - cbn [cw_core]. replace (Z.of_nat n) with (Z.of_nat (S n) - 1) by lia. by destruct (cw_core w).
  - split; [simpl; by rewrite Hl|by constructor].
Qed.

(** C38: requests hit loaded records: with the distributions [uniform] and
    [sequential], every key number a transaction draws is one of the
    [insertcount] keys from [insertstart] that the load phase inserted. *)
Theorem requests_hit_loaded_keys {R D} `{!Rand R} (Log : float64 → float64) (Pow : float64 → float64 → float64)
    (lower : string → string) (ReadFile : string → string + error) (p : Properties) (r0 r1 : R) (c : core)
    (w : CoreW R D) (fuel n : nat) :
  Create Log Pow lower ReadFile p r0 = (Ok c, r1) →
  GetString p "requestdistribution" "uniform" ∈ ["uniform"; "sequential"] →
  in_int64 (p_insertStart p) → 0 < p_insertCount p < 2 ^ 63 → in_int64 (p_insertStart p + p_insertCount p) →
  Z.of_nat n < 2 ^ 63 → cw_core w = c →
  ∃ ks w', key_draws Log Pow fuel n w = (Ok ks, w') ∧ length ks = n ∧
    Forall (λ k, p_insertStart p <= k < p_insertStart p + p_insertCount p) ks.
Proof.
  intros Hc Hd Hs Hn Hsum Hlt Hw. destruct (create_spec _ _ _ _ _ _ _ _ Hc) as (_ & _ & _ & _ & _ & (ra & rb & Hk) & _).
  destruct (key_draws_chosen Log Pow fuel (p_insertStart p) (p_insertStart p + p_insertCount p - 1) n w)
    as (ks & w' & Hks & Hl & Hf).
  - rewrite Hw. unfold createKeyChooser, in_int64 in *.
    rewrite !wrap64_id in Hk by (unfold in_int64; rewrite ?wrap64_id; unfold in_int64; lia).
    rewrite !elem_of_cons, elem_of_nil in Hd. destruct Hd as [Hd|[Hd|[]]]; rewrite Hd in Hk; simpl in Hk;
      injection Hk as Hk _; rewrite <- Hk; unfold chooses, in_int64, max_int64; simpl;
      (split; [lia|]); (split; [lia|]); (split; [lia|]); (split; [lia|]).
    + done.
    + rewrite !wrap64_id by (unfold in_int64; rewrite ?wrap64_id; unfold in_int64; lia). lia.
  - exists ks, w'. split; [done|]. split; [done|]. eapply Forall_impl; [exact Hf|]. simpl. lia.
Qed.

Lemma requests_hit_loaded_keys_witness :
  let p := demo_props [("requestdistribution", "sequential")] [("recordcount", 10); ("insertstart", 4); ("insertcount", 3)] [] in
  ∃ ks w', key_draws (λ x, x) pow_one 0 4 (mkCoreW (core_of p) (InitThread ([] : list Z) (core_of p)) (∅ : MemDB) 0)
      = (Ok ks, w') ∧ length ks = 4%nat ∧ Forall (λ k, 4 <= k < 4 + 3) ks.
Proof.
  cbv zeta. set (p := demo_props _ _ _).
  refine (requests_hit_loaded_keys (λ x, x) pow_one (λ x, x) (λ _, inr "no such file") p [] [] (core_of p) _ 0 4 _ _ _ _ _ _ _);
    try reflexivity; apply (bool_decide_unpack _); vm_compute; exact I.
Defined.

(** The [zipfian] distribution does not have the property: its range ends one key
    too late, at [insertstart + insertcount].  With three records (keys 0 to 2) the
    most popular item, drawn for [rand.Float64() = 0], is key 3. *)
Theorem zipfian_requests_unloaded :
  let p := demo_props [("requestdistribution", "zipfian")] [("recordcount", 3)] [] in
  p_insertStart p + p_insertCount p = 3 ∧
  (key_draws (λ x, x) pow_one 0 1 (mkCoreW (core_of p) (InitThread ([0] : list Z) (core_of p)) (∅ : MemDB) 0)).1 = Ok [3].
Proof. vm_compute. split; reflexivity. Qed.

(** Batched read-modify-writes are not done: the call reports success without
    touching the database. *)
Theorem batch_rmw_does_nothing {R D} `{!Rand R} `{!YcsbDB D} (Log : float64 → float64) (Pow : float64 → float64 → float64)
    (lower : string → string) (fuel : nat) (batchSize : Z) (b : BatchDB D) (w w' : CoreW R D) :
  db_batch = Some b → draw_operation w = (Ok (op_code op_readModifyWrite), w') →
  DoBatchTransaction Log Pow lower fuel batchSize w = (Ok None, w').
Proof. intros Hb Hd. unfold DoBatchTransaction, pbind. rewrite Hb, Hd. done. Qed.
