(* ===== verification/YcsbClient.v ===== *)
(** * YcsbClient: the client of the YCSB framework
    (src/go-ycsb-vendor/pkg/client/client.go)

    [newWorker] divides the operations among the threads; [client_iter] is one
    round of a worker's loop.  The workers share the workload and the database:
    the client is a transition system in which any worker takes the next round. *)

From S2P Require Import Prelude GoLib Float64 Storage YcsbUtil Generators AckCounter Ycsb Workload.

Open Scope Z_scope.

Record worker := mkWorker {
  wk_doTransactions : bool;
  wk_doBatch : bool;
  wk_batchSize : Z;
  wk_opCount : Z;
  wk_targetOpsPerMs : float64;
  wk_threadID : Z;
  wk_targetOpsTickNs : Z;
  wk_opsDone : Z;
}.

Definition totalOpCount (p : Properties) : Z :=
  if GetBool p "dotransactions" true then GetInt64 p "operationcount" 0
  else if p_Has p "insertcount" then GetInt64 p "insertcount" 0
  else GetInt64 p "recordcount" 0.

Definition newWorker (p : Properties) (threadID threadCount : Z) : Outcome worker :=
  let doTransactions := GetBool p "dotransactions" true in
  let batchSize := GetInt p "batch.size" 1 in
  let doBatch := batchSize >? 1 in
  let total := totalOpCount p in
  if total <? threadCount then
    Exit ("totalOpCount(operationcount/insertcount/recordcount): " +:+ itoa total +:+
          " should be bigger than threadCount: " +:+ itoa threadCount)
  else if threadCount =? 0 then Panic "integer divide by zero"
  else
    let opCount := go_div total threadCount in
    let opCount := if threadID <? go_rem total threadCount then wrap64 (opCount + 1) else opCount in
    let v := GetInt64 p "target" 0 in
    let targetPerThreadPerms :=
      if v >? 0 then f64_div (f64_div (f64_of_Z v) (f64_of_Z threadCount)) (f64_of_Z 1000) else f64_of_Z (-1) in
    let '(perMs, tick) :=
      if f64_gt targetPerThreadPerms f64_zero
      then (targetPerThreadPerms, f64_to_int (f64_div (f64_of_Z 1000000) targetPerThreadPerms))
      else (f64_zero, 0) in
    Ok (mkWorker doTransactions doBatch batchSize opCount perMs threadID tick 0).

(** [t.Add(d)]: a monotonic reading that overflows is dropped. *)
Definition Time_Add (t : Time) (d : Duration) : Time :=
  mkTime (t_wall t + d)
    (match t_mono t with
     | Some m => if (min_int64 <=? m + d) && (m + d <=? max_int64) then Some (m + d) else None
     | None => None
     end).

(** How long [throttle] waits, unless the context ends first. *)
Definition throttle (w : worker) (startTime now : Time) : Duration :=
  if f64_le (wk_targetOpsPerMs w) f64_zero then 0
  else
    let d := wrap64 (wk_opsDone w * wk_targetOpsTickNs w) in
    let d := Time_Sub (Time_Add startTime d) now in
    if d <? 0 then 0 else d.

(** The pause before the first operation. *)
Definition start_delay {R} `{!Rand R} (w : worker) : PM R Duration :=
  if f64_gt (wk_targetOpsPerMs w) f64_zero && f64_le (wk_targetOpsPerMs w) f64_one
  then Int63n (wk_targetOpsTickNs w) else pret 0.

Definition with_opsDone (n : Z) (w : worker) : worker :=
  mkWorker (wk_doTransactions w) (wk_doBatch w) (wk_batchSize w) (wk_opCount w) (wk_targetOpsPerMs w)
    (wk_threadID w) (wk_targetOpsTickNs w) n.

(** The condition of the loop: an operation count of zero has no end. *)
Definition more_ops (w : worker) : bool := (wk_opCount w =? 0) || (wk_opsDone w <? wk_opCount w).

Definition opsCount (w : worker) : Z := if wk_doBatch w then wk_batchSize w else 1.

(** A thread: its worker, its part of the workload's state and its context. *)
Record thread (R : Type) := mkThread {
  th_worker : worker;
  th_state : coreState R;
  th_polls : nat;
  th_running : bool;
}.
Arguments mkThread {R}.
Arguments th_worker {R}.
Arguments th_state {R}.
Arguments th_polls {R}.
Arguments th_running {R}.

Record client (R D : Type) := mkClientState {
  cl_core : core;
  cl_db : D;
  cl_threads : gmap nat (thread R);
}.
Arguments mkClientState {R D}.
Arguments cl_core {R D}.
Arguments cl_db {R D}.
Arguments cl_threads {R D}.

Section Client.
Context {R D : Type} `{!Rand R} `{!YcsbDB D} `{!Measured D}.
Context (Log : float64 → float64) (Pow : float64 → float64 → float64).
Context (unicode_lower : string → string) (range : row → list (string * bytes)).
(** Each thread's context. *)
Context (ctx : nat → nat → option ctx_error) (fuel : nat).

(** The operation of one round; an error is at most printed. *)
Definition run_op (id : nat) (w : worker) : PM (CoreW R D) (option error) :=
  if wk_doTransactions w then
    if wk_doBatch w then DoBatchTransaction Log Pow unicode_lower fuel (wk_batchSize w)
    else DoTransaction Log Pow unicode_lower range fuel
  else
    if wk_doBatch w then DoBatchInsert Log Pow unicode_lower (ctx id) (wk_batchSize w)
    else DoInsert Log Pow unicode_lower (ctx id).

(** One round of thread [id]: [warm] is what it reads of the warm-up flag, which
    another goroutine clears.  [None] when the thread has nothing to do. *)
Definition client_iter (id : nat) (warm : bool) (s : client R D) : option (Outcome (client R D)) :=
  match cl_threads s !! id with
  | None => None
  | Some t =>
      if negb (th_running t && more_ops (th_worker t)) then None
      else
        let '(o, cw) := run_op id (th_worker t) (mkCoreW (cl_core s) (th_state t) (cl_db s) (th_polls t)) in
        match o with
        | Panic m => Some (Panic m)
        | Exit m => Some (Exit m)
        | OutOfFuel => Some OutOfFuel
        | Ok err =>
            let w := th_worker t in
            let w := if warm then with_opsDone (wrap64 (wk_opsDone w + opsCount w)) w else w in
            let running := bool_decide (ctx id (cw_polls cw) = None) in
            Some (Ok (mkClientState (cw_core cw) (cw_db cw)
              (<[id := mkThread w (cw_state cw) (cw_polls cw + 1) running]> (cl_threads s))))
        end
  end.

(** A step of the client: some thread completes a round. *)
Definition client_step (s s' : client R D) : Prop := ∃ id warm, client_iter id warm s = Some (Ok s').
(** The same once warming up is over. *)
Definition warm_step (s s' : client R D) : Prop := ∃ id, client_iter id true s = Some (Ok s').

Definition thread_done (t : thread R) : Prop := th_running t && more_ops (th_worker t) = false.
Definition client_done (s : client R D) : Prop := map_Forall (λ _ t, thread_done t) (cl_threads s).

#[export] Instance client_done_dec (s : client R D) : Decision (client_done s).
Proof. unfold client_done, thread_done. apply _. Defined.

(** The threads [Client.Run] starts: each worker with its own random source. *)
Definition start_thread (c : core) (p : Properties) (threadCount : Z) (r : nat → R) (id : nat) : Outcome (nat * thread R) :=
  let! w := newWorker p (Z.of_nat id) threadCount in
  Ok (id, mkThread w (InitThread (r id) c) 0 true).

Fixpoint start_threads (c : core) (p : Properties) (threadCount : Z) (r : nat → R) (ids : list nat) :
    Outcome (list (nat * thread R)) :=
  match ids with
  | [] => Ok []
  | id :: ids =>
      let! t := start_thread c p threadCount r id in
      let! ts := start_threads c p threadCount r ids in
      Ok (t :: ts)
  end.

(** [Client.Run] up to its wait; a negative thread count panics in [wg.Add]. *)
Definition Run (p : Properties) (c : core) (d : D) (r : nat → R) : Outcome (client R D) :=
  let threadCount := GetInt p "threadcount" 1 in
  if threadCount <? 0 then Panic "sync: negative WaitGroup counter"
  else
    let! ts := start_threads c p threadCount r (seq 0 (Z.to_nat threadCount)) in
    Ok (mkClientState c d (list_to_map ts)).
End Client.

(** ** Lemmas *)

(** Sums over the threads. *)
Definition zsum (l : list Z) : Z := foldr Z.add 0 l.

Lemma zsum_app l1 l2 : zsum (l1 ++ l2) = zsum l1 + zsum l2.
Proof. induction l1; simpl; lia. Qed.

#[export] Instance zsum_perm : Proper ((≡ₚ) ==> (=)) zsum.
Proof. induction 1; simpl; lia. Qed.

Definition map_sum {A} (f : A → Z) (m : gmap nat A) : Z := zsum (map (λ ka, f ka.2) (map_to_list m)).

Lemma map_sum_insert {A} (f : A → Z) m i x :
  m !! i = None → map_sum f (<[i := x]> m) = f x + map_sum f m.
Proof. intros Hi. unfold map_sum. by rewrite map_to_list_insert. Qed.

Lemma map_sum_delete {A} (f : A → Z) m i x : m !! i = Some x → map_sum f m = f x + map_sum f (delete i m).
Proof.
  intros Hi. rewrite <- (map_sum_insert f (delete i m) i x) by apply lookup_delete_eq.
  by rewrite insert_delete_id.
Qed.

Lemma map_sum_update {A} (f : A → Z) m i x y :
  m !! i = Some x → map_sum f (<[i := y]> m) = map_sum f m - f x + f y.
Proof.
  intros Hi. rewrite <- insert_delete_eq, map_sum_insert by apply lookup_delete_eq.
  rewrite (map_sum_delete f m i x Hi). lia.
Qed.

Lemma map_sum_nonneg {A} (f : A → Z) m : map_Forall (λ _ a, 0 <= f a) m → 0 <= map_sum f m.
Proof.
  induction m as [|i x m Hi IH] using map_ind; [done|]. intros Hm.
  rewrite map_sum_insert by done. apply map_Forall_insert in Hm as [Hx Hm]; [|done]. specialize (IH Hm). lia.
Qed.

Lemma map_sum_zero {A} (f : A → Z) m : map_Forall (λ _ a, f a = 0) m → map_sum f m = 0.
Proof.
  induction m as [|i x m Hi IH] using map_ind; [done|]. intros Hm.
  rewrite map_sum_insert by done. apply map_Forall_insert in Hm as [Hx Hm]; [|done]. specialize (IH Hm). lia.
Qed.

Lemma map_sum_list {A} (f : A → Z) (l : list (nat * A)) : NoDup l.*1 → map_sum f (list_to_map l) = zsum (map (λ ka, f ka.2) l).
Proof. intros Hl. unfold map_sum. by rewrite map_to_list_to_map. Qed.

(** The share of a thread. *)
Definition share (total threads : Z) (id : nat) : Z :=
  total / threads + (if Z.of_nat id <? total mod threads then 1 else 0).

Lemma zsum_share q m n : zsum (map (λ id, q + (if Z.of_nat id <? m then 1 else 0)) (seq 0 n)) =
  q * Z.of_nat n + Z.max 0 (Z.min m (Z.of_nat n)).
Proof.
  induction n as [|n IH]; [simpl; lia|].
  rewrite seq_S, map_app, zsum_app, IH. simpl. destruct (Z.of_nat n <? m) eqn:E;
    [apply Z.ltb_lt in E|apply Z.ltb_ge in E]; lia.
Qed.

Lemma shares_sum total threads : 0 <= total → 0 < threads →
  zsum (map (share total threads) (seq 0 (Z.to_nat threads))) = total.
Proof.
  intros Ht Hn. unfold share. rewrite zsum_share. pose proof (Z.mod_pos_bound total threads Hn).
  pose proof (Z.div_mod total threads ltac:(lia)). nia.
Qed.

Lemma share_bounds total threads id : in_int64 total → 0 < threads <= total → (id < Z.to_nat threads)%nat →
  0 < share total threads id < 2 ^ 63.
Proof.
  unfold share, in_int64. intros Ht Hn Hid. pose proof (Z.div_mod total threads ltac:(lia)).
  pose proof (Z.mod_pos_bound total threads ltac:(lia)).
  assert (1 <= total / threads) by (apply Z.div_le_lower_bound; lia).
  destruct (Z.of_nat id <? total mod threads) eqn:E; [apply Z.ltb_lt in E|]; nia.
Qed.

Lemma new_worker_ok p id n w : newWorker p (Z.of_nat id) n = Ok w → 0 < n → in_int64 (totalOpCount p) →
  n <= totalOpCount p ∧ wk_opCount w = share (totalOpCount p) n id ∧ wk_opsDone w = 0 ∧
  wk_doTransactions w = GetBool p "dotransactions" true ∧ wk_batchSize w = GetInt p "batch.size" 1 ∧
  wk_doBatch w = (GetInt p "batch.size" 1 >? 1).
Proof.
  unfold newWorker, in_int64. destruct (totalOpCount p <? n) eqn:E; [done|]. apply Z.ltb_ge in E. intros Hw Hn Hi.
  replace (n =? 0) with false in Hw by (symmetry; apply Z.eqb_neq; lia).
  destruct (if f64_gt _ _ then _ else _) as [perMs tick]. injection Hw as <-. simpl. split_and!; try done.
  unfold share, go_div, go_rem. rewrite Z.rem_mod_nonneg, Z.quot_div_nonneg by lia.
  assert (totalOpCount p / n <= totalOpCount p) by (apply Z.div_le_upper_bound; nia).
  assert (1 < n → totalOpCount p / n < totalOpCount p) by (intros; apply Z.div_lt; lia).
  pose proof (Z.div_pos (totalOpCount p) n). pose proof (Z.mod_pos_bound (totalOpCount p) n Hn).
  rewrite (wrap64_id (totalOpCount p / n)) by (unfold in_int64; lia).
  destruct (Z.of_nat id <? totalOpCount p mod n) eqn:E2; [|lia]. apply Z.ltb_lt in E2.
  rewrite wrap64_id; [done|]. unfold in_int64.
  destruct (decide (n = 1)) as [->|]; [rewrite Z.mod_1_r in E2; lia|lia].
Qed.

Section Threads.
Context {R D : Type}.

(** A thread as [Run] starts it. *)
Definition fresh_thread (c : core) (p : Properties) (n : Z) (r : nat → R) (id : nat) (t : thread R) : Prop :=
  newWorker p (Z.of_nat id) n = Ok (th_worker t) ∧ th_state t = InitThread (r id) c ∧
  th_polls t = 0%nat ∧ th_running t = true.

Lemma start_threads_spec c p n (r : nat → R) ids : ∀ ts, start_threads c p n r ids = Ok ts →
  ts.*1 = ids ∧ Forall (λ it, fresh_thread c p n r it.1 it.2) ts.
Proof.
  induction ids as [|id ids IH]; intros ts; simpl; [by intros [= <-]|].
  unfold start_thread, obind. destruct (newWorker p (Z.of_nat id) n) as [w|?|?|] eqn:Ew; [|done..].
  destruct (start_threads c p n r ids) as [ts'|?|?|]; [|done..]. intros [= <-].
  destruct (IH ts' eq_refl) as [<- Hts]. split; [done|]. constructor; [|done]. done.
Qed.

Lemma run_spec p c (d : D) (r : nat → R) s : Run p c d r = Ok s →
  let n := GetInt p "threadcount" 1 in
  0 <= n ∧ cl_core s = c ∧ cl_db s = d ∧
  (∀ id t, cl_threads s !! id = Some t → (id < Z.to_nat n)%nat ∧ fresh_thread c p n r id t) ∧
  (in_int64 (totalOpCount p) → 0 < n →
     n <= totalOpCount p ∧ map_sum (λ t, wk_opCount (th_worker t)) (cl_threads s) = totalOpCount p).
Proof.
  unfold Run. set (n := GetInt p "threadcount" 1). destruct (n <? 0) eqn:En; [done|]. apply Z.ltb_ge in En.
  unfold obind. destruct (start_threads c p n r _) as [ts|?|?|] eqn:Ets; [|done..]. intros [= <-].
  destruct (start_threads_spec _ _ _ _ _ _ Ets) as [Hids Hts].
  assert (NoDup ts.*1) as Hnd by (rewrite Hids; apply NoDup_seq).
  simpl. split_and!; try done.
  - intros id t Hl. apply elem_of_list_to_map in Hl; [|done]. split.
    + apply (list_elem_of_fmap_2 fst) in Hl. rewrite Hids in Hl. apply elem_of_seq in Hl. simpl in Hl. lia.
    + rewrite Forall_forall in Hts. apply (Hts _ Hl).
  - intros Hi Hn.
    assert (∀ it, it ∈ ts → n <= totalOpCount p ∧ wk_opCount (th_worker it.2) = share (totalOpCount p) n it.1) as Hw.
    { intros it Hit. rewrite Forall_forall in Hts. destruct (Hts it Hit) as (Hnw & _).
      destruct (new_worker_ok p _ n _ Hnw Hn Hi) as (? & ? & _). done. }
    assert (n <= totalOpCount p) as Hle.
    { destruct ts as [|it ts]; [|by apply (Hw it); left]. symmetry in Hids. apply (f_equal length) in Hids.
      rewrite length_seq in Hids. simpl in Hids. lia. }
    split; [done|]. rewrite map_sum_list by done. rewrite <- (shares_sum (totalOpCount p) n) by lia.
    rewrite <- Hids. change (ts.*1) with (map fst ts). rewrite map_map. f_equal.
    apply map_ext_in. intros it Hit%list_elem_of_In. by apply Hw.
Qed.
End Threads.

(** A round of a thread, when it completes. *)
Section Rounds.
Context {R D : Type} `{!Rand R} `{!YcsbDB D} `{!Measured D}.
Context (Log : float64 → float64) (Pow : float64 → float64 → float64).
Context (unicode_lower : string → string) (range : row → list (string * bytes)).
Context (ctx : nat → nat → option ctx_error) (fuel : nat).

Abbreviation iter := (client_iter Log Pow unicode_lower range ctx fuel).
Abbreviation op := (run_op Log Pow unicode_lower range ctx fuel).

Definition bump (warm : bool) (w : worker) : worker :=
  if warm then with_opsDone (wrap64 (wk_opsDone w + opsCount w)) w else w.

Lemma client_iter_ok id warm (s s' : client R D) : iter id warm s = Some (Ok s') →
  ∃ t err cw, cl_threads s !! id = Some t ∧ th_running t = true ∧ more_ops (th_worker t) = true ∧
    op id (th_worker t) (mkCoreW (cl_core s) (th_state t) (cl_db s) (th_polls t)) = (Ok err, cw) ∧
    s' = mkClientState (cw_core cw) (cw_db cw)
      (<[id := mkThread (bump warm (th_worker t)) (cw_state cw) (cw_polls cw + 1)
               (bool_decide (ctx id (cw_polls cw) = None))]> (cl_threads s)).
Proof.
  unfold client_iter. destruct (cl_threads s !! id) as [t|] eqn:Et; [|done].
  destruct (th_running t && more_ops (th_worker t)) eqn:Er; [|done]. simpl.
  apply andb_true_iff in Er as [Hr Hm].
  destruct (op id (th_worker t) _) as [[err|?|?|] cw] eqn:Eo; [|done..]. intros [= <-].
  by exists t, err, cw.
Qed.

(** The operations a thread still has to do. *)
Definition left_ops (t : thread R) : Z := Z.max 0 (wk_opCount (th_worker t) - wk_opsDone (th_worker t)).

(** A worker that will end: it has a count, and counting does not overflow. *)
Definition worker_ends (t : thread R) : Prop :=
  let w := th_worker t in
  0 < wk_opCount w ∧ 0 <= wk_opsDone w ∧ 1 <= opsCount w ∧ wk_opCount w + opsCount w < 2 ^ 63.

Lemma bump_ends warm t st k b : worker_ends t → more_ops (th_worker t) = true →
  worker_ends (mkThread (bump warm (th_worker t)) st k b) ∧
  left_ops (mkThread (bump true (th_worker t)) st k b) < left_ops t.
Proof.
  unfold worker_ends, left_ops, bump, opsCount, more_ops. destruct t as [[]]. simpl. intros (H1 & H2 & H3 & H4) Hm.
  apply orb_true_iff in Hm as [Hm|Hm]; [apply Z.eqb_eq in Hm; lia|apply Z.ltb_lt in Hm].
  rewrite wrap64_id by (unfold in_int64; lia). destruct warm; simpl; repeat split; try lia.
Qed.

(** Rounds after the warm-up are counted. *)
Lemma warm_steps_bounded n (s s' : client R D) :
  map_Forall (λ _ t, worker_ends t) (cl_threads s) →
  nsteps (warm_step Log Pow unicode_lower range ctx fuel) n s s' →
  Z.of_nat n <= map_sum left_ops (cl_threads s).
Proof.
  intros Hw Hn. induction Hn as [s|n s s1 s2 Hstep Hn IH].
  { apply map_sum_nonneg. intros id t _. unfold left_ops. lia. }
  destruct Hstep as [id Hit]. destruct (client_iter_ok _ _ _ _ Hit) as (t & err & cw & Ht & Hr & Hm & _ & ->).
  cbn [cl_threads] in IH. destruct (bump_ends true t (cw_state cw) (cw_polls cw + 1)
    (bool_decide (ctx id (cw_polls cw) = None)) (Hw id t Ht) Hm) as [He Hlt].
  rewrite (map_sum_update _ _ _ t) in IH by done.
  assert (map_Forall (λ _ t, worker_ends t) (<[id := mkThread (bump true (th_worker t)) (cw_state cw)
    (cw_polls cw + 1) (bool_decide (ctx id (cw_polls cw) = None))]> (cl_threads s))) as Hw'
    by (by apply map_Forall_insert_2).
  specialize (IH Hw'). lia.
Qed.
End Rounds.

(** Rounds with data integrity. *)
Section ClientIntegrity.
Context {R D : Type} `{!Rand R} `{!YcsbDB D} `{!ValueDB D} `{!Measured D} `{!ValueMeasured D}.
Context (Log : float64 → float64) (Pow : float64 → float64 → float64).
Context (unicode_lower : string → string) (range : row → list (string * bytes)).
Context (ctx : nat → nat → option ctx_error) (fuel : nat).
Context (range_ok : ∀ m, range m ≡ₚ map_to_list m) (table : string) (names : list string) (n : Z).

Lemma run_op_keeps id w :
  keeps (integrity unicode_lower table names n) (run_op Log Pow unicode_lower range ctx fuel id w) (λ _, True).
Proof.
  unfold run_op. destruct (wk_doTransactions w), (wk_doBatch w).
  - apply DoBatchTransaction_keeps.
  - by apply DoTransaction_keeps.
  - apply DoBatchInsert_keeps.
  - apply DoInsert_keeps.
Qed.

(** The workload checks data, the threads use its fields, and the database holds
    only deterministic values. *)
Definition client_ok (s : client R D) : Prop :=
  checks_data table n (cl_core s) ∧ holds_values table (deterministic unicode_lower names n) (cl_db s) ∧
  map_Forall (λ _ t, cs_fieldNames (th_state t) = names) (cl_threads s).

Lemma client_ok_op s id t : client_ok s → cl_threads s !! id = Some t →
  match run_op Log Pow unicode_lower range ctx fuel id (th_worker t)
          (mkCoreW (cl_core s) (th_state t) (cl_db s) (th_polls t)) with
  | (Ok _, cw) => integrity unicode_lower table names n cw
  | (Exit _, _) => False
  | _ => True
  end.
Proof.
  intros (Hc & Hd & Hn) Ht. pose proof (run_op_keeps id (th_worker t)
    (mkCoreW (cl_core s) (th_state t) (cl_db s) (th_polls t)) (conj Hc (conj (Hn id t Ht) Hd))) as H.
  by destruct (run_op _ _ _ _ _ _ _ _ _) as [[err|?|?|] cw]; [apply H|..].
Qed.

Lemma client_ok_step s s' : client_ok s → client_step Log Pow unicode_lower range ctx fuel s s' → client_ok s'.
Proof.
  intros Hok (id & warm & Hit).
  destruct (client_iter_ok Log Pow unicode_lower range ctx fuel id warm s s' Hit) as (t & err & cw & Ht & _ & _ & Ho & ->).
  pose proof (client_ok_op s id t Hok Ht) as H. rewrite Ho in H. destruct H as (H1 & H2 & H3), Hok as (_ & _ & Hn).
  split; [done|]. split; [done|]. by apply map_Forall_insert_2.
Qed.

Lemma client_ok_steps s s' : client_ok s → rtc (client_step Log Pow unicode_lower range ctx fuel) s s' → client_ok s'.
Proof. intros Hok Hs. induction Hs as [s|s s1 s2 Hst _ IH]; [done|]. by apply IH, (client_ok_step s). Qed.

Lemma client_ok_no_exit s id warm msg : client_ok s →
  client_iter Log Pow unicode_lower range ctx fuel id warm s ≠ Some (Exit msg).
Proof.
  intros Hok Hit. unfold client_iter in Hit. destruct (cl_threads s !! id) as [t|] eqn:Ht; [|done].
  destruct (negb _); [done|]. pose proof (client_ok_op s id t Hok Ht) as H.
  by destruct (run_op _ _ _ _ _ _ _ _ _) as [[err|?|?|] cw].
Qed.
End ClientIntegrity.

(** What a client starts from. *)
Lemma run_client_ok {R D} `{!Rand R} `{!YcsbDB D} `{!ValueDB D} Log Pow lower ReadFile (p : Properties) (r0 r1 : R) c
    (d : D) (r : nat → R) s :
  let table := GetString p "table" "usertable" in
  let names := field_names (GetInt64 p "fieldcount" 10) in
  let n := GetInt64 p "fieldlength" 100 in
  Create Log Pow lower ReadFile p r0 = (Ok c, r1) → GetBool p "dataintegrity" false = true →
  holds_values table (deterministic lower names n) d → Run p c d r = Ok s → client_ok lower table names n s.
Proof.
  cbv zeta. intros Hc Hi Hd Hr. destruct (create_spec _ _ _ _ _ _ _ _ Hc) as (_ & _ & Hnames & _ & _ & _ & Hck).
  destruct (run_spec p c d r s Hr) as (_ & Hcore & Hdb & Hth & _).
  split; [rewrite Hcore; by apply Hck|]. split; [by rewrite Hdb|].
  intros id t Ht. destruct (Hth id t Ht) as (_ & _ & -> & _). done.
Qed.

(** Loading: the keys handed out so far, and the rows stored. *)
Section ClientLoad.
Context {R D : Type} `{!Rand R} `{!YcsbDB D} `{!Measured D} `{!RowStore D}.
Context (Log : float64 → float64) (Pow : float64 → float64 → float64).
Context (unicode_lower : string → string) (range : row → list (string * bytes)).
Context (ctx : nat → nat → option ctx_error) (fuel : nat).
Context (ctx_live : ∀ id k, ctx id k = None).
(** The workload, its first key and the number of records. *)
Context (c : core) (start total : Z).
Context (start_ok : in_int64 start) (total_ok : in_int64 (start + total)).

(** A thread that loads one record per round. *)
Definition loader (t : thread R) : Prop :=
  wk_doTransactions (th_worker t) = false ∧ wk_doBatch (th_worker t) = false ∧ th_running t = true ∧
  0 <= wk_opsDone (th_worker t) <= wk_opCount (th_worker t) ∧ 0 < wk_opCount (th_worker t) < 2 ^ 63 ∧
  cs_fieldNames (th_state t) = c_fieldNames c.

(** The rows of the keys from [start] to [v - 1], each with all fields. *)
Definition loaded (v : Z) (m : MemDB) : Prop :=
  (∀ table key, is_Some (m !! (table, key)) ↔
     table = c_table c ∧ ∃ i, start <= i < v ∧ key = buildKeyName c i) ∧
  map_Forall (λ _ values, dom values = list_to_set (c_fieldNames c)) m.

Lemma loaded_insert v m values : loaded v m → start <= v → dom values = list_to_set (c_fieldNames c) →
  loaded (v + 1) (<[(c_table c, buildKeyName c v) := values]> m).
Proof.
  unfold loaded, MemDB in *. intros [Hm Hf] Hv Hd. split; [|by apply map_Forall_insert_2]. intros table key.
  rewrite lookup_insert_is_Some, Hm. split.
  - intros [[= <- <-]|[_ (-> & i & Hi & ->)]]; (split; [done|]); [exists v|exists i]; (split; [lia|done]).
  - intros (-> & i & Hi & ->). destruct (decide (buildKeyName c v = buildKeyName c i)) as [->|Hne]; [by left|].
    right. split; [congruence|]. split; [done|]. exists i. split; [|done].
    destruct (decide (i = v)) as [->|]; [done|lia].
Qed.

Record loading (v : Z) (s : client R D) : Prop := {
  lo_core : same_names c (cl_core s);
  lo_seq : c_keySequence (cl_core s) = GCounter (mkCounter v);
  lo_threads : map_Forall (λ _ t, loader t) (cl_threads s);
  lo_count : v + map_sum left_ops (cl_threads s) = start + total;
  lo_from : start <= v;
  lo_db : loaded v (rs_rows (cl_db s));
}.

Lemma loading_step v s s' : loading v s → warm_step Log Pow unicode_lower range ctx fuel s s' → loading (v + 1) s'.
Proof.
  intros [Hc Hk Ht Hn Hv Hm] [id Hit].
  destruct (client_iter_ok Log Pow unicode_lower range ctx fuel id true s s' Hit) as (t & err & cw & Hl & Hr & Hmo & Ho & ->).
  pose proof (Ht id t Hl) as (H1 & H2 & H3 & H4 & H5 & H6). unfold run_op in Ho. rewrite H1, H2 in Ho.
  unfold more_ops in Hmo. apply orb_true_iff in Hmo as [Hmo|Hmo]; [apply Z.eqb_eq in Hmo; lia|apply Z.ltb_lt in Hmo].
  assert (1 <= map_sum left_ops (cl_threads s)) as Hpos.
  { rewrite (map_sum_delete _ _ _ _ Hl).
    assert (0 <= map_sum left_ops (delete id (cl_threads s))) by (apply map_sum_nonneg; intros ? ? _; unfold left_ops; lia).
    unfold left_ops at 1. lia. }
  unfold in_int64 in *.
  destruct (do_insert_store Log Pow unicode_lower (ctx id) c v
    (mkCoreW (cl_core s) (th_state t) (cl_db s) (th_polls t)) err cw Hc Hk ltac:(unfold in_int64; lia) ltac:(lia) Ho)
    as (Hc' & Hk' & Hf' & values & Hdom & Hdb). simpl in Hf', Hdom, Hdb.
  assert (wrap64 (wk_opsDone (th_worker t) + opsCount (th_worker t)) = wk_opsDone (th_worker t) + 1) as Hw
    by (unfold opsCount; rewrite H2; apply wrap64_id; unfold in_int64; lia).
  constructor; simpl; try done; try lia.
  - apply map_Forall_insert_2; [|done]. unfold loader. simpl. rewrite Hw, ctx_live, Hf'.
    rewrite bool_decide_eq_true_2 by done. split_and!; try done; lia.
  - rewrite (map_sum_update _ _ _ _ _ Hl). unfold left_ops at 2 3. simpl. rewrite Hw. lia.
  - rewrite Hdb. apply loaded_insert; [done|done|]. by rewrite Hdom, H6.
Qed.

Lemma loading_steps v s s' : loading v s → rtc (warm_step Log Pow unicode_lower range ctx fuel) s s' →
  ∃ v', loading v' s'.
Proof.
  intros Hl Hs. revert v Hl. induction Hs as [s|s s1 s2 Hst _ IH]; intros v Hl; [by exists v|].
  by apply (IH (v + 1)), (loading_step v s).
Qed.

(** When every thread has finished, all records are there. *)
Lemma loading_done v s : loading v s → client_done s → loaded (start + total) (rs_rows (cl_db s)).
Proof.
  intros [Hc Hk Ht Hn Hv Hm] Hd. rewrite map_sum_zero in Hn; [by replace (start + total) with v by lia|].
  intros id t Hl. pose proof (Ht id t Hl) as (_ & _ & H3 & H4 & H5 & _). pose proof (Hd id t Hl) as Hdone.
  unfold thread_done, more_ops in Hdone. rewrite H3 in Hdone. simpl in Hdone.
  apply orb_false_iff in Hdone as [_ Hdone]. apply Z.ltb_ge in Hdone. unfold left_ops. lia.
Qed.
End ClientLoad.

(** ** Runs, for examples *)

(** The rounds of the given threads, in that order. *)
Fixpoint run_rounds {R D} `{!Rand R} `{!YcsbDB D} `{!Measured D} (ctx : nat → nat → option ctx_error)
    (ids : list nat) (s : client R D) : option (client R D) :=
  match ids with
  | [] => Some s
  | id :: ids =>
      match client_iter (λ x, x) pow_one (λ x, x) map_to_list ctx 0 id true s with
      | Some (Ok s) => run_rounds ctx ids s
      | _ => None
      end
  end.

Lemma run_rounds_steps {R D} `{!Rand R} `{!YcsbDB D} `{!Measured D} ctx ids : ∀ (s s' : client R D),
  run_rounds ctx ids s = Some s' → nsteps (warm_step (λ x, x) pow_one (λ x, x) map_to_list ctx 0) (length ids) s s'.
Proof.
  induction ids as [|id ids IH]; intros s s'; simpl; [intros [= ->]; constructor|].
  destruct (client_iter _ _ _ _ _ _ _ _ s) as [[s1|?|?|]|] eqn:E; [|done..]. intros Hr.
  econstructor; [by exists id|]. by apply IH.
Qed.

Lemma run_rounds_rtc {R D} `{!Rand R} `{!YcsbDB D} `{!Measured D} ctx ids (s s' : client R D) :
  run_rounds ctx ids s = Some s' → rtc (client_step (λ x, x) pow_one (λ x, x) map_to_list ctx 0) s s'.
Proof.
  intros Hs%run_rounds_steps. eapply rtc_nsteps. exists (length ids).
  eapply (nsteps_congruence id); [|exact Hs]. intros x y [i Hi]. by exists i, true.
Qed.

(** Three records of two fields of twelve bytes, loaded by two threads. *)
Definition load_props : Properties :=
  demo_props [("insertorder", "ordered")]
    [("recordcount", 8); ("threadcount", 2); ("fieldcount", 2); ("fieldlength", 12); ("insertstart", 5); ("insertcount", 3)]
    [("dataintegrity", true); ("dotransactions", false)].

Definition no_cancel (_ _ : nat) : option ctx_error := None.

Definition start_client (p : Properties) (m : MemDB) : client (list Z) MemDB :=
  match Run p (core_of p) m (λ _, []) with Ok s => s | _ => mkClientState (core_of p) m ∅ end.

Definition after_rounds (ids : list nat) (s : client (list Z) MemDB) : client (list Z) MemDB :=
  default s (run_rounds no_cancel ids s).

Lemma after_rounds_steps ids s : is_Some (run_rounds no_cancel ids s) →
  nsteps (warm_step (λ x, x) pow_one (λ x, x) map_to_list no_cancel 0) (length ids) s (after_rounds ids s).
Proof. intros [s' Hs]. unfold after_rounds. rewrite Hs. by apply (run_rounds_steps no_cancel). Qed.

Lemma after_rounds_rtc ids s : is_Some (run_rounds no_cancel ids s) →
  rtc (client_step (λ x, x) pow_one (λ x, x) map_to_list no_cancel 0) s (after_rounds ids s).
Proof. intros [s' Hs]. unfold after_rounds. rewrite Hs. by apply (run_rounds_rtc no_cancel ids). Qed.

#[local] Ltac computes := apply (bool_decide_unpack _); vm_compute; exact I.

Example load_ex :
  map fst (map_to_list (cl_db (after_rounds [1; 0; 0]%nat (start_client load_props ∅)))) ≡ₚ
    [("usertable", "user5"); ("usertable", "user6"); ("usertable", "user7")].
Proof. vm_compute. solve_Permutation. Qed.

(** ** Properties *)

(** the operations are divided among the threads without loss: the client
    starts [threadcount] workers whose shares differ by at most one, are never
    zero and add up to the number of operations asked for. *)
Theorem ops_divided {R D : Type} (p : Properties) (c : core) (d : D) (r : nat → R)
    (s : client R D) :
  in_int64 (totalOpCount p) → 0 < GetInt p "threadcount" 1 → Run p c d r = Ok s →
  map_sum (λ t, wk_opCount (th_worker t)) (cl_threads s) = totalOpCount p ∧
  map_Forall (λ _ t, let q := totalOpCount p / GetInt p "threadcount" 1 in
     1 <= q <= wk_opCount (th_worker t) ∧ wk_opCount (th_worker t) <= q + 1) (cl_threads s).
Proof.
  intros Hi Hn Hr. destruct (run_spec p c d r s Hr) as (_ & _ & _ & Hfresh & Hsum).
  destruct (Hsum Hi Hn) as [Hle Hs]. split; [done|]. intros id t Ht. destruct (Hfresh id t Ht) as [_ (Hw & _)].
  destruct (new_worker_ok p _ _ _ Hw Hn Hi) as (_ & Hop & _). cbv zeta. rewrite Hop. unfold share.
  assert (1 <= totalOpCount p / GetInt p "threadcount" 1) by (apply Z.div_le_lower_bound; lia).
  destruct (_ <? _); lia.
Qed.

Lemma ops_divided_witness :
  map_sum (λ t, wk_opCount (th_worker t)) (cl_threads (start_client load_props ∅)) = 3 ∧
  map_Forall (λ _ t, 1 <= 1 <= wk_opCount (th_worker t) ∧ wk_opCount (th_worker t) <= 2)
    (cl_threads (start_client load_props ∅)).
Proof.
  refine (ops_divided load_props (core_of load_props) ∅ (λ _, []) (start_client load_props ∅) _ _ _);
    try reflexivity. apply (bool_decide_unpack _). vm_compute. exact I.
Defined.

(** C28: a run ends: once warming up is over, the threads together complete at most
    as many rounds as operations were asked for, in whatever order they are
    scheduled and whatever the database does. *)
Theorem client_terminates {R D} `{!Rand R} `{!YcsbDB D} `{!Measured D} (Log : float64 → float64)
    (Pow : float64 → float64 → float64) (lower : string → string) (range : row → list (string * bytes))
    (ctx : nat → nat → option ctx_error) (fuel : nat) (p : Properties) (c : core) (d : D) (r : nat → R)
    (s s' : client R D) (rounds : nat) :
  0 <= totalOpCount p → totalOpCount p + Z.max 1 (GetInt p "batch.size" 1) < 2 ^ 63 → 0 < GetInt p "threadcount" 1 →
  Run p c d r = Ok s →
  nsteps (warm_step Log Pow lower range ctx fuel) rounds s s' →
  Z.of_nat rounds <= totalOpCount p.
Proof.
  intros H0 Hb Hn Hr Hs. assert (in_int64 (totalOpCount p)) as Hi by (unfold in_int64; lia).
  destruct (run_spec p c d r s Hr) as (_ & _ & _ & Hfresh & Hsum). destruct (Hsum Hi Hn) as [Hle Htot].
  assert (∀ id t, cl_threads s !! id = Some t → worker_ends t ∧ left_ops t = wk_opCount (th_worker t)) as Hw.
  { intros id t Ht. destruct (Hfresh id t Ht) as [_ (Hw & _)].
    destruct (new_worker_ok p _ _ _ Hw Hn Hi) as (_ & Hop & Hdone & _ & Hbs & Hdb).
    assert (1 <= wk_opCount (th_worker t) <= totalOpCount p).
    { rewrite Hop. unfold share. assert (1 <= totalOpCount p / GetInt p "threadcount" 1) by (apply Z.div_le_lower_bound; lia).
      destruct (Z.of_nat id <? _) eqn:E; [apply Z.ltb_lt in E|].
      - pose proof (Z.div_mod (totalOpCount p) (GetInt p "threadcount" 1) ltac:(lia)). nia.
      - split; [lia|]. rewrite Z.add_0_r. apply Z.div_le_upper_bound; nia. }
    unfold worker_ends, left_ops, opsCount. cbv zeta. rewrite Hdone, Hbs, Hdb.
    destruct (GetInt p "batch.size" 1 >? 1) eqn:E; [apply Z.gtb_lt in E|]; lia. }
  rewrite <- Htot. rewrite (warm_steps_bounded Log Pow lower range ctx fuel rounds s s'); [|intros id t Ht; by apply (Hw id)|done].
  apply Z.eq_le_incl. unfold map_sum. f_equal. apply map_ext_in. intros [id t] Hin%list_elem_of_In.
  apply elem_of_map_to_list in Hin. by apply (Hw id).
Qed.

Lemma client_terminates_witness :
  nsteps (warm_step (λ x, x) pow_one (λ x, x) map_to_list no_cancel 0) 3 (start_client load_props ∅)
    (after_rounds [1; 0; 0]%nat (start_client load_props ∅)) ∧ 3 <= totalOpCount load_props.
Proof.
  pose proof (after_rounds_steps [1; 0; 0]%nat (start_client load_props ∅) ltac:(computes)) as H.
  split; [exact H|].
  refine (client_terminates (λ x, x) pow_one (λ x, x) map_to_list no_cancel 0 load_props (core_of load_props) ∅
    (λ _, []) _ _ 3 _ _ _ _ H); [computes..|vm_compute; reflexivity].
Defined.

(** data integrity: a workload created with [dataintegrity] never finds an
    unexpected value.  For every database that returns for a field only what was
    written to it, every number of threads and every interleaving of their inserts,
    updates, reads, scans and batches, no round of the client ends the process with
    the message "unexpected deterministic value" (or any other). *)
Theorem integrity_never_fails {R D} `{!Rand R} `{!YcsbDB D} `{!ValueDB D} `{!Measured D} `{!ValueMeasured D}
    (Log : float64 → float64) (Pow : float64 → float64 → float64) (lower : string → string)
    (range : row → list (string * bytes)) (ReadFile : string → string + error)
    (ctx : nat → nat → option ctx_error) (fuel : nat) (p : Properties) (r0 r1 : R) (c : core) (d : D) (r : nat → R)
    (s s' : client R D) :
  (∀ m, range m ≡ₚ map_to_list m) →
  Create Log Pow lower ReadFile p r0 = (Ok c, r1) → GetBool p "dataintegrity" false = true →
  holds_values (GetString p "table" "usertable")
    (deterministic lower (field_names (GetInt64 p "fieldcount" 10)) (GetInt64 p "fieldlength" 100)) d →
  Run p c d r = Ok s → rtc (client_step Log Pow lower range ctx fuel) s s' →
  ∀ id warm msg, client_iter Log Pow lower range ctx fuel id warm s' ≠ Some (Exit msg).
Proof.
  intros Hrange Hc Hi Hd Hr Hsteps id warm msg.
  pose proof (run_client_ok _ _ _ _ _ _ _ _ _ _ _ Hc Hi Hd Hr) as Hok.
  eapply (client_ok_no_exit Log Pow lower range ctx fuel Hrange), (client_ok_steps Log Pow lower range ctx fuel Hrange);
    [exact Hok|done].
Qed.

(** The records of the load phase, read, updated and written by transactions. *)
Definition mixed_props : Properties :=
  demo_props [("insertorder", "ordered")]
    [("recordcount", 3); ("operationcount", 4); ("threadcount", 2); ("fieldcount", 2); ("fieldlength", 12)]
    [("dataintegrity", true)].

Lemma integrity_never_fails_witness :
  GetBool mixed_props "dataintegrity" false = true ∧
  ∀ id warm msg,
    client_iter (λ x, x) pow_one (λ x, x) map_to_list no_cancel 0 id warm
      (after_rounds [1; 0; 1]%nat (start_client mixed_props ∅)) ≠ Some (Exit msg).
Proof.
  split; [reflexivity|].
  refine (integrity_never_fails (λ x, x) pow_one (λ x, x) map_to_list (λ _, inr "no such file") no_cancel 0
    mixed_props [] [] (core_of mixed_props) ∅ (λ _, []) (start_client mixed_props ∅) _ _ _ _ _ _ _).
  - intros m. reflexivity.
  - vm_compute. reflexivity.
  - vm_compute. reflexivity.
  - intros key values Hl. discriminate Hl.
  - vm_compute. reflexivity.
  - apply after_rounds_rtc. computes.
Defined.

Lemma load_exact {R D} `{!Rand R} `{!YcsbDB D} `{!Measured D} `{!RowStore D} (Log : float64 → float64) (Pow : float64 → float64 → float64)
    (lower : string → string) (range : row → list (string * bytes)) (ReadFile : string → string + error)
    (ctx : nat → nat → option ctx_error) (fuel : nat) (p : Properties) (r0 r1 : R) (c : core) (r : nat → R)
    (d : D) (s s' : client R D) :
  let start := GetInt64 p "insertstart" 0 in
  in_int64 start → in_int64 (totalOpCount p) → in_int64 (start + totalOpCount p) →
  GetBool p "dotransactions" true = false → GetInt p "batch.size" 1 <= 1 → 0 < GetInt p "threadcount" 1 →
  (∀ id k, ctx id k = None) →
  Create Log Pow lower ReadFile p r0 = (Ok c, r1) → rs_rows d = ∅ → Run p c d r = Ok s →
  rtc (warm_step Log Pow lower range ctx fuel) s s' → client_done s' →
  (∀ table key, is_Some (rs_rows (cl_db s') !! (table, key)) ↔
     table = c_table c ∧ ∃ i, start <= i < start + totalOpCount p ∧ key = buildKeyName c i) ∧
  map_Forall (λ _ values, dom values = list_to_set (c_fieldNames c)) (rs_rows (cl_db s')).
Proof.
  cbv zeta. intros Hst Hi Hsum Htx Hb Hn Hctx Hc Hd0 Hr Hsteps Hdone.
  destruct (create_spec _ _ _ _ _ _ _ _ Hc) as (_ & _ & _ & _ & Hseq & _ & _).
  destruct (run_spec p c d r s Hr) as (_ & Hcore & Hdb & Hfresh & Htot). destruct (Htot Hi Hn) as [Hle Hs].
  assert (∀ id t, cl_threads s !! id = Some t → loader c t ∧ left_ops t = wk_opCount (th_worker t)) as Hth.
  { intros id t Ht. destruct (Hfresh id t Ht) as (Hid & Hw & Hsta & _ & Hrun).
    destruct (new_worker_ok p _ _ _ Hw Hn Hi) as (_ & Hop & Hdone0 & Htx' & _ & Hdb').
    assert (0 < wk_opCount (th_worker t) < 2 ^ 63) as Hpos.
    { rewrite Hop. apply (share_bounds (totalOpCount p) (GetInt p "threadcount" 1)); [done|lia|done]. }
    unfold loader, left_ops. rewrite Hdone0, Htx', Hdb', Hsta. split_and!; try done; try lia. }
  destruct (loading_steps Log Pow lower range ctx fuel Hctx c _ _ Hst Hsum
    (GetInt64 p "insertstart" 0) s s') as [v Hl]; [|done|by apply (loading_done c (GetInt64 p "insertstart" 0) (totalOpCount p) v s')].
  constructor.
  - by rewrite Hcore.
  - by rewrite Hcore, Hseq.
  - intros id t Ht. by apply (Hth id).
  - f_equal. rewrite <- Hs. unfold map_sum. f_equal. apply map_ext_in. intros [id t] Hin%list_elem_of_In.
    apply elem_of_map_to_list in Hin. by apply (Hth id).
  - lia.
  - rewrite Hdb, Hd0. unfold loaded, MemDB. split; [|apply map_Forall_empty]. intros table key. rewrite lookup_empty. split; [by intros []|].
    intros (_ & i & Hi' & _). lia.
Qed.



(** Batches overshoot: one thread asked to load 10 records in batches of 4 stores
    12, because the loop counts whole batches; the last two keys are beyond the
    range the transactions draw from. *)
Theorem batch_load_overshoots :
  let p := demo_props [("insertorder", "ordered")]
             [("recordcount", 10); ("batch.size", 4); ("fieldcount", 1); ("fieldlength", 1)] [("dotransactions", false)] in
  let d : MemDB * YWorld := (∅, mkYW (λ k, tm (Z.of_nat k)) 0 false (MHistograms ∅)) in
  let s := match Run p (core_of p) d (λ _, ([] : list Z)) with Ok s => s | _ => mkClientState (core_of p) d ∅ end in
  match run_rounds no_cancel [0; 0; 0]%nat s with
  | Some s' => totalOpCount p = 10 ∧ bool_decide (client_done s') = true ∧ size (cl_db s').1 = 12%nat ∧
      is_Some ((cl_db s').1 !! ("usertable", "user11"))
  | None => False
  end.
Proof. vm_compute. split_and!; try reflexivity. eexists. reflexivity. Qed.
