(* ===== verification/YcsbAcp.v ===== *)
(** * YcsbAcp: the core workload against an ACP cluster

    The binding of src/go-ycsb-vendor/db/acp/db.go (its operations are in
    [Clients]) as a database of the framework, the promise it keeps over the
    cluster of [Cluster], and what a benchmark run over both then guarantees. *)

From S2P Require Import Prelude GoLib Float64 Metrics Hlc Storage Staleness Ring WriteLog.
From S2P Require Import Reconcile GoParse Config Quorum Api Coordinator Server Cluster Clients.
From S2P Require Import YcsbUtil Json Generators AckCounter Ycsb Workload YcsbClient.

Open Scope Z_scope.

(** ** The binding as a database *)

Section Binding.
Context {E : Type} `{!Service E}.

(** The connections, the cluster and the clock. *)
Abbreviation A := (acpDB * E * World)%type.

Definition acp_call {B} (m : acpDB → GoM E (option (B * acpDB))) : PM A B := λ s,
  match m s.1.1 s.1.2 s.2 with
  | (Some (b, db), e, w) => (Ok b, (db, e, w))
  | (None, e, w) => (Panic "index out of range", (s.1.1, e, w))
  end.

Definition acp_db : YcsbDB A :=
  mkYcsbDB A
    (λ table key fields, acp_call (λ db, acp_Read db table key fields))
    (λ table startKey count fields, pret acp_Scan)
    (λ table key values, acp_call (λ db, acp_Update db table key values))
    (λ table key values, acp_call (λ db, acp_Insert db table key values))
    (λ table key, pret acp_Delete)
    None.
End Binding.

(** ** The promise over a cluster *)

Section Holds.
Context {Q : Type} `{!QuorumProvider Q}.
Context (sched : schedule (string * ServiceClient)) (sched_fair : fair_schedule sched).
(** The addresses of the nodes. *)
Context (U : gset string).

#[local] Instance cluster_svc : Service (Cluster Q) := cluster_service sched.
#[local] Instance acp_over_cluster : YcsbDB (acpDB * Cluster Q * World) := acp_db.

(** Every version of every row of the table, on every node, has values of [P];
    the binding talks to nodes of the cluster. *)
Definition acp_holds (table : string) (P : value_pred) (s : acpDB * Cluster Q * World) : Prop :=
  (∀ key field v, P key field v → is_ascii field = true) ∧
  cluster_wf U s.1.2 ∧ Forall (λ a, a ∈ U) (db_clients s.1.1) ∧
  ∀ t key vv values, lookup_at s.1.2 t (getRowKey table key) = Some vv →
    Unmarshal (vv_Value vv) = inl values → row_ok P key values.

Lemma row_key_inj table k1 k2 : getRowKey table k1 = getRowKey table k2 → k1 = k2.
Proof.
  unfold getRowKey. intros H. apply (inj (String.append table)) in H. by injection H.
Qed.

Lemma row_ok_filter P key fields values : row_ok P key values → row_ok P key (filter_fields fields values).
Proof.
  intros Hv. unfold filter_fields. destruct fields as [|f0 fields]; [done|].
  assert (∀ fs acc, row_ok P key acc → row_ok P key (fold_left (λ filtered field,
    match values !! field with Some val => <[field := val]> filtered | None => filtered end) fs acc)) as H.
  { induction fs as [|f fs IH]; intros acc Hacc; [done|]. simpl. apply IH.
    destruct (values !! f) as [v|] eqn:Ev; [|done]. apply row_ok_insert; [by apply Hv|done]. }
  apply H, row_ok_empty.
Qed.

Lemma acp_insert_keeps table P key values : row_ok P key values →
  keeps (acp_holds table P) (acp_call (λ db, acp_Insert db table key values)) (λ _, True).
Proof.
  intros Hv [[db c] w] (Hasc & Hwf & Hcl & Hall). unfold acp_call. cbn [fst snd]. unfold acp_Insert.
  destruct (getClient db) as [[a db']|] eqn:Ha; [|done]. destruct (get_client_next _ _ _ Ha) as [HaU Hdb'].
  cbn [fst snd] in Hwf, Hcl, Hall. rewrite Forall_forall in Hcl.
  assert (Forall (λ x, x ∈ U) (db_clients db')) as Hcl' by (rewrite Hdb'; by apply Forall_forall).
  destruct (Marshal values) as [data|err] eqn:Em; [|done].
  set (req := mkPutRequest (getRowKey table key) data).
  destruct (cluster_put U c a sched req w Hwf (Hcl a HaU) sched_fair)
    as (s & resp & c' & w' & acked & Hs & Heq & Hwf' & _ & _ & _ & _ & Hoth & Hng).
  unfold bind, cluster_svc. rewrite (service_put sched a req c w resp c' w' Heq). unfold ret.
  split; [|done]. split; [done|]. split; [done|]. split; [done|].
  change (preq_Key req) with (getRowKey table key) in Hoth, Hng.
  intros t key' vv values' Hl Hu. cbn [fst snd] in Hl. destruct (decide (key' = key)) as [->|Hne].
  - destruct (Hng t) as [Hsame|(vv' & Hl' & _ & Hval)]; [by apply (Hall t key vv); [by rewrite <- Hsame|]|].
    rewrite Hl in Hl'.
    injection Hl' as <-. rewrite Hval in Hu. simpl in Hu.
    destruct (json_roundtrip values) as (data' & Hm & Hr & _).
    { intros f v Hf. apply (Hasc key f v), Hv, Hf. }
    rewrite Em in Hm. injection Hm as <-. rewrite Hr in Hu. by injection Hu as <-.
  - apply (Hall t key' vv); [|done]. rewrite <- Hoth; [done|].
    intros Heq'. apply Hne. by apply (row_key_inj table).
Qed.

Lemma acp_read_keeps table P key fields :
  keeps (acp_holds table P) (acp_call (λ db, acp_Read db table key fields))
    (λ r, known_fields P fields → ∀ v, r = inl v → row_ok P key v).
Proof.
  intros [[db c] w] (Hasc & Hwf & Hcl & Hall). unfold acp_call. cbn [fst snd]. unfold acp_Read.
  destruct (getClient db) as [[a db']|] eqn:Ha; [|done]. destruct (get_client_next _ _ _ Ha) as [HaU Hdb'].
  cbn [fst snd] in Hwf, Hcl, Hall. rewrite Forall_forall in Hcl.
  assert (Forall (λ x, x ∈ U) (db_clients db')) as Hcl' by (rewrite Hdb'; by apply Forall_forall).
  destruct (cluster_get U c a sched (mkGetRequest (getRowKey table key)) w Hwf (Hcl a HaU) sched_fair)
    as (s & resp & c' & w' & Hs & Hnode & Heq & Hwf' & Hsame & Hout).
  unfold bind, cluster_svc. rewrite (service_get sched a _ c w resp c' w' Heq). unfold ret.
  split.
  { split; [done|]. split; [done|]. split; [done|]. intros t key' vv values Hl. rewrite Hsame in Hl. by eapply Hall. }
  intros _ v Hr. destruct (decide (gresp_Error resp = "")) as [He|]; [|done].
  destruct (gresp_Found resp) eqn:Ef; simpl in Hr; [|injection Hr as <-; apply row_ok_empty].
  destruct (Unmarshal (gresp_Value resp)) as [values|?] eqn:Eu; [|done]. injection Hr as <-. apply row_ok_filter.
  destruct Hout as [| |err h value Herr|h value ver ts Hrq]; [done|done|done|]. simpl in Eu.
  destruct Hrq as [X _ _ _ _ [(vv & Hl & _ & Hval)|(a' & Ha' & vv & Hl & _ & Hval)]]; rewrite <- Hval in Eu.
  - apply (Hall (target_of a) key vv); [|done]. unfold lookup_at. by rewrite Hs.
  - apply (Hall (target_of a') key vv); [|done]. change net_lookup with (lookup_at (Q := Q)) in Hl.
    rewrite lookup_others in Hl; [done|]. intros Hab. apply (inj target_of) in Hab as ->.
    destruct Hnode as [_ Hd]. rewrite Hd in Ha'. apply elem_of_difference in Ha' as [_ Ha']. by apply Ha', elem_of_singleton.
Qed.

#[local, refine] Instance acp_values : ValueDB (acpDB * Cluster Q * World) :=
  mkValueDB _ acp_over_cluster acp_holds _ _ _ _ _ _.
Proof.
  - intros. apply acp_read_keeps.
  - intros. by apply keeps_ret.
  - intros. by apply acp_insert_keeps.
  - intros. by apply acp_insert_keeps.
  - intros. by apply keeps_ret.
  - done.
Defined.
End Holds.

(** ** Properties *)


Abbreviation demo_acp := (DbWrapper (YcsbDB0 := acp_db (Service0 := demo_service))).

Definition demo_bench : acpDB * Cluster AdaptiveQuorum * World * YWorld :=
  (mkDB ["a"; "b"; "c"] 0, demo_mesh 2 2, ticking Second, mkYW (λ k, tm (Z.of_nat k)) 0 false (MHistograms ∅)).

Definition acp_client (d : acpDB * Cluster AdaptiveQuorum * World * YWorld) :
    client (list Z) (acpDB * Cluster AdaptiveQuorum * World * YWorld) :=
  match Run load_props (core_of load_props) d (λ _, []) with
  | Ok s => s
  | _ => mkClientState (core_of load_props) d ∅
  end.

Lemma acp_client_run d : Run load_props (core_of load_props) d (λ _, []) = Ok (acp_client d).
Proof. vm_compute. reflexivity. Qed.

Definition acp_rounds (ids : list nat) (s : client (list Z) (acpDB * Cluster AdaptiveQuorum * World * YWorld)) :=
  default s (run_rounds (YcsbDB0 := demo_acp) no_cancel ids s).

Lemma acp_rounds_rtc ids s : is_Some (run_rounds (YcsbDB0 := demo_acp) no_cancel ids s) →
  rtc (client_step (YcsbDB0 := demo_acp) (λ x, x) pow_one (λ x, x) map_to_list no_cancel 0) s (acp_rounds ids s).
Proof.
  intros [s' Hs]. unfold acp_rounds. rewrite Hs. apply (run_rounds_rtc (YcsbDB0 := demo_acp) no_cancel ids), Hs.
Qed.

(** Three inserts by two threads: each is measured, and stored by two nodes or more. *)
Example acp_load_ex :
  let '(db, cl, w, yw) := cl_db (acp_rounds [1; 0; 0]%nat (acp_client demo_bench)) in
  (match yw_measurer yw with MHistograms h => length <$> (h !! "TOTAL") | _ => None end = Some 3%nat) ∧
  db_nextClient db = 0%nat ∧
  match acp_Read (Service0 := demo_service) db "usertable" "user6" ["field1"] cl w with
  | (Some (inl values, _), _, _) => values !! "field1" = Some (go_bytes "user6:field1")
  | _ => False
  end.
Proof. vm_compute. done. Qed.


(** An update replaces the row: over the binding the fields that were not updated
    are gone, where the reference database keeps them. *)
Theorem acp_update_drops_fields :
  let row := {["field0" := go_bytes "a"; "field1" := go_bytes "b"]} : row in
  let both {D} `{!YcsbDB D} : PM D (_ + error) :=
    db_Insert "usertable" "user1" row ~;
    db_Update "usertable" "user1" {["field0" := go_bytes "c"]} ~;
    db_Read "usertable" "user1" [] in
  (both (YcsbDB0 := demo_acp) demo_bench).1 = Ok (inl {["field0" := go_bytes "c"]}) ∧
  (both (YcsbDB0 := mem_db) ∅).1 = Ok (inl {["field0" := go_bytes "c"; "field1" := go_bytes "b"]}).
Proof. vm_compute. split; reflexivity. Qed.
