(* ===== verification/ConcMap.v ===== *)
(** * ConcMap: the sharded map of the YCSB framework
    (src/go-ycsb-vendor/pkg/util/concurrent_map.go)

    Integers to integers, divided into shards by a hash of the key.  Every
    operation holds the lock of one shard, so its effect is atomic; the iterators
    collect the shards through channels in an order that is a schedule here. *)

From S2P Require Import Prelude GoLib Storage Api YcsbUtil.

Open Scope Z_scope.

Record ConcurrentMap := mkCMap { cm_shards : list (gmap Z Z); cm_shardCount : Z }.

Definition New (shardCount : Z) : Outcome ConcurrentMap :=
  if shardCount <? 0 then Panic "makeslice: len out of range"
  else Ok (mkCMap (replicate (Z.to_nat shardCount) ∅) shardCount).

(** The shifts are of a signed int; [None] is the division by zero. *)
Definition fnv32 (m : ConcurrentMap) (key : Z) : option Z :=
  let key := wrap64 (wrap64 (key + 0x7ed55d16) + wrap64 (Z.shiftl key 12)) in
  let key := Z.lxor (Z.lxor key 0xc761c23c) (Z.shiftr key 19) in
  let key := wrap64 (wrap64 (key + 0x165667b1) + wrap64 (Z.shiftl key 5)) in
  let key := Z.lxor (wrap64 (key + 0xd3a2646c)) (wrap64 (Z.shiftl key 9)) in
  let key := wrap64 (wrap64 (key + 0xfd7046c5) + wrap64 (Z.shiftl key 3)) in
  let key := Z.lxor (Z.lxor key 0xb55a4f09) (Z.shiftr key 16) in
  if cm_shardCount m =? 0 then None
  else Some (wrap32 (go_rem key (cm_shardCount m))).

(** The index of [GetShard]; [None] is a panic. *)
Definition shard_index (m : ConcurrentMap) (key : Z) : option nat :=
  match fnv32 m key with
  | None => None
  | Some h =>
      let i := Z.to_nat (h mod wrapu64 (cm_shardCount m)) in
      if (i <? length (cm_shards m))%nat then Some i else None
  end.

Definition GetShard (m : ConcurrentMap) (key : Z) : option (gmap Z Z) :=
  match shard_index m key with Some i => cm_shards m !! i | None => None end.

(** An operation under the lock of the key's shard. *)
Definition on_shard {A} (m : ConcurrentMap) (key : Z) (f : gmap Z Z → A * gmap Z Z) : Outcome (A * ConcurrentMap) :=
  match shard_index m key with
  | None => Panic "index out of range"
  | Some i =>
      let '(a, items) := f (default ∅ (cm_shards m !! i)) in
      Ok (a, mkCMap (<[i := items]> (cm_shards m)) (cm_shardCount m))
  end.

(** [v, ok := items[key]]. *)
Definition items_get (key : Z) (items : gmap Z Z) : Z * bool :=
  match items !! key with Some v => (v, true) | None => (0, false) end.

Definition CMap_Set (key value : Z) (m : ConcurrentMap) : Outcome (unit * ConcurrentMap) :=
  on_shard m key (λ items, (tt, <[key := value]> items)).

Definition Upsert (key value : Z) (cb : bool → Z → Z → Z) (m : ConcurrentMap) : Outcome (Z * ConcurrentMap) :=
  on_shard m key (λ items,
    let '(v, ok) := items_get key items in
    let res := cb ok v value in
    (res, <[key := res]> items)).

Definition SetIfAbsent (key value : Z) (m : ConcurrentMap) : Outcome (bool * ConcurrentMap) :=
  on_shard m key (λ items,
    let '(_, ok) := items_get key items in
    (negb ok, if negb ok then <[key := value]> items else items)).

Definition CMap_Get (key : Z) (m : ConcurrentMap) : Outcome (Z * bool) :=
  match GetShard m key with
  | None => Panic "index out of range"
  | Some items => Ok (items_get key items)
  end.

Definition Has (key : Z) (m : ConcurrentMap) : Outcome bool :=
  let! vb := CMap_Get key m in Ok vb.2.

Definition Count (m : ConcurrentMap) : nat := sum_list_with size (cm_shards m).
Definition IsEmpty (m : ConcurrentMap) : bool := (Count m =? 0)%nat.

Definition Remove (key : Z) (m : ConcurrentMap) : Outcome (unit * ConcurrentMap) :=
  on_shard m key (λ items, (tt, delete key items)).

Definition RemoveCb (key : Z) (cb : Z → Z → bool → bool) (m : ConcurrentMap) : Outcome (bool * ConcurrentMap) :=
  on_shard m key (λ items,
    let '(v, ok) := items_get key items in
    let remove := cb key v ok in
    (remove, if remove && ok then delete key items else items)).

Definition Pop (key : Z) (m : ConcurrentMap) : Outcome ((Z * bool) * ConcurrentMap) :=
  on_shard m key (λ items, (items_get key items, delete key items)).

(** [MSet] over the pairs in the order [range] visits them. *)
Fixpoint MSet (data : list (Z * Z)) (m : ConcurrentMap) : Outcome ConcurrentMap :=
  match data with
  | [] => Ok m
  | (key, value) :: data => let! um := CMap_Set key value m in MSet data um.2
  end.

(** The pairs of all shards, in the order the channels deliver them. *)
Definition IterBuffered (sched : schedule (Z * Z)) (m : ConcurrentMap) : list (Z * Z) :=
  sched (concat (map map_to_list (cm_shards m))).

Definition Items (sched : schedule (Z * Z)) (m : ConcurrentMap) : gmap Z Z :=
  fold_left (λ tmp item, <[item.1 := item.2]> tmp) (IterBuffered sched m) ∅.

(** [Keys]: each shard sends its keys to one channel. *)
Definition Keys (sched : schedule Z) (m : ConcurrentMap) : list Z :=
  sched (concat (map (λ items, map fst (map_to_list items)) (cm_shards m))).

(** [IterCb]: the calls of the callback, shard by shard. *)
Definition IterCb {S} (order : gmap Z Z → list (Z * Z)) (fn : Z → Z → S → S) (m : ConcurrentMap) (s : S) : S :=
  fold_left (λ s items, fold_left (λ s kv, fn kv.1 kv.2 s) (order items) s) (cm_shards m) s.

(** ** The plain map it stands for *)

Inductive cmap_op :=
  | OSet (key value : Z)
  | OUpsert (key value : Z) (cb : bool → Z → Z → Z)
  | OSetIfAbsent (key value : Z)
  | OGet (key : Z)
  | OHas (key : Z)
  | ORemove (key : Z)
  | ORemoveCb (key : Z) (cb : Z → Z → bool → bool)
  | OPop (key : Z)
  | OCount
  | OIsEmpty
  | OItems.

Inductive cmap_res :=
  | RUnit
  | RInt (v : Z)
  | RBool (b : bool)
  | RPair (v : Z) (ok : bool)
  | RMap (s : gmap Z Z).

Definition cmap_exec (sched : schedule (Z * Z)) (o : cmap_op) (m : ConcurrentMap) : Outcome (cmap_res * ConcurrentMap) :=
  match o with
  | OSet k v => let! r := CMap_Set k v m in Ok (RUnit, r.2)
  | OUpsert k v cb => let! r := Upsert k v cb m in Ok (RInt r.1, r.2)
  | OSetIfAbsent k v => let! r := SetIfAbsent k v m in Ok (RBool r.1, r.2)
  | OGet k => let! r := CMap_Get k m in Ok (RPair r.1 r.2, m)
  | OHas k => let! b := Has k m in Ok (RBool b, m)
  | ORemove k => let! r := Remove k m in Ok (RUnit, r.2)
  | ORemoveCb k cb => let! r := RemoveCb k cb m in Ok (RBool r.1, r.2)
  | OPop k => let! r := Pop k m in Ok (RPair r.1.1 r.1.2, r.2)
  | OCount => Ok (RInt (Z.of_nat (Count m)), m)
  | OIsEmpty => Ok (RBool (IsEmpty m), m)
  | OItems => Ok (RMap (Items sched m), m)
  end.

Definition map_exec (o : cmap_op) (s : gmap Z Z) : cmap_res * gmap Z Z :=
  let found k := bool_decide (is_Some (s !! k)) in
  let value k := default 0 (s !! k) in
  match o with
  | OSet k v => (RUnit, <[k := v]> s)
  | OUpsert k v cb => let res := cb (found k) (value k) v in (RInt res, <[k := res]> s)
  | OSetIfAbsent k v => if found k then (RBool false, s) else (RBool true, <[k := v]> s)
  | OGet k => (RPair (value k) (found k), s)
  | OHas k => (RBool (found k), s)
  | ORemove k => (RUnit, delete k s)
  | ORemoveCb k cb => let b := cb k (value k) (found k) in (RBool b, if b then delete k s else s)
  | OPop k => (RPair (value k) (found k), delete k s)
  | OCount => (RInt (Z.of_nat (size s)), s)
  | OIsEmpty => (RBool (bool_decide (s = ∅)), s)
  | OItems => (RMap s, s)
  end.

(** [m] holds [s]: every shard has the keys that hash to it, with their values. *)
Record represents (m : ConcurrentMap) (s : gmap Z Z) : Prop := {
  cr_count : 0 < cm_shardCount m < 2 ^ 63;
  cr_shards : length (cm_shards m) = Z.to_nat (cm_shardCount m);
  cr_own i items key : cm_shards m !! i = Some items → is_Some (items !! key) → shard_index m key = Some i;
  cr_value i items key : shard_index m key = Some i → cm_shards m !! i = Some items → items !! key = s !! key;
}.

(** ** Lemmas *)

Lemma shard_index_some m s key : represents m s →
  ∃ i items, shard_index m key = Some i ∧ cm_shards m !! i = Some items ∧ items !! key = s !! key.
Proof.
  intros [Hc Hl Ho Hv]. unfold shard_index in *. unfold fnv32 in *.
  assert (∀ h, (Z.to_nat (h mod wrapu64 (cm_shardCount m)) < length (cm_shards m))%nat) as Hlt.
  { intros h. unfold wrapu64. rewrite (Z.mod_small (cm_shardCount m)) by lia. rewrite Hl.
    pose proof (Z.mod_pos_bound h (cm_shardCount m) ltac:(lia)). lia. }
  destruct (cm_shardCount m =? 0) eqn:E; [apply Z.eqb_eq in E; lia|].
  set (h := wrap32 _). specialize (Hlt h). destruct (lookup_lt_is_Some_2 _ _ Hlt) as [items Hi].
  exists (Z.to_nat (h mod wrapu64 (cm_shardCount m))), items.
  assert ((Z.to_nat (h mod wrapu64 (cm_shardCount m)) <? length (cm_shards m))%nat = true) as Hb by by apply Nat.ltb_lt.
  split; [by rewrite Hb|]. split; [done|]. apply (Hv (Z.to_nat (h mod wrapu64 (cm_shardCount m)))); [|done].
  fold h. by rewrite Hb.
Qed.

(** Storing a shard does not change where keys go. *)
Lemma shard_index_store m i items key :
  shard_index (mkCMap (<[i := items]> (cm_shards m)) (cm_shardCount m)) key = shard_index m key.
Proof. unfold shard_index, fnv32. cbn [cm_shards cm_shardCount]. by rewrite length_insert. Qed.

(** A function of a map that reads and changes only the entry of [key]. *)
Definition local_at {A} (key : Z) (f : gmap Z Z → A * gmap Z Z) : Prop :=
  (∀ items items', items !! key = items' !! key →
     (f items).1 = (f items').1 ∧ (f items).2 !! key = (f items').2 !! key) ∧
  (∀ items key', key' ≠ key → (f items).2 !! key' = items !! key').

Lemma on_shard_spec {A} m s key (f : gmap Z Z → A * gmap Z Z) :
  represents m s → local_at key f →
  ∃ m', on_shard m key f = Ok ((f s).1, m') ∧ represents m' (f s).2.
Proof.
  intros Hr [Hf1 Hf2]. destruct (shard_index_some m s key Hr) as (i & items & Hi & Hl & Hk).
  destruct Hr as [Hc Hlen Ho Hv]. unfold on_shard. rewrite Hi, Hl. simpl.
  destruct (Hf1 items s Hk) as [Ha Hm]. pose proof (Hf2 items) as Hother.
  destruct (f items) as [a items'] eqn:Ef. simpl in *. exists (mkCMap (<[i := items']> (cm_shards m)) (cm_shardCount m)).
  split; [by rewrite Ha|]. pose proof (lookup_lt_Some _ _ _ Hl) as Hlt.
  constructor; cbn [cm_shardCount cm_shards]; [done|by rewrite length_insert| |].
  - intros j its k Hj Hs. rewrite shard_index_store. apply list_lookup_insert_Some in Hj as [(<- & <- & _)|[Hne Hj]]; [|by eapply Ho].
    destruct (decide (k = key)) as [->|Hk']; [done|]. rewrite Hother in Hs by done. by eapply Ho.
  - intros j its k Hs Hj. rewrite shard_index_store in Hs.
    apply list_lookup_insert_Some in Hj as [(<- & <- & _)|[Hne Hj]].
    + destruct (decide (k = key)) as [->|Hk']; [done|]. rewrite Hother, Hf2 by done. by eapply Hv.
    + rewrite Hf2; [by eapply Hv|]. intros ->. congruence.
Qed.

Lemma items_get_spec key items : items_get key items = (default 0 (items !! key), bool_decide (is_Some (items !! key))).
Proof.
  unfold items_get. destruct (items !! key) as [v|].
  - by rewrite bool_decide_eq_true_2 by (by eexists).
  - by rewrite bool_decide_eq_false_2 by (by intros []).
Qed.

(** The pairs of the shards are the pairs of the map. *)
Lemma concat_shards_nodup (l : list (gmap Z Z)) :
  (∀ i j a b k, l !! i = Some a → l !! j = Some b → is_Some (a !! k) → is_Some (b !! k) → i = j) →
  NoDup (concat (map map_to_list l)).
Proof.
  induction l as [|a l IH]; intros Hd; simpl; [constructor|]. apply NoDup_app. split; [apply NoDup_map_to_list|]. split.
  - intros [k v] Hk Hin. apply elem_of_map_to_list in Hk.
    apply list_elem_of_In, in_concat in Hin as (x & Hx & Hkx). apply in_map_iff in Hx as (b & <- & Hb).
    apply list_elem_of_In, list_elem_of_lookup in Hb as [j Hj]. apply list_elem_of_In, elem_of_map_to_list in Hkx.
    specialize (Hd 0%nat (S j) a b k eq_refl Hj). discriminate Hd; by eexists.
  - apply IH. intros i j b c k Hi Hj Hb Hc. specialize (Hd (S i) (S j) b c k Hi Hj Hb Hc). lia.
Qed.

Lemma shards_pairs m s : represents m s → concat (map map_to_list (cm_shards m)) ≡ₚ map_to_list s.
Proof.
  intros Hr. apply NoDup_Permutation.
  - apply concat_shards_nodup. intros i j a b k Hi Hj Ha Hb. destruct Hr as [_ _ Ho _].
    pose proof (Ho _ _ _ Hi Ha). pose proof (Ho _ _ _ Hj Hb). congruence.
  - apply NoDup_map_to_list.
  - intros [k v]. rewrite elem_of_map_to_list. rewrite list_elem_of_In, in_concat. split.
    + intros (x & Hx & Hk). apply in_map_iff in Hx as (items & <- & Hi).
      apply list_elem_of_In, elem_of_map_to_list in Hk. apply list_elem_of_In, list_elem_of_lookup in Hi as [i Hi].
      destruct Hr as [_ _ Ho Hv]. by rewrite <- (Hv i items k (Ho i items k Hi ltac:(by eexists)) Hi).
    + intros Hk. destruct (shard_index_some m s k Hr) as (i & items & _ & Hi & Hv).
      exists (map_to_list items). split; [apply in_map, list_elem_of_In; by eapply list_elem_of_lookup_2|].
      apply list_elem_of_In, elem_of_map_to_list. by rewrite Hv.
Qed.

Lemma count_pairs m : Count m = length (concat (map map_to_list (cm_shards m))).
Proof.
  unfold Count. induction (cm_shards m) as [|a l IH]; simpl; [done|].
  rewrite length_app, IH, length_map_to_list. done.
Qed.

Lemma fold_insert_to_map (l : list (Z * Z)) : ∀ s0 : gmap Z Z, NoDup l.*1 →
  fold_left (λ tmp item, <[item.1 := item.2]> tmp) l s0 = list_to_map l ∪ s0.
Proof.
  induction l as [|[k v] l IH]; intros s0 Hn; [simpl; by rewrite map_empty_union|].
  apply NoDup_cons in Hn as [Hk Hn]. simpl. rewrite IH by done.
  apply map_eq. intros j. rewrite !lookup_union. destruct (decide (j = k)) as [->|Hne].
  - rewrite !lookup_insert_eq, not_elem_of_list_to_map_1 by done. by destruct (s0 !! k).
  - by rewrite !lookup_insert_ne by done.
Qed.

Lemma items_spec sched m s : fair_schedule sched → represents m s → Items sched m = s.
Proof.
  intros Hf Hr. unfold Items, IterBuffered.
  assert (sched (concat (map map_to_list (cm_shards m))) ≡ₚ map_to_list s) as Hp by (rewrite Hf; by apply shards_pairs).
  assert (NoDup (sched (concat (map map_to_list (cm_shards m)))).*1) as Hn by (rewrite Hp; apply NoDup_fst_map_to_list).
  rewrite fold_insert_to_map by done. rewrite map_union_empty, (list_to_map_proper _ _ Hn Hp).
  apply list_to_map_to_list.
Qed.

(** One operation on the shards is the operation on the map. *)
Lemma cmap_exec_refines sched o m s : fair_schedule sched → represents m s →
  ∃ m', cmap_exec sched o m = Ok ((map_exec o s).1, m') ∧ represents m' (map_exec o s).2.
Proof.
  intros Hf Hr.
  assert (∀ A key (f : gmap Z Z → A * gmap Z Z) (g : A → cmap_res) res s',
    local_at key f → g (f s).1 = res → (f s).2 = s' →
    ∃ m', (let! r := on_shard m key f in Ok (g r.1, r.2)) = Ok (res, m') ∧ represents m' s') as Hop.
  { intros A key f g res s' Hl Hg Hs. destruct (on_shard_spec m s key f Hr Hl) as (m' & -> & Hr').
    exists m'. simpl. rewrite Hg, <- Hs. done. }
  assert (∀ key, CMap_Get key m = Ok (default 0 (s !! key), bool_decide (is_Some (s !! key)))) as Hget.
  { intros key. unfold CMap_Get, GetShard. destruct (shard_index_some m s key Hr) as (i & items & -> & -> & Hk).
    by rewrite items_get_spec, Hk. }
  destruct o as [k v|k v cb|k v|k|k|k|k cb|k| | |]; cbn [cmap_exec map_exec fst snd].
  - apply (Hop _ k _ (λ _, RUnit)); [|done..]. split; [|intros; simpl; by rewrite lookup_insert_ne].
    intros. simpl. by rewrite !lookup_insert_eq.
  - apply (Hop _ k _ RInt); [|by rewrite items_get_spec..].
    split; [intros ? ? He|intros; rewrite items_get_spec; simpl; by rewrite lookup_insert_ne].
    rewrite !items_get_spec, He. simpl. by rewrite !lookup_insert_eq.
  - destruct (bool_decide (is_Some (s !! k))) eqn:Ef; cbn [fst snd];
      (apply (Hop _ k _ RBool); [|rewrite items_get_spec, Ef; done..]);
      (split; [intros ? ? He; rewrite !items_get_spec, He; simpl;
               (split; [done|]); destruct (negb _); by rewrite ?lookup_insert_eq
              |intros; rewrite items_get_spec; simpl; destruct (negb _); [by rewrite lookup_insert_ne|done]]).
  - rewrite Hget. by exists m.
  - unfold Has. rewrite Hget. by exists m.
  - apply (Hop _ k _ (λ _, RUnit)); [|done..]. split; [|intros; simpl; by rewrite lookup_delete_ne].
    intros. simpl. by rewrite !lookup_delete_eq.
  - apply (Hop _ k _ RBool); [|by rewrite items_get_spec|].
    + split; [intros ? ? He; rewrite !items_get_spec, He; simpl; (split; [done|]); destruct (_ && _); by rewrite ?lookup_delete_eq
             |intros; rewrite items_get_spec; simpl; destruct (_ && _); [by rewrite lookup_delete_ne|done]].
    + rewrite items_get_spec. simpl. destruct (cb k _ _); simpl; [|done]. case_bool_decide as Hs; simpl; [done|].
      symmetry. apply delete_id. by apply eq_None_not_Some.
  - apply (Hop _ k _ (λ r, RPair r.1 r.2)); [|by rewrite items_get_spec|done].
    split; [intros ? ? He; rewrite !items_get_spec, He; simpl; by rewrite !lookup_delete_eq
           |intros; simpl; by rewrite lookup_delete_ne].
  - exists m. by rewrite count_pairs, (shards_pairs m s Hr), length_map_to_list.
  - exists m. split; [|done]. unfold IsEmpty. rewrite count_pairs, (shards_pairs m s Hr), length_map_to_list.
    do 3 f_equal. case_bool_decide as He; [subst; by rewrite map_size_empty|]. apply Nat.eqb_neq. by intros ?%map_size_empty_inv.
  - exists m. by rewrite (items_spec sched m s).
Qed.

Fixpoint cmap_run (sched : schedule (Z * Z)) (ops : list cmap_op) (m : ConcurrentMap) : Outcome (list cmap_res * ConcurrentMap) :=
  match ops with
  | [] => Ok ([], m)
  | o :: ops =>
      let! r := cmap_exec sched o m in
      let! rs := cmap_run sched ops r.2 in
      Ok (r.1 :: rs.1, rs.2)
  end.

Fixpoint map_run (ops : list cmap_op) (s : gmap Z Z) : list cmap_res * gmap Z Z :=
  match ops with
  | [] => ([], s)
  | o :: ops => let '(r, s) := map_exec o s in let '(rs, s) := map_run ops s in (r :: rs, s)
  end.

Lemma cmap_run_refines sched ops : fair_schedule sched → ∀ m s, represents m s →
  ∃ m', cmap_run sched ops m = Ok ((map_run ops s).1, m') ∧ represents m' (map_run ops s).2.
Proof.
  intros Hf. induction ops as [|o ops IH]; intros m s Hr; [by exists m|]. simpl.
  destruct (cmap_exec_refines sched o m s Hf Hr) as (m1 & -> & Hr1). simpl.
  destruct (map_exec o s) as [r s1]. destruct (IH m1 s1 Hr1) as (m2 & -> & Hr2). simpl.
  destruct (map_run ops s1) as [rs s2]. by exists m2.
Qed.

Lemma new_represents n : 0 < n < 2 ^ 63 → ∃ m, New n = Ok m ∧ represents m ∅.
Proof.
  intros Hn. unfold New. replace (n <? 0) with false by (symmetry; apply Z.ltb_ge; lia).
  eexists. split; [reflexivity|]. constructor; cbn [cm_shardCount cm_shards]; [lia|by rewrite length_replicate| |].
  - intros i items key [-> _]%lookup_replicate [v Hv]. by rewrite lookup_empty in Hv.
  - intros i items key _ [-> _]%lookup_replicate. done.
Qed.

(** ** Properties *)

(** C25: the sharded map is a map: for every positive number of shards, any
    sequence of operations on a new map gives exactly the results of the same
    operations on one plain map (counts, removals and snapshots included), never
    panics, and leaves a representation of the plain map. *)
Theorem cmap_refines_map (sched : schedule (Z * Z)) (shardCount : Z) (ops : list cmap_op) :
  fair_schedule sched → 0 < shardCount < 2 ^ 63 →
  ∃ m m', New shardCount = Ok m ∧ cmap_run sched ops m = Ok ((map_run ops ∅).1, m') ∧
    represents m' (map_run ops ∅).2.
Proof.
  intros Hf Hn. destruct (new_represents shardCount Hn) as (m & Hm & Hr).
  destruct (cmap_run_refines sched ops Hf m ∅ Hr) as (m' & Hrun & Hr'). by exists m, m'.
Qed.

Lemma cmap_refines_map_witness :
  ∃ m m', New 4 = Ok m ∧
    cmap_run (@List.rev _) [OSet 1 10; OSetIfAbsent 1 20; OUpsert (-5) 3 (λ _ v n, v + n); OPop 1; OHas 1; OCount; OItems] m =
      Ok ([RUnit; RBool false; RInt 3; RPair 10 true; RBool false; RInt 1; RMap {[-5 := 3]}], m') ∧
    represents m' {[-5 := 3]}.
Proof.
  refine (cmap_refines_map (@List.rev _) 4
    [OSet 1 10; OSetIfAbsent 1 20; OUpsert (-5) 3 (λ _ v n, v + n); OPop 1; OHas 1; OCount; OItems] fair_rev _).
  lia.
Defined.

(** The keys of the map, each once; storing a list of pairs. *)
Lemma keys_spec sched m s : fair_schedule sched → represents m s → Keys sched m ≡ₚ map fst (map_to_list s).
Proof.
  intros Hf Hr. unfold Keys. rewrite Hf, <- (shards_pairs m s Hr), concat_map, map_map. done.
Qed.

Lemma mset_spec data : ∀ m s, represents m s →
  ∃ m', MSet data m = Ok m' ∧ represents m' (fold_left (λ s kv, <[kv.1 := kv.2]> s) data s).
Proof.
  induction data as [|[k v] data IH]; intros m s Hr; [by exists m|]. simpl.
  destruct (cmap_exec_refines (λ l, l) (OSet k v) m s fair_id Hr) as (m1 & H1 & Hr1). simpl in H1, Hr1.
  destruct (CMap_Set k v m) as [[? m2]|?|?|]; [|done..]. simpl in *. injection H1 as <-. by apply IH.
Qed.

Lemma iter_cb_calls m (order : gmap Z Z → list (Z * Z)) (calls : list (Z * Z)) :
  IterCb order (λ k v l, l ++ [(k, v)]) m calls = calls ++ concat (map order (cm_shards m)).
Proof.
  unfold IterCb. assert (∀ l acc : list (Z * Z), fold_left (λ s kv, s ++ [(kv.1, kv.2)]) l acc = acc ++ l) as Hin.
  { induction l as [|[k v] l IH]; intros acc; simpl; [by rewrite app_nil_r|]. rewrite IH, <- app_assoc. done. }
  revert calls. induction (cm_shards m) as [|items l IH]; intros calls; simpl; [by rewrite app_nil_r|].
  rewrite Hin, IH, <- app_assoc. done.
Qed.
