(* ===== verification/BenchRun.v ===== *)
(** * BenchRun: a run of the adaptive benchmark (src/cmd/acp-adaptive-bench/main.go
    [main], [run], [collectMetrics], [printFinalStats], [writeResults]) and the
    state of the Prometheus collector (src/benchmark/adaptive/metrics.go)

    The ticks of the workers and of the collector are events in the order they
    happen.  Formatting of floats and times, the answers of the Prometheus server
    and whether the result file can be written are inputs. *)

From Stdlib Require Import Ascii.
From S2P Require Import Prelude GoLib Float64 Metrics Hlc Storage Staleness Ring WriteLog.
From S2P Require Import Reconcile GoParse Config Quorum Api Coordinator Server Cluster Clients Bench YcsbUtil.

Open Scope Z_scope.

(** ** Configuration *)

Record BenchConfig := mkBenchConfig {
  bc_Endpoints : string;
  bc_PrometheusURL : string;
  bc_Mode : string;
  bc_CCSThreshold : float64;
  bc_Duration : Duration;
  bc_Concurrency : Z;
  bc_Workload : string;
  bc_TargetThroughput : Z;
  bc_OutputFile : string;
}.

(** The defaults of the flags. *)
Definition default_bench_config : BenchConfig :=
  mkBenchConfig "localhost:8080" "http://localhost:9090" "ccs-watch" (f64_lit 45 100) (180 * Second) 10 "mixed" 1000
    "results.csv".

(** ** The collector's state *)

(** What answers a query; the server may answer differently every time. *)
Abbreviation prometheus := (string → http_reply + error).

Record MetricsCollector := mkCollector { mc_prometheusURL : string; mc_snapshot : MetricsSnapshot }.

Definition zero_snapshot : MetricsSnapshot :=
  mkSnapshot zero_time f64_zero f64_zero 0 0 0 0 0 0 f64_zero f64_zero f64_zero f64_zero.

Definition NewMetricsCollector (prometheusURL : string) : MetricsCollector := mkCollector prometheusURL zero_snapshot.

Definition Snapshot (m : MetricsCollector) : MetricsSnapshot := mc_snapshot m.
Definition GetCCSRaw (m : MetricsCollector) : float64 := ms_CCSRaw (mc_snapshot m).
Definition GetCCSSmoothed (m : MetricsCollector) : float64 := ms_CCSSmoothed (mc_snapshot m).
Definition GetCurrentQuorum (m : MetricsCollector) : Z * Z := (ms_CurrentR (mc_snapshot m), ms_CurrentW (mc_snapshot m)).

(** ** The report *)

(** The numbers [printFinalStats] prints; the latencies only after a success. *)
Record FinalStats := mkFinal {
  fs_successPct : float64;
  fs_failedPct : float64;
  fs_readPct : float64;
  fs_writePct : float64;
  fs_throughput : float64;
  fs_latencyMs : option (float64 * float64 * float64);
}.

Definition percent (part total : Z) : float64 :=
  f64_mul (f64_div (f64_of_Z part) (f64_of_Z total)) (f64_of_Z 100).

Definition million : float64 := f64_of_Z 1000000.

Definition printFinalStats (stats : BenchmarkStats) (duration : Duration) : FinalStats :=
  let total := bs_totalOps stats in
  {| fs_successPct := percent (bs_successOps stats) total;
     fs_failedPct := percent (bs_failedOps stats) total;
     fs_readPct := percent (bs_readOps stats) total;
     fs_writePct := percent (bs_writeOps stats) total;
     fs_throughput := f64_div (f64_of_Z total) (Duration_Seconds duration);
     fs_latencyMs :=
       if bs_successOps stats >? 0 then
         Some (f64_div (f64_div (f64_of_Z (bs_totalLatencyNs stats)) (f64_of_Z (bs_successOps stats))) million,
               f64_div (f64_of_Z (bs_minLatencyNs stats)) million,
               f64_div (f64_of_Z (bs_maxLatencyNs stats)) million)
       else None |}.

Section Run.
Context {E : Type} `{!Service E}.
Context (url_encode : string → string) (ParseFloat : string → float64 + error).
(** [%.6f] and [Format(time.RFC3339)]. *)
Context (fmt6 : float64 → string) (rfc3339 : Time → string).

Definition csv_header : list string :=
  ["timestamp"; "ccs_raw"; "ccs_smoothed"; "current_r"; "current_w"; "quorum_adjustments"; "staleness_violations"].

Definition csv_record (s : MetricsSnapshot) : list string :=
  [rfc3339 (ms_Timestamp s); fmt6 (ms_CCSRaw s); fmt6 (ms_CCSSmoothed s); itoa (ms_CurrentR s); itoa (ms_CurrentW s);
   itoa (ms_QuorumAdjustments s); itoa (ms_StalenessViolations s)].

(** [writeResults]: the records of the file; [create] is the error of [os.Create]. *)
Definition writeResults (create : option error) (snapshots : list MetricsSnapshot) : list (list string) + error :=
  match create with
  | Some err => inr err
  | None => inl (csv_header :: map csv_record snapshots)
  end.

(** ** The run *)

Abbreviation WorkerState := (BenchmarkStats * ClientPool * E)%type.
(** The collector (only in mode ccs-watch) and the channel of snapshots. *)
Abbreviation BenchState := (WorkerState * (option MetricsCollector * list MetricsSnapshot))%type.

Inductive bench_event :=
  | WorkerTick (workerID : Z) (draw expDraw : float64)
  | MetricsTick (prom : prometheus).

Definition collector_update {S} (prom : prometheus) (c : MetricsCollector) : GoM S MetricsCollector :=
  now <- time_now ;;
  ret (mkCollector (mc_prometheusURL c) (Collector_Update prom url_encode ParseFloat (mc_prometheusURL c) now)).

(** One tick; [Update] returns no error. *)
Definition bench_step (readRatio : float64) (ev : bench_event) : GoM BenchState (option unit) :=
  match ev with
  | WorkerTick workerID draw expDraw => focus fst (λ ws st, (ws, st.2)) (worker_iter workerID readRatio draw expDraw)
  | MetricsTick prom =>
      st <- get ;;
      match st.2.1 with
      | None => ret (Some tt)
      | Some c =>
          c <- collector_update prom c ;;
          modify (λ st, (st.1, (Some c, push_snapshot (Snapshot c) st.2.2))) ;;;
          ret (Some tt)
      end
  end.

Fixpoint bench_loop (readRatio : float64) (evs : list bench_event) : GoM BenchState (option unit) :=
  match evs with
  | [] => ret (Some tt)
  | ev :: evs =>
      r <- bench_step readRatio ev ;;
      match r with
      | None => ret None
      | Some _ => bench_loop readRatio evs
      end
  end.

(** Starting the workers: a ticker of a non-positive interval panics. *)
Definition start_workers (cfg : BenchConfig) : Outcome unit :=
  if bc_Concurrency cfg <=? 0 then Ok tt
  else
    match throttle_interval (bc_TargetThroughput cfg) (bc_Concurrency cfg) with
    | None => Panic "integer divide by zero"
    | Some d => if d <=? 0 then Panic "non-positive interval for NewTicker" else Ok tt
    end.

Record BenchReport := mkReport { rp_stats : BenchmarkStats; rp_final : FinalStats; rp_rows : list (list string) }.

(** [run]: [first] answers the first queries, [evs] are the ticks until the end of
    the duration or an interrupt. *)
Definition bench_run (cfg : BenchConfig) (first : prometheus) (evs : list bench_event) (create : option error) :
    GoM E (Outcome (BenchReport + error)) :=
  let endpoints := map TrimSpace (go_split "," (bc_Endpoints cfg)) in
  match NewClientPool endpoints with
  | inr err => ret (Ok (inr ("failed to create client pool: " +:+ err)))
  | inl pool =>
      h <- Pool_HealthCheck pool ;;
      match h with
      | Some err => ret (Ok (inr ("health check failed: " +:+ err)))
      | None =>
          collector <- (if decide (bc_Mode cfg = "ccs-watch")
                        then c <- collector_update first (NewMetricsCollector (bc_PrometheusURL cfg)) ;; ret (Some c)
                        else ret None) ;;
          match start_workers cfg with
          | Ok _ =>
              λ e w,
                let '(r, (ws, (_, snapshots)), w) :=
                  bench_loop (getReadRatio (bc_Workload cfg)) evs ((new_stats, pool, e), (collector, [])) w in
                (match r with
                 | None => Panic "nil pointer dereference"
                 | Some _ =>
                     let stats := ws.1.1 in
                     match writeResults create snapshots with
                     | inr err => Ok (inr ("failed to write results: " +:+ err))
                     | inl rows => Ok (inl (mkReport stats (printFinalStats stats (bc_Duration cfg)) rows))
                     end
                 end, ws.2, w)
          | Panic m => ret (Panic m)
          | Exit m => ret (Exit m)
          | OutOfFuel => ret OutOfFuel
          end
      end
  end.

Fixpoint worker_ticks (evs : list bench_event) : Z :=
  match evs with
  | [] => 0
  | WorkerTick _ _ _ :: evs => 1 + worker_ticks evs
  | MetricsTick _ :: evs => worker_ticks evs
  end.

Fixpoint metrics_ticks (evs : list bench_event) : nat :=
  match evs with
  | [] => 0
  | WorkerTick _ _ _ :: evs => metrics_ticks evs
  | MetricsTick _ :: evs => S (metrics_ticks evs)
  end.

(** ** Lemmas *)

Lemma pool_connect_clients endpoints : ∀ acc clients, pool_connect endpoints acc = inl clients → clients = acc ++ endpoints.
Proof.
  induction endpoints as [|x l IH]; intros acc clients; simpl; [intros [= <-]; by rewrite app_nil_r|].
  destruct (svc_NewClient x); [done|]. intros H. rewrite (IH _ _ H), <- app_assoc. done.
Qed.

Lemma new_pool_clients endpoints pool : NewClientPool endpoints = inl pool →
  cp_clients pool = endpoints ∧ endpoints ≠ [].
Proof.
  unfold NewClientPool. destruct endpoints as [|x l]; [done|].
  destruct (pool_connect (x :: l) []) as [clients|] eqn:E1; [|done]. intros [= <-].
  split; [|done]. apply (pool_connect_clients _ _ _ E1).
Qed.

Lemma worker_ticks_nonneg evs : 0 <= worker_ticks evs.
Proof. induction evs as [|[] evs IH]; simpl; lia. Qed.

Lemma push_snapshot_length s ch : (length ch <= 1000)%nat → length (push_snapshot s ch) = (S (length ch) `min` 1000)%nat.
Proof.
  intros Hl. unfold push_snapshot. destruct (length ch <? 1000)%nat eqn:E1.
  - apply Nat.ltb_lt in E1. rewrite length_app. simpl. lia.
  - apply Nat.ltb_ge in E1. lia.
Qed.

(** The counters and the snapshots after the ticks. *)
Lemma bench_loop_spec ratio evs : ∀ k reads stats pool e c ch w,
  cp_clients pool ≠ [] → Z.of_nat (length (cp_clients pool)) < 2 ^ 32 →
  stats_ok k reads stats → k + worker_ticks evs <= max_int64 → (length ch <= 1000)%nat →
  ∃ stats' pool' e' c' ch' w' reads',
    bench_loop ratio evs ((stats, pool, e), (c, ch)) w = (Some tt, ((stats', pool', e'), (c', ch')), w') ∧
    stats_ok (k + worker_ticks evs) reads' stats' ∧
    length ch' = match c with None => length ch | Some _ => (length ch + metrics_ticks evs) `min` 1000 end%nat.
Proof.
  induction evs as [|ev evs IH]; intros k reads stats pool e c ch w Hne Hlt Hok Hk Hch.
  { exists stats, pool, e, c, ch, w, reads. simpl. rewrite Z.add_0_r. split; [done|]. split; [done|].
    destruct c; lia. }
  pose proof (worker_ticks_nonneg evs). cbn [bench_loop]. unfold bind.
  destruct ev as [workerID draw expDraw|prom]; cbn [bench_step worker_ticks metrics_ticks] in *.
  - destruct (worker_iter_spec workerID ratio draw expDraw stats pool e w Hne Hlt) as (f & lat & p1 & e1 & w1 & Hit & Hp1).
    unfold focus. cbn [fst snd]. rewrite Hit. rewrite <- Hp1 in Hne, Hlt.
    pose proof (update_stats_ok k reads (f64_lt draw ratio) f lat stats Hok ltac:(lia)) as Hok1.
    destruct (IH (k + 1) _ _ p1 e1 c ch w1 Hne Hlt Hok1 ltac:(lia) Hch) as (s' & p' & e' & c' & ch' & w' & r' & H1 & H2 & H3).
    exists s', p', e', c', ch', w', r'. split; [exact H1|]. split; [|done].
    by replace (k + (1 + worker_ticks evs)) with (k + 1 + worker_ticks evs) by lia.
  - unfold bind, get, modify, collector_update, time_now, ret. cbn [fst snd].
    destruct c as [c|]; cbn [fst snd Snapshot mc_snapshot].
    + unfold bind. set (sn := Collector_Update _ _ _ _ _).
      destruct (IH k reads stats pool e (Some (mkCollector (mc_prometheusURL c) sn)) (push_snapshot sn ch)
        (mkWorld (w_clock w) (w_tick w + 1) (w_events w)) Hne Hlt Hok Hk)
        as (s' & p' & e' & c' & ch' & w' & r' & H1 & H2 & H3).
      { rewrite push_snapshot_length by done. lia. }
      exists s', p', e', c', ch', w', r'. split; [exact H1|]. split; [done|].
      rewrite H3, push_snapshot_length by done. lia.
    + destruct (IH k reads stats pool e None ch w Hne Hlt Hok Hk Hch) as (s' & p' & e' & c' & ch' & w' & r' & H1 & H2 & H3).
      by exists s', p', e', c', ch', w', r'.
Qed.
End Run.

(** ** Properties *)

(** the benchmark's report adds up: a run that reports has counted every tick
    of its workers once, as a success or a failure and as a read or a write, and its
    result file has the header and one record per tick of the collector (at most a
    thousand); in a mode other than ccs-watch it has the header only. *)
Theorem bench_report_adds_up {E} `{!Service E} (url_encode : string → string) (ParseFloat : string → float64 + error)
    (fmt6 : float64 → string) (rfc3339 : Time → string) (cfg : BenchConfig) (first : string → http_reply + error)
    (evs : list bench_event) (create : option error) (e e' : E) (w w' : World) (rep : BenchReport) :
  Z.of_nat (length (go_split "," (bc_Endpoints cfg))) < 2 ^ 32 → worker_ticks evs <= max_int64 →
  bench_run url_encode ParseFloat fmt6 rfc3339 cfg first evs create e w = (Ok (inl rep), e', w') →
  bs_totalOps (rp_stats rep) = worker_ticks evs ∧
  bs_successOps (rp_stats rep) + bs_failedOps (rp_stats rep) = worker_ticks evs ∧
  bs_readOps (rp_stats rep) + bs_writeOps (rp_stats rep) = worker_ticks evs ∧
  head (rp_rows rep) = Some csv_header ∧
  length (rp_rows rep) = S (if decide (bc_Mode cfg = "ccs-watch") then metrics_ticks evs `min` 1000 else 0)%nat.
Proof.
  intros Hlen Hk. unfold bench_run.
  destruct (NewClientPool _) as [pool|err] eqn:Ep; [|done].
  destruct (new_pool_clients _ _ Ep) as [Hcl Hne]. unfold bind at 1.
  destruct (Pool_HealthCheck pool e w) as [[[err|] e1] w1]; [done|]. unfold bind at 1.
  assert (∃ c w2, (if decide (bc_Mode cfg = "ccs-watch")
     then c <- collector_update url_encode ParseFloat first (NewMetricsCollector (bc_PrometheusURL cfg)) ;; ret (Some c)
     else ret None) e1 w1 = (c, e1, w2) ∧ (is_Some c ↔ bc_Mode cfg = "ccs-watch")) as (c & w2 & -> & Hc).
  { case_decide as Hm; unfold collector_update, bind, time_now, ret; eexists _, _; (split; [reflexivity|]); [done|].
    split; [by intros []|done]. }
  destruct (start_workers cfg) as [[]|?|?|]; [|done..].
  destruct (bench_loop_spec url_encode ParseFloat (getReadRatio (bc_Workload cfg)) evs 0 0 new_stats pool e1 c [] w2)
    as (s' & p' & e2 & c' & ch & w3 & reads & -> & [H1 H2 H3 H4 _] & Hch).
  { rewrite Hcl. done. }
  { rewrite Hcl, length_map. done. }
  { by split. }
  { lia. }
  { simpl. lia. }
  unfold writeResults. destruct create; [done|]. intros [= <- _ _]. simpl. split_and!; [lia..|done|].
  rewrite length_map, Hch. f_equal. destruct c as [c|]; case_decide as Hm; simpl; try done.
  - destruct Hm. by apply Hc.
  - by destruct (proj2 Hc Hm).
Qed.

Definition demo_bench_run :=
  bench_run (Service0 := demo_service) (λ q, q) (λ _, inl (f64_of_Z 2)) (λ _, "") (λ _, "")
    (mkBenchConfig "a, b,c" "http://p" "ccs-watch" f64_zero Minute 2 "mixed" 10 "out.csv") demo_prometheus
    [WorkerTick 0 f64_zero f64_zero; MetricsTick demo_prometheus; WorkerTick 1 (f64_lit 3 4) f64_zero] None
    (demo_mesh 2 2) (ticking Second).

Definition demo_report : BenchReport :=
  match demo_bench_run.1.1 with
  | Ok (inl rep) => rep
  | _ => mkReport new_stats (printFinalStats new_stats 0) []
  end.

Lemma triple_eta {A B C} (x : A * B * C) (a : A) : x.1.1 = a → x = (a, x.1.2, x.2).
Proof. by destruct x as [[? ?] ?]; intros <-. Qed.

Lemma bench_report_adds_up_witness :
  bs_totalOps (rp_stats demo_report) = 2 ∧ bs_successOps (rp_stats demo_report) + bs_failedOps (rp_stats demo_report) = 2 ∧
  bs_readOps (rp_stats demo_report) + bs_writeOps (rp_stats demo_report) = 2 ∧
  head (rp_rows demo_report) = Some csv_header ∧ length (rp_rows demo_report) = 2%nat.
Proof.
  refine (bench_report_adds_up (Service0 := demo_service) (λ q, q) (λ _, inl (f64_of_Z 2)) (λ _, "") (λ _, "")
    (mkBenchConfig "a, b,c" "http://p" "ccs-watch" f64_zero Minute 2 "mixed" 10 "out.csv") demo_prometheus
    [WorkerTick 0 f64_zero f64_zero; MetricsTick demo_prometheus; WorkerTick 1 (f64_lit 3 4) f64_zero] None
    (demo_mesh 2 2) demo_bench_run.1.2 (ticking Second) demo_bench_run.2 demo_report _ _ _).
  - vm_compute. reflexivity.
  - vm_compute. discriminate.
  - fold demo_bench_run. apply triple_eta. vm_compute. reflexivity.
Defined.

(** The flag ccs-threshold, "CCS threshold to trigger operations", triggers
    nothing: a run does not depend on it. *)
Theorem ccs_threshold_ignored {E} `{!Service E} (url_encode : string → string) (ParseFloat : string → float64 + error)
    (fmt6 : float64 → string) (rfc3339 : Time → string) (cfg : BenchConfig) (t : float64)
    (first : string → http_reply + error) (evs : list bench_event) (create : option error) :
  bench_run url_encode ParseFloat fmt6 rfc3339
    (mkBenchConfig (bc_Endpoints cfg) (bc_PrometheusURL cfg) (bc_Mode cfg) t (bc_Duration cfg) (bc_Concurrency cfg)
       (bc_Workload cfg) (bc_TargetThroughput cfg) (bc_OutputFile cfg)) first evs create =
  bench_run url_encode ParseFloat fmt6 rfc3339 cfg first evs create.
Proof. done. Qed.

(** A run without operations reports percentages that are not numbers. *)
Theorem empty_run_reports_nan (d : Duration) : fs_successPct (printFinalStats new_stats d) = S754_nan.
Proof. vm_compute. reflexivity. Qed.

(** ** Progress lines ([reportProgress]) *)

(** [d.Round(time.Second)]: half a second away from zero; what does not fit an int64
    becomes the largest or the smallest duration. *)
Definition round_second (d : Duration) : Duration :=
  let r := Z.rem d Second in
  if d <? 0 then
    if - r + - r <? Second then d - r
    else let d1 := wrap64 (d - Second - r) in if d1 <? d then d1 else - 2 ^ 63
  else if r + r <? Second then d - r
  else let d1 := wrap64 (d + Second - r) in if d1 >? d then d1 else 2 ^ 63 - 1.

Section Progress.
(** [Duration.String] and the formats %.0f, %.2f and %.3f. *)
Context (dur_string : Duration → string) (fmt0 fmt2 fmt3 : float64 → string).

Definition progress_collector (c : option MetricsCollector) : string :=
  match c with
  | None => ""
  | Some c =>
      let '(r, w) := GetCurrentQuorum c in
      " ccs=" +:+ fmt3 (GetCCSRaw c) +:+ "/" +:+ fmt3 (GetCCSSmoothed c) +:+ " r=" +:+ itoa r +:+ " w=" +:+ itoa w
  end.

(** The average in milliseconds, the line, and one tick.  The counters are loaded one
    after the other while the workers run: [s1] to [s4] are the statistics at each
    load. *)
Definition progress_latency (success totalLatencyNs : Z) : float64 :=
  if success >? 0 then f64_div (f64_div (f64_of_Z totalLatencyNs) (f64_of_Z success)) million else f64_zero.

Definition progress_line (elapsed duration : Duration) (total success failed latency : Z) (c : option MetricsCollector) : string :=
  "[" +:+ dur_string (round_second elapsed) +:+ "] ops=" +:+ itoa total +:+ " (success=" +:+ itoa success +:+
  ", failed=" +:+ itoa failed +:+ ") throughput=" +:+ fmt0 (f64_div (f64_of_Z total) (Duration_Seconds elapsed)) +:+
  " ops/s avg_latency=" +:+ fmt2 (progress_latency success latency) +:+ "ms" +:+ progress_collector c +:+
  " remaining=" +:+ dur_string (round_second (wrap64 (duration - elapsed))).

Definition reportProgress (elapsed duration : Duration) (s1 s2 s3 s4 : BenchmarkStats) (c : option MetricsCollector) : string :=
  progress_line elapsed duration (bs_totalOps s1) (bs_successOps s2) (bs_failedOps s3) (bs_totalLatencyNs s4) c.
End Progress.

(** Rounding is to the nearest second. *)
Theorem round_second_nearest (d : Duration) :
  Z.abs d <= 2 ^ 62 → Z.rem (round_second d) Second = 0 ∧ 2 * Z.abs (round_second d - d) <= Second.
Proof.
  intros Hd. unfold round_second.
  pose proof (Z.quot_rem' d Second) as Hq. pose proof (Z.rem_bound_abs d Second ltac:(done)) as Hb.
  change (Z.abs Second) with 1000000000 in Hb. change Second with 1000000000 in *.
  assert (∀ k, Z.rem (1000000000 * k) 1000000000 = 0) as Hk by (intros k; rewrite Z.mul_comm; by apply Z.rem_mul).
  destruct (Z.ltb_spec d 0).
  - pose proof (Z.rem_nonpos d 1000000000 ltac:(done) ltac:(lia)).
    destruct (Z.ltb_spec (- Z.rem d 1000000000 + - Z.rem d 1000000000) 1000000000).
    { split; [|lia]. replace (d - Z.rem d 1000000000) with (1000000000 * (d ÷ 1000000000)) by lia. apply Hk. }
    rewrite wrap64_id by (unfold in_int64; lia). destruct (Z.ltb_spec (d - 1000000000 - Z.rem d 1000000000) d); [|lia].
    split; [|lia]. replace (d - 1000000000 - Z.rem d 1000000000) with (1000000000 * (d ÷ 1000000000 - 1)) by lia. apply Hk.
  - pose proof (Z.rem_bound_pos d 1000000000 ltac:(lia) ltac:(done)).
    destruct (Z.ltb_spec (Z.rem d 1000000000 + Z.rem d 1000000000) 1000000000).
    { split; [|lia]. replace (d - Z.rem d 1000000000) with (1000000000 * (d ÷ 1000000000)) by lia. apply Hk. }
    rewrite wrap64_id by (unfold in_int64; lia). rewrite Z.gtb_ltb.
    destruct (Z.ltb_spec d (d + 1000000000 - Z.rem d 1000000000)); [|lia].
    split; [|lia]. replace (d + 1000000000 - Z.rem d 1000000000) with (1000000000 * (d ÷ 1000000000 + 1)) by lia. apply Hk.
Qed.

(** A line may report more successes than operations: an operation that is counted
    between the loads. *)
Theorem progress_success_exceeds_total :
  let s := update_stats true false Second new_stats in
  reportProgress (λ _, "5s") (λ _, "0") (λ _, "1000.00") (λ _, "") (5 * Second) (10 * Second) new_stats s s s None =
  "[5s] ops=0 (success=1, failed=0) throughput=0 ops/s avg_latency=1000.00ms remaining=5s".
Proof. vm_compute. reflexivity. Qed.

(** The latency of a failed operation is added up but only successes divide the sum:
    the average can exceed the maximum. *)
Theorem average_exceeds_maximum :
  let stats := update_stats true true (100 * Millisecond) (update_stats true false Millisecond new_stats) in
  fs_latencyMs (printFinalStats stats Second) = Some (f64_of_Z 101, f64_of_Z 1, f64_of_Z 100).
Proof. vm_compute. reflexivity. Qed.
