(* ===== verification/TableDb.v ===== *)
(** * TableDb: databases that hold tables of rows

    What pkg/ycsb/db.go asks of a binding, as a contract: [tb_rel T d m] says that
    the database [d] holds the rows [m] in table [T], and every operation answers
    from those rows or changes them, or reports an error.  The contract gives the
    promise [ValueDB] the workload needs, and a refinement theorem: a sequence of
    calls on a binding behaves as on a map from keys to rows. *)

From S2P Require Import Prelude GoLib Storage YcsbUtil Float64 Generators Ycsb.

Open Scope Z_scope.

Abbreviation table := (gmap string row).

Definition old_row (m : table) (key : string) : row := default ∅ (m !! key).

(** The computation returns: it neither panics nor ends the process. *)
Definition returns {D A} (o : Outcome A * D) (Q : A → D → Prop) : Prop :=
  match o with (Ok a, d) => Q a d | _ => False end.

Lemma returns_weaken {D A} (o : Outcome A * D) (Q Q' : A → D → Prop) :
  returns o Q → (∀ a d, Q a d → Q' a d) → returns o Q'.
Proof. destruct o as [[]]; simpl; auto. Qed.

Lemma returns_bind {D A B} (m : PM D A) (f : A → PM D B) d (Q : B → D → Prop) :
  returns (m d) (λ a d', returns (f a d') Q) → returns (pbind m f d) Q.
Proof. unfold pbind. by destruct (m d) as [[]]. Qed.

(** The result of a write that turns [m] into [m']: success means that it was
    done (or that there was nothing to do it on), an error that it may or may not
    have been done. *)
Definition write_result {D} (rel : D → table → Prop) (up absent : Prop) (m m' : table) (r : option error) (d' : D) : Prop :=
  match r with
  | None => rel d' m' ∨ (absent ∧ rel d' m)
  | Some _ => (¬ up ∨ absent) ∧ (rel d' m ∨ rel d' m')
  end.

(** [tb_up d]: the storage under [d] refuses no call.  [tb_knows] and [tb_value]
    are the fields and values the binding can store. *)
Class TableDB (D : Type) `{!YcsbDB D} := mkTableDB {
  tb_knows : string → Prop;
  tb_value : bytes → Prop;
  tb_up : D → Prop;
  tb_rel : string → D → table → Prop;
  tb_fits (values : row) : Prop := map_Forall (λ f v, tb_knows f ∧ tb_value v) values;
  tb_Read T key fields d m :
    tb_rel T d m →
    returns (db_Read T key fields d) (λ r d', tb_rel T d' m ∧ (tb_up d → tb_up d') ∧
      ((∀ f, f ∈ fields → tb_knows f) →
       match r with
       | inl v => v = select_fields fields (old_row m key)
       | inr _ => ¬ tb_up d ∨ m !! key = None
       end));
  tb_Scan T key n fields d m :
    tb_rel T d m → 0 <= n → returns (db_Scan T key n fields d) (λ _ d', tb_rel T d' m ∧ (tb_up d → tb_up d'));
  tb_Scan_negative T key n fields d m :
    tb_rel T d m → n < 0 →
    match db_Scan T key n fields d with (Ok _, d') => tb_rel T d' m | (Exit _, _) => False | _ => True end;
  tb_Insert T key values d m :
    tb_rel T d m → tb_fits values →
    returns (db_Insert T key values d) (λ r d', (tb_up d → tb_up d') ∧
      write_result (tb_rel T) (tb_up d) False m (<[key := values]> m) r d');
  tb_Update T key values d m :
    tb_rel T d m → tb_fits values →
    returns (db_Update T key values d) (λ r d', (tb_up d → tb_up d') ∧
      write_result (tb_rel T) (tb_up d) (m !! key = None) m (<[key := values ∪ old_row m key]> m) r d');
  tb_Delete T key d m :
    tb_rel T d m →
    returns (db_Delete T key d) (λ r d', (tb_up d → tb_up d') ∧
      write_result (tb_rel T) (tb_up d) False m (delete key m) r d');
}.

(** Batches, for the bindings that have them: every row given is written or not. *)
Definition batch_applied (m : table) (keys : list string) (values : list row) (m' : table) : Prop :=
  ∀ key r, m' !! key = Some r → m !! key = Some r ∨ ∃ i, keys !! i = Some key ∧ values !! i = Some r.

Class TableBatch (D : Type) `{!YcsbDB D} `{!TableDB D} := mkTableBatch {
  tbb_write b T keys values d m :
    db_batch = Some b → tb_rel T d m → length keys = length values → Forall (tb_fits (D := D)) values →
    returns (BatchInsert b T keys values d) (λ _ d', ∃ m', tb_rel T d' m' ∧ batch_applied m keys values m') ∧
    returns (BatchUpdate b T keys values d) (λ _ d', ∃ m', tb_rel T d' m' ∧ batch_applied m keys values m');
  tbb_read b T keys fields d m :
    db_batch = Some b → tb_rel T d m → returns (BatchRead b T keys fields d) (λ _ d', tb_rel T d' m);
  tbb_delete b T keys d m :
    db_batch = Some b → tb_rel T d m →
    returns (BatchDelete b T keys d) (λ _ d', ∃ m', tb_rel T d' m' ∧ batch_applied m [] [] m');
}.

(** ** A table database keeps the promise of [ValueDB] *)

Section Values.
Context {D : Type} `{!YcsbDB D} `{!TableDB D} `{!TableBatch D}.

Definition table_holds (T : string) (P : value_pred) (d : D) : Prop :=
  (∀ key f v, P key f v → tb_knows (D := D) f ∧ tb_value (D := D) v) ∧
  ∃ m, tb_rel T d m ∧ map_Forall (row_ok P) m.

Lemma returns_keeps {A} T P (pm : PM D A) (Q : A → Prop) :
  (∀ d m, (∀ key f v, P key f v → tb_knows (D := D) f ∧ tb_value (D := D) v) → tb_rel T d m → map_Forall (row_ok P) m →
     match pm d with (Ok a, d') => (∃ m', tb_rel T d' m' ∧ map_Forall (row_ok P) m') ∧ Q a | (Exit _, _) => False | _ => True end) →
  keeps (table_holds T P) pm Q.
Proof.
  intros H d (HP & m & Hr & Hm). specialize (H d m HP Hr Hm). destruct (pm d) as [[a|?|?|] d']; [|done..].
  destruct H as [[m' ?] ?]. split; [|done]. split; [done|]. by exists m'.
Qed.

Lemma row_ok_old P (m : table) key : map_Forall (row_ok P) m → row_ok P key (old_row m key).
Proof.
  intros Hm. unfold old_row. destruct (m !! key) as [r|] eqn:E; simpl; [by apply Hm|apply row_ok_empty].
Qed.

(** Whatever a write did, the rows are good if the old and the new ones are. *)
Lemma write_result_good (T : string) (up absent : Prop) (P : value_pred) (m m' : table) r (d' : D) :
  map_Forall (row_ok P) m → map_Forall (row_ok P) m' →
  write_result (tb_rel T) up absent m m' r d' → ∃ m0, tb_rel T d' m0 ∧ map_Forall (row_ok P) m0.
Proof. intros Hm Hm' Hw. destruct r; simpl in Hw; naive_solver. Qed.

Lemma fits_of_ok P key (values : row) :
  (∀ key f v, P key f v → tb_knows (D := D) f ∧ tb_value (D := D) v) → row_ok P key values → tb_fits (D := D) values.
Proof. intros HP Hv f v Hf. apply (HP key f v), (Hv f v Hf). Qed.

Lemma batch_good (P : value_pred) (m m' : table) keys values :
  map_Forall (row_ok P) m → Forall2 (row_ok P) keys values → batch_applied m keys values m' → map_Forall (row_ok P) m'.
Proof.
  intros Hm Hv Hb key r Hr. destruct (Hb key r Hr) as [H|(i & Hk & Hi)]; [by apply Hm|].
  by apply (Forall2_lookup_lr _ _ _ _ _ _ Hv Hk Hi).
Qed.

Lemma table_batch_holds b T P : db_batch = Some b → batch_holds T P (table_holds T P) b.
Proof.
  intros Hb.
  assert (∀ keys values, Forall2 (row_ok P) keys values →
    (∀ key f v, P key f v → tb_knows (D := D) f ∧ tb_value (D := D) v) → Forall (tb_fits (D := D)) values) as Hfits.
  { intros keys values Hv HP. induction Hv; constructor; [by eapply fits_of_ok|done]. }
  constructor.
  - intros keys values Hv. apply returns_keeps. intros d m HP Hr Hm.
    destruct (tbb_write b T keys values d m Hb Hr (Forall2_length _ _ _ Hv) (Hfits _ _ Hv HP)) as [H _].
    destruct (BatchInsert b T keys values d) as [[]]; try done. simpl in H. destruct H as (m' & ? & Hap).
    split; [|done]. exists m'. split; [done|]. by eapply batch_good.
  - intros keys fields. apply returns_keeps. intros d m HP Hr Hm. pose proof (tbb_read b T keys fields d m Hb Hr) as H.
    destruct (BatchRead b T keys fields d) as [[]]; try done. simpl in H. by eauto.
  - intros keys values Hv. apply returns_keeps. intros d m HP Hr Hm.
    destruct (tbb_write b T keys values d m Hb Hr (Forall2_length _ _ _ Hv) (Hfits _ _ Hv HP)) as [_ H].
    destruct (BatchUpdate b T keys values d) as [[]]; try done. simpl in H. destruct H as (m' & ? & Hap).
    split; [|done]. exists m'. split; [done|]. by eapply batch_good.
  - intros keys. apply returns_keeps. intros d m HP Hr Hm. pose proof (tbb_delete b T keys d m Hb Hr) as H.
    destruct (BatchDelete b T keys d) as [[]]; try done. simpl in H. destruct H as (m' & ? & Hap).
    split; [|done]. exists m'. split; [done|]. by apply (batch_good P m m' [] []).
Qed.

Definition table_values : ValueDB D.
Proof.
  refine (mkValueDB D _ table_holds _ _ _ _ _ _).
  - intros T P key fields. apply returns_keeps. intros d m HP Hr Hm. pose proof (tb_Read T key fields d m Hr) as H.
    destruct (db_Read T key fields d) as [[r|?|?|] d']; try done. simpl in H. destruct H as (Hr' & _ & Hres).
    split; [by eauto|]. intros Hk v ->. rewrite Hres; [by apply row_ok_select, row_ok_old|].
    intros f Hf. destruct (Hk f Hf) as (k & v0 & Hp). by eapply HP.
  - intros T P key n fields. apply returns_keeps. intros d m HP Hr Hm. destruct (Z_lt_le_dec n 0).
    + pose proof (tb_Scan_negative T key n fields d m Hr ltac:(done)) as H.
      destruct (db_Scan T key n fields d) as [[]]; try done. by eauto.
    + pose proof (tb_Scan T key n fields d m Hr ltac:(done)) as H.
      destruct (db_Scan T key n fields d) as [[]]; try done. simpl in H. destruct H. by eauto.
  - intros T P key values Hv. apply returns_keeps. intros d m HP Hr Hm.
    pose proof (tb_Update T key values d m Hr (fits_of_ok P key values HP Hv)) as H.
    destruct (db_Update T key values d) as [[]]; try done. simpl in H. destruct H as [_ H]. split; [|done].
    eapply write_result_good; [done| |done]. apply map_Forall_insert_2; [|done].
    apply map_Forall_union_2; [done|by apply row_ok_old].
  - intros T P key values Hv. apply returns_keeps. intros d m HP Hr Hm.
    pose proof (tb_Insert T key values d m Hr (fits_of_ok P key values HP Hv)) as H.
    destruct (db_Insert T key values d) as [[]]; try done. simpl in H. destruct H as [_ H]. split; [|done].
    eapply write_result_good; [done| |done]. by apply map_Forall_insert_2.
  - intros T P key. apply returns_keeps. intros d m HP Hr Hm. pose proof (tb_Delete T key d m Hr) as H.
    destruct (db_Delete T key d) as [[]]; try done. simpl in H. destruct H as [_ H]. split; [|done].
    eapply write_result_good; [done| |done]. by apply map_Forall_delete.
  - intros b T P. apply table_batch_holds.
Defined.
End Values.

(** ** Sequences of calls *)

Inductive tb_call :=
  | CallRead (key : string) (fields : list string)
  | CallInsert (key : string) (values : row)
  | CallUpdate (key : string) (values : row)
  | CallDelete (key : string).

(** The answer of a call: the row of a read, or the error if there was one. *)
Abbreviation answer := (row + option error)%type.

Definition failed (a : answer) : bool := match a with inr (Some _) => true | _ => false end.

(** What a call does to the rows of the table and answers. *)
Definition spec_call (c : tb_call) (m : table) : answer * table :=
  match c with
  | CallRead key fields => (inl (select_fields fields (old_row m key)), m)
  | CallInsert key values => (inr None, <[key := values]> m)
  | CallUpdate key values => (inr None, <[key := values ∪ old_row m key]> m)
  | CallDelete key => (inr None, delete key m)
  end.

Fixpoint spec_calls (cs : list tb_call) (m : table) : list answer * table :=
  match cs with
  | [] => ([], m)
  | c :: cs => let '(a, m1) := spec_call c m in let '(l, m2) := spec_calls cs m1 in (a :: l, m2)
  end.

Section Refinement.
Context {D : Type} `{!YcsbDB D} `{!TableDB D}.

Definition run_call (T : string) (c : tb_call) : PM D answer :=
  match c with
  | CallRead key fields =>
      r <~ db_Read T key fields ;; pret (match r with inl v => inl v | inr err => inr (Some err) end)
  | CallInsert key values => r <~ db_Insert T key values ;; pret (inr r)
  | CallUpdate key values => r <~ db_Update T key values ;; pret (inr r)
  | CallDelete key => r <~ db_Delete T key ;; pret (inr r)
  end.

Fixpoint run_calls (T : string) (cs : list tb_call) : PM D (list answer) :=
  match cs with
  | [] => pret []
  | c :: cs => a <~ run_call T c ;; l <~ run_calls T cs ;; pret (a :: l)
  end.

(** *** Sequences from single calls *)

Section Calls.
(** What every database state satisfies; the database is up, it holds these rows;
    the arguments of the calls a binding takes, and the calls it carries out on
    given rows. *)
Context (inv up : D → Prop) (rel : D → table → Prop) (fits : tb_call → Prop) (ok : tb_call → table → Prop).

(** A call returns; one that is carried out answers and leaves rows as a map does
    unless it reports an error, and reports none when the database is up. *)
Definition call_refined (T : string) : Prop := ∀ c d,
  inv d → fits c →
  returns (run_call T c d) (λ a d', inv d' ∧
    ∀ m, rel d m → ok c m →
      (up d → up d' ∧ failed a = false) ∧
      (failed a = false → a = (spec_call c m).1 ∧ rel d' (spec_call c m).2)).

Fixpoint calls_ok (cs : list tb_call) (m : table) : Prop :=
  match cs with
  | [] => True
  | c :: cs => ok c m ∧ calls_ok cs (spec_call c m).2
  end.

Lemma calls_refined T : call_refined T → ∀ cs d,
  inv d → Forall fits cs →
  returns (run_calls T cs d) (λ l d', inv d' ∧
    ∀ m, rel d m → calls_ok cs m →
      (Forall (λ a, failed a = false) l → l = (spec_calls cs m).1 ∧ rel d' (spec_calls cs m).2) ∧
      (up d → Forall (λ a, failed a = false) l)).
Proof.
  intros Hcall. induction cs as [|c cs IH]; intros d Hi Hc; [done|].
  inversion_clear Hc as [|? ? Hc1 Hcs]. cbn [run_calls]. apply returns_bind.
  eapply returns_weaken; [by apply (Hcall c d)|]. intros a d1 [Hi1 H1]. apply returns_bind.
  eapply returns_weaken; [by apply (IH d1)|]. intros l d2 [Hi2 H2]. simpl. split; [done|]. intros m Hr [Hp Hps].
  destruct (H1 m Hr Hp) as [Hup Hok]. destruct (spec_call c m) as [a0 m1] eqn:Es. cbn [fst snd] in *.
  destruct (spec_calls cs m1) as [l0 m2] eqn:Ess. cbn [fst snd]. split.
  - intros [Ha Hl]%Forall_cons. destruct (Hok Ha) as [-> Hr1]. destruct (H2 m1 Hr1 Hps) as [H3 _].
    rewrite Ess in H3. by destruct (H3 Hl) as [-> ?].
  - intros Hu. destruct (Hup Hu) as [Hu1 Ha]. constructor; [done|]. destruct (Hok Ha) as [_ Hr1].
    by apply (H2 m1 Hr1 Hps).
Qed.
End Calls.

(** Calls that are answered as by a map whenever they are carried out. *)
Definition table_refines (rel : D → table → Prop) (fits : tb_call → Prop) (ok : tb_call → table → Prop) (T : string) : Prop :=
  ∀ cs d m, rel d m → Forall fits cs → calls_ok ok cs m →
    returns (run_calls T cs d) (λ l d', l = (spec_calls cs m).1 ∧ rel d' (spec_calls cs m).2).

Lemma table_refines_calls (rel : D → table → Prop) fits ok T :
  (∀ c d m, rel d m → fits c → ok c m →
     returns (run_call T c d) (λ a d', a = (spec_call c m).1 ∧ rel d' (spec_call c m).2)) →
  table_refines rel fits ok T.
Proof.
  intros Hcall cs. induction cs as [|c cs IH]; intros d m Hrel Hf Hc; [done|].
  inversion_clear Hf as [|? ? Hf1 Hfs]. destruct Hc as [Hc1 Hcs]. cbn [run_calls]. apply returns_bind.
  eapply returns_weaken; [by apply (Hcall c d m)|]. intros a d1 [-> Hrel1].
  apply returns_bind. eapply returns_weaken; [apply (IH d1 _ Hrel1 Hfs Hcs)|]. intros l d2 [-> Hrel2]. simpl.
  destruct (spec_call c m) as [a0 m1]. simpl in *. destruct (spec_calls cs m1) as [l0 m2]. done.
Qed.

(** Calls within the contract: fields and values the binding stores. *)
Definition call_fits (c : tb_call) : Prop :=
  match c with
  | CallRead _ fields => ∀ f, f ∈ fields → tb_knows (D := D) f
  | CallInsert _ values | CallUpdate _ values => tb_fits (D := D) values
  | CallDelete _ => True
  end.

(** Reads and updates of rows that are there. *)
Definition call_present (c : tb_call) (m : table) : Prop :=
  match c with
  | CallRead key _ | CallUpdate key _ => is_Some (m !! key)
  | _ => True
  end.

Definition calls_present : list tb_call → table → Prop := calls_ok call_present.

Lemma write_result_some (rel : D → table → Prop) (up absent : Prop) (m m' : table) r d' :
  write_result rel up absent m m' r d' → ∃ m0, rel d' m0.
Proof. destruct r; simpl; naive_solver. Qed.

Lemma run_call_rows T c d m :
  tb_rel T d m → call_fits c →
  returns (run_call T c d) (λ a d', (∃ m', tb_rel T d' m') ∧
    (call_present c m →
      (tb_up d → tb_up d' ∧ failed a = false) ∧
      (failed a = false → a = (spec_call c m).1 ∧ tb_rel T d' (spec_call c m).2))).
Proof.
  intros Hr Hc. destruct c as [key fields|key values|key values|key]; simpl; apply returns_bind.
  - eapply returns_weaken; [by apply tb_Read|]. intros r d' (Hr' & Hup & Hres).
    specialize (Hres Hc). destruct r as [v|err]; simpl; (split; [by eauto|]); intros [r0 Hp].
    + split; [by auto|]. intros _. by rewrite Hres.
    + split; [|done]. intros Hu. destruct Hres; [done|congruence].
  - eapply returns_weaken; [by apply tb_Insert|]. intros [err|] d' [Hup Hw];
      (split; [by eapply write_result_some|]); simpl in *; naive_solver.
  - eapply returns_weaken; [by apply tb_Update|]. intros [err|] d' [Hup Hw];
      (split; [by eapply write_result_some|]); simpl in *; intros [r0 Hp]; rewrite Hp in Hw; naive_solver.
  - eapply returns_weaken; [by apply tb_Delete|]. intros [err|] d' [Hup Hw];
      (split; [by eapply write_result_some|]); simpl in *; naive_solver.
Qed.

Lemma run_call_spec T :
  call_refined (λ d, ∃ m, tb_rel T d m) (tb_up (D := D)) (tb_rel T) call_fits call_present T.
Proof.
  intros c d [m0 Hr0] Hc. pose proof (run_call_rows T c d m0 Hr0 Hc) as H0.
  pose proof (λ m Hr, run_call_rows T c d m Hr Hc) as H. destruct (run_call T c d) as [[a|?|?|] d']; try done.
  split; [apply H0|]. intros m Hr. by apply (H m Hr).
Qed.

(** Every sequence of calls returns; on rows that are there, the answers and the
    final rows are those of the map unless some call reports an error, and none
    does when the storage refuses nothing. *)
Lemma run_calls_spec T cs d m :
  tb_rel T d m → Forall call_fits cs →
  returns (run_calls T cs d) (λ l d', (∃ m', tb_rel T d' m') ∧
    (calls_present cs m →
      (Forall (λ a, failed a = false) l → l = (spec_calls cs m).1 ∧ tb_rel T d' (spec_calls cs m).2) ∧
      (tb_up d → Forall (λ a, failed a = false) l))).
Proof.
  intros Hr Hc. eapply returns_weaken;
    [apply (calls_refined _ _ _ call_fits call_present T (run_call_spec T)); [by eexists|done]|].
  intros l d' [Hi H]. split; [done|]. intros Hp. by apply H.
Qed.
End Refinement.

(** ** Rows within the fields of a workload, and rows that have them all *)

Definition within (n : Z) (values : row) : Prop := ∀ f, is_Some (values !! f) → f ∈ allFields n.
Definition full (n : Z) (values : row) : Prop := ∀ f, is_Some (values !! f) ↔ f ∈ allFields n.
