(* ===== verification/KvStore.v ===== *)
(** * KvStore: rows in a key-value store

    What the key-value bindings of the YCSB framework share: the contents of a
    store behind a driver, the laws its calls obey, and tables of rows encoded by
    the row codec (src/go-ycsb-vendor/pkg/util/core.go) under string keys.  The
    drivers are third-party: each binding takes its driver as a class whose laws
    state what the driver's documentation promises. *)

From S2P Require Import Prelude GoLib Storage YcsbUtil Float64 Generators Ycsb TableDb.

Open Scope Z_scope.

(** ** Drivers

    [ct s] is what the store [s] holds (or a transaction on it sees); in a state
    of [ct_up] the driver refuses no call. *)

Class Contents (E C : Type) := mkContents { ct : E → C; ct_up : E → Prop }.

Section Laws.
Context {E C : Type} `{!Contents E C}.

(** A read that may fail, a read that may not, and a write. *)
Definition ct_reads {A} (m : PM E (A + error)) (f : C → A) : Prop :=
  ∀ s, returns (m s) (λ r s', ct s' = ct s ∧ (ct_up s → ct_up s') ∧
    match r with inl a => a = f (ct s) | inr _ => ¬ ct_up s end).

Definition ct_gives {A} (m : PM E A) (f : C → A) : Prop :=
  ∀ s, returns (m s) (λ a s', ct s' = ct s ∧ (ct_up s → ct_up s') ∧ a = f (ct s)).

(** An error of a write leaves open whether it took effect. *)
Definition ct_writes (m : PM E (option error)) (f : C → C) : Prop :=
  ∀ s, returns (m s) (λ r s', (ct_up s → ct_up s') ∧
    match r with
    | None => ct s' = f (ct s)
    | Some _ => ¬ ct_up s ∧ (ct s' = ct s ∨ ct s' = f (ct s))
    end).

(** Reads do not depend on the contents staying put between them. *)
Lemma reads_bind {A B} (m : PM E (A + error)) (f : C → A) (k : A + error → PM E B) s (Q : B → E → Prop) :
  ct_reads m f →
  (∀ r s', ct s' = ct s → (ct_up s → ct_up s') →
     match r with inl a => a = f (ct s) | inr _ => ¬ ct_up s end → returns (k r s') Q) →
  returns (pbind m k s) Q.
Proof. intros Hm Hk. apply returns_bind. eapply returns_weaken; [apply Hm|]. intros r s' (? & ? & ?). by apply Hk. Qed.

Lemma gives_bind {A B} (m : PM E A) (f : C → A) (k : A → PM E B) s (Q : B → E → Prop) :
  ct_gives m f →
  (∀ s', ct s' = ct s → (ct_up s → ct_up s') → returns (k (f (ct s)) s') Q) →
  returns (pbind m k s) Q.
Proof. intros Hm Hk. apply returns_bind. eapply returns_weaken; [apply Hm|]. intros r s' (? & ? & ->). by apply Hk. Qed.
End Laws.

(** Functions run in a managed transaction, which is committed when they return
    no error; [A] is what the function leaves in the variables it captures. *)
Section Managed.
Context {E T C : Type} `{!Contents E C} `{!Contents T C}.

(** A transaction that starts sees the store; one that does not is an error. *)
Definition view_law (View : ∀ A, A → PM T (A * option error) → PM E (A * option error)) : Prop :=
  ∀ A (a : A) fn s,
    (∃ err s', View A a fn s = (Ok (a, Some err), s') ∧ ct s' = ct s ∧ ¬ ct_up s) ∨
    (∃ t s', View A a fn s = ((fn t).1, s') ∧ ct t = ct s ∧ (ct_up s → ct_up t) ∧ ct s' = ct s ∧ (ct_up s → ct_up s')).

(** An error or a panic of the function, or a failed commit, changes nothing. *)
Definition update_law (Update : ∀ A, A → PM T (A * option error) → PM E (A * option error)) : Prop :=
  ∀ A (a : A) fn s,
    (∃ err s', Update A a fn s = (Ok (a, Some err), s') ∧ ct s' = ct s ∧ ¬ ct_up s) ∨
    (∃ t s', ct t = ct s ∧ (ct_up s → ct_up t) ∧ (ct_up s → ct_up s') ∧
       match fn t with
       | (Ok (b, None), t') =>
           (Update A a fn s = (Ok (b, None), s') ∧ ct s' = ct t') ∨
           (∃ err, Update A a fn s = (Ok (b, Some err), s') ∧ ct s' = ct s ∧ ¬ ct_up s)
       | (o, _) => Update A a fn s = (o, s') ∧ ct s' = ct s
       end).

Lemma view_returns View {A} (a : A) fn s (Q : A * option error → Prop) :
  view_law View →
  (∀ err, ¬ ct_up s → Q (a, Some err)) →
  (∀ t, ct t = ct s → (ct_up s → ct_up t) → returns (fn t) (λ r _, Q r)) →
  returns (View A a fn s) (λ r s', ct s' = ct s ∧ (ct_up s → ct_up s') ∧ Q r).
Proof.
  intros Hl He Hf. destruct (Hl A a fn s) as [(err & s' & -> & Hc & Hu)|(t & s' & -> & Ht & Hup & Hc & Hu)]; simpl.
  - split; [done|]. split; [by intros|]. by apply He.
  - specialize (Hf t Ht Hup). destruct (fn t) as [[r|?|?|] t']; simpl in *; done.
Qed.

(** The function may change what it sees to something in [Q]; an error has to be
    excused by [fault]. *)
Lemma update_returns Update {A} (a : A) fn s (Q : C → Prop) (fault : Prop) :
  update_law Update → (¬ ct_up s → fault) →
  (∀ t, ct t = ct s → (ct_up s → ct_up t) →
     returns (fn t) (λ r t', match r.2 with None => Q (ct t') | Some _ => fault end)) →
  returns (Update A a fn s) (λ r s', (ct_up s → ct_up s') ∧
    match r.2 with None => Q (ct s') | Some _ => fault ∧ ct s' = ct s end).
Proof.
  intros Hl He Hf. destruct (Hl A a fn s) as [(err & s' & -> & Hc & Hu)|(t & s' & Ht & Hup & Hs & Hl')]; simpl.
  - split; [done|]. by auto.
  - specialize (Hf t Ht Hup). destruct (fn t) as [[[b [err|]]|?|?|] t']; simpl in Hf; try done.
    + destruct Hl' as [-> Hc]. by simpl.
    + destruct Hl' as [[-> Hc]|(err & -> & Hc & Hu)]; simpl; [|by auto]. split; [done|]. by rewrite Hc.
Qed.
End Managed.

(** ** Encoded rows *)

Section Rows.
(** The field count of the codec and the order in which Go visits a map. *)
Context (n : Z) (range : row → list (string * bytes)).

Abbreviation codec := (NewRowCodec n).

Definition decode {S} (data : bytes) (fields : list string) : PM S (row + error) :=
  match RowCodec_Decode codec data fields with
  | Some o => pfail o
  | None => pfail OutOfFuel
  end.

Definition encode {S} (values : row) : PM S (bytes + error) := pfail (RowCodec_Encode codec (range values)).

(** The loop of a scan over the computations that give the values it visits. *)
Fixpoint decode_all {S} (fields : list string) (vals : list (PM S (bytes + error))) : PM S (list row + error) :=
  match vals with
  | [] => pret (inl [])
  | v :: vals =>
      r <~ v ;;
      match r with
      | inr err => pret (inr err)
      | inl data =>
          d <~ decode data fields ;;
          match d with
          | inr err => pret (inr err)
          | inl m =>
              rest <~ decode_all fields vals ;;
              pret (match rest with inl rows => inl (m :: rows) | inr err => inr err end)
          end
      end
  end.

(** [res := make([]map[string][]byte, count)], filled from the front. *)
Definition make_rows {S} (count : Z) : PM S unit :=
  if count <? 0 then pfail (Panic "makeslice: len out of range") else pret tt.
Definition pad_rows (count : Z) (rows : list row) : list row :=
  rows ++ replicate (Z.to_nat count - length rows) ∅.

Context (n_small : n <= 2 ^ 63) (range_perm : ∀ m, range m ≡ₚ map_to_list m).

Definition kv_knows (f : string) : Prop := f ∈ allFields n.
Definition kv_value (v : bytes) : Prop := in_int64 (Z.of_nat (length v)).
Definition kv_fits (values : row) : Prop := map_Forall (λ f v, kv_knows f ∧ kv_value v) values.

(** [data] decodes without panicking; it is an encoding of the row [r]. *)
Definition decodable (data : bytes) : Prop :=
  ∀ fields, ∃ r, RowCodec_Decode codec data fields = Some (Ok r).
Definition encodes (data : bytes) (r : row) : Prop :=
  ∀ fields, ∃ res, RowCodec_Decode codec data fields = Some (Ok (inl res)) ∧
    ((∀ f, f ∈ fields → kv_knows f) → res = select_fields fields r).

Lemma encodes_decodable data r : encodes data r → decodable data.
Proof. intros He fields. destruct (He fields) as (res & ? & _). by exists (inl res). Qed.

Lemma select_fields_lookup fields (r : row) f :
  select_fields fields r !! f = if decide (fields = [] ∨ f ∈ fields) then r !! f else None.
Proof.
  unfold select_fields. destruct fields as [|g fields]; [by rewrite decide_True by auto|].
  case_decide as H.
  - destruct (r !! f) as [v|] eqn:E.
    + apply map_lookup_filter_Some. split; [done|]. simpl. naive_solver.
    + apply map_lookup_filter_None. by left.
  - apply map_lookup_filter_None. right. intros v _ Hf. simpl in Hf. naive_solver.
Qed.

Lemma encode_fits {S} values : kv_fits values →
  ∃ data, encodes data values ∧ (encode (S := S) values = pret (inl data)).
Proof.
  intros Hv. destruct (row_codec_spec n values (range values) n_small (range_perm values)) as (data & He & Hd).
  { intros k v Hk. apply (Hv k v Hk). }
  exists data. split; [|unfold encode, pfail; by rewrite He].
  intros fields. destruct (Hd fields) as (res & Hr & Hl). exists res. split; [done|]. intros Hk. apply map_eq. intros f.
  rewrite select_fields_lookup. apply Hl. by apply Forall_forall.
Qed.

Lemma decode_encodes {S} data r fields : encodes data r →
  ∃ res, decode (S := S) data fields = pret (inl res) ∧ ((∀ f, f ∈ fields → kv_knows f) → res = select_fields fields r).
Proof. intros He. destruct (He fields) as (res & Hr & ?). exists res. unfold decode. by rewrite Hr. Qed.

Lemma decode_decodable {S} data fields : decodable data → ∃ r, decode (S := S) data fields = pret r.
Proof. intros He. destruct (He fields) as (r & Hr). exists r. unfold decode. by rewrite Hr. Qed.

(** ** Tables *)

(** The map [c] holds the rows [m], the row of [key] under [kf key]; everything in
    it is decodable. *)
Definition kv_rel (kf : string → string) (c : gmap string bytes) (m : table) : Prop :=
  (map_Forall (λ _ data, decodable data) c) ∧
  ∀ key, match m !! key with
         | Some r => kv_fits r ∧ ∃ data, c !! kf key = Some data ∧ encodes data r
         | None => c !! kf key = None
         end.

Lemma kv_fits_union values r : kv_fits values → kv_fits r → kv_fits (values ∪ r).
Proof. intros. by apply map_Forall_union_2. Qed.

Section Keys.
Context (kf : string → string) `{!Inj (=) (=) kf}.

Lemma kv_rel_insert c m key data values :
  kv_rel kf c m → kv_fits values → encodes data values → kv_rel kf (<[kf key := data]> c) (<[key := values]> m).
Proof.
  intros [Hd Hm] Hv He. split; [apply map_Forall_insert_2; [by eapply encodes_decodable|done]|]. intros k.
  destruct (decide (k = key)) as [->|Hne]; [rewrite !lookup_insert_eq; by eauto|].
  assert (kf key ≠ kf k) by (intros ?%(inj kf); congruence). rewrite !lookup_insert_ne by congruence. apply Hm.
Qed.

Lemma kv_rel_delete c m key : kv_rel kf c m → kv_rel kf (delete (kf key) c) (delete key m).
Proof.
  intros [Hd Hm]. split; [by apply map_Forall_delete|]. intros k.
  destruct (decide (k = key)) as [->|Hne]; [by rewrite !lookup_delete_eq|].
  assert (kf key ≠ kf k) by (intros ?%(inj kf); congruence). rewrite !lookup_delete_ne by congruence. apply Hm.
Qed.

Lemma kv_rel_some c m key data : kv_rel kf c m → c !! kf key = Some data →
  ∃ r, m !! key = Some r ∧ kv_fits r ∧ encodes data r.
Proof.
  intros [_ Hm] Hc. specialize (Hm key). destruct (m !! key) as [r|]; [|congruence].
  destruct Hm as (? & data' & Hd & ?). exists r. rewrite Hc in Hd. by injection Hd as <-.
Qed.

Lemma kv_rel_none c m key : kv_rel kf c m → c !! kf key = None → m !! key = None.
Proof.
  intros [_ Hm] Hc. specialize (Hm key). destruct (m !! key) as [r|]; [|done]. destruct Hm as (? & data & ? & ?). congruence.
Qed.

(** What [Insert] and [Update] store for a row. *)
Lemma kv_rel_encode {S} c m key values :
  kv_rel kf c m → kv_fits values →
  ∃ data, encode (S := S) values = pret (inl data) ∧ kv_rel kf (<[kf key := data]> c) (<[key := values]> m).
Proof.
  intros Hrel Hv. destruct (encode_fits (S := S) values Hv) as (data & He & Henc). exists data. split; [done|].
  by apply kv_rel_insert.
Qed.

Lemma kv_rel_merge {S} c m key values r :
  kv_rel kf c m → kv_fits values → m !! key = Some r →
  ∃ data, encode (S := S) (values ∪ r) = pret (inl data) ∧
    kv_rel kf (<[kf key := data]> c) (<[key := values ∪ old_row m key]> m).
Proof.
  intros Hrel Hv Hm. unfold old_row. rewrite Hm. apply kv_rel_encode; [done|]. apply kv_fits_union; [done|].
  destruct Hrel as [_ H]. specialize (H key). rewrite Hm in H. apply H.
Qed.

Lemma kv_rel_empty : kv_rel kf ∅ ∅.
Proof. split; [apply map_Forall_empty|done]. Qed.
End Keys.

(** [decode_all] over computations that leave the contents alone. *)
Lemma decode_all_returns {E} `{!Contents E (gmap string bytes)} fields vals s :
  Forall (λ v, ∃ data, decodable data ∧ ct_reads v (λ _, data)) vals →
  returns (decode_all fields vals s) (λ _ s', ct s' = ct s ∧ (ct_up s → ct_up s')).
Proof.
  intros Hv. revert s. induction Hv as [|v vals (data & Hd & Hr) _ IH]; intros s; [done|]. cbn [decode_all].
  eapply reads_bind; [exact Hr|]. intros r s1 Hc Hu Hres. destruct r as [data'|err]; [|done]. subst data'.
  destruct (decode_decodable (S := E) data fields Hd) as (d & ->). unfold pbind at 1. simpl.
  destruct d as [m|err]; [|done]. apply returns_bind. eapply returns_weaken; [apply IH|].
  intros rest s2 [Hc2 Hu2]. simpl. split; [congruence|auto].
Qed.
End Rows.

(** ** Keys in order *)

(** The pairs of a store from a key on, in the order of the keys' bytes. *)
Definition kv_sorted (c : gmap string bytes) : list (string * bytes) :=
  map (λ p, (fp_Field p, fp_Value p)) (NewFieldPairs (map_to_list c)).
Definition kv_from (start : string) (c : gmap string bytes) : list (string * bytes) :=
  List.filter (λ p, negb (go_string_lt p.1 start)) (kv_sorted c).

Lemma kv_sorted_perm c : kv_sorted c ≡ₚ map_to_list c.
Proof.
  unfold kv_sorted, NewFieldPairs. rewrite sort_pairs_perm, map_map. cbn [fp_Field fp_Value].
  rewrite (map_ext (λ x : string * bytes, (x.1, x.2)) id) by (by intros []). by rewrite map_id.
Qed.

Lemma kv_from_lookup start c k v : (k, v) ∈ kv_from start c → c !! k = Some v.
Proof.
  unfold kv_from. rewrite list_elem_of_In, filter_In. intros [H _]. apply list_elem_of_In in H.
  rewrite kv_sorted_perm in H. by apply elem_of_map_to_list in H.
Qed.

Lemma kv_from_decodable n (c : gmap string bytes) start :
  map_Forall (λ _ data, decodable n data) c → Forall (λ p, decodable n p.2) (kv_from start c).
Proof. intros Hc. apply Forall_forall. intros [k v] Hin. apply (Hc k v). by eapply kv_from_lookup. Qed.

(** [fmt.Sprintf("%s:%s", table, key)]: the keys of one table are told apart. *)
Definition row_key (T key : string) : string := T +:+ ":" +:+ key.

#[export] Instance row_key_inj T : Inj (=) (=) (row_key T).
Proof. intros k1 k2 H. unfold row_key in H. apply (inj (String.append T)) in H. by injection H. Qed.

(** ** What the contracts of the bindings share *)

Section Contract.
Context (n : Z).

Lemma make_rows_returns {S A} count (k : unit → PM S A) s Q :
  0 <= count → returns (k tt s) Q → returns (pbind (make_rows count) k s) Q.
Proof. intros Hc Hk. unfold make_rows. destruct (Z.ltb_spec count 0); [lia|]. by apply returns_bind. Qed.

Lemma make_rows_negative {S A} count (k : unit → PM S A) s :
  count < 0 → pbind (make_rows count) k s = (Panic "makeslice: len out of range", s).
Proof. intros Hc. unfold make_rows. destruct (Z.ltb_spec count 0); [done|lia]. Qed.

Lemma decode_nil {S} fields : decode (S := S) n [] fields = pret (inl ∅).
Proof.
  unfold decode, RowCodec_Decode, DecodeRow. rewrite decide_False by done. simpl. unfold pfail, pret. do 4 f_equal.
  apply map_eq. intros f. rewrite decode_fields_lookup, !lookup_empty. by case_decide.
Qed.

Lemma select_fields_empty fields : select_fields fields (∅ : row) = ∅.
Proof. apply map_eq. intros f. rewrite select_fields_lookup, !lookup_empty. by case_decide. Qed.

(** The store under a binding holds the rows of a table. *)
Definition store_rel {E} `{!Contents E (gmap string bytes)} (table : string) (s : E) (m : TableDb.table) : Prop :=
  kv_rel n (row_key table) (ct s) m.

(** From the rows a managed transaction leaves to the result of a write. *)
Lemma managed_write {E C} `{!Contents E C} (R : C → TableDb.table → Prop) (s : E) (m m' : TableDb.table) (absent : Prop) fault
    (r : unit * option error) s' :
  R (ct s) m → (fault → ¬ ct_up s ∨ absent) →
  (ct_up s → ct_up s') ∧ match r.2 with None => R (ct s') m' | Some _ => fault ∧ ct s' = ct s end →
  returns (pret (S := E) r.2 s')
    (λ r s', (ct_up s → ct_up s') ∧ write_result (λ s m, R (ct s) m) (ct_up s) absent m m' r s').
Proof.
  intros Hrel Hfault [Hu Hr]. destruct r as [u [err|]]; simpl in *; (split; [done|]); [|by left].
  destruct Hr as [Hf Hc]. split; [by apply Hfault|]. left. by rewrite Hc.
Qed.

Lemma decode_whole {S} data r : encodes n data r → decode (S := S) n data [] = pret (inl r).
Proof.
  intros He. destruct (decode_encodes n (S := S) data r [] He) as (res & Hd & Hres).
  by rewrite (Hres ltac:(set_solver)) in Hd.
Qed.

(** Decoding values that are already there. *)
Lemma decode_pure_returns {S A} (f : A → bytes) fields (l : list A) k (s : S) :
  Forall (λ x, decodable n (f x)) l →
  returns (decode_all n fields (map (λ x, pret (inl (f x))) (take k l)) s) (λ _ s', s' = s).
Proof.
  intros Hl. revert k s. induction Hl as [|x l Hx _ IH]; intros [|k] s; try done. simpl. unfold pbind at 1. simpl.
  destruct (decode_decodable n (S := S) (f x) fields Hx) as (d & ->). unfold pbind at 1. simpl. destruct d as [m|err]; [|done].
  apply returns_bind. eapply returns_weaken; [apply IH|]. by intros rest s' ->.
Qed.

(** A direct write. *)
Lemma direct_write {E} `{!Contents E (gmap string bytes)} table (pm : PM E (option error)) f (s s1 : E) (m m' : TableDb.table) (absent : Prop) :
  ct_writes pm f → ct s1 = ct s → (ct_up s → ct_up s1) → store_rel table s m →
  kv_rel n (row_key table) (f (ct s)) m' →
  returns (pm s1) (λ r s', (ct_up s → ct_up s') ∧ write_result (store_rel table) (ct_up s) absent m m' r s').
Proof.
  intros Hw Hc Hu Hrel Hrel'. eapply returns_weaken; [apply Hw|]. unfold store_rel. rewrite Hc.
  intros [err|] s' [Hu' Hr]; simpl; (split; [by auto|]).
  - destruct Hr as [Hn Hr]. split; [left; auto|]. destruct Hr as [-> | ->]; [by left|by right].
  - left. by rewrite Hr.
Qed.

End Contract.
