(* ===== verification/DocStore.v ===== *)
(** * DocStore: databases that hold documents

    What the bindings for document and hash stores have in common
    (src/go-ycsb-vendor/db: mongodb, redis, aerospike, etcd): each row is an entry
    of its own, and a call reads or changes the entry of its key only.  What it
    does to the entry differs from store to store: [dc_does] says it, as a relation
    between the row before, the row after and the answer.  From it follow the
    promise [ValueDB] of a workload and, for the calls on which the relation
    agrees with a map, the refinement of [TableDb]. *)

From S2P Require Import Prelude GoLib Storage YcsbUtil Float64 Generators Ycsb TableDb KvStore.

Open Scope Z_scope.

Definition call_key (c : tb_call) : string :=
  match c with CallRead key _ | CallInsert key _ | CallUpdate key _ | CallDelete key => key end.

(** The result of one call on the entry [o] of its key, which is [o'] afterwards. *)
Definition entry_result (does : tb_call → option row → option row → answer → Prop) (up silent : Prop)
    (c : tb_call) (o o' : option row) (a : answer) : Prop :=
  does c o o' a ∨
  (¬ up ∧ (failed a = true ∨ (silent ∧ a = inl ∅)) ∧ (o' = o ∨ ∃ a', does c o o' a')).

(** [dc_silent]: reads that fail give an empty row. *)
Class DocDB (D : Type) `{!YcsbDB D} := mkDocDB {
  dc_knows : string → Prop;
  dc_value : bytes → Prop;
  dc_up : D → Prop;
  dc_silent : Prop;
  dc_wf : string → D → Prop;
  dc_row : string → D → string → option row;
  dc_does : tb_call → option row → option row → answer → Prop;
  dc_fits (values : row) : Prop := map_Forall (λ f v, dc_knows f ∧ dc_value v) values;
  dc_args (c : tb_call) : Prop :=
    match c with CallInsert _ values | CallUpdate _ values => dc_fits values | _ => True end;
  dc_named (c : tb_call) : Prop :=
    match c with CallRead _ fields => ∀ f, f ∈ fields → dc_knows f | _ => True end;
  dc_call T c d :
    dc_wf T d → dc_args c →
    returns (run_call T c d) (λ a d', dc_wf T d' ∧ (dc_up d → dc_up d') ∧
      (∀ k, k ≠ call_key c ∨ (∃ key fields, c = CallRead key fields) → dc_row T d' k = dc_row T d k) ∧
      (dc_named c → entry_result dc_does (dc_up d) dc_silent c (dc_row T d (call_key c)) (dc_row T d' (call_key c)) a));
  dc_Scan T key n fields d :
    dc_wf T d →
    match db_Scan T key n fields d with
    | (Ok _, d') => dc_wf T d' ∧ ∀ k, dc_row T d' k = dc_row T d k
    | (Exit _, _) => False
    | _ => True
    end;
  dc_batch : db_batch (D := D) = None;
}.

(** ** Integrity *)

(** What a call leaves and gives comes from the row and from its arguments. *)
Definition does_keep (does : tb_call → option row → option row → answer → Prop) : Prop :=
  ∀ (P : value_pred) c o o' a key,
    does c o o' a → from_option (row_ok P key) True o →
    match c with CallInsert _ values | CallUpdate _ values => row_ok P key values | _ => True end →
    from_option (row_ok P key) True o' ∧
    match a with inl v => row_ok P key v | inr _ => True end.

Section Values.
Context {D : Type} `{!YcsbDB D} `{!DocDB D}.
Context (keep : does_keep (dc_does (D := D))).

Definition doc_holds (T : string) (P : value_pred) (d : D) : Prop :=
  (∀ key f v, P key f v → dc_knows (D := D) f ∧ dc_value (D := D) v) ∧ dc_wf T d ∧
  ∀ key, from_option (row_ok P key) True (dc_row T d key).

Lemma doc_call_keeps T P c d :
  doc_holds T P d →
  match c with CallInsert key values | CallUpdate key values => row_ok P key values | _ => True end →
  returns (run_call T c d) (λ a d', doc_holds T P d' ∧
    (dc_named c → match a with inl v => row_ok P (call_key c) v | inr _ => True end)).
Proof.
  intros (HP & Hwf & Hrows) Hv.
  assert (dc_args (D := D) c) as Hargs.
  { destruct c as [| key values | key values |]; simpl in *; try done; intros f v Hf; by apply (HP key), Hv. }
  eapply returns_weaken; [by apply (dc_call T c d)|]. intros a d' (Hwf' & _ & Hframe & Hres).
  assert (∀ o' a, dc_does (D := D) c (dc_row T d (call_key c)) o' a →
    from_option (row_ok P (call_key c)) True o' ∧ match a with inl v => row_ok P (call_key c) v | inr _ => True end) as Hk.
  { intros o' a' Hd. eapply (keep P c _ o' a' (call_key c) Hd); [apply Hrows|]. by destruct c. }
  assert (dc_named (D := D) c → from_option (row_ok P (call_key c)) True (dc_row T d' (call_key c)) ∧
    match a with inl v => row_ok P (call_key c) v | inr _ => True end) as Hkey.
  { intros Hn. destruct (Hres Hn) as [Hd|(_ & Ha & Ho)]; [by apply (Hk _ a)|]. split.
    - destruct Ho as [-> |[a' Ha']]; [apply Hrows|by apply (Hk _ a')].
    - destruct Ha as [Ha|[_ ->]]; [by destruct a|apply row_ok_empty]. }
  split; [|by intros [_ ?]%Hkey]. split; [done|]. split; [done|]. intros k.
  destruct (decide (k = call_key c)) as [->|Hne]; [|rewrite Hframe by (by left); apply Hrows].
  destruct c as [key fields|key values|key values|key]; [rewrite Hframe by (right; eauto); apply Hrows|by apply Hkey..].
Qed.

Lemma doc_write_keeps T P c (m : PM D (option error)) :
  (∀ d, run_call T c d = pbind m (λ r, pret (inr r)) d) →
  match c with CallInsert key values | CallUpdate key values => row_ok P key values | _ => True end →
  keeps (doc_holds T P) m (λ _, True).
Proof.
  intros Hm Hv d Hd. pose proof (doc_call_keeps T P c d Hd Hv) as H. rewrite Hm in H. unfold pbind in H.
  destruct (m d) as [[r|?|?|] d']; try done. by destruct H.
Qed.

Definition doc_values : ValueDB D.
Proof.
  refine (mkValueDB D _ doc_holds _ _ _ _ _ _).
  - intros T P key fields d Hd. pose proof (doc_call_keeps T P (CallRead key fields) d Hd I) as H.
    simpl in H. unfold pbind in H. destruct (db_Read T key fields d) as [[r|?|?|] d']; try done. destruct H as [Hd' H].
    split; [done|]. intros Hk v ->. apply H. intros f Hf. destruct (Hk f Hf) as (k & v0 & Hp).
    destruct Hd as [HP _]. by eapply HP.
  - intros T P key n fields d (HP & Hwf & Hrows). pose proof (dc_Scan T key n fields d Hwf) as H.
    destruct (db_Scan T key n fields d) as [[r|?|?|] d']; try done. destruct H as [Hwf' Hsame].
    split; [|done]. split; [done|]. split; [done|]. intros k. by rewrite Hsame.
  - intros T P key values Hv. by apply (doc_write_keeps T P (CallUpdate key values)).
  - intros T P key values Hv. by apply (doc_write_keeps T P (CallInsert key values)).
  - intros T P key. by apply (doc_write_keeps T P (CallDelete key)).
  - intros b T P Hb. by rewrite dc_batch in Hb.
Defined.
End Values.

(** ** Refinement *)

Section Refinement.
Context {D : Type} `{!YcsbDB D} `{!DocDB D}.
Context (n : Z) (fits : tb_call → Prop).

(** Inserts of new rows; reads, updates and deletes of rows that are there. *)
Definition doc_ok (c : tb_call) (m : table) : Prop :=
  match c with CallInsert key _ => m !! key = None | _ => is_Some (m !! call_key c) end.

(** On full rows and such calls [does] agrees with a map. *)
Definition does_agree (does : tb_call → option row → option row → answer → Prop) : Prop := ∀ c m o' a,
  fits c → doc_ok c m → map_Forall (λ _, full n) m → does c (m !! call_key c) o' a →
  a = (spec_call c m).1 ∧ o' = (spec_call c m).2 !! call_key c.

(** The database holds the full rows [m]; if it hides errors, it is up. *)
Definition doc_rel (T : string) (d : D) (m : table) : Prop :=
  dc_wf T d ∧ (dc_silent (D := D) → dc_up d) ∧ map_Forall (λ _, full n) m ∧ ∀ k, dc_row T d k = m !! k.

Lemma spec_call_other c m k : k ≠ call_key c → (spec_call c m).2 !! k = m !! k.
Proof. destruct c; simpl; intros; [done|by rewrite lookup_insert_ne by congruence..|by rewrite lookup_delete_ne by congruence]. Qed.

Lemma full_union values r : within n values → full n r → full n (values ∪ r).
Proof.
  intros Hw Hf f. rewrite lookup_union_is_Some, <- (Hf f). split; [|by right]. intros [H|H]; [by apply Hf, Hw|done].
Qed.

Lemma full_within values : full n values → within n values.
Proof. intros Hf f. apply Hf. Qed.

Context (fits_full : ∀ c, fits c →
  match c with CallInsert _ values => full n values | CallUpdate _ values => within n values | _ => True end).
Context (fits_args : ∀ c, fits c → dc_args (D := D) c ∧ dc_named (D := D) c).

Lemma spec_call_full c m : fits c → doc_ok c m → map_Forall (λ _, full n) m → map_Forall (λ _, full n) (spec_call c m).2.
Proof.
  intros Hf Hok Hm. pose proof (fits_full c Hf) as Hv. destruct c as [|key values|key values|key]; simpl in *; try done.
  - by apply map_Forall_insert_2.
  - destruct Hok as [r Hr]. apply map_Forall_insert_2; [|done]. unfold old_row. rewrite Hr. apply full_union; [done|]. by apply (Hm key).
  - by apply map_Forall_delete.
Qed.

Lemma doc_call_refined T : does_agree (dc_does (D := D)) →
  call_refined (dc_wf (D := D) T) dc_up (doc_rel T) fits doc_ok T.
Proof.
  intros Hag c d Hwf Hf. destruct (fits_args c Hf) as [Hargs Hnamed].
  eapply returns_weaken; [by apply (dc_call T c d)|]. intros a d' (Hwf' & Hup & Hframe & Hres). split; [done|].
  intros m (_ & Hs & Hfull & Hrows) Hok. specialize (Hres Hnamed).
  assert (dc_does (D := D) c (m !! call_key c) (dc_row T d' (call_key c)) a →
    a = (spec_call c m).1 ∧ doc_rel T d' (spec_call c m).2) as Hdone.
  { intros Hd. destruct (Hag c m _ _ Hf Hok Hfull Hd) as [Ha Hrow]. split; [done|].
    split; [done|]. split; [auto|]. split; [by apply spec_call_full|]. intros k.
    destruct (decide (k = call_key c)) as [->|Hne]; [done|]. by rewrite Hframe, Hrows, spec_call_other by auto. }
  rewrite Hrows in Hres. destruct Hres as [Hd|(Hn & Ha & _)].
  - destruct (Hdone Hd) as [-> Hrel]. split; [|done]. intros Hu. split; [auto|]. by destruct c.
  - split; [done|]. destruct Ha as [Ha|[Hsil _]]; [congruence|]. by destruct (Hn (Hs Hsil)).
Qed.

Lemma doc_calls_refined T cs d m : does_agree (dc_does (D := D)) →
  doc_rel T d m → Forall fits cs → calls_ok doc_ok cs m →
  returns (run_calls T cs d) (λ l d',
    (Forall (λ a, failed a = false) l → l = (spec_calls cs m).1 ∧ doc_rel T d' (spec_calls cs m).2) ∧
    (dc_up d → Forall (λ a, failed a = false) l)).
Proof.
  intros Hag Hrel Hf Hok.
  eapply returns_weaken; [apply (calls_refined _ _ _ _ _ T (doc_call_refined T Hag)); [apply Hrel|done]|].
  intros l d' [_ H]. by apply H.
Qed.
End Refinement.

(** ** Stores of one map *)

Section Entries.
Context {E K V : Type} `{!EqDecision K, !Countable K} `{!Contents E (gmap K V)}.
(** The entry of a row, the entries the binding makes, and their rows. *)
Context (kf : string → string → K) `{kf_inj : ∀ T, Inj (=) (=) (kf T)} (good : V → Prop) (view : V → row).
Context (does : tb_call → option row → option row → answer → Prop) (silent : Prop).

Definition en_wf (T : string) (s : E) : Prop := ∀ key v, ct s !! kf T key = Some v → good v.
Definition en_row (T : string) (s : E) (key : string) : option row := view <$> ct s !! kf T key.

Abbreviation en_result T c s s' a := (entry_result does (ct_up s) silent c (en_row T s (call_key c)) (en_row T s' (call_key c)) a).

(** What a call may do to the store. *)
Definition en_step (T key : string) (s s' : E) : Prop :=
  ct s' = ct s ∨ (∃ v, good v ∧ ct s' = <[kf T key := v]> (ct s)) ∨ ct s' = delete (kf T key) (ct s).

Definition en_post (named : Prop) (T : string) (c : tb_call) (s : E) (a : answer) (s' : E) : Prop :=
  en_wf T s' ∧ (ct_up s → ct_up s') ∧
  (∀ k, k ≠ call_key c ∨ (∃ key fields, c = CallRead key fields) → en_row T s' k = en_row T s k) ∧
  (named → en_result T c s s' a).

Lemma en_after T key s s' : en_wf T s → en_step T key s s' →
  en_wf T s' ∧ ∀ k, k ≠ key → en_row T s' k = en_row T s k.
Proof.
  assert (∀ k, k ≠ key → kf T key ≠ kf T k) as Hne by (intros k Hk ?%(inj (kf T)); congruence).
  unfold en_wf, en_row. intros Hwf [Hc|[(v & Hv & Hc)|Hc]]; rewrite Hc; [done| |]; split.
  - intros k v'. destruct (decide (k = key)) as [->|Hk]; [rewrite lookup_insert_eq; by intros [= <-]|].
    rewrite lookup_insert_ne by (by apply Hne). apply Hwf.
  - intros k Hk. by rewrite lookup_insert_ne by (by apply Hne).
  - intros k v'. destruct (decide (k = key)) as [->|Hk]; [by rewrite lookup_delete_eq|].
    rewrite lookup_delete_ne by (by apply Hne). apply Hwf.
  - intros k Hk. by rewrite lookup_delete_ne by (by apply Hne).
Qed.

Lemma en_wrote named T c s s' a :
  en_wf T s → (ct_up s → ct_up s') → (∀ key fields, c ≠ CallRead key fields) → en_step T (call_key c) s s' →
  en_result T c s s' a → en_post named T c s a s'.
Proof.
  intros Hwf Hup Hc Hs Hr. destruct (en_after T (call_key c) s s' Hwf Hs) as [Hwf' Hframe].
  split; [done|]. split; [done|]. split; [|done]. intros k [Hk|(key & fields & ->)]; [by apply Hframe|by destruct (Hc key fields)].
Qed.

Lemma en_unchanged (named : Prop) T c s s' a :
  en_wf T s → (ct_up s → ct_up s') → ct s' = ct s →
  (named → entry_result does (ct_up s) silent c (en_row T s (call_key c)) (en_row T s (call_key c)) a) → en_post named T c s a s'.
Proof. intros Hwf Hup Hc Hr. unfold en_post, en_wf, en_row in *. rewrite Hc. done. Qed.

Lemma en_row_insert T key v s s' : ct s' = <[kf T key := v]> (ct s) → en_row T s' key = Some (view v).
Proof. intros Hc. unfold en_row. by rewrite Hc, lookup_insert_eq. Qed.

Lemma en_row_delete T key s s' : ct s' = delete (kf T key) (ct s) → en_row T s' key = None.
Proof. intros Hc. unfold en_row. by rewrite Hc, lookup_delete_eq. Qed.

Lemma en_row_same T key s s' : ct s' = ct s → en_row T s' key = en_row T s key.
Proof. intros Hc. unfold en_row. by rewrite Hc. Qed.

Lemma en_row_lookup T key s : en_row T s key = view <$> ct s !! kf T key.
Proof. done. Qed.

(** A write that may fail, and may or may not have been done then. *)
Lemma en_write named T c s s' f v r :
  en_wf T s → (ct_up s → ct_up s') → (∀ key fields, c ≠ CallRead key fields) →
  f = <[kf T (call_key c) := v]> ∧ good v ∧ does c (en_row T s (call_key c)) (Some (view v)) (inr None) ∨
  f = delete (kf T (call_key c)) ∧ does c (en_row T s (call_key c)) None (inr None) →
  match r with
  | None => ct s' = f (ct s)
  | Some _ => ¬ ct_up s ∧ (ct s' = ct s ∨ ct s' = f (ct s))
  end →
  en_post named T c s (inr r) s'.
Proof.
  intros Hwf Hup Hc Hf Hr.
  assert (ct s' = f (ct s) → en_step T (call_key c) s s' ∧ does c (en_row T s (call_key c)) (en_row T s' (call_key c)) (inr None)) as Hdone.
  { intros Hs. destruct Hf as [(-> & Hg & Hd)|[-> Hd]].
    - split; [right; left; by exists v|]. by rewrite (en_row_insert T (call_key c) v s s' Hs).
    - split; [by right; right|]. by rewrite (en_row_delete T (call_key c) s s' Hs). }
  destruct r as [err|].
  - destruct Hr as [Hn [Hs|Hs]]; apply en_wrote; try done; [by left| |by apply Hdone|].
    + right. split; [done|]. split; [by left|]. left. by apply en_row_same.
    + right. split; [done|]. split; [by left|]. right. exists (inr None). by apply Hdone.
  - destruct (Hdone Hr). apply en_wrote; try done. by left.
Qed.
End Entries.
