(* ===== verification/KvBindings.v ===== *)
(** * KvBindings: the embedded key-value stores
    (src/go-ycsb-vendor/db: badger, boltdb, rocksdb)

    Each binding is a [YcsbDB] over its driver and meets the contract of
    [TableDb] whenever the driver obeys its laws. *)

From S2P Require Import Prelude GoLib Storage YcsbUtil Float64 Generators Ycsb TableDb KvStore.

Open Scope Z_scope.

(** The error of a function run in a transaction, or what it left behind. *)
Definition of_txn {A} (r : A * option error) : A + error :=
  match r.2 with Some err => inr err | None => inl r.1 end.

(** ** Badger *)

(** A transaction on a badger store and its iterators. *)
Class BadgerDriver (E T : Type) := mkBadger {
  bd_item : Type;
  bd_View : ∀ A, A → PM T (A * option error) → PM E (A * option error);
  bd_Update : ∀ A, A → PM T (A * option error) → PM E (A * option error);
  bd_Get : string → PM T (bd_item + error);
  bd_Value : bd_item → PM T (bytes + error);
  bd_ValueCopy : bd_item → PM T (bytes + error);
  bd_Seek : string → PM T (list bd_item);        (* the items a new iterator visits *)
  bd_Set : string → bytes → PM T (option error);
  bd_Delete : string → PM T (option error);
}.

(** [Get] of a missing key is an error. *)
Class BadgerLaws (E T : Type) `{!BadgerDriver E T}
    `{!Contents E (gmap string bytes)} `{!Contents T (gmap string bytes)} := mkBadgerLaws {
  bd_val : bd_item → bytes;
  bd_view : view_law (bd_View (E := E) (T := T));
  bd_update : update_law (bd_Update (E := E) (T := T));
  bd_get key t : returns (bd_Get key t) (λ r t', ct t' = ct t ∧ (ct_up t → ct_up t') ∧
    match r with inl it => ct t !! key = Some (bd_val it) | inr _ => ¬ ct_up t ∨ ct t !! key = None end);
  bd_value it : ct_reads (bd_Value it) (λ _, bd_val it);
  bd_valuecopy it : ct_reads (bd_ValueCopy it) (λ _, bd_val it);
  bd_seek key t : returns (bd_Seek key t) (λ its t', ct t' = ct t ∧ (ct_up t → ct_up t') ∧
    map bd_val its = (kv_from key (ct t)).*2);
  bd_set key v : ct_writes (bd_Set key v) <[key := v]>;
  bd_delete key : ct_writes (bd_Delete key) (delete key);
}.

Section Badger.
Context {E T : Type} `{!BadgerDriver E T}.
Context (n : Z) (range : row → list (string * bytes)).

Definition badger_getRowKey (table key : string) : string := row_key table key.

Definition badger_Read (table key : string) (fields : list string) : PM E (row + error) :=
  r <~ bd_View row ∅ (
    item <~ bd_Get (badger_getRowKey table key) ;;
    match item with
    | inr err => pret (∅, Some err)
    | inl item =>
        v <~ bd_Value item ;;
        match v with
        | inr err => pret (∅, Some err)
        | inl data =>
            m <~ decode n data fields ;;
            pret (match m with inl m => (m, None) | inr err => (∅, Some err) end)
        end
    end) ;;
  pret (of_txn r).

Definition badger_Scan (table startKey : string) (count : Z) (fields : list string) : PM E (list row + error) :=
  make_rows count ~;
  r <~ bd_View (list row) [] (
    items <~ bd_Seek (badger_getRowKey table startKey) ;;
    rows <~ decode_all n fields (map bd_ValueCopy (take (Z.to_nat count) items)) ;;
    pret (match rows with inl rows => (pad_rows count rows, None) | inr err => ([], Some err) end)) ;;
  pret (of_txn r).

Definition badger_Update (table key : string) (values : row) : PM E (option error) :=
  r <~ bd_Update unit tt (
    item <~ bd_Get (badger_getRowKey table key) ;;
    match item with
    | inr err => pret (tt, Some err)
    | inl item =>
        v <~ bd_Value item ;;
        match v with
        | inr err => pret (tt, Some err)
        | inl value =>
            data <~ decode n value [] ;;
            match data with
            | inr err => pret (tt, Some err)
            | inl data =>
                buf <~ encode n range (values ∪ data) ;;
                match buf with
                | inr err => pret (tt, Some err)
                | inl buf => err <~ bd_Set (badger_getRowKey table key) buf ;; pret (tt, err)
                end
            end
        end
    end) ;;
  pret r.2.

Definition badger_Insert (table key : string) (values : row) : PM E (option error) :=
  r <~ bd_Update unit tt (
    buf <~ encode n range values ;;
    match buf with
    | inr err => pret (tt, Some err)
    | inl buf => err <~ bd_Set (badger_getRowKey table key) buf ;; pret (tt, err)
    end) ;;
  pret r.2.

Definition badger_Delete (table key : string) : PM E (option error) :=
  r <~ bd_Update unit tt (err <~ bd_Delete (badger_getRowKey table key) ;; pret (tt, err)) ;;
  pret r.2.

Definition badger_db : YcsbDB E :=
  mkYcsbDB E badger_Read badger_Scan badger_Update badger_Insert badger_Delete None.
End Badger.

(** ** BoltDB *)

(** A bolt transaction; a bucket is identified by its name. *)
Class BoltDriver (E T : Type) := mkBolt {
  bt_View : ∀ A, A → PM T (A * option error) → PM E (A * option error);
  bt_Update : ∀ A, A → PM T (A * option error) → PM E (A * option error);
  bt_Bucket : string → PM T bool;                          (* is not nil *)
  bt_Get : string → string → PM T (option bytes);
  bt_Seek : string → string → PM T (list (string * bytes));  (* what a cursor visits *)
  bt_Put : string → string → bytes → PM T (option error);
  bt_Delete : string → string → PM T (option error);
  bt_CreateBucketIfNotExists : string → PM T (option error);
  bt_KeyN : string → PM T Z;                               (* Stats().KeyN *)
  bt_DeleteBucket : string → PM T (option error);
}.

Abbreviation buckets := (gmap string (gmap string bytes)).

(** A store without buckets that are needed: an operation on a bucket is only
    made after it was found or created.  [KeyN] counts the keys. *)
Class BoltLaws (E T : Type) `{!BoltDriver E T} `{!Contents E buckets} `{!Contents T buckets} := mkBoltLaws {
  bt_view : view_law (bt_View (E := E) (T := T));
  bt_update : update_law (bt_Update (E := E) (T := T));
  bt_bucket b : ct_gives (bt_Bucket b) (λ c, bool_decide (is_Some (c !! b)));
  bt_get b key : ct_gives (bt_Get b key) (λ c, bk ← c !! b; bk !! key);
  bt_seek b key : ct_gives (bt_Seek b key) (λ c, kv_from key (default ∅ (c !! b)));
  bt_put b key v : ct_writes (bt_Put b key v) (λ c, alter <[key := v]> b c);
  bt_delete b key : ct_writes (bt_Delete b key) (λ c, alter (delete key) b c);
  bt_create b : ct_writes (bt_CreateBucketIfNotExists b) (λ c, <[b := default ∅ (c !! b)]> c);
  bt_keyn b t : returns (bt_KeyN b t) (λ k t', ct t' = ct t ∧ (ct_up t → ct_up t') ∧
    (k = 0 → default ∅ (ct t !! b) = ∅));
  bt_deletebucket b : ct_writes (bt_DeleteBucket b) (delete b);
}.

Section Bolt.
Context {E T : Type} `{!BoltDriver E T}.
Context (n : Z) (range : row → list (string * bytes)).

Definition not_found_table (table : string) : error := "table not found: " +:+ table.
Definition not_found_key (table key : string) : error := "key not found: " +:+ table +:+ "." +:+ key.

Definition bolt_Read (table key : string) (fields : list string) : PM E (row + error) :=
  r <~ bt_View row ∅ (
    bucket <~ bt_Bucket table ;;
    if negb bucket then pret (∅, Some (not_found_table table))
    else
      data <~ bt_Get table key ;;
      match data with
      | None => pret (∅, Some (not_found_key table key))
      | Some data =>
          m <~ decode n data fields ;;
          pret (match m with inl m => (m, None) | inr err => (∅, Some err) end)
      end) ;;
  pret (of_txn r).

Definition bolt_Scan (table startKey : string) (count : Z) (fields : list string) : PM E (list row + error) :=
  make_rows count ~;
  r <~ bt_View (list row) [] (
    bucket <~ bt_Bucket table ;;
    if negb bucket then pret ([], Some (not_found_table table))
    else
      pairs <~ bt_Seek table startKey ;;
      rows <~ decode_all n fields (map (λ p, pret (inl p.2)) (take (Z.to_nat count) pairs)) ;;
      pret (match rows with inl rows => (pad_rows count rows, None) | inr err => ([], Some err) end)) ;;
  pret (of_txn r).

Definition bolt_Update (table key : string) (values : row) : PM E (option error) :=
  r <~ bt_Update unit tt (
    bucket <~ bt_Bucket table ;;
    if negb bucket then pret (tt, Some (not_found_table table))
    else
      value <~ bt_Get table key ;;
      match value with
      | None => pret (tt, Some (not_found_key table key))
      | Some value =>
          data <~ decode n value [] ;;
          match data with
          | inr err => pret (tt, Some err)
          | inl data =>
              buf <~ encode n range (values ∪ data) ;;
              match buf with
              | inr err => pret (tt, Some err)
              | inl buf => err <~ bt_Put table key buf ;; pret (tt, err)
              end
          end
      end) ;;
  pret r.2.

Definition bolt_Insert (table key : string) (values : row) : PM E (option error) :=
  r <~ bt_Update unit tt (
    err <~ bt_CreateBucketIfNotExists table ;;
    match err with
    | Some err => pret (tt, Some err)
    | None =>
        buf <~ encode n range values ;;
        match buf with
        | inr err => pret (tt, Some err)
        | inl buf => err <~ bt_Put table key buf ;; pret (tt, err)
        end
    end) ;;
  pret r.2.

(** The error of [DeleteBucket] is dropped. *)
Definition bolt_Delete (table key : string) : PM E (option error) :=
  r <~ bt_Update unit tt (
    bucket <~ bt_Bucket table ;;
    if negb bucket then pret (tt, None)
    else
      err <~ bt_Delete table key ;;
      match err with
      | Some err => pret (tt, Some err)
      | None =>
          k <~ bt_KeyN table ;;
          (if k =? 0 then bt_DeleteBucket table else pret None) ~;
          pret (tt, None)
      end) ;;
  pret r.2.

Definition bolt_db : YcsbDB E :=
  mkYcsbDB E bolt_Read bolt_Scan bolt_Update bolt_Insert bolt_Delete None.
End Bolt.

(** ** RocksDB *)

(** [Get] of a missing key gives a slice without data. *)
Class RocksDriver (E : Type) := mkRocks {
  rk_Get : string → PM E (bytes + error);
  rk_Seek : string → PM E (list bytes * option error);   (* the values visited, and [Err] *)
  rk_Put : string → bytes → PM E (option error);
  rk_Delete : string → PM E (option error);
}.

Class RocksLaws (E : Type) `{!RocksDriver E} `{!Contents E (gmap string bytes)} := mkRocksLaws {
  rk_get key : ct_reads (rk_Get key) (λ c, default [] (c !! key));
  rk_seek key s : returns (rk_Seek key s) (λ r s', ct s' = ct s ∧ (ct_up s → ct_up s') ∧
    ∃ k, r.1 = take k (kv_from key (ct s)).*2);
  rk_put key v : ct_writes (rk_Put key v) <[key := v]>;
  rk_delete key : ct_writes (rk_Delete key) (delete key);
}.

Section Rocks.
Context {E : Type} `{!RocksDriver E}.
Context (n : Z) (range : row → list (string * bytes)).

Definition rocks_getRowKey (table key : string) : string := row_key table key.

Definition rocks_Read (table key : string) (fields : list string) : PM E (row + error) :=
  value <~ rk_Get (rocks_getRowKey table key) ;;
  match value with
  | inr err => pret (inr err)
  | inl value => decode n value fields
  end.

Definition rocks_Scan (table startKey : string) (count : Z) (fields : list string) : PM E (list row + error) :=
  make_rows count ~;
  it <~ rk_Seek (rocks_getRowKey table startKey) ;;
  rows <~ decode_all n fields (map (λ v, pret (inl v)) (take (Z.to_nat count) it.1)) ;;
  match rows with
  | inr err => pret (inr err)
  | inl rows => pret (match it.2 with Some err => inr err | None => inl (pad_rows count rows) end)
  end.

(** The second half of [Update]. *)
Definition rocks_update_write (table key : string) (values m : row) : PM E (option error) :=
  buf <~ encode n range (values ∪ m) ;;
  match buf with
  | inr err => pret (Some err)
  | inl buf => rk_Put (rocks_getRowKey table key) buf
  end.

(** A read and a write that are not one transaction. *)
Definition rocks_Update (table key : string) (values : row) : PM E (option error) :=
  m <~ rocks_Read table key [] ;;
  match m with
  | inr err => pret (Some err)
  | inl m => rocks_update_write table key values m
  end.

Definition rocks_Insert (table key : string) (values : row) : PM E (option error) :=
  buf <~ encode n range values ;;
  match buf with
  | inr err => pret (Some err)
  | inl buf => rk_Put (rocks_getRowKey table key) buf
  end.

Definition rocks_Delete (table key : string) : PM E (option error) := rk_Delete (rocks_getRowKey table key).

Definition rocks_db : YcsbDB E :=
  mkYcsbDB E rocks_Read rocks_Scan rocks_Update rocks_Insert rocks_Delete None.
End Rocks.

(** ** The bindings meet the contract of tables *)

Section Contract.
Context (n : Z) (range : row → list (string * bytes)).
Context (n_small : n <= 2 ^ 63) (range_perm : ∀ m, range m ≡ₚ map_to_list m).

Section BadgerContract.
Context {E T : Type} `{!BadgerDriver E T, !Contents E (gmap string bytes), !Contents T (gmap string bytes)}.
Context `{!BadgerLaws E T}.

#[local] Instance badger_ycsb : YcsbDB E := badger_db n range.

(** Reading the row of a key in a transaction. *)
Lemma badger_value_returns {A} table key (t : T) m (k : bd_item → PM T A) (bad : error → PM T A) Q :
  kv_rel n (row_key table) (ct t) m →
  (∀ err t', ct t' = ct t → (ct_up t → ct_up t') → ¬ ct_up t ∨ m !! key = None → returns (bad err t') Q) →
  (∀ it t' r, ct t' = ct t → (ct_up t → ct_up t') → m !! key = Some r → kv_fits n r → encodes n (bd_val it) r → returns (k it t') Q) →
  returns ((item <~ bd_Get (badger_getRowKey table key) ;; match item with inr err => bad err | inl it => k it end) t) Q.
Proof.
  intros Hrel Hbad Hk. apply returns_bind. eapply returns_weaken; [apply bd_get|]. intros [it|err] t' (Hc & Hu & Hr).
  - destruct (kv_rel_some n (row_key table) (ct t) m key (bd_val it) Hrel Hr) as (r & Hm & Hf & He). by eapply Hk.
  - apply Hbad; try done. destruct Hr as [?|Hr]; [by left|right]. by eapply (kv_rel_none n (row_key table)).
Qed.

#[local, refine] Instance badger_tables : TableDB E :=
  mkTableDB E badger_ycsb (kv_knows n) kv_value ct_up (store_rel n) _ _ _ _ _ _.
Proof.
  - intros table key fields s m Hrel. simpl. unfold badger_Read. apply returns_bind.
    eapply returns_weaken; [apply (view_returns _ _ _ s (λ r, (∀ f, f ∈ fields → kv_knows n f) →
      match of_txn r with inl v => v = select_fields fields (old_row m key) | inr _ => ¬ ct_up s ∨ m !! key = None end) bd_view)|].
    + intros err He _. by left.
    + intros t Hc Hu. assert (kv_rel n (row_key table) (ct t) m) as Ht by (by rewrite Hc).
      eapply badger_value_returns; [exact Ht| |].
      * intros err t' _ _ Hor _. simpl. naive_solver.
      * intros it t' r Hc' Hu' Hm Hf He. eapply reads_bind; [apply bd_value|]. intros [data|err] t2 Hc2 Hu2 Hv.
        -- subst data. destruct (decode_encodes n (S := T) (bd_val it) r fields He) as (res & Hd & Hres).
           unfold pbind. rewrite Hd. simpl. intros Hk. unfold old_row. rewrite Hm. by apply Hres.
        -- simpl. intros _. left. auto.
    + intros r s' (Hc & Hu & HQ). simpl. split; [unfold store_rel; by rewrite Hc|]. by split.
  - intros table key count fields s m Hrel Hcount. simpl. unfold badger_Scan. apply make_rows_returns; [done|].
    apply returns_bind. eapply returns_weaken; [apply (view_returns _ _ _ s (λ _, True) bd_view); [done|]|].
    + intros t Hc Hu. apply returns_bind. eapply returns_weaken; [apply bd_seek|]. intros its t1 (Hc1 & Hu1 & Hits).
      apply returns_bind. eapply returns_weaken; [apply (decode_all_returns n)|done].
      apply Forall_map. apply Forall_take. apply Forall_forall. intros it Hit. exists (bd_val it).
      split; [|apply bd_valuecopy]. destruct Hrel as [Hdec _]. rewrite <- Hc in Hdec.
      pose proof (kv_from_decodable n (ct t) (badger_getRowKey table key) Hdec) as Hall. rewrite Forall_forall in Hall.
      assert (bd_val it ∈ (kv_from (badger_getRowKey table key) (ct t)).*2) as Hin.
      { rewrite <- Hits. change (map ?f ?l) with (f <$> l). by apply list_elem_of_fmap_2. }
      apply list_elem_of_fmap in Hin as (p & -> & Hp). by apply Hall.
    + intros r s' (Hc & Hu & _). simpl. split; [unfold store_rel; by rewrite Hc|done].
  - intros table key count fields s m Hrel Hcount. simpl. unfold badger_Scan. by rewrite make_rows_negative.
  - intros table key values s m Hrel Hfits. simpl. unfold badger_Insert. apply returns_bind.
    eapply returns_weaken; [apply (update_returns _ _ _ s (λ c, kv_rel n (row_key table) c (<[key := values]> m))
      (¬ ct_up s) bd_update); [done|]|intros r s' Hres; eapply (managed_write (kv_rel n (row_key table)) s m _ _ _ r s' Hrel); [|exact Hres]; tauto].
    intros t Hc Hu.
    destruct (kv_rel_encode n range n_small range_perm (S := T) (row_key table) (ct s) m key values Hrel Hfits) as (data & Henc & Hrel').
    unfold pbind at 1. rewrite Henc. simpl. apply returns_bind. eapply returns_weaken; [apply bd_set|].
    intros [err|] t' [Hu' Hr]; simpl; [naive_solver|]. by rewrite Hr, Hc.
  - intros table key values s m Hrel Hfits. simpl. unfold badger_Update. apply returns_bind.
    eapply returns_weaken; [apply (update_returns _ _ _ s (λ c, kv_rel n (row_key table) c (<[key := values ∪ old_row m key]> m))
      (¬ ct_up s ∨ m !! key = None) bd_update); [by left|]|intros r s' Hres; eapply (managed_write (kv_rel n (row_key table)) s m _ _ _ r s' Hrel); [|exact Hres]; tauto].
    intros t Hc Hu. eapply badger_value_returns; [rewrite Hc; exact Hrel| |].
    * intros err t' _ _ Hor. simpl. naive_solver.
    * intros it t' r Hc' Hu' Hm Hf He. eapply reads_bind; [apply bd_value|]. intros [v|err] t2 Hc2 Hu2 Hv; [|simpl; naive_solver].
      subst v. rewrite (decode_whole n (bd_val it) r He).
      destruct (kv_rel_merge n range n_small range_perm (S := T) (row_key table) (ct s) m key values r Hrel Hfits Hm) as (data & Henc & Hrel').
      unfold pbind at 1. simpl. unfold pbind at 1. rewrite Henc. simpl.
      apply returns_bind. eapply returns_weaken; [apply bd_set|].
      intros [err|] t3 [Hu3 Hr3]; simpl; [naive_solver|]. by rewrite Hr3, Hc2, Hc', Hc.
  - intros table key s m Hrel. simpl. unfold badger_Delete. apply returns_bind.
    eapply returns_weaken; [apply (update_returns _ _ _ s (λ c, kv_rel n (row_key table) c (delete key m))
      (¬ ct_up s) bd_update); [done|]|intros r s' Hres; eapply (managed_write (kv_rel n (row_key table)) s m _ _ _ r s' Hrel); [|exact Hres]; tauto].
    intros t Hc Hu. apply returns_bind. eapply returns_weaken; [apply bd_delete|].
    intros [err|] t' [Hu' Hr]; simpl; [naive_solver|]. rewrite Hr, Hc. by apply kv_rel_delete; [apply _|].
Defined.
End BadgerContract.

Section BoltContract.
Context {E T : Type} `{!BoltDriver E T, !Contents E buckets, !Contents T buckets} `{!BoltLaws E T}.

#[local] Instance bolt_ycsb : YcsbDB E := bolt_db n range.

Definition bucket_rel (table : string) (c : buckets) (m : TableDb.table) : Prop := kv_rel n id (default ∅ (c !! table)) m.

(** Reading the row of a key in its bucket. *)
Lemma bolt_value_returns {A} table key (t : T) m (k : bytes → PM T A) (no_bucket no_key : PM T A) Q :
  bucket_rel table (ct t) m →
  (∀ t', ct t' = ct t → (ct_up t → ct_up t') → m !! key = None → returns (no_bucket t') Q ∧ returns (no_key t') Q) →
  (∀ data t' r, ct t' = ct t → (ct_up t → ct_up t') → is_Some (ct t !! table) → m !! key = Some r →
     encodes n data r → returns (k data t') Q) →
  returns ((bucket <~ bt_Bucket table ;; if negb bucket then no_bucket else
    data <~ bt_Get table key ;; match data with None => no_key | Some data => k data end) t) Q.
Proof.
  intros Hrel Hbad Hk. eapply gives_bind; [apply bt_bucket|]. intros t1 Hc1 Hu1. cbn beta. case_bool_decide as Hb; simpl.
  - eapply gives_bind; [apply bt_get|]. intros t2 Hc2 Hu2. rewrite Hc1. destruct Hb as [bk Hbk].
    unfold bucket_rel in Hrel. rewrite Hbk in *. simpl in *. destruct (bk !! key) as [data|] eqn:Ed.
    + destruct (kv_rel_some n id bk m key data Hrel Ed) as (r & Hm & Hf & He).
      eapply Hk; [congruence|auto|by eexists|done|done].
    + apply Hbad; [congruence|auto|]. by apply (kv_rel_none n id bk m key Hrel).
  - apply Hbad; [done|done|]. unfold bucket_rel in Hrel. apply eq_None_not_Some in Hb.
    by apply (kv_rel_none n id (default ∅ (ct t !! table)) m key Hrel); rewrite Hb.
Qed.

Lemma bucket_put table key data c m' :
  is_Some (c !! table) → kv_rel n id (<[key := data]> (default ∅ (c !! table))) m' →
  bucket_rel table (alter <[key := data]> table c) m'.
Proof. intros [bk Hb] H. unfold bucket_rel. rewrite lookup_alter_eq. rewrite Hb in *. exact H. Qed.

(** The bucket after [Delete], whether or not an empty bucket is dropped. *)
Lemma bolt_delete_returns table key (t : T) m :
  bucket_rel table (ct t) m →
  returns ((bucket <~ bt_Bucket table ;;
    if negb bucket then pret (tt, None)
    else
      err <~ bt_Delete table key ;;
      match err with
      | Some err => pret (tt, Some err)
      | None =>
          k <~ bt_KeyN table ;;
          (if k =? 0 then bt_DeleteBucket table else pret None) ~;
          pret (tt, None)
      end) t) (λ r t', match r.2 with None => bucket_rel table (ct t') (delete key m) | Some _ => ¬ ct_up t end).
Proof.
  intros Hrel. eapply gives_bind; [apply bt_bucket|]. intros t1 Hc1 Hu1. cbn beta. case_bool_decide as Hb; simpl.
  2:{ apply eq_None_not_Some in Hb. unfold bucket_rel in *. rewrite Hc1, Hb in *. simpl in *.
      rewrite delete_id; [done|]. by apply (kv_rel_none n id ∅ m key Hrel). }
  apply returns_bind. eapply returns_weaken; [apply bt_delete|]. intros [err|] t2 [Hu2 Hr2]; [simpl; naive_solver|].
  assert (bucket_rel table (ct t2) (delete key m)) as Hrel2.
  { destruct Hb as [bk Hbk]. unfold bucket_rel in *. rewrite Hr2, Hc1, lookup_alter_eq. rewrite Hbk in *. simpl in *.
    change key with (id key) at 1. by apply kv_rel_delete; [apply _|]. }
  apply returns_bind. eapply returns_weaken; [apply bt_keyn|]. intros k t3 (Hc3 & Hu3 & Hk). apply returns_bind.
  destruct (Z.eqb_spec k 0) as [Hk0|_]; [|simpl; by rewrite Hc3].
  assert (∀ c, c = ct t3 ∨ c = delete table (ct t3) → bucket_rel table c (delete key m)) as Hany.
  { intros c [-> | ->]; [by rewrite Hc3|]. unfold bucket_rel in *. rewrite Hc3, lookup_delete_eq. by rewrite <- (Hk Hk0). }
  eapply returns_weaken; [apply bt_deletebucket|]. intros [err|] t4 [_ Hr4]; simpl; apply Hany; naive_solver.
Qed.

#[local, refine] Instance bolt_tables : TableDB E :=
  mkTableDB E bolt_ycsb (kv_knows n) kv_value ct_up (λ table s m, bucket_rel table (ct s) m) _ _ _ _ _ _.
Proof.
  - intros table key fields s m Hrel. simpl. unfold bolt_Read. apply returns_bind.
    eapply returns_weaken; [apply (view_returns _ _ _ s (λ r, (∀ f, f ∈ fields → kv_knows n f) →
      match of_txn r with inl v => v = select_fields fields (old_row m key) | inr _ => ¬ ct_up s ∨ m !! key = None end) bt_view)|].
    + intros err He _. by left.
    + intros t Hc Hu. eapply bolt_value_returns; [rewrite Hc; exact Hrel| |].
      * intros t' _ _ Hm. simpl. split; intros _; by right.
      * intros data t' r Hc' Hu' _ Hm He. destruct (decode_encodes n (S := T) data r fields He) as (res & Hd & Hres).
        unfold pbind. rewrite Hd. simpl. intros Hk. unfold old_row. rewrite Hm. by apply Hres.
    + intros r s' (Hc & Hu & HQ). simpl. rewrite Hc. by split.
  - intros table key count fields s m Hrel Hcount. simpl. unfold bolt_Scan. apply make_rows_returns; [done|].
    apply returns_bind. eapply returns_weaken; [apply (view_returns _ _ _ s (λ _, True) bt_view); [done|]|].
    + intros t Hc Hu. eapply gives_bind; [apply bt_bucket|]. intros t1 Hc1 Hu1. cbn beta. case_bool_decide; [|done]. simpl.
      eapply gives_bind; [apply bt_seek|]. intros t2 Hc2 Hu2. apply returns_bind.
      eapply returns_weaken; [apply (decode_pure_returns n)|done].
      destruct Hrel as [Hdec _]. rewrite <- Hc, <- Hc1 in Hdec.
      eapply Forall_impl; [by apply (kv_from_decodable n)|done].
    + intros r s' (Hc & Hu & _). simpl. by rewrite Hc.
  - intros table key count fields s m Hrel Hcount. simpl. unfold bolt_Scan. by rewrite make_rows_negative.
  - intros table key values s m Hrel Hfits. simpl. unfold bolt_Insert. apply returns_bind.
    eapply returns_weaken; [apply (update_returns _ _ _ s (λ c, bucket_rel table c (<[key := values]> m)) (¬ ct_up s) bt_update); [done|]|
      intros r s' Hres; eapply (managed_write (bucket_rel table) s m _ _ _ r s' Hrel); [|exact Hres]; tauto].
    intros t Hc Hu. apply returns_bind. eapply returns_weaken; [apply bt_create|].
    intros [err|] t1 [Hu1 Hr1]; [simpl; naive_solver|].
    destruct (kv_rel_encode n range n_small range_perm (S := T) id _ m key values Hrel Hfits) as (data & Henc & Hrel').
    unfold pbind at 1. rewrite Henc. simpl. apply returns_bind. eapply returns_weaken; [apply bt_put|].
    intros [err|] t2 [Hu2 Hr2]; simpl; [naive_solver|]. rewrite Hr2. apply bucket_put; rewrite Hr1, lookup_insert_eq; [by eexists|].
    simpl. by rewrite Hc.
  - intros table key values s m Hrel Hfits. simpl. unfold bolt_Update. apply returns_bind.
    eapply returns_weaken; [apply (update_returns _ _ _ s (λ c, bucket_rel table c (<[key := values ∪ old_row m key]> m))
      (¬ ct_up s ∨ m !! key = None) bt_update); [by left|]|
      intros r s' Hres; eapply (managed_write (bucket_rel table) s m _ _ _ r s' Hrel); [|exact Hres]; tauto].
    intros t Hc Hu. eapply bolt_value_returns; [rewrite Hc; exact Hrel| |].
    + intros t' _ _ Hm. simpl. split; by right.
    + intros v t' r Hc' Hu' Hb Hm He. rewrite (decode_whole n v r He).
      destruct (kv_rel_merge n range n_small range_perm (S := T) id _ m key values r Hrel Hfits Hm) as (data & Henc & Hrel').
      unfold pbind at 1. simpl. unfold pbind at 1. rewrite Henc. simpl.
      apply returns_bind. eapply returns_weaken; [apply bt_put|].
      intros [err|] t3 [Hu3 Hr3]; simpl; [naive_solver|]. rewrite Hr3, Hc'. apply bucket_put; [done|]. by rewrite Hc.
  - intros table key s m Hrel. simpl. unfold bolt_Delete. apply returns_bind.
    eapply returns_weaken; [apply (update_returns _ _ _ s (λ c, bucket_rel table c (delete key m)) (¬ ct_up s) bt_update); [done|]|
      intros r s' Hres; eapply (managed_write (bucket_rel table) s m _ _ _ r s' Hrel); [|exact Hres]; tauto].
    intros t Hc Hu. eapply returns_weaken; [apply (bolt_delete_returns table key t m); by rewrite Hc|].
    intros [u [err|]] t' Hr; simpl in *; [naive_solver|done].
Defined.
End BoltContract.

Section RocksContract.
Context {E : Type} `{!RocksDriver E, !Contents E (gmap string bytes), !RocksLaws E}.

#[local] Instance rocks_ycsb : YcsbDB E := rocks_db n range.

(** The row of a key; none decodes to the empty row. *)
Lemma rocks_read_returns table key fields (s : E) m :
  store_rel n table s m →
  returns (rocks_Read n table key fields s) (λ r s', ct s' = ct s ∧ (ct_up s → ct_up s') ∧
    ((∀ f, f ∈ fields → kv_knows n f) →
     match r with inl v => v = select_fields fields (old_row m key) | inr _ => ¬ ct_up s end)).
Proof.
  intros Hrel. unfold rocks_Read. eapply reads_bind; [apply rk_get|]. intros [v|err] s' Hc Hu Hv; [|done].
  subst v. unfold rocks_getRowKey. destruct (ct s !! row_key table key) as [data|] eqn:Ed; cbn [from_option].
  - destruct (kv_rel_some n (row_key table) (ct s) m key data Hrel Ed) as (r & Hm & Hf & He).
    destruct (decode_encodes n (S := E) data r fields He) as (res & Hd & Hres). change (id data) with data. rewrite Hd. simpl. split; [done|]. split; [done|].
    unfold old_row. rewrite Hm. done.
  - rewrite decode_nil. simpl. split; [done|]. split; [done|]. intros _. unfold old_row.
    rewrite (kv_rel_none n (row_key table) (ct s) m key Hrel Ed). simpl. by rewrite select_fields_empty.
Qed.

#[local, refine] Instance rocks_tables : TableDB E :=
  mkTableDB E rocks_ycsb (kv_knows n) kv_value ct_up (store_rel n) _ _ _ _ _ _.
Proof.
  - intros table key fields s m Hrel. eapply returns_weaken; [by apply (rocks_read_returns table key fields s m)|].
    intros r s' (Hc & Hu & Hr). split; [unfold store_rel; by rewrite Hc|]. split; [done|]. intros Hk. specialize (Hr Hk).
    destruct r; [done|by left].
  - intros table key count fields s m Hrel Hcount. simpl. unfold rocks_Scan. apply make_rows_returns; [done|].
    apply returns_bind. eapply returns_weaken; [apply rk_seek|]. intros it s1 (Hc & Hu & k & Hit).
    apply returns_bind. eapply returns_weaken; [apply (decode_pure_returns n id)|].
    + rewrite Hit. apply Forall_take, Forall_fmap. destruct Hrel as [Hdec _]. by apply (kv_from_decodable n).
    + intros rows s2 ->. assert (store_rel n table s1 m) by (unfold store_rel; by rewrite Hc).
      destruct rows as [rows|err]; simpl; (split; [done|auto]).
  - intros table key count fields s m Hrel Hcount. simpl. unfold rocks_Scan. by rewrite make_rows_negative.
  - intros table key values s m Hrel Hfits. simpl. unfold rocks_Insert.
    destruct (kv_rel_encode n range n_small range_perm (S := E) (row_key table) (ct s) m key values Hrel Hfits) as (data & Henc & Hrel').
    unfold pbind. rewrite Henc. simpl. by apply (direct_write n table _ _ s s m _ False (rk_put _ data)).
  - intros table key values s m Hrel Hfits. simpl. unfold rocks_Update. apply returns_bind.
    eapply returns_weaken; [by apply (rocks_read_returns table key [] s m)|]. intros r s1 (Hc & Hu & Hr).
    specialize (Hr ltac:(set_solver)). destruct r as [v|err].
    + subst v. change (select_fields [] (old_row m key)) with (old_row m key).
      assert (kv_fits n (old_row m key)) as Hold.
      { unfold old_row. destruct Hrel as [_ H]. specialize (H key). destruct (m !! key); [apply H|apply map_Forall_empty]. }
      destruct (kv_rel_encode n range n_small range_perm (S := E) (row_key table) (ct s) m key (values ∪ old_row m key) Hrel)
        as (data & Henc & Hrel'); [by apply kv_fits_union|].
      unfold rocks_update_write, pbind. rewrite Henc. simpl. by apply (direct_write n table _ _ s s1 m _ _ (rk_put _ data)).
    + simpl. split; [done|]. split; [by left|]. left. unfold store_rel. by rewrite Hc.
  - intros table key s m Hrel. simpl. unfold rocks_Delete.
    apply (direct_write n table _ _ s s m _ False (rk_delete _)); [done|done|done|]. by apply kv_rel_delete; [apply _|].
Defined.
End RocksContract.
End Contract.
