(* ===== verification/TikvBindings.v ===== *)
(** * TikvBindings: TiKV (src/go-ycsb-vendor/db/tikv: db.go, raw.go, txn.go)

    The raw client, whose operations are single calls, and the transactional
    client, whose operations begin and commit a transaction.  Both have batches. *)

From S2P Require Import Prelude GoLib GoParse Storage YcsbUtil Float64 Generators Ycsb TableDb KvStore.

Open Scope Z_scope.

(** ** The raw client *)

Class RawDriver (E : Type) := mkRaw {
  rw_Get : string → PM E (option bytes + error);       (* nil for a missing key *)
  rw_BatchGet : list string → PM E (list (option bytes) + error);
  rw_Scan : string → Z → PM E (list (option bytes) + error);
  rw_Put : string → bytes → PM E (option error);
  rw_BatchPut : list string → list bytes → PM E (option error);
  rw_Delete : string → PM E (option error);
  rw_BatchDelete : list string → PM E (option error);
}.

Section Raw.
Context {E : Type} `{!RawDriver E}.
Context (n : Z) (range : row → list (string * bytes)).

Definition raw_getRowKey (table key : string) : string := row_key table key.

Definition raw_Read (table key : string) (fields : list string) : PM E (row + error) :=
  r <~ rw_Get (raw_getRowKey table key) ;;
  match r with
  | inr err => pret (inr err)
  | inl None => pret (inl ∅)
  | inl (Some data) => decode n data fields
  end.

(** The rows of a batch; an error of [Decode] is not looked at. *)
Fixpoint raw_decode_values (fields : list string) (values : list (option bytes)) : PM E (list row) :=
  match values with
  | [] => pret []
  | value :: values =>
      r <~ (match value with
            | Some (x :: data) =>
                d <~ decode n (x :: data) fields ;;
                pret (match d with inl m => m | inr _ => ∅ end)
            | _ => pret ∅
            end) ;;
      rest <~ raw_decode_values fields values ;;
      pret (r :: rest)
  end.

(** [rowValues] has one entry per key; more values than keys is an index out of range. *)
Definition raw_BatchRead (table : string) (keys fields : list string) : PM E (list row + error) :=
  r <~ rw_BatchGet (map (raw_getRowKey table) keys) ;;
  match r with
  | inr err => pret (inr err)
  | inl values =>
      rows <~ raw_decode_values fields (take (length keys) values) ;;
      if (length keys <? length values)%nat then pfail (Panic "index out of range")
      else pret (inl (rows ++ replicate (length keys - length values) ∅))
  end.

(** Rows of a scan: nil stays nil, an error stops. *)
Fixpoint scan_values {S} (fields : list string) (values : list (option bytes)) : PM S (list row + error) :=
  match values with
  | [] => pret (inl [])
  | None :: values =>
      rest <~ scan_values fields values ;;
      pret (match rest with inl rows => inl (∅ :: rows) | inr err => inr err end)
  | Some data :: values =>
      d <~ decode n data fields ;;
      match d with
      | inr err => pret (inr err)
      | inl m =>
          rest <~ scan_values fields values ;;
          pret (match rest with inl rows => inl (m :: rows) | inr err => inr err end)
      end
  end.

Definition raw_Scan (table startKey : string) (count : Z) (fields : list string) : PM E (list row + error) :=
  r <~ rw_Scan (raw_getRowKey table startKey) count ;;
  match r with
  | inr err => pret (inr err)
  | inl rows => scan_values fields rows
  end.

Definition raw_Insert (table key : string) (values : row) : PM E (option error) :=
  buf <~ encode n range values ;;
  match buf with
  | inr err => pret (Some err)
  | inl buf => rw_Put (raw_getRowKey table key) buf
  end.

(** An error of [Get] is answered with nil; a missing row decodes to an empty one. *)
Definition raw_Update (table key : string) (values : row) : PM E (option error) :=
  r <~ rw_Get (raw_getRowKey table key) ;;
  match r with
  | inr _ => pret None
  | inl data =>
      data <~ decode n (default [] data) [] ;;
      match data with
      | inr err => pret (Some err)
      | inl data => raw_Insert table key (values ∪ data)
      end
  end.

(** The encoded rows of a batch, in the order of the keys. *)
Fixpoint encode_batch {S} (keys : list string) (values : list row) : PM S (list bytes + error) :=
  match keys with
  | [] => pret (inl [])
  | _ :: keys =>
      match values with
      | [] => pfail (Panic "index out of range")
      | v :: values =>
          d <~ encode n range v ;;
          match d with
          | inr err => pret (inr err)
          | inl data =>
              rest <~ encode_batch keys values ;;
              pret (match rest with inl l => inl (data :: l) | inr err => inr err end)
          end
      end
  end.

Definition raw_BatchInsert (table : string) (keys : list string) (values : list row) : PM E (option error) :=
  rawValues <~ encode_batch keys values ;;
  match rawValues with
  | inr err => pret (Some err)
  | inl rawValues => rw_BatchPut (map (raw_getRowKey table) keys) rawValues
  end.

(** The same as [BatchInsert]: the rows are replaced, not merged. *)
Definition raw_BatchUpdate (table : string) (keys : list string) (values : list row) : PM E (option error) :=
  rawValues <~ encode_batch keys values ;;
  match rawValues with
  | inr err => pret (Some err)
  | inl rawValues => rw_BatchPut (map (raw_getRowKey table) keys) rawValues
  end.

Definition raw_Delete (table key : string) : PM E (option error) := rw_Delete (raw_getRowKey table key).

Definition raw_BatchDelete (table : string) (keys : list string) : PM E (option error) :=
  rw_BatchDelete (map (raw_getRowKey table) keys).

Definition raw_db : YcsbDB E :=
  mkYcsbDB E raw_Read raw_Scan raw_Update raw_Insert raw_Delete
    (Some (mkBatchDB E raw_BatchInsert raw_BatchRead raw_BatchUpdate raw_BatchDelete)).
End Raw.

(** ** The transactional client *)

Inductive tikv_error := ErrNotFound | ErrOther (err : error).

Definition IsErrNotFound (e : option tikv_error) : bool := match e with Some ErrNotFound => true | _ => false end.
Definition tikv_err (e : tikv_error) : error := match e with ErrNotFound => "not exist" | ErrOther err => err end.

(** A transaction is an object: its methods change [T], [Commit] writes it to the
    cluster. *)
Class TxnDriver (E T : Type) := mkTxn {
  tk_Begin : PM E (T + error);
  tk_Commit : T → PM E (option error);
  tk_Get : string → PM T (option bytes * option tikv_error);
  tk_Set : string → bytes → PM T (option error);
  tk_Delete : string → PM T (option error);
  tk_Iter : string → PM T (list bytes + error);        (* the values an iterator visits *)
  tk_Next : PM T (option error);
}.

Section Txn.
Context {E T : Type} `{!TxnDriver E T}.
Context (n : Z) (range : row → list (string * bytes)).

Definition txn_getRowKey (table key : string) : string := row_key table key.

(** [beginTxn] (and [db.Begin]), with what is done on the transaction: its
    options, async commit and 1PC, change how a commit is carried out, not what it
    does.  [inl] continues with a commit, [inr] returns and rolls back. *)
Definition in_txn {A B} (fail : error → B) (body : PM T (A + B)) (done : A → option error → PM E B) : PM E B :=
  tx <~ tk_Begin ;;
  match tx with
  | inr err => pret (fail err)
  | inl tx =>
      match body tx with
      | (Ok (inl a), tx') => err <~ tk_Commit tx' ;; done a err
      | (Ok (inr b), _) => pret b
      | (Panic msg, _) => pfail (Panic msg)
      | (Exit msg, _) => pfail (Exit msg)
      | (OutOfFuel, _) => pfail OutOfFuel
      end
  end.

Definition txn_Read (table key : string) (fields : list string) : PM E (row + error) :=
  in_txn inr
    (r <~ tk_Get (txn_getRowKey table key) ;;
     let '(data, err) := r in
     if IsErrNotFound err then pret (inr (inl ∅))
     else match data with
          | None => pret (inr (match err with Some e => inr (tikv_err e) | None => inl ∅ end))
          | Some data => pret (inl data)
          end)
    (λ data err, match err with Some err => pret (inr err) | None => decode n data fields end).

Fixpoint txn_read_values (table : string) (keys fields : list string) : PM T (list row + error) :=
  match keys with
  | [] => pret (inl [])
  | key :: keys =>
      r <~ tk_Get (txn_getRowKey table key) ;;
      let '(value, err) := r in
      d <~ (match (if IsErrNotFound err then None else value) with
            | None => pret (inl ∅)
            | Some value => decode n value fields
            end) ;;
      match d with
      | inr err => pret (inr err)
      | inl m =>
          rest <~ txn_read_values table keys fields ;;
          pret (match rest with inl l => inl (m :: l) | inr err => inr err end)
      end
  end.

(** Not committed, only rolled back. *)
Definition txn_BatchRead (table : string) (keys fields : list string) : PM E (list row + error) :=
  in_txn (A := Empty_set) inr
    (rows <~ txn_read_values table keys fields ;; pret (inr rows))
    (λ a _, match a with end).

(** The first [count] values of the iterator, one [Next] after each. *)
Fixpoint txn_collect (count : nat) (values : list bytes) : PM T (list bytes + error) :=
  match count, values with
  | S count, v :: values =>
      err <~ tk_Next ;;
      match err with
      | Some err => pret (inr err)
      | None =>
          rest <~ txn_collect count values ;;
          pret (match rest with inl l => inl (v :: l) | inr err => inr err end)
      end
  | _, _ => pret (inl [])
  end.

Definition txn_Scan (table startKey : string) (count : Z) (fields : list string) : PM E (list row + error) :=
  in_txn inr
    (it <~ tk_Iter (txn_getRowKey table startKey) ;;
     match it with
     | inr err => pret (inr (inr err))
     | inl values =>
         if count <? 0 then pfail (Panic "makeslice: cap out of range")
         else
           rows <~ txn_collect (Z.to_nat count) values ;;
           pret (match rows with inl rows => inl rows | inr err => inr (inr err) end)
     end)
    (λ rows err, match err with Some err => pret (inr err) | None => scan_values n fields (map Some rows) end).

Definition txn_Update (table key : string) (values : row) : PM E (option error) :=
  in_txn Some
    (r <~ tk_Get (txn_getRowKey table key) ;;
     let '(data, err) := r in
     if IsErrNotFound err then pret (inr None)
     else match data with
          | None => pret (inr (tikv_err <$> err))
          | Some data =>
              d <~ decode n data [] ;;
              match d with
              | inr err => pret (inr (Some err))
              | inl data =>
                  buf <~ encode n range (values ∪ data) ;;
                  match buf with
                  | inr err => pret (inr (Some err))
                  | inl buf =>
                      err <~ tk_Set (txn_getRowKey table key) buf ;;
                      pret (match err with Some err => inr (Some err) | None => inl tt end)
                  end
              end
          end)
    (λ _ err, pret err).

Fixpoint txn_set_all (table : string) (keys : list string) (values : list row) : PM T (unit + option error) :=
  match keys with
  | [] => pret (inl tt)
  | key :: keys =>
      match values with
      | [] => pfail (Panic "index out of range")
      | v :: values =>
          d <~ encode n range v ;;
          match d with
          | inr err => pret (inr (Some err))
          | inl rowData =>
              err <~ tk_Set (txn_getRowKey table key) rowData ;;
              match err with Some err => pret (inr (Some err)) | None => txn_set_all table keys values end
          end
      end
  end.

Definition txn_BatchUpdate (table : string) (keys : list string) (values : list row) : PM E (option error) :=
  in_txn Some (txn_set_all table keys values) (λ _ err, pret err).

Definition txn_BatchInsert (table : string) (keys : list string) (values : list row) : PM E (option error) :=
  in_txn Some (txn_set_all table keys values) (λ _ err, pret err).

Definition txn_Insert (table key : string) (values : row) : PM E (option error) :=
  buf <~ encode n range values ;;
  match buf with
  | inr err => pret (Some err)
  | inl buf =>
      in_txn Some
        (err <~ tk_Set (txn_getRowKey table key) buf ;;
         pret (match err with Some err => inr (Some err) | None => inl tt end))
        (λ _ err, pret err)
  end.

Definition txn_Delete (table key : string) : PM E (option error) :=
  in_txn Some
    (err <~ tk_Delete (txn_getRowKey table key) ;;
     pret (match err with Some err => inr (Some err) | None => inl tt end))
    (λ _ err, pret err).

Fixpoint txn_delete_all (table : string) (keys : list string) : PM T (unit + option error) :=
  match keys with
  | [] => pret (inl tt)
  | key :: keys =>
      err <~ tk_Delete (txn_getRowKey table key) ;;
      match err with Some err => pret (inr (Some err)) | None => txn_delete_all table keys end
  end.

Definition txn_BatchDelete (table : string) (keys : list string) : PM E (option error) :=
  in_txn Some (txn_delete_all table keys) (λ _ err, pret err).

Definition txn_db : YcsbDB E :=
  mkYcsbDB E txn_Read txn_Scan txn_Update txn_Insert txn_Delete
    (Some (mkBatchDB E txn_BatchInsert txn_BatchRead txn_BatchUpdate txn_BatchDelete)).
End Txn.

(** ** Laws of the two clients *)

Fixpoint put_all (keys : list string) (data : list bytes) (c : gmap string bytes) : gmap string bytes :=
  match keys, data with
  | k :: keys, d :: data => put_all keys data (<[k := d]> c)
  | _, _ => c
  end.
Definition delete_all (keys : list string) (c : gmap string bytes) : gmap string bytes :=
  fold_left (λ c k, delete k c) keys c.

(** A batch of writes is not atomic: an error may leave part of it. *)
Class RawLaws (E : Type) `{!RawDriver E} `{!Contents E (gmap string bytes)} := mkRawLaws {
  rw_get key : ct_reads (rw_Get key) (λ c, c !! key);
  rw_batchget keys : ct_reads (rw_BatchGet keys) (λ c, map (c !!.) keys);
  rw_scan key count s : returns (rw_Scan key count s) (λ r s', ct s' = ct s ∧ (ct_up s → ct_up s') ∧
    ∀ l, r = inl l → ∃ k, l = Some <$> take k (kv_from key (ct s)).*2);
  rw_put key v : ct_writes (rw_Put key v) <[key := v]>;
  rw_batchput keys data s : returns (rw_BatchPut keys data s) (λ r s', (ct_up s → ct_up s') ∧
    match r with None => ct s' = put_all keys data (ct s) | Some _ => ¬ ct_up s end);
  rw_delete key : ct_writes (rw_Delete key) (delete key);
  rw_batchdelete keys s : returns (rw_BatchDelete keys s) (λ r s', (ct_up s → ct_up s') ∧
    match r with None => ct s' = delete_all keys (ct s) | Some _ => ¬ ct_up s end);
}.

(** A transaction sees the contents at its start, with its own writes: the two
    components of its contents.  A commit error leaves open whether it happened. *)
Abbreviation txn_contents := (gmap string bytes * gmap string bytes)%type.

Class TxnLaws (E T : Type) `{!TxnDriver E T} `{!Contents E (gmap string bytes)} `{!Contents T txn_contents} := mkTxnLaws {
  tk_begin s : returns (tk_Begin (E := E) (T := T) s) (λ r s', ct s' = ct s ∧ (ct_up s → ct_up s') ∧
    match r with inl t => ct t = (ct s, ct s) ∧ (ct_up s → ct_up t) | inr _ => ¬ ct_up s end);
  tk_commit (t : T) s : (ct t).1 = ct s → returns (tk_Commit t s) (λ r s', (ct_up s → ct_up s') ∧
    match r with
    | None => ct s' = (ct t).2
    | Some _ => ¬ (ct_up s ∧ ct_up t) ∧ (ct s' = ct s ∨ ct s' = (ct t).2)
    end);
  tk_get key t : returns (tk_Get key t) (λ r t', ct t' = ct t ∧ (ct_up t → ct_up t') ∧
    match r with
    | (Some v, None) => (ct t).2 !! key = Some v
    | (None, Some ErrNotFound) => (ct t).2 !! key = None
    | (None, Some (ErrOther _)) => ¬ ct_up t
    | _ => False
    end);
  tk_set key v : ct_writes (tk_Set key v) (λ c, (c.1, <[key := v]> c.2));
  tk_delete key : ct_writes (tk_Delete key) (λ c, (c.1, delete key c.2));
  tk_iter key t : returns (tk_Iter key t) (λ r t', ct t' = ct t ∧ (ct_up t → ct_up t') ∧
    ∀ l, r = inl l → ∃ k, l = take k (kv_from key (ct t).2).*2);
  tk_next t : returns (tk_Next t) (λ r t', ct t' = ct t ∧ (ct_up t → ct_up t'));
}.

(** ** Batches on tables *)

Section Batches.
Context (n : Z) (range : row → list (string * bytes)).
Context (n_small : n <= 2 ^ 63) (range_perm : ∀ m, range m ≡ₚ map_to_list m).

Fixpoint insert_rows (keys : list string) (values : list row) (m : table) : table :=
  match keys, values with
  | k :: keys, v :: values => insert_rows keys values (<[k := v]> m)
  | _, _ => m
  end.

Lemma insert_rows_lookup keys : ∀ values (m : table) key r,
  insert_rows keys values m !! key = Some r →
  m !! key = Some r ∨ ∃ i, keys !! i = Some key ∧ values !! i = Some r.
Proof.
  induction keys as [|k keys IH]; intros [|v values] m key r Hr; try (by left). simpl in Hr.
  destruct (IH values _ key r Hr) as [Hl|(i & ? & ?)]; [|right; by exists (S i)].
  apply lookup_insert_Some in Hl as [[<- <-]|[_ ?]]; [right; by exists 0%nat|by left].
Qed.

Lemma delete_rows_lookup keys : ∀ (m : table) key r,
  fold_left (λ m k, delete k m) keys m !! key = Some r → m !! key = Some r.
Proof.
  induction keys as [|k keys IH]; intros m key r Hr; [done|]. simpl in Hr.
  apply IH in Hr. by apply lookup_delete_Some in Hr as [_ ?].
Qed.

Lemma encode_batch_spec {S} table keys : ∀ values c m (s : S),
  kv_rel n (row_key table) c m → length keys = length values → Forall (kv_fits n) values →
  ∃ data, encode_batch n range keys values s = (Ok (inl data), s) ∧ length data = length keys ∧
    kv_rel n (row_key table) (put_all (map (row_key table) keys) data c) (insert_rows keys values m).
Proof.
  induction keys as [|k keys IH]; intros [|v values] c m s Hrel Hlen Hfit; try done; [by exists []|].
  inversion_clear Hfit as [|? ? Hv Hvs]. simpl.
  destruct (kv_rel_encode n range n_small range_perm (S := S) (row_key table) c m k v Hrel Hv) as (d & Henc & Hrel').
  destruct (IH values _ _ s Hrel' ltac:(by injection Hlen) Hvs) as (data & Hb & Hl & Hrel2).
  exists (d :: data). unfold pbind at 1. rewrite Henc. simpl. unfold pbind. rewrite Hb. simpl. split; [done|].
  split; [by rewrite Hl|done].
Qed.

Lemma delete_all_spec table keys : ∀ c m,
  kv_rel n (row_key table) c m →
  kv_rel n (row_key table) (delete_all (map (row_key table) keys) c) (fold_left (λ m k, delete k m) keys m).
Proof.
  induction keys as [|k keys IH]; intros c m Hrel; [done|]. simpl. apply IH. by apply kv_rel_delete; [apply _|].
Qed.

Lemma scan_values_returns {S} fields l (s : S) :
  Forall (λ o, ∀ data, o = Some data → decodable n data) l →
  returns (scan_values n fields l s) (λ _ s', s' = s).
Proof.
  intros Hl. revert s. induction Hl as [|[data|] l Hd _ IH]; intros s; [done| |]; simpl.
  - destruct (decode_decodable n (S := S) data fields (Hd data eq_refl)) as (d & ->). unfold pbind at 1. simpl.
    destruct d as [m|err]; [|done]. apply returns_bind. eapply returns_weaken; [apply IH|]. by intros rest s' ->.
  - apply returns_bind. eapply returns_weaken; [apply IH|]. by intros rest s' ->.
Qed.

Lemma visited_decodable (c : gmap string bytes) key k :
  map_Forall (λ _ data, decodable n data) c →
  Forall (λ o, ∀ data, o = Some data → decodable n data) (Some <$> take k (kv_from key c).*2).
Proof.
  intros Hc. apply Forall_fmap, Forall_take, Forall_fmap. eapply Forall_impl; [by apply (kv_from_decodable n)|].
  intros p Hp data [= <-]. exact Hp.
Qed.
End Batches.

(** ** The contracts *)

Section Contracts.
Context (n : Z) (range : row → list (string * bytes)).
Context (n_small : n <= 2 ^ 63) (range_perm : ∀ m, range m ≡ₚ map_to_list m).

Section RawContract.
Context {E : Type} `{!RawDriver E, !Contents E (gmap string bytes), !RawLaws E}.

#[local] Instance raw_ycsb : YcsbDB E := raw_db n range.

(** [Update] hides errors, so the contract is for clusters that refuse nothing. *)
Definition raw_rel (table : string) (s : E) (m : TableDb.table) : Prop := ct_up s ∧ store_rel n table s m.

Lemma raw_write table (pm : PM E (option error)) f (s s1 : E) (m m' : TableDb.table) (absent : Prop) :
  ct_writes pm f → ct s1 = ct s → ct_up s1 → kv_rel n (row_key table) (f (ct s)) m' →
  returns (pm s1) (λ r s', (ct_up s → ct_up s') ∧ write_result (raw_rel table) (ct_up s) absent m m' r s').
Proof.
  intros Hw Hc Hu Hrel'. eapply returns_weaken; [apply Hw|]. rewrite Hc.
  intros [err|] s' [Hu' Hr]; simpl; (split; [by auto|]); [naive_solver|].
  left. split; [auto|]. unfold store_rel. by rewrite Hr.
Qed.

#[local, refine] Instance raw_tables : TableDB E :=
  mkTableDB E raw_ycsb (kv_knows n) kv_value ct_up raw_rel _ _ _ _ _ _.
Proof.
  - intros table key fields s m [Hup Hrel]. simpl. unfold raw_Read. eapply reads_bind; [apply rw_get|].
    intros [[data|]|err] s' Hc Hu Hv; [| |naive_solver].
    + destruct (kv_rel_some n (row_key table) (ct s) m key data Hrel (eq_sym Hv)) as (r & Hm & Hf & He).
      destruct (decode_encodes n (S := E) data r fields He) as (res & -> & Hres). simpl.
      split; [split; [auto|unfold store_rel; by rewrite Hc]|]. split; [done|]. unfold old_row. by rewrite Hm.
    + simpl. split; [split; [auto|unfold store_rel; by rewrite Hc]|]. split; [done|]. intros _. unfold old_row.
      rewrite (kv_rel_none n (row_key table) (ct s) m key Hrel (eq_sym Hv)). simpl. by rewrite select_fields_empty.
  - intros table key count fields s m [Hup Hrel] _. simpl. unfold raw_Scan. apply returns_bind.
    eapply returns_weaken; [apply rw_scan|]. intros [l|err] s' (Hc & Hu & Hl).
    + destruct (Hl l eq_refl) as [k ->]. destruct Hrel as [Hdec Hm].
      eapply returns_weaken; [by apply (scan_values_returns n), (visited_decodable n)|].
      intros rows s2 ->. split; [split; [auto|unfold store_rel; by rewrite Hc]|done].
    + simpl. split; [split; [auto|unfold store_rel; by rewrite Hc]|done].
  - intros table key count fields s m [Hup Hrel] _. simpl. unfold raw_Scan, pbind.
    pose proof (rw_scan (raw_getRowKey table key) count s) as H. destruct (rw_Scan _ count s) as [[[l|err]|?|?|] s']; try done;
      simpl in H; destruct H as (Hc & Hu & Hl); [|split; [auto|unfold store_rel; by rewrite Hc]].
    destruct (Hl l eq_refl) as [k ->]. destruct Hrel as [Hdec Hm].
    pose proof (scan_values_returns n fields _ s' (visited_decodable n (ct s) (raw_getRowKey table key) k Hdec)) as Hs.
    destruct (scan_values n fields _ s') as [[]]; try done. simpl in Hs. subst. split; [auto|unfold store_rel; by rewrite Hc].
  - intros table key values s m [Hup Hrel] Hfits. simpl. unfold raw_Insert.
    destruct (kv_rel_encode n range n_small range_perm (S := E) (row_key table) (ct s) m key values Hrel Hfits) as (data & Henc & Hrel').
    unfold pbind. rewrite Henc. simpl. by apply (raw_write table _ _ s s m _ False (rw_put _ data)).
  - intros table key values s m [Hup Hrel] Hfits. simpl. unfold raw_Update. eapply reads_bind; [apply rw_get|].
    intros [v|err] s' Hc Hu Hv; [|naive_solver].
    assert (kv_fits n (old_row m key) ∧ decode (S := E) n (default [] v) [] = pret (inl (old_row m key))) as [Hold Hdec].
    { subst v. unfold old_row. destruct (ct s !! raw_getRowKey table key) as [data|] eqn:Ed.
      - destruct (kv_rel_some n (row_key table) (ct s) m key data Hrel Ed) as (r & -> & Hf & He). split; [done|].
        by apply decode_whole.
      - rewrite (kv_rel_none n (row_key table) (ct s) m key Hrel Ed). split; [apply map_Forall_empty|apply decode_nil]. }
    rewrite Hdec. unfold pbind at 1. simpl. unfold raw_Insert.
    destruct (kv_rel_encode n range n_small range_perm (S := E) (row_key table) (ct s) m key (values ∪ old_row m key) Hrel)
      as (data & Henc & Hrel'); [by apply kv_fits_union|].
    unfold pbind. rewrite Henc. simpl. apply (raw_write table _ _ s s' m _ _ (rw_put _ data)); auto.
  - intros table key s m [Hup Hrel]. simpl. unfold raw_Delete.
    apply (raw_write table _ _ s s m _ False (rw_delete _)); [done|done|]. by apply kv_rel_delete; [apply _|].
Defined.

Lemma raw_decode_values_returns fields l (s : E) :
  Forall (λ o, ∀ data, o = Some data → decodable n data) l →
  returns (raw_decode_values n fields l s) (λ _ s', s' = s).
Proof.
  intros Hl. revert s. induction Hl as [|o l Hd _ IH]; intros s; [done|]. cbn [raw_decode_values]. apply returns_bind.
  eapply (returns_weaken _ (λ _ s', s' = s)).
  - destruct o as [[|x data]|]; [done| |done].
    destruct (decode_decodable n (S := E) (x :: data) fields (Hd _ eq_refl)) as (d & ->). done.
  - intros r s' ->. apply returns_bind. eapply returns_weaken; [apply IH|]. by intros rest s' ->.
Qed.

#[local, refine] Instance raw_batches : TableBatch E := mkTableBatch E _ raw_tables _ _ _.
Proof.
  - intros b table keys values s m [= <-] [Hup Hrel] Hlen Hfit. simpl.
    assert (∀ op, op = raw_BatchInsert n range table keys values ∨ op = raw_BatchUpdate n range table keys values →
      returns (op s) (λ _ d', ∃ m', raw_rel table d' m' ∧ batch_applied m keys values m')) as H; [|split; apply H; auto].
    intros op Hop. assert (op = (rawValues <~ encode_batch n range keys values ;; match rawValues with
      | inr err => pret (Some err) | inl rawValues => rw_BatchPut (map (row_key table) keys) rawValues end)) as ->
      by (destruct Hop; done).
    destruct (encode_batch_spec n range n_small range_perm table keys values (ct s) m s Hrel Hlen Hfit) as (data & Hb & _ & Hrel').
    unfold pbind. rewrite Hb. eapply returns_weaken; [apply rw_batchput|]. intros [err|] s' [Hu Hr]; [naive_solver|].
    exists (insert_rows keys values m). split; [split; [auto|unfold store_rel; by rewrite Hr]|].
    intros key r. apply insert_rows_lookup.
  - intros b table keys fields s m [= <-] [Hup Hrel]. simpl. unfold raw_BatchRead. eapply reads_bind; [apply rw_batchget|].
    intros [vals|err] s' Hc Hu Hv; [|naive_solver]. subst vals. apply returns_bind.
    eapply returns_weaken; [apply raw_decode_values_returns|].
    + apply Forall_take, Forall_map, Forall_forall. intros k _ data Hd. destruct Hrel as [Hdec _]. by apply (Hdec k).
    + intros rows s2 ->. rewrite !length_map. destruct (Nat.ltb_spec (length keys) (length keys)); [lia|].
      split; [auto|unfold store_rel; by rewrite Hc].
  - intros b table keys s m [= <-] [Hup Hrel]. simpl. unfold raw_BatchDelete.
    eapply returns_weaken; [apply rw_batchdelete|]. intros [err|] s' [Hu Hr]; [naive_solver|].
    exists (fold_left (λ m k, delete k m) keys m). split.
    + split; [auto|]. unfold store_rel. rewrite Hr. by apply delete_all_spec.
    + intros key r Hl. left. by apply (delete_rows_lookup keys).
Defined.
End RawContract.
Section TxnContract.
Context {E T : Type} `{!TxnDriver E T, !Contents E (gmap string bytes), !Contents T txn_contents, !TxnLaws E T}.

#[local] Instance txn_ycsb : YcsbDB E := txn_db n range.

(** An operation in a transaction: the body either asks for a commit, having
    changed what it sees to [P], or returns. *)
Lemma in_txn_returns {A B} (fail : error → B) (body : PM T (A + B)) (done : A → option error → PM E B) s
    (P : A → gmap string bytes → Prop) (Q : B → E → Prop) :
  (∀ err s', ct s' = ct s → ¬ ct_up s → Q (fail err) s') →
  (∀ t, ct t = (ct s, ct s) → (ct_up s → ct_up t) →
     returns (body t) (λ r t', (ct_up t → ct_up t') ∧
       match r with
       | inl a => (ct t').1 = ct s ∧ P a (ct t').2
       | inr b => ∀ s', ct s' = ct s → (ct_up s → ct_up s') → Q b s'
       end)) →
  (∀ a err c s', P a c → (ct_up s → ct_up s') →
     match err with None => ct s' = c | Some _ => ¬ ct_up s ∧ (ct s' = ct s ∨ ct s' = c) end →
     returns (done a err s') Q) →
  returns (in_txn fail body done s) Q.
Proof.
  intros Hfail Hbody Hdone. unfold in_txn. apply returns_bind. eapply returns_weaken; [apply tk_begin|].
  intros [t|err] s1 (Hc & Hu & Ht); [|simpl; by apply Hfail]. destruct Ht as [Ht Hut].
  specialize (Hbody t Ht Hut). destruct (body t) as [[[a|b]|?|?|] t']; try done; simpl in Hbody.
  - destruct Hbody as (Hut' & Hbase & HP). apply returns_bind. eapply returns_weaken; [apply (tk_commit t' s1); congruence|].
    intros r s2 [Hu2 Hr]. apply (Hdone a r (ct t').2 s2 HP); [by auto|]. destruct r; [|done].
    destruct Hr as [Hn Hr]. rewrite Hc in Hr. split; [|done]. intros Hup. apply Hn. auto.
  - destruct Hbody as [_ Hb]. simpl. by apply Hb.
Qed.

(** The last step of a write. *)
Lemma txn_write_done table s m m' (absent : Prop) (err : option error) c (s' : E) :
  store_rel n table s m → kv_rel n (row_key table) c m' → (ct_up s → ct_up s') →
  match err with None => ct s' = c | Some _ => ¬ ct_up s ∧ (ct s' = ct s ∨ ct s' = c) end →
  returns (pret err s') (λ r s', (ct_up s → ct_up s') ∧ write_result (store_rel n table) (ct_up s) absent m m' r s').
Proof.
  intros Hrel Hrel' Hu Hr. destruct err as [err|]; simpl; (split; [done|]); unfold store_rel in *.
  - destruct Hr as [Hn [-> | ->]]; naive_solver.
  - left. by rewrite Hr.
Qed.

(** A write that failed before the commit. *)
Lemma txn_write_failed table s m m' (up : Prop) (absent : Prop) (r : option error) :
  store_rel n table s m → (match r with None => absent | Some _ => ¬ up ∨ absent end) →
  ∀ s' : E, ct s' = ct s → (ct_up s → ct_up s') →
    (ct_up s → ct_up s') ∧ write_result (store_rel n table) up absent m m' r s'.
Proof.
  intros Hrel Hr s' Hc Hu. split; [done|]. destruct r; simpl.
  - split; [done|]. left. unfold store_rel. by rewrite Hc.
  - right. split; [done|]. unfold store_rel. by rewrite Hc.
Qed.

(** [tx.Set] as the end of a body. *)
Lemma txn_set_returns {B} key data (t : T) (s : E) (fail : error → B) (P : unit → gmap string bytes → Prop) (Q : B → E → Prop) :
  (ct t).1 = ct s → P tt (<[key := data]> (ct t).2) → (ct_up s → ct_up t) →
  (∀ err s', ¬ ct_up s → ct s' = ct s → (ct_up s → ct_up s') → Q (fail err) s') →
  returns ((err <~ tk_Set key data ;; pret (match err with Some err => inr (fail err) | None => inl tt end)) t)
    (λ r t', (ct_up t → ct_up t') ∧
       match r with
       | inl a => (ct t').1 = ct s ∧ P a (ct t').2
       | inr b => ∀ s', ct s' = ct s → (ct_up s → ct_up s') → Q b s'
       end).
Proof.
  intros Hb HP Hu Hf. apply returns_bind. eapply returns_weaken; [apply tk_set|].
  intros [err|] t' [Hu' Hr]; simpl; (split; [done|]); [|by rewrite Hr].
  intros s' Hc Hs. apply Hf; [naive_solver|done|done].
Qed.

Lemma txn_collect_returns l : ∀ count (t : T),
  Forall (λ data, decodable n data) l →
  returns (txn_collect count l t) (λ r t', ct t' = ct t ∧ (ct_up t → ct_up t') ∧
    match r with inl rows => Forall (λ data, decodable n data) rows | inr _ => True end).
Proof.
  induction l as [|v l IH]; intros [|count] t Hl; try (by repeat constructor). inversion_clear Hl as [|? ? Hv Hvs].
  cbn [txn_collect]. apply returns_bind. eapply returns_weaken; [apply tk_next|]. intros [err|] t1 [Hc Hu]; [done|].
  apply returns_bind. eapply returns_weaken; [by apply IH|]. intros rest t2 (Hc2 & Hu2 & Hr). simpl.
  split; [congruence|]. split; [by auto|]. destruct rest; [by constructor|done].
Qed.

#[local, refine] Instance txn_tables : TableDB E :=
  mkTableDB E txn_ycsb (kv_knows n) kv_value ct_up (store_rel n) _ _ _ _ _ _.
Proof.
  - intros table key fields s m Hrel. simpl. unfold txn_Read.
    apply (in_txn_returns _ _ _ s (λ data c, c = ct s ∧ ct s !! row_key table key = Some data)).
    + intros err s' Hc Hn. split; [unfold store_rel; by rewrite Hc|]. split; [done|]. intros _. by left.
    + intros t Ht Hut. apply returns_bind. eapply returns_weaken; [apply tk_get|]. rewrite Ht. cbn [fst snd].
      intros [[data|] [[|err]|]] t' (Hc' & Hu' & Hr); try done; simpl.
      * by rewrite Hc'.
      * split; [done|]. intros s' Hc Hs. split; [unfold store_rel; by rewrite Hc|]. split; [done|]. intros _. unfold old_row.
        rewrite (kv_rel_none n (row_key table) (ct s) m key Hrel Hr). simpl. by rewrite select_fields_empty.
      * split; [done|]. intros s' Hc Hs. split; [unfold store_rel; by rewrite Hc|]. split; [done|]. intros _. left. auto.
    + intros data err c s' [-> Hd] Hs Hr. assert (store_rel n table s' m) as Hrel'.
      { unfold store_rel. destruct err; [destruct Hr as [_ [-> | ->]]|rewrite Hr]; done. }
      destruct err as [err|]; simpl.
      * split; [done|]. split; [done|]. intros _. left. apply Hr.
      * destruct (kv_rel_some n (row_key table) (ct s) m key data Hrel Hd) as (r & Hm & Hf & He).
        destruct (decode_encodes n (S := E) data r fields He) as (res & -> & Hres). simpl. split; [done|]. split; [done|].
        unfold old_row. by rewrite Hm.
  - intros table key count fields s m Hrel Hcount. simpl. unfold txn_Scan.
    apply (in_txn_returns _ _ _ s (λ rows c, c = ct s ∧ Forall (λ data, decodable n data) rows)).
    + intros err s' Hc Hn. split; [unfold store_rel; by rewrite Hc|done].
    + intros t Ht Hut. apply returns_bind. eapply returns_weaken; [apply tk_iter|]. rewrite Ht. cbn [fst snd].
      intros [l|err] t1 (Hc1 & Hu1 & Hl); simpl.
      2:{ split; [done|]. intros s' Hc Hs. split; [unfold store_rel; by rewrite Hc|done]. }
      destruct (Z.ltb_spec count 0); [lia|]. destruct (Hl l eq_refl) as [k Hk].
      assert (Forall (λ data, decodable n data) l) as Hdec.
      { rewrite Hk. apply Forall_take, Forall_fmap. by apply (kv_from_decodable n), Hrel. }
      apply returns_bind. eapply returns_weaken; [by apply (txn_collect_returns l)|].
      intros rows t2 (Hc2 & Hu2 & Hrows). destruct rows as [rows|err]; simpl; (split; [by auto|]).
      * rewrite Hc2, Hc1. by auto.
      * intros s' Hc Hs. split; [unfold store_rel; by rewrite Hc|done].
    + intros rows err c s' [-> Hrows] Hs Hr. assert (store_rel n table s' m) as Hrel'.
      { unfold store_rel. destruct err; [destruct Hr as [_ [-> | ->]]|rewrite Hr]; done. }
      destruct err as [err|]; [done|]. eapply returns_weaken; [apply (scan_values_returns n)|by intros ? ? ->].
      apply Forall_map. eapply Forall_impl; [exact Hrows|]. intros data Hd data' [= <-]. done.
  - intros table key count fields s m Hrel Hcount. simpl. unfold txn_Scan, in_txn, pbind.
    pose proof (tk_begin (E := E) (T := T) s) as Hb. destruct (tk_Begin s) as [[[t|err]|?|?|] s1]; try done; simpl in Hb.
    2:{ destruct Hb as [Hc _]. simpl. unfold store_rel. by rewrite Hc. }
    destruct Hb as (Hc & _ & Ht & _). pose proof (tk_iter (txn_getRowKey table key) t) as Hi.
    destruct (tk_Iter (txn_getRowKey table key) t) as [[[l|err]|?|?|] t1]; try done; simpl.
    + destruct (Z.ltb_spec count 0); [done|lia].
    + unfold store_rel. by rewrite Hc.
  - intros table key values s m Hrel Hfits. simpl. unfold txn_Insert.
    destruct (kv_rel_encode n range n_small range_perm (S := E) (row_key table) (ct s) m key values Hrel Hfits) as (data & Henc & Hrel').
    unfold pbind at 1. rewrite Henc. simpl.
    apply (in_txn_returns _ _ _ s (λ _ c, kv_rel n (row_key table) c (<[key := values]> m))).
    + intros err s' Hc Hn. apply (txn_write_failed table s m _ _ False (Some err) Hrel); [by left|done|done].
    + intros t Ht Hut. apply (txn_set_returns _ _ t s Some (λ _ c, kv_rel n (row_key table) c (<[key := values]> m)));
        [by rewrite Ht|by rewrite Ht|done|].
      intros err s' Hn Hc Hs. apply (txn_write_failed table s m _ _ False (Some err) Hrel); [by left|done|done].
    + intros _ err c s' HP Hs Hr. by apply (txn_write_done table s m _ False err c s').
  - intros table key values s m Hrel Hfits. simpl. unfold txn_Update.
    apply (in_txn_returns _ _ _ s (λ _ c, kv_rel n (row_key table) c (<[key := values ∪ old_row m key]> m))).
    + intros err s' Hc Hn. apply (txn_write_failed table s m _ _ _ (Some err) Hrel); [by left|done|done].
    + intros t Ht Hut. apply returns_bind. eapply returns_weaken; [apply tk_get|]. rewrite Ht. cbn [fst snd].
      intros [[data|] [[|err]|]] t' (Hc' & Hu' & Hr); try done; simpl.
      * destruct (kv_rel_some n (row_key table) (ct s) m key data Hrel Hr) as (r & Hm & Hf & He).
        rewrite (decode_whole n data r He). unfold pbind at 1. simpl.
        destruct (kv_rel_merge n range n_small range_perm (S := T) (row_key table) (ct s) m key values r Hrel Hfits Hm) as (buf & Henc & Hrel').
        unfold pbind at 1. rewrite Henc. simpl.
        eapply returns_weaken; [apply (txn_set_returns _ _ t' s Some (λ _ c, kv_rel n (row_key table) c (<[key := values ∪ old_row m key]> m))
          (λ r s', (ct_up s → ct_up s') ∧ write_result (store_rel n table) (ct_up s) (m !! key = None) m
             (<[key := values ∪ old_row m key]> m) r s'))|].
        -- by rewrite Hc'.
        -- by rewrite Hc'.
        -- auto.
        -- intros err s' Hn Hc Hs. apply (txn_write_failed table s m _ (ct_up s) (m !! key = None) (Some err) Hrel); [by left|done|done].
        -- intros [[]|b] t2 [Hu2 Hres]; (split; [by auto|exact Hres]).
      * split; [done|]. intros s' Hc Hs. split; [done|]. right. unfold store_rel. rewrite Hc. split; [|done].
        by apply (kv_rel_none n (row_key table) (ct s) m key Hrel).
      * split; [done|]. intros s' Hc Hs. split; [done|]. unfold store_rel. rewrite Hc. split; [left; auto|by left].
    + intros _ err c s' HP Hs Hr. by apply (txn_write_done table s m _ _ err c s').
  - intros table key s m Hrel. simpl. unfold txn_Delete.
    apply (in_txn_returns _ _ _ s (λ _ c, kv_rel n (row_key table) c (delete key m))).
    + intros err s' Hc Hn. apply (txn_write_failed table s m _ _ False (Some err) Hrel); [by left|done|done].
    + intros t Ht Hut. apply returns_bind. eapply returns_weaken; [apply tk_delete|]. rewrite Ht.
      intros [err|] t' [Hu' Hr]; simpl; (split; [done|]).
      * intros s' Hc Hs. split; [done|]. unfold store_rel. rewrite Hc. split; [left; naive_solver|by left].
      * rewrite Hr. simpl. split; [done|]. by apply kv_rel_delete; [apply _|].
    + intros _ err c s' HP Hs Hr. by apply (txn_write_done table s m _ False err c s').
Defined.
Lemma txn_set_all_returns table base keys : ∀ values (t : T) m,
  (ct t).1 = base → kv_rel n (row_key table) (ct t).2 m → length keys = length values → Forall (kv_fits n) values →
  returns (txn_set_all n range table keys values t) (λ r t', (ct_up t → ct_up t') ∧
    match r with inl _ => (ct t').1 = base ∧ kv_rel n (row_key table) (ct t').2 (insert_rows keys values m) | inr _ => True end).
Proof.
  induction keys as [|k keys IH]; intros [|v values] t m Hb Hrel Hlen Hfit; try done.
  inversion_clear Hfit as [|? ? Hv Hvs]. simpl.
  destruct (kv_rel_encode n range n_small range_perm (S := T) (row_key table) (ct t).2 m k v Hrel Hv) as (d & Henc & Hrel').
  unfold pbind at 1. rewrite Henc. simpl. apply returns_bind. eapply returns_weaken; [apply tk_set|].
  intros [err|] t1 [Hu1 Hr1]; [done|].
  eapply returns_weaken; [apply (IH values t1 (<[k := v]> m)); [by rewrite Hr1|by rewrite Hr1|by injection Hlen|done]|].
  intros r t2 [Hu2 Hr2]. split; [by auto|done].
Qed.

Lemma txn_delete_all_returns table base keys : ∀ (t : T) m,
  (ct t).1 = base → kv_rel n (row_key table) (ct t).2 m →
  returns (txn_delete_all table keys t) (λ r t', (ct_up t → ct_up t') ∧
    match r with
    | inl _ => (ct t').1 = base ∧ kv_rel n (row_key table) (ct t').2 (fold_left (λ m k, delete k m) keys m)
    | inr _ => True
    end).
Proof.
  induction keys as [|k keys IH]; intros t m Hb Hrel; [done|]. simpl. apply returns_bind.
  eapply returns_weaken; [apply tk_delete|]. intros [err|] t1 [Hu1 Hr1]; [done|].
  eapply returns_weaken; [apply (IH t1 (delete k m)); [by rewrite Hr1|rewrite Hr1; by apply kv_rel_delete; [apply _|]]|].
  intros r t2 [Hu2 Hr2]. split; [by auto|done].
Qed.

Lemma txn_read_values_returns table fields keys : ∀ (t : T) m,
  kv_rel n (row_key table) (ct t).2 m →
  returns (txn_read_values n table keys fields t) (λ _ t', ct t' = ct t ∧ (ct_up t → ct_up t')).
Proof.
  induction keys as [|k keys IH]; intros t m Hrel; [done|]. cbn [txn_read_values]. apply returns_bind.
  eapply returns_weaken; [apply tk_get|]. intros [v err] t1 (Hc1 & Hu1 & Hr1). apply returns_bind.
  eapply (returns_weaken _ (λ _ t', t' = t1)).
  { destruct v as [v|], err as [[|err]|]; try done. simpl. destruct Hrel as [Hdec _].
    destruct (decode_decodable n (S := T) v fields) as (d & ->); [by apply (Hdec _ _ Hr1)|done]. }
  intros d t1' ->. destruct d as [row|err']; [|done]. apply returns_bind.
  eapply returns_weaken; [apply (IH t1 m); by rewrite Hc1|]. intros rest t2 [Hc2 Hu2]. simpl. split; [congruence|auto].
Qed.

(** A batch in one transaction: all of it or nothing. *)
Lemma txn_batch_returns table (body : PM T (unit + option error)) s m m' :
  store_rel n table s m →
  (∀ t, ct t = (ct s, ct s) → returns (body t) (λ r t', (ct_up t → ct_up t') ∧
     match r with inl _ => (ct t').1 = ct s ∧ kv_rel n (row_key table) (ct t').2 m' | inr _ => True end)) →
  returns (in_txn Some body (λ _ err, pret err) s) (λ _ s', store_rel n table s' m ∨ store_rel n table s' m').
Proof.
  intros Hrel Hbody. apply (in_txn_returns _ _ _ s (λ _ c, kv_rel n (row_key table) c m')).
  - intros err s' Hc _. left. unfold store_rel. by rewrite Hc.
  - intros t Ht _. eapply returns_weaken; [by apply Hbody|]. intros [a|b] t' [Hu Hr]; (split; [done|]); [done|].
    intros s' Hc _. left. unfold store_rel. by rewrite Hc.
  - intros _ err c s' HP _ Hr. simpl. unfold store_rel in *. destruct err as [err|].
    + destruct Hr as [_ [-> | ->]]; [by left|by right].
    + right. by rewrite Hr.
Qed.

#[local, refine] Instance txn_batches : TableBatch E := mkTableBatch E _ txn_tables _ _ _.
Proof.
  - intros b table keys values s m [= <-] Hrel Hlen Hfit. simpl.
    assert (returns (in_txn Some (txn_set_all n range table keys values) (λ _ err, pret err) s)
      (λ _ d', ∃ m', store_rel n table d' m' ∧ batch_applied m keys values m')) as H; [|by split].
    eapply returns_weaken; [apply (txn_batch_returns table _ s m (insert_rows keys values m) Hrel)|].
    + intros t Ht. apply txn_set_all_returns; by rewrite ?Ht.
    + intros r s' [H|H]; [exists m|exists (insert_rows keys values m)]; (split; [done|]); [by left|].
      intros key v. apply insert_rows_lookup.
  - intros b table keys fields s m [= <-] Hrel. simpl. unfold txn_BatchRead.
    apply (in_txn_returns _ _ _ s (λ _ _, False)).
    + intros err s' Hc _. unfold store_rel. by rewrite Hc.
    + intros t Ht _. apply returns_bind. eapply returns_weaken; [apply (txn_read_values_returns table fields keys t m); by rewrite Ht|].
      intros rows t' [_ Hu]. simpl. split; [done|]. intros s' Hc _. unfold store_rel. by rewrite Hc.
    + by intros [].
  - intros b table keys s m [= <-] Hrel. simpl. unfold txn_BatchDelete.
    eapply returns_weaken; [apply (txn_batch_returns table _ s m (fold_left (λ m k, delete k m) keys m) Hrel)|].
    + intros t Ht. apply txn_delete_all_returns; by rewrite ?Ht.
    + intros r s' [H|H]; [exists m|exists (fold_left (λ m k, delete k m) keys m)]; (split; [done|]); intros key v Hl; left;
        [done|by apply (delete_rows_lookup keys)].
Defined.
End TxnContract.
End Contracts.
