(* ===== verification/DocBindings.v ===== *)
(** * DocBindings: MongoDB and Redis
    (src/go-ycsb-vendor/db: mongodb/db.go, redis/db.go)

    Each binding is a [YcsbDB] over its driver and a [DocDB] whenever the driver
    obeys its laws. *)

From Stdlib Require Import Ascii.
From S2P Require Import Prelude GoLib Storage YcsbUtil Json Float64 Generators Ycsb TableDb DocStore KvStore.

Open Scope Z_scope.

(** [string(bytes)]. *)
Definition string_of (v : bytes) : string := String.string_of_list_byte v.

Lemma go_bytes_string_of v : go_bytes (string_of v) = v.
Proof. apply String.list_byte_of_string_of_list_byte. Qed.

(** ** MongoDB *)

(** The values of the documents the binding makes. *)
Inductive bson := BString (s : string) | BBinary (v : bytes).

(** A query by [_id] is given by the key; [UpdateOne] is with [$set] and returns
    the number of matched documents, [DeleteOne] that of deleted ones.  A document
    found is decoded into a map of binaries. *)
Class MongoDriver (E : Type) := mkMongo {
  mg_FindOne : string → string → gmap string bool → PM E (row + error);
  mg_Find : string → string → gmap string bool → Z → PM E (list (row + error) + error);
  mg_InsertOne : string → gmap string bson → PM E (option error);
  mg_UpdateOne : string → string → row → PM E (Z + error);
  mg_DeleteOne : string → string → PM E (Z + error);
}.

Section Mongo.
Context {E : Type} `{!MongoDriver E}.

Definition mongo_projection (fields : list string) : gmap string bool :=
  fold_left (λ p f, <[f := true]> p) fields {["_id" := false]}.

Definition mongo_Read (table key : string) (fields : list string) : PM E (row + error) :=
  r <~ mg_FindOne table key (mongo_projection fields) ;;
  pret (match r with inr err => inr ("Read error: " +:+ err) | inl doc => inl doc end).

Fixpoint mongo_docs (l : list (row + error)) : list row + error :=
  match l with
  | [] => inl []
  | inr err :: _ => inr ("Scan error: " +:+ err)
  | inl doc :: l => match mongo_docs l with inl docs => inl (doc :: docs) | inr err => inr err end
  end.

Definition mongo_Scan (table startKey : string) (count : Z) (fields : list string) : PM E (list row + error) :=
  r <~ mg_Find table startKey (mongo_projection fields) count ;;
  pret (match r with inr err => inr ("Scan error: " +:+ err) | inl l => mongo_docs l end).

Definition mongo_doc (key : string) (values : row) : gmap string bson :=
  (BBinary <$> values) ∪ {["_id" := BString key]}.

Definition mongo_Insert (table key : string) (values : row) : PM E (option error) :=
  r <~ mg_InsertOne table (mongo_doc key values) ;;
  pret (match r with Some err => Some ("Insert error: " +:+ err) | None => None end).

Definition mongo_Update (table key : string) (values : row) : PM E (option error) :=
  r <~ mg_UpdateOne table key values ;;
  pret (match r with
        | inr err => Some ("Update error: " +:+ err)
        | inl matched => if matched =? 1 then None else Some ("Update error: " +:+ key +:+ " not found")
        end).

Definition mongo_Delete (table key : string) : PM E (option error) :=
  r <~ mg_DeleteOne table key ;;
  pret (match r with
        | inr err => Some ("Delete error: " +:+ err)
        | inl deleted => if deleted =? 1 then None else Some ("Delete error: " +:+ key +:+ " not found")
        end).

Definition mongo_db : YcsbDB E := mkYcsbDB E mongo_Read mongo_Scan mongo_Update mongo_Insert mongo_Delete None.
End Mongo.

(** The documents, by collection and [_id], without their [_id]. *)
Abbreviation documents := (gmap (string * string) row).

(** A projection that names fields to include leaves the others out. *)
Definition project (p : gmap string bool) (r : row) : row :=
  if bool_decide (map_Forall (λ _ b, b = false) p) then filter (λ fv, p !! fv.1 ≠ Some false) r
  else filter (λ fv, p !! fv.1 = Some true) r.

(** [mg_knows] are the names of fields that are just names, [_id] is not one. *)
Class MongoLaws (E : Type) `{!MongoDriver E} `{!Contents E documents} := mkMongoLaws {
  mg_knows : string → Prop;
  mg_value : bytes → Prop;
  mg_id : ¬ mg_knows "_id";
  mg_findone table key p s : returns (mg_FindOne table key p s) (λ r s', ct s' = ct s ∧ (ct_up s → ct_up s') ∧
    (map_Forall (λ f _, mg_knows f ∨ f = "_id") p →
     match r with
     | inl d => project p <$> ct s !! (table, key) = Some d
     | inr _ => ¬ ct_up s ∨ ct s !! (table, key) = None
     end));
  mg_find table key p limit s : returns (mg_Find table key p limit s) (λ _ s', ct s' = ct s);
  mg_insertone table key values s : map_Forall (λ f v, mg_knows f ∧ mg_value v) values →
    returns (mg_InsertOne table (mongo_doc key values) s) (λ r s', (ct_up s → ct_up s') ∧
      if decide (ct s !! (table, key) = None) then
        match r with
        | None => ct s' = <[(table, key) := values]> (ct s)
        | Some _ => ¬ ct_up s ∧ (ct s' = ct s ∨ ct s' = <[(table, key) := values]> (ct s))
        end
      else ct s' = ct s ∧ r ≠ None);
  mg_updateone table key values s : map_Forall (λ f v, mg_knows f ∧ mg_value v) values →
    returns (mg_UpdateOne table key values s) (λ r s', (ct_up s → ct_up s') ∧
      match ct s !! (table, key) with
      | None => ct s' = ct s ∧ match r with inl matched => matched = 0 | inr _ => True end
      | Some old =>
          match r with
          | inl matched => matched = 1 ∧ ct s' = <[(table, key) := values ∪ old]> (ct s)
          | inr _ => (values = ∅ ∧ ct s' = ct s) ∨
                     (¬ ct_up s ∧ (ct s' = ct s ∨ ct s' = <[(table, key) := values ∪ old]> (ct s)))
          end
      end);
  mg_deleteone table key s : returns (mg_DeleteOne table key s) (λ r s', (ct_up s → ct_up s') ∧
    match ct s !! (table, key) with
    | None => ct s' = ct s ∧ match r with inl deleted => deleted = 0 | inr _ => True end
    | Some _ =>
        match r with
        | inl deleted => deleted = 1 ∧ ct s' = delete (table, key) (ct s)
        | inr _ => ¬ ct_up s ∧ (ct s' = ct s ∨ ct s' = delete (table, key) (ct s))
        end
    end);
}.

(** What a call does to a document: inserts of one that is there, and updates and
    deletes of one that is not, are errors. *)
Definition mongo_does (c : tb_call) (o o' : option row) (a : answer) : Prop :=
  match c, o with
  | CallRead _ fields, Some r => o' = o ∧ a = inl (select_fields fields r)
  | CallInsert _ values, None => o' = Some values ∧ a = inr None
  | CallUpdate _ values, Some r => (o' = Some (values ∪ r) ∧ a = inr None) ∨ (values = ∅ ∧ o' = o ∧ failed a = true)
  | CallDelete _, Some _ => o' = None ∧ a = inr None
  | _, _ => o' = o ∧ failed a = true
  end.

Section MongoContract.
Context {E : Type} `{!MongoDriver E, !Contents E documents, !MongoLaws E}.

#[local] Instance mongo_ycsb : YcsbDB E := mongo_db.

Lemma projection_lookup fields f :
  mongo_projection fields !! f =
    if decide (f ∈ fields) then Some true else if decide (f = "_id") then Some false else None.
Proof.
  unfold mongo_projection.
  assert (∀ p : gmap string bool, fold_left (λ p f, <[f := true]> p) fields p !! f =
    if decide (f ∈ fields) then Some true else p !! f) as ->.
  { induction fields as [|g fields IH]; intros p; [done|]. simpl. rewrite IH.
    destruct (decide (f ∈ fields)); [by rewrite decide_True by (by right)|].
    destruct (decide (f = g)) as [->|]; [rewrite lookup_insert_eq, decide_True by (by left); done|].
    rewrite lookup_insert_ne by congruence. by rewrite decide_False by (rewrite elem_of_cons; naive_solver). }
  destruct (decide (f ∈ fields)); [done|]. destruct (decide (f = "_id")) as [->|]; [by rewrite lookup_singleton_eq|].
  by rewrite lookup_singleton_ne by congruence.
Qed.

Lemma project_fields fields r : "_id" ∉ fields → r !! "_id" = None → project (mongo_projection fields) r = select_fields fields r.
Proof.
  intros Hid Hr. apply map_eq. intros f. rewrite select_fields_lookup. unfold project. case_bool_decide as Hp.
  - assert (fields = []) as ->.
    { destruct fields as [|g fields]; [done|]. specialize (Hp g true). simpl in Hp.
      rewrite projection_lookup, decide_True in Hp by (by left). by specialize (Hp eq_refl). }
    rewrite decide_True by (by left). destruct (r !! f) as [v|] eqn:Ev.
    + apply map_lookup_filter_Some. split; [done|]. simpl. rewrite projection_lookup.
      rewrite decide_False by (by intros ?%not_elem_of_nil). rewrite decide_False; [done|]. congruence.
    + apply map_lookup_filter_None. by left.
  - assert (fields ≠ []) as Hne.
    { intros ->. apply Hp. intros f' b. rewrite projection_lookup, decide_False by (by intros ?%not_elem_of_nil).
      case_decide; [congruence|done]. }
    case_decide as Hf.
    + destruct Hf as [?|Hf]; [done|]. destruct (r !! f) as [v|] eqn:Ev.
      * apply map_lookup_filter_Some. split; [done|]. simpl. by rewrite projection_lookup, decide_True.
      * apply map_lookup_filter_None. by left.
    + apply map_lookup_filter_None. right. intros v _. simpl. rewrite projection_lookup.
      rewrite decide_False by naive_solver. by case_decide.
Qed.

(** Every document has only fields that are known. *)
Definition mongo_good (r : row) : Prop := map_Forall (λ f v, mg_knows f ∧ mg_value v) r.

#[local, refine] Instance mongo_docdb : DocDB E :=
  mkDocDB E mongo_ycsb mg_knows mg_value ct_up False (en_wf pair mongo_good) (en_row pair (λ r, r)) mongo_does _ _ eq_refl.
Proof.
  - intros T c s Hwf Hargs. change (returns (run_call T c s)
      (en_post pair mongo_good (λ r, r) mongo_does False
        (match c with CallRead _ fields => ∀ f, f ∈ fields → mg_knows f | _ => True end) T c s)).
    destruct c as [key fields|key values|key values|key]; apply returns_bind, returns_bind.
    + eapply returns_weaken; [apply mg_findone|]. intros r s' (Hc & Hup & Hr). apply en_unchanged; try done. intros Hn.
      assert (map_Forall (λ f _, mg_knows f ∨ f = "_id") (mongo_projection fields)) as Hp.
      { intros f b. rewrite projection_lookup. case_decide; [by left; auto|]. case_decide; [by right|done]. }
      specialize (Hr Hp). rewrite en_row_lookup. cbn [call_key] in *.
      destruct (ct s !! (T, key)) as [doc|] eqn:Er, r as [d|err]; simpl in *; try done.
      * left. injection Hr as <-. simpl. split; [done|]. f_equal. apply project_fields; [by intros ?%Hn%mg_id|].
        apply eq_None_not_Some. intros [v Hv]. by destruct (mg_id (proj1 (Hwf key doc Er "_id" v Hv))).
      * right. destruct Hr; [|done]. by auto.
      * by left.
    + eapply returns_weaken; [by apply (mg_insertone T key)|]. intros r s' [Hup Hr]. case_decide as Hd.
      * eapply (en_write _ _ _ _ _ _ T _ s s' _ values); [done..|left; split; [done|]; split; [done|]|by destruct r].
        rewrite en_row_lookup. simpl. by rewrite Hd.
      * destruct Hr as [Hs Hr]. apply en_unchanged; try done. intros _. left. rewrite en_row_lookup. simpl. destruct (ct s !! (T, key)); [|done]. simpl. by destruct r.
    + eapply returns_weaken; [by apply (mg_updateone T key)|]. intros r s' [Hup Hr].
      destruct (ct s !! (T, key)) as [old|] eqn:Er.
      * assert (r = inl 1 ∧ ct s' = <[(T, key) := values ∪ old]> (ct s) ∨
          (∃ err, r = inr err) ∧ ((values = ∅ ∧ ct s' = ct s) ∨
             (¬ ct_up s ∧ (ct s' = ct s ∨ ct s' = <[(T, key) := values ∪ old]> (ct s))))) as Hcase
          by (destruct r; naive_solver).
        assert (mongo_good (values ∪ old)) as Hg by (apply map_Forall_union_2; [done|by apply (Hwf key)]).
        assert (mongo_does (CallUpdate key values) (en_row pair (λ r, r) T s key) (Some (values ∪ old)) (inr None)) as Hdo
          by (rewrite en_row_lookup, Er; by left).
        destruct Hcase as [[-> Hs]|[[err ->] [[-> Hs]|Hs]]].
        -- eapply (en_write _ _ _ _ _ _ T _ s s' _ (values ∪ old) None); [done..|left; done|done].
        -- apply en_unchanged; try done. intros _. left. rewrite en_row_lookup. simpl. rewrite Er.
           by right.
        -- eapply (en_write _ _ _ _ _ _ T _ s s' _ (values ∪ old) (Some _)); [done..|left; done|exact Hs].
      * destruct Hr as [Hs Hr]. apply en_unchanged; try done. intros _. left.
        rewrite en_row_lookup. simpl. rewrite Er. simpl. destruct r as [matched|err]; [by subst|done].
    + eapply returns_weaken; [by apply (mg_deleteone T key)|]. intros r s' [Hup Hr].
      destruct (ct s !! (T, key)) as [old|] eqn:Er.
      * eapply (en_write _ _ _ _ _ _ T _ s s' (delete (T, key)) old); [done..|right; split; [done|]|].
        -- rewrite en_row_lookup. simpl. by rewrite Er.
        -- destruct r as [deleted|err]; [|done]. by destruct Hr as [-> ?].
      * destruct Hr as [Hs Hr]. apply en_unchanged; try done. intros _. left.
        rewrite en_row_lookup. simpl. rewrite Er. simpl. destruct r as [deleted|err]; [by subst|done].
  - intros T key n fields s Hwf. simpl. unfold mongo_Scan, pbind.
    pose proof (mg_find T key (mongo_projection fields) n s) as Hf.
    destruct (mg_Find _ _ _ _ s) as [[r|?|?|] s']; try done. simpl in *. unfold en_wf, en_row in *. by rewrite Hf.
Defined.
End MongoContract.

Lemma mongo_keeps : does_keep mongo_does.
Proof.
  intros P c o o' a key Hd Ho Hv.
  destruct c as [k fields|k values|k values|k], o as [r|]; simpl in *;
    repeat match goal with
           | H : _ ∧ _ |- _ => destruct H
           | H : _ ∨ _ |- _ => destruct H
           end; subst; simpl; try done; (split; [|try (by destruct a)]); try done.
  - by apply row_ok_select.
  - by apply map_Forall_union_2.
Qed.

(** ** Redis *)

(** Commands with their arguments; [rd_Exec] runs a pipeline and gives its
    commands and the first error.  A reply is read as a text or as a list of
    strings. *)
Class RedisDriver (E : Type) := mkRedis {
  rd_cmd : Type;
  rd_Do : list string → PM E rd_cmd;
  rd_Exec : list (list string) → PM E (list rd_cmd * option error);
  rd_Err : rd_cmd → option error;
  rd_Text : rd_cmd → string + error;
  rd_StringSlice : rd_cmd → list string + error;
  rd_Get : string → PM E (string + error);
  rd_Set : string → string → PM E (option error);
  rd_Del : string → PM E (option error);
}.

Definition getKeyName (table key : string) : string := table +:+ "/" +:+ key.
Definition getFieldJsonPath (fieldName : string) : string := "$." +:+ fieldName.
Definition jsonEscape (v : bytes) : string := quoted (string_of v).

(** [mergeEncodedJsonWithMap]; null decodes to a nil map, which takes no entries. *)
Definition mergeEncodedJsonWithMap (stringReply : string) (values : row) : Outcome (bytes + error) :=
  match Unmarshal_into (go_bytes stringReply) (Some ∅) with
  | (_, Some err) => Ok (inr err)
  | (Some curVal, None) => Ok (Marshal (values ∪ curVal))
  | (None, None) => if decide (values = ∅) then Ok (inl (go_bytes "null")) else Panic "assignment to entry in nil map"
  end.

Section Redis.
Context {E : Type} `{!RedisDriver E}.
Context (datatype : string) (fieldcount : Z) (range : row → list (string * bytes)).

(** [for pos, slicePos := range sliceReply { data[fields[pos]] = ... }] *)
Fixpoint hash_row (fields reply : list string) (data : row) : Outcome row :=
  match reply, fields with
  | [], _ => Ok data
  | _ :: _, [] => Panic "index out of range"
  | s :: reply, f :: fields => hash_row fields reply (<[f := go_bytes s]> data)
  end.

(** [for pos, fieldName := range fields { s, err = cmds[pos].Text() ... }] *)
Fixpoint json_row (fields : list string) (cmds : list rd_cmd) (data : row) : Outcome (row + error) :=
  match fields, cmds with
  | [], _ => Ok (inl data)
  | _ :: _, [] => Panic "index out of range"
  | f :: fields, cmd :: cmds =>
      match rd_Text cmd with
      | inr err => Ok (inr err)
      | inl s => json_row fields cmds (<[f := go_bytes s]> data)
      end
  end.

Definition redis_Read (table key : string) (fields : list string) : PM E (row + error) :=
  if String.eqb datatype "json" then
    r <~ rd_Exec (map (λ f, ["JSON.GET"; getKeyName table key; getFieldJsonPath f]) fields) ;;
    match r.2 with
    | Some err => pret (inr err)
    | None => pfail (json_row fields r.1 ∅)
    end
  else if String.eqb datatype "hash" then
    cmd <~ rd_Do ("HMGET" :: getKeyName table key :: fields) ;;
    match rd_StringSlice cmd with
    | inr _ => pret (inl ∅)
    | inl sliceReply => data <~ pfail (hash_row fields sliceReply ∅) ;; pret (inl data)
    end
  else
    res <~ rd_Get (getKeyName table key) ;;
    pret (match res with
          | inr err => inr err
          | inl res => row_or_error (Unmarshal_into (go_bytes res) (Some ∅))
          end).

Definition redis_Scan (table startKey : string) (count : Z) (fields : list string) : PM E (list row + error) :=
  pret (inr "scan is not supported").

Definition hash_args (values : row) : list string :=
  concat (map (λ fv, [fv.1; string_of fv.2]) (range values)).

Fixpoint first_error (cmds : list rd_cmd) : option error :=
  match cmds with
  | [] => None
  | cmd :: cmds => match rd_Err cmd with Some err => Some err | None => first_error cmds end
  end.

Definition redis_Update (table key : string) (values : row) : PM E (option error) :=
  let fullUpdate := Z.of_nat (size values) =? fieldcount in
  if String.eqb datatype "json" then
    r <~ rd_Exec (map (λ fv, ["JSON.SET"; getKeyName table key; getFieldJsonPath fv.1; jsonEscape fv.2]) (range values)) ;;
    pret (match r.2 with Some err => Some err | None => first_error r.1 end)
  else if String.eqb datatype "hash" then
    cmd <~ rd_Do ("HSET" :: getKeyName table key :: hash_args values) ;; pret (rd_Err cmd)
  else if fullUpdate then
    match Marshal values with
    | inr err => pret (Some err)
    | inl encodedJson => rd_Set (getKeyName table key) (string_of encodedJson)
    end
  else
    r <~ rd_Get (getKeyName table key) ;;
    match r with
    | inr err => pret (Some err)
    | inl initialEncodedJson =>
        e <~ pfail (mergeEncodedJsonWithMap initialEncodedJson values) ;;
        match e with
        | inr err => pret (Some err)
        | inl encodedJson => rd_Set (getKeyName table key) (string_of encodedJson)
        end
    end.

Definition redis_Insert (table key : string) (values : row) : PM E (option error) :=
  match Marshal values with
  | inr err => pret (Some err)
  | inl data =>
      if String.eqb datatype "json" then
        cmd <~ rd_Do ["JSON.SET"; getKeyName table key; "."; string_of data] ;; pret (rd_Err cmd)
      else if String.eqb datatype "hash" then
        cmd <~ rd_Do ("HSET" :: getKeyName table key :: hash_args values) ;; pret (rd_Err cmd)
      else rd_Set (getKeyName table key) (string_of data)
  end.

Definition redis_Delete (table key : string) : PM E (option error) := rd_Del (getKeyName table key).

Definition redis_db : YcsbDB E := mkYcsbDB E redis_Read redis_Scan redis_Update redis_Insert redis_Delete None.
End Redis.

#[export] Instance getKeyName_inj T : Inj (=) (=) (getKeyName T).
Proof. intros k1 k2 H. unfold getKeyName in H. apply (inj (String.append T)) in H. by injection H. Qed.

(** What a key may hold. *)
Inductive redis_value := RHash (h : gmap string string) | RStr (s : string) | ROther.

(** The hash a command on [k] works on; none if [k] holds something else. *)
Definition hash_of (c : gmap string redis_value) (k : string) : option (gmap string string) :=
  match c !! k with None => Some ∅ | Some (RHash h) => Some h | Some _ => None end.

(** HSET wants a pair, HMGET a field; HMGET gives nil for a field that is not
    there, and a list with a nil is not a list of strings. *)
Class RedisLaws (E : Type) `{!RedisDriver E} `{!Contents E (gmap string redis_value)} := mkRedisLaws {
  rd_hset k pairs s : NoDup pairs.*1 →
    returns (rd_Do ("HSET" :: k :: concat (map (λ p, [p.1; p.2]) pairs)) s) (λ cmd s', (ct_up s → ct_up s') ∧
      match hash_of (ct s) k with
      | Some h =>
          if decide (pairs = []) then ct s' = ct s ∧ rd_Err cmd ≠ None
          else match rd_Err cmd with
               | None => ct s' = <[k := RHash (list_to_map pairs ∪ h)]> (ct s)
               | Some _ => ¬ ct_up s ∧ (ct s' = ct s ∨ ct s' = <[k := RHash (list_to_map pairs ∪ h)]> (ct s))
               end
      | None => ct s' = ct s ∧ rd_Err cmd ≠ None
      end);
  rd_hmget k fields s :
    returns (rd_Do ("HMGET" :: k :: fields) s) (λ cmd s', ct s' = ct s ∧ (ct_up s → ct_up s') ∧
      match rd_StringSlice cmd with
      | inl vals => fields ≠ [] ∧ (h ← hash_of (ct s) k; mapM (h !!.) fields) = Some vals
      | inr _ => ¬ ct_up s ∨ fields = [] ∨ (h ← hash_of (ct s) k; mapM (h !!.) fields) = None
      end);
  rd_get k s : returns (rd_Get k s) (λ r s', ct s' = ct s ∧ (ct_up s → ct_up s') ∧
    match r with
    | inl v => ct s !! k = Some (RStr v)
    | inr _ => ¬ ct_up s ∨ ∀ v, ct s !! k ≠ Some (RStr v)
    end);
  rd_set k v : ct_writes (rd_Set k v) <[k := RStr v]>;
  rd_del k : ct_writes (rd_Del k) (delete k);
}.

(** *** The hash data type *)

(** A read wants fields, and all of them to be there, or gives an empty row; an
    insert merges into the row like an update. *)
Definition hash_answer (fields : list string) (r : row) : row :=
  if decide (fields ≠ [] ∧ Forall (λ f, is_Some (r !! f)) fields) then select_fields fields r else ∅.

Definition redis_hash_does (c : tb_call) (o o' : option row) (a : answer) : Prop :=
  match c with
  | CallRead _ fields => o' = o ∧ a = inl (hash_answer fields (default ∅ o))
  | CallInsert _ values | CallUpdate _ values =>
      if decide (values = ∅) then o' = o ∧ failed a = true else o' = Some (values ∪ default ∅ o) ∧ a = inr None
  | CallDelete _ => o' = None ∧ a = inr None
  end.

Definition hash_good (v : redis_value) : Prop := ∃ h, v = RHash h.
Definition hash_view (v : redis_value) : row := match v with RHash h => go_bytes <$> h | _ => ∅ end.

Lemma hash_row_fill (r : row) : ∀ fields reply data,
  mapM (r !!.) fields = Some (map go_bytes reply) →
  ∃ d, hash_row fields reply data = Ok d ∧ ∀ f, d !! f = if decide (f ∈ fields) then r !! f else data !! f.
Proof.
  induction fields as [|g fields IH]; intros reply data H.
  - simpl in H. injection H as H. destruct reply; [|done]. exists data. split; [done|]. done.
  - simpl in H. destruct (r !! g) as [v|] eqn:Eg; [|done]. simpl in H.
    destruct (mapM (r !!.) fields) as [l|] eqn:El; [|done]. simpl in H. injection H as H.
    destruct reply as [|s reply]; [done|]. injection H as -> ->.
    destruct (IH reply (<[g := go_bytes s]> data) eq_refl) as (d & Hd & Hl). exists d. split; [done|]. intros f. rewrite Hl.
    destruct (decide (f ∈ fields)); [by rewrite decide_True by (by right)|].
    destruct (decide (f = g)) as [->|]; [rewrite lookup_insert_eq, decide_True by (by left); by rewrite Eg|].
    rewrite lookup_insert_ne by congruence. by rewrite decide_False by (rewrite elem_of_cons; naive_solver).
Qed.

Lemma mapM_view (h : gmap string string) (fields vals : list string) :
  mapM (M := option) (λ f, h !! f) fields = Some vals →
  mapM (M := option) (λ f, (go_bytes <$> h) !! f) fields = Some (map go_bytes vals).
Proof.
  revert vals. induction fields as [|g fields IH]; intros vals H; [by injection H as <-|]. simpl in *. rewrite lookup_fmap.
  destruct (h !! g) as [v|]; [|done]. simpl in *. destruct (mapM (h !!.) fields) as [l|]; [|done]. injection H as <-.
  by rewrite (IH l eq_refl).
Qed.

Lemma mapM_all (r : row) fields : is_Some (mapM (r !!.) fields) ↔ Forall (λ f, is_Some (r !! f)) fields.
Proof. apply mapM_is_Some. Qed.

Section HashContract.
Context {E : Type} `{!RedisDriver E, !Contents E (gmap string redis_value), !RedisLaws E}.
Context (fieldcount : Z) (range : row → list (string * bytes)) (range_perm : ∀ m, range m ≡ₚ map_to_list m).

#[local] Instance hash_ycsb : YcsbDB E := redis_db "hash" fieldcount range.

Lemma range_to_map (values : row) : list_to_map (range values) = values.
Proof.
  rewrite <- (list_to_map_to_list values) at 2. apply list_to_map_proper; [|apply range_perm].
  rewrite (Permutation_map fst (range_perm values)). apply NoDup_fst_map_to_list.
Qed.

(** The pairs of HSET make the row. *)
Lemma hash_pairs values :
  let pairs := map (λ fv, (fv.1, string_of fv.2)) (range values) in
  hash_args range values = concat (map (λ p, [p.1; p.2]) pairs) ∧ NoDup pairs.*1 ∧
  (pairs = [] ↔ values = ∅) ∧ ∀ h : gmap string string, go_bytes <$> (list_to_map pairs ∪ h) = values ∪ (go_bytes <$> h).
Proof.
  intros pairs. split_and!.
  - unfold hash_args, pairs. by rewrite map_map.
  - unfold pairs. change (map ?f ?l) with (f <$> l). rewrite <- list_fmap_compose. change (fst ∘ _) with (fst : string * bytes → string).
    rewrite (Permutation_map fst (range_perm values)). apply NoDup_fst_map_to_list.
  - unfold pairs. rewrite <- (range_to_map values) at 2. split.
    + intros H. apply map_eq_nil in H. by rewrite H.
    + intros H. destruct (range values) as [|[k v] l]; [done|]. by destruct (insert_non_empty (list_to_map l : row) k v).
  - intros h. rewrite map_fmap_union. f_equal. unfold pairs.
    rewrite <- list_to_map_fmap. rewrite <- list_fmap_compose.
    rewrite (list_fmap_ext _ id); [rewrite list_fmap_id; apply range_to_map|].
    intros i [f v] _. simpl. by rewrite go_bytes_string_of.
Qed.

Lemma hash_entry T (s : E) key : en_wf getKeyName hash_good T s →
  ∃ h, hash_of (ct s) (getKeyName T key) = Some h ∧ default ∅ (en_row getKeyName hash_view T s key) = go_bytes <$> h.
Proof.
  intros Hwf. unfold hash_of. rewrite en_row_lookup. destruct (ct s !! getKeyName T key) as [v|] eqn:Ev.
  - destruct (Hwf _ v Ev) as [h ->]. by exists h.
  - exists ∅. by rewrite fmap_empty.
Qed.

Lemma hash_write T c values s :
  en_wf getKeyName hash_good T s → c = CallInsert (call_key c) values ∨ c = CallUpdate (call_key c) values →
  returns (rd_Do ("HSET" :: getKeyName T (call_key c) :: hash_args range values) s)
    (λ cmd, en_post getKeyName hash_good hash_view redis_hash_does True True T c s (inr (rd_Err cmd))).
Proof.
  intros Hwf Hc. destruct (hash_pairs values) as (-> & Hnd & Hempty & Hun). set (pairs := map _ (range values)) in *.
  assert (∀ o o' a, redis_hash_does c o o' a = (if decide (values = ∅) then o' = o ∧ failed a = true
    else o' = Some (values ∪ default ∅ o) ∧ a = inr None)) as Hdoes by (by destruct Hc as [-> | ->]).
  assert (∀ key fields, c ≠ CallRead key fields) as Hcr by (by destruct Hc as [-> | ->]).
  eapply returns_weaken; [by apply (rd_hset (getKeyName T (call_key c)) pairs s)|]. intros cmd s' [Hup Hr].
  destruct (hash_entry T s (call_key c) Hwf) as (h & Hh & Hdef).
  rewrite Hh in Hr. simpl. case_decide as Hp.
  - destruct Hr as [Hs Hr]. apply en_unchanged; try done. intros _. left. rewrite Hdoes, decide_True by (by apply Hempty).
    split; [done|]. simpl. by destruct (rd_Err cmd).
  - eapply (en_write _ _ _ _ _ _ T _ s s' _ (RHash (list_to_map pairs ∪ h))); [done..|left|exact Hr].
    split; [done|]. split; [by eexists|]. rewrite Hdoes, decide_False by (by rewrite <- Hempty). rewrite Hdef. split; [|done].
    simpl. by rewrite Hun.
Qed.

#[local, refine] Instance hash_docdb : DocDB E :=
  mkDocDB E hash_ycsb (λ _, True) (λ _, True) ct_up True (en_wf getKeyName hash_good) (en_row getKeyName hash_view) redis_hash_does _ _ eq_refl.
Proof.
  - intros T c s Hwf _.
    eapply (returns_weaken _ (en_post getKeyName hash_good hash_view redis_hash_does True True T c s)).
    2:{ intros a s' (? & ? & ? & Hr). split_and!; try done. intros _. by apply Hr. }
    destruct c as [key fields|key values|key values|key]; simpl.
    + apply returns_bind. unfold redis_Read. simpl. apply returns_bind. eapply returns_weaken; [apply rd_hmget|].
      intros cmd s' (Hc & Hup & Hr).
      destruct (hash_entry T s key Hwf) as (h & Hh & Hdef).
      rewrite Hh in Hr. simpl in Hr. destruct (rd_StringSlice cmd) as [vals|err].
      * destruct Hr as [Hne Hv]. pose proof (mapM_view h fields vals Hv) as Hm.
        destruct (hash_row_fill _ fields vals ∅ Hm) as (d & Hd & Hl). unfold pfail, pbind. rewrite Hd. simpl.
        apply en_unchanged; try done. intros _. left. simpl. rewrite Hdef. split; [done|]. f_equal. unfold hash_answer.
        rewrite decide_True by (split; [done|]; apply mapM_all; by rewrite Hm).
        apply map_eq. intros f. rewrite Hl, select_fields_lookup, lookup_empty. case_decide as Hf.
        -- by rewrite decide_True by (by right).
        -- rewrite decide_False by naive_solver. done.
      * simpl. apply en_unchanged; try done. intros _. destruct Hr as [Hn|Hr].
        -- right. split; [done|]. split; [by right|]. by left.
        -- left. simpl. rewrite Hdef. split; [done|]. f_equal. unfold hash_answer. rewrite decide_False; [done|].
           intros [Hne Hall]. destruct Hr as [Hr|Hr]; [done|]. apply mapM_all in Hall as [vals Hv].
           clear - Hr Hv. revert vals Hv Hr. induction fields as [|g fields IH]; [done|]. simpl. rewrite lookup_fmap.
           destruct (h !! g); [|done]. simpl. destruct (mapM (h !!.) fields); [done|]. intros vals.
           destruct (mapM (_ !!.) fields) as [l|]; [|done]. intros _ _. by eapply IH.
    + apply returns_bind. unfold redis_Insert. destruct (Marshal values) as [data|err] eqn:Em; [|done]. simpl.
      eapply returns_bind. by apply (hash_write T (CallInsert key values) values s Hwf); left.
    + apply returns_bind. unfold redis_Update. simpl. apply returns_bind.
      by apply (hash_write T (CallUpdate key values) values s Hwf); right.
    + apply returns_bind. eapply returns_weaken; [apply rd_del|]. intros r s' [Hup Hr]. simpl.
      eapply (en_write _ _ _ _ _ _ T (CallDelete key) s s' _ ROther); [done..|right; done|by destruct r].
  - intros T key n fields s Hwf. done.
Defined.
End HashContract.

Lemma hash_keeps : does_keep redis_hash_does.
Proof.
  intros P c o o' a key Hd Ho Hv.
  assert (row_ok P key (default ∅ o)) as Hdef by (destruct o; [done|apply row_ok_empty]).
  destruct c as [k fields|k values|k values|k]; simpl in *; try (case_decide; destruct Hd as [-> Hd]); simpl.
  - destruct Hd as [-> ->]. split; [done|]. unfold hash_answer. case_decide; [by apply row_ok_select|apply row_ok_empty].
  - split; [done|]. by destruct a.
  - subst a. split; [by apply map_Forall_union_2|done].
  - split; [done|]. by destruct a.
  - subst a. split; [by apply map_Forall_union_2|done].
  - by destruct Hd as [-> ->].
Qed.

(** *** The string data type *)

(** A read gives the whole row; an update of as many fields as the workload has
    replaces the row, or creates it. *)
Definition redis_string_does (fieldcount : Z) (c : tb_call) (o o' : option row) (a : answer) : Prop :=
  match c with
  | CallRead _ _ => o' = o ∧ match o with Some r => a = inl r | None => failed a = true end
  | CallInsert _ values => o' = Some values ∧ a = inr None
  | CallUpdate _ values =>
      if Z.of_nat (size values) =? fieldcount then o' = Some values ∧ a = inr None
      else match o with
           | Some r => o' = Some (values ∪ r) ∧ a = inr None
           | None => o' = o ∧ failed a = true
           end
  | CallDelete _ => o' = None ∧ a = inr None
  end.

Definition string_good (v : redis_value) : Prop :=
  ∃ t r, v = RStr t ∧ ascii_fields r ∧ Unmarshal_into (go_bytes t) (Some ∅) = (Some r, None).
Definition string_view (v : redis_value) : row :=
  match v with RStr t => default ∅ (Unmarshal_into (go_bytes t) (Some ∅)).1 | _ => ∅ end.

Lemma string_encodes values : ascii_fields values → ∃ data, Marshal values = inl data ∧
  string_good (RStr (string_of data)) ∧ string_view (RStr (string_of data)) = values.
Proof.
  intros Ha. destruct (json_roundtrip_into values Ha) as (data & Hm & _ & Hu & _). exists data. split; [done|].
  unfold string_good, string_view. rewrite go_bytes_string_of, Hu. split; [|done].
  exists (string_of data), values. by rewrite go_bytes_string_of.
Qed.

Section StringContract.
Context {E : Type} `{!RedisDriver E, !Contents E (gmap string redis_value), !RedisLaws E}.
Context (datatype : string) (not_json : String.eqb datatype "json" = false) (not_hash : String.eqb datatype "hash" = false).
Context (fieldcount : Z) (range : row → list (string * bytes)).

#[local] Instance string_ycsb : YcsbDB E := redis_db datatype fieldcount range.

Lemma fits_ascii (values : row) : map_Forall (λ f _, is_ascii f = true ∧ True) values → ascii_fields values.
Proof. intros H f v Hf. by apply (H f v). Qed.

Abbreviation string_post := (en_post getKeyName string_good string_view (redis_string_does fieldcount) False True).

(** Setting the text of a row. *)
Lemma string_set T c values data s s0 :
  en_wf getKeyName string_good T s → ct s0 = ct s → (ct_up s → ct_up s0) → (∀ key fields, c ≠ CallRead key fields) →
  string_good (RStr (string_of data)) → string_view (RStr (string_of data)) = values →
  redis_string_does fieldcount c (en_row getKeyName string_view T s (call_key c)) (Some values) (inr None) →
  returns (rd_Set (getKeyName T (call_key c)) (string_of data) s0) (λ r, string_post T c s (inr r)).
Proof.
  intros Hwf Hc0 Hu0 Hc Hg Hview Hdo. eapply returns_weaken; [apply rd_set|]. intros r s' [Hup Hr]. rewrite Hc0 in Hr.
  eapply (en_write _ _ _ _ _ _ T c s s' _ (RStr (string_of data))); [done|auto|done|left; by rewrite Hview|].
  destruct r; [|done]. destruct Hr as [Hn Hr]. split; [auto|done].
Qed.

(** The text of the row of a key, or an error. *)
Lemma string_get T key s : en_wf getKeyName string_good T s →
  returns (rd_Get (getKeyName T key) s) (λ r s', ct s' = ct s ∧ (ct_up s → ct_up s') ∧
    match r with
    | inl t => ∃ row, en_row getKeyName string_view T s key = Some row ∧ ascii_fields row ∧
                 Unmarshal_into (go_bytes t) (Some ∅) = (Some row, None)
    | inr _ => ¬ ct_up s ∨ en_row getKeyName string_view T s key = None
    end).
Proof.
  intros Hwf. eapply returns_weaken; [apply rd_get|]. intros r s' (Hc & Hup & Hr). split; [done|]. split; [done|].
  rewrite en_row_lookup. destruct r as [t|err].
  - rewrite Hr. destruct (Hwf _ _ Hr) as (t' & row & [= <-] & Ha & Hu). exists row. simpl. by rewrite Hu.
  - destruct Hr as [Hn|Hr]; [by left|]. right. destruct (ct s !! getKeyName T key) as [v|] eqn:Ev; [|done].
    destruct (Hwf _ _ Ev) as (t & row & -> & _). by destruct (Hr t).
Qed.

#[local, refine] Instance string_docdb : DocDB E :=
  mkDocDB E string_ycsb (λ f, is_ascii f = true) (λ _, True) ct_up False (en_wf getKeyName string_good) (en_row getKeyName string_view)
    (redis_string_does fieldcount) _ _ eq_refl.
Proof.
  - intros T c s Hwf Hargs.
    eapply (returns_weaken _ (string_post T c s)).
    2:{ intros a s' (? & ? & ? & Hr). split_and!; try done. intros _. by apply Hr. }
    destruct c as [key fields|key values|key values|key]; simpl in *; apply returns_bind.
    + unfold redis_Read. rewrite not_json, not_hash. apply returns_bind.
      eapply returns_weaken; [by apply (string_get T key s)|]. intros r s' (Hc & Hup & Hr). simpl.
      apply en_unchanged; try done. intros _. simpl. destruct r as [t|err].
      * destruct Hr as (row & -> & _ & Hu). rewrite Hu. by left.
      * simpl. destruct Hr as [Hn| ->]; [|by left]. right. split; [done|]. by split; left.
    + unfold redis_Insert. destruct (string_encodes values (fits_ascii values Hargs)) as (data & -> & Hg & Hv).
      rewrite not_json, not_hash. by apply (string_set T (CallInsert key values) values data s s).
    + unfold redis_Update. rewrite not_json, not_hash. destruct (Z.eqb _ fieldcount) eqn:Ef.
      * destruct (string_encodes values (fits_ascii values Hargs)) as (data & -> & Hg & Hv).
        apply (string_set T (CallUpdate key values) values data s s); try done. simpl. by rewrite Ef.
      * apply returns_bind. eapply returns_weaken; [by apply (string_get T key s)|]. intros r s1 (Hc & Hup & Hr).
        destruct r as [t|err].
        -- destruct Hr as (row & Hrow & Ha & Hu). unfold mergeEncodedJsonWithMap, pfail, pbind. rewrite Hu.
           destruct (string_encodes (values ∪ row)) as (data & -> & Hg & Hv).
           { apply map_Forall_union_2; [by apply fits_ascii|done]. }
           apply (string_set T (CallUpdate key values) (values ∪ row) data s s1); try done. simpl. by rewrite Ef, Hrow.
        -- simpl. apply en_unchanged; try done. intros _. simpl. destruct Hr as [Hn|Hr].
           ++ right. split; [done|]. by split; left.
           ++ left. simpl. by rewrite Ef, Hr.
    + eapply returns_weaken; [apply rd_del|]. intros r s' [Hup Hr]. simpl.
      eapply (en_write _ _ _ _ _ _ T (CallDelete key) s s' _ ROther); [done..|right; done|by destruct r].
  - intros T key n fields s Hwf. done.
Defined.
End StringContract.

Lemma string_keeps fieldcount : does_keep (redis_string_does fieldcount).
Proof.
  intros P c o o' a key Hd Ho Hv.
  destruct c as [k fields|k values|k values|k]; simpl in *; [|by destruct Hd as [-> ->]| |by destruct Hd as [-> ->]].
  - destruct Hd as [-> Hd]. split; [done|]. destruct o; [by subst|by destruct a].
  - destruct (Z.eqb _ _); [by destruct Hd as [-> ->]|]. destruct o as [r|], Hd as [-> Hd]; [subst a|by destruct a].
    split; [by apply map_Forall_union_2|done].
Qed.
