(* ===== verification/EtcdAerospike.v ===== *)
(** * EtcdAerospike: etcd and Aerospike
    (src/go-ycsb-vendor/db: etcd/db.go, aerospike/db.go)

    Each binding is a [YcsbDB] over its driver and a [DocDB] whenever the driver
    obeys its laws. *)

From S2P Require Import Prelude GoLib Storage YcsbUtil Json Float64 Generators Ycsb TableDb KvStore DocStore DocBindings.

Open Scope Z_scope.

(** ** etcd *)

(** [Get] of a key, or from a key on with a limit, gives the number of keys in the
    range, whatever the limit, and the values. *)
Class EtcdDriver (E : Type) := mkEtcd {
  et_Get : string → PM E ((Z * list bytes) + error);
  et_GetFrom : string → Z → PM E ((Z * list bytes) + error);
  et_Put : string → string → PM E (option error);
  et_Delete : string → PM E (option error);
}.

Section Etcd.
Context {E : Type} `{!EtcdDriver E}.

Definition etcd_Read (table key : string) (fields : list string) : PM E (row + error) :=
  let rkey := row_key table key in
  value <~ et_Get rkey ;;
  match value with
  | inr err => pret (inr err)
  | inl (Count, Kvs) =>
      if Count =? 0 then pret (inr ("could not find value for key [" +:+ rkey +:+ "]"))
      else match Kvs with
           | [] => pfail (Panic "index out of range")
           | v :: _ => pret (Decode v)
           end
  end.

Fixpoint etcd_rows (Kvs : list bytes) : list row + error :=
  match Kvs with
  | [] => inl []
  | v :: Kvs =>
      match Decode v with
      | inr err => inr err
      | inl r => match etcd_rows Kvs with inl res => inl (r :: res) | inr err => inr err end
      end
  end.

(** The rows are appended to [count] nil rows. *)
Definition etcd_Scan (table startKey : string) (count : Z) (fields : list string) : PM E (list row + error) :=
  make_rows count ~;
  let rkey := row_key table startKey in
  values <~ et_GetFrom rkey count ;;
  pret (match values with
        | inr err => inr err
        | inl (Count, Kvs) =>
            if negb (Count =? count) then
              inr ("unexpected number of result for key [" +:+ rkey +:+ "], expected " +:+ itoa count +:+ " but was " +:+ itoa Count)
            else match etcd_rows Kvs with
                 | inr err => inr err
                 | inl rows => inl (replicate (Z.to_nat count) ∅ ++ rows)
                 end
        end).

Definition etcd_Update (table key : string) (values : row) : PM E (option error) :=
  match Marshal values with
  | inr err => pret (Some err)
  | inl data => et_Put (row_key table key) (string_of data)
  end.

Definition etcd_Insert := etcd_Update.
Definition etcd_Delete (table key : string) : PM E (option error) := et_Delete (row_key table key).

Definition etcd_db : YcsbDB E := mkYcsbDB E etcd_Read etcd_Scan etcd_Update etcd_Insert etcd_Delete None.
End Etcd.

Class EtcdLaws (E : Type) `{!EtcdDriver E} `{!Contents E (gmap string bytes)} := mkEtcdLaws {
  et_get k : ct_reads (et_Get k) (λ c, match c !! k with Some v => (1, [v]) | None => (0, []) end);
  et_getfrom k limit s : returns (et_GetFrom k limit s) (λ r s', ct s' = ct s ∧
    ∀ res, r = inl res → res.1 = Z.of_nat (length (kv_from k (ct s))));
  et_put k v : ct_writes (et_Put k v) <[k := go_bytes v]>;
  et_delete k : ct_writes (et_Delete k) (delete k);
}.

(** A read gives the whole row, an update replaces it. *)
Definition etcd_does (c : tb_call) (o o' : option row) (a : answer) : Prop :=
  match c with
  | CallRead _ _ => o' = o ∧ match o with Some r => a = inl r | None => failed a = true end
  | CallInsert _ values | CallUpdate _ values => o' = Some values ∧ a = inr None
  | CallDelete _ => o' = None ∧ a = inr None
  end.

Definition etcd_good (v : bytes) : Prop := ∃ r, Decode v = inl r.
Definition etcd_view (v : bytes) : row := match Decode v with inl r => r | inr _ => ∅ end.

Section EtcdContract.
Context {E : Type} `{!EtcdDriver E, !Contents E (gmap string bytes), !EtcdLaws E}.

#[local] Instance etcd_ycsb : YcsbDB E := etcd_db.

Abbreviation etcd_post := (en_post row_key etcd_good etcd_view etcd_does False True).

Lemma etcd_put T c values s : c = CallInsert (call_key c) values ∨ c = CallUpdate (call_key c) values →
  en_wf row_key etcd_good T s → ascii_fields values →
  returns (etcd_Update T (call_key c) values s) (λ r, etcd_post T c s (inr r)).
Proof.
  intros Hc Hwf Ha. unfold etcd_Update. destruct (json_roundtrip values Ha) as (data & -> & _ & Hd).
  eapply returns_weaken; [apply et_put|]. intros r s' [Hup Hr]. rewrite go_bytes_string_of in Hr.
  eapply (en_write _ _ _ _ _ _ T c s s' _ data); [done|done|by destruct Hc as [-> | ->]|left|by destruct r].
  split; [done|]. split; [by exists values|]. unfold etcd_view. rewrite Hd. by destruct Hc as [-> | ->].
Qed.

#[local, refine] Instance etcd_docdb : DocDB E :=
  mkDocDB E etcd_ycsb (λ f, is_ascii f = true) (λ _, True) ct_up False (en_wf row_key etcd_good) (en_row row_key etcd_view) etcd_does _ _ eq_refl.
Proof.
  - intros T c s Hwf Hargs.
    eapply (returns_weaken _ (etcd_post T c s)).
    2:{ intros a s' (? & ? & ? & Hr). split_and!; try done. intros _. by apply Hr. }
    destruct c as [key fields|key values|key values|key]; simpl in *; apply returns_bind.
    + unfold etcd_Read. eapply reads_bind; [apply et_get|]. intros [res|err] s' Hc Hup Hr; simpl.
      * subst res. destruct (ct s !! row_key T key) as [v|] eqn:Ev; simpl; apply en_unchanged; try done; intros _; left;
          rewrite en_row_lookup; simpl; rewrite Ev; [|done]. destruct (Hwf _ v Ev) as [r Hd]. simpl. unfold etcd_view. by rewrite Hd.
      * apply en_unchanged; try done. intros _. right. split; [done|]. by split; left.
    + apply (etcd_put T (CallInsert key values)); [by left|done|by apply fits_ascii].
    + apply (etcd_put T (CallUpdate key values)); [by right|done|by apply fits_ascii].
    + eapply returns_weaken; [apply et_delete|]. intros r s' [Hup Hr]. simpl.
      eapply (en_write _ _ _ _ _ _ T (CallDelete key) s s' _ []); [done..|right; done|by destruct r].
  - intros T key n fields s Hwf. simpl. unfold etcd_Scan, make_rows. destruct (n <? 0); [done|]. unfold pbind at 1. simpl. unfold pbind.
    pose proof (et_getfrom (row_key T key) n s) as Hf. destruct (et_GetFrom _ n s) as [[r|?|?|] s']; try done.
    simpl in *. destruct Hf as [Hc _]. unfold en_wf, en_row in *. by rewrite Hc.
Defined.
End EtcdContract.

Lemma etcd_keeps : does_keep etcd_does.
Proof.
  intros P c o o' a key Hd Ho Hv.
  destruct c as [k fields|k values|k values|k]; simpl in *; destruct Hd as [-> Hd]; try (by subst a).
  split; [done|]. destruct o; [by subst|by destruct a].
Qed.

(** ** Aerospike *)

(** The values of bins that matter: byte arrays and the rest. *)
Inductive as_value := AsBytes (v : bytes) | AsOther.
#[export] Instance as_value_eq_dec : EqDecision as_value.
Proof. solve_decision. Defined.
Definition as_bytes (v : as_value) : option bytes := match v with AsBytes b => Some b | AsOther => None end.
Record as_record := mkRecord { as_Bins : gmap string as_value; as_Generation : Z }.
(** A write policy that expects a generation. *)
Record as_policy := mkPolicy { ap_generation : Z }.

(** A nil key is passed on as it is. *)
Class AerospikeDriver (E : Type) := mkAerospike {
  as_key : Type;
  as_NewKey : string → string → string → as_key + error;
  as_Get : option as_key → PM E (option as_record + error);
  as_ScanAll : string → string → PM E (list (as_record + error) + error);
  as_Put : option as_policy → as_key → gmap string as_value → PM E (option error);
  as_PutBins : as_key → list (string * as_value) → PM E (option error);
  as_Delete : as_key → PM E (option error);
}.

(** The loop over the bins that [keep] takes; a bin that is no byte array is an error. *)
Definition as_row (keep : string → bool) (bins : gmap string as_value) : row + error :=
  if decide (map_Forall (λ f v, keep f = true → v ≠ AsOther) bins) then
    inl (omap as_bytes (filter (λ fv, keep fv.1 = true) bins))
  else inr "couldn't convert to byte array".

Section Aerospike.
Context {E : Type} `{!AerospikeDriver E}.
Context (ns : string) (range : row → list (string * bytes)).

Definition aerospike_Read (table key : string) (fields : list string) : PM E (row + error) :=
  record <~ as_Get (match as_NewKey ns table key with inl k => Some k | inr _ => None end) ;;
  pret (match record with
        | inr err => inr err
        | inl None => inl ∅
        | inl (Some record) => as_row (λ _, true) (as_Bins record)
        end).

(** The loop stops when [nRead == count] after a record, so not for a count of zero. *)
Fixpoint aerospike_rows (fields : list string) (count nRead : Z) (l : list (as_record + error)) : list row + error :=
  match l with
  | [] => inl []
  | inr err :: _ => inr err
  | inl record :: l =>
      match as_row (λ k, bool_decide (k ∈ fields)) (as_Bins record) with
      | inr err => inr err
      | inl vals =>
          if nRead + 1 =? count then inl [vals]
          else match aerospike_rows fields count (nRead + 1) l with inl res => inl (vals :: res) | inr err => inr err end
      end
  end.

Definition aerospike_Scan (table startKey : string) (count : Z) (fields : list string) : PM E (list row + error) :=
  recordset <~ as_ScanAll ns table ;;
  pret (match recordset with inr err => inr err | inl l => aerospike_rows fields count 0 l end).

(** The policy with the generation is a new variable of the inner block: the outer
    one, which [Put] is given, stays nil. *)
Definition aerospike_update_write (k : as_key) (values : row) (record : option as_record) : PM E (option error) :=
  let bins := match record with Some record => as_Bins record | None => ∅ end in
  as_Put None k ((AsBytes <$> values) ∪ bins).

Definition aerospike_Update (table key : string) (values : row) : PM E (option error) :=
  match as_NewKey ns table key with
  | inr err => pret (Some err)
  | inl k =>
      record <~ as_Get (Some k) ;;
      match record with
      | inr err => pret (Some err)
      | inl record => aerospike_update_write k values record
      end
  end.

Definition aerospike_Insert (table key : string) (values : row) : PM E (option error) :=
  match as_NewKey ns table key with
  | inr err => pret (Some err)
  | inl k => as_PutBins k (map (λ fv, (fv.1, AsBytes fv.2)) (range values))
  end.

Definition aerospike_Delete (table key : string) : PM E (option error) :=
  match as_NewKey ns table key with
  | inr err => pret (Some err)
  | inl k => as_Delete k
  end.

Definition aerospike_db : YcsbDB E :=
  mkYcsbDB E aerospike_Read aerospike_Scan aerospike_Update aerospike_Insert aerospike_Delete None.
End Aerospike.

(** Records by namespace, set and key. *)
Abbreviation records := (gmap (string * string * string) as_record).
Definition old_bins (c : records) (k : string * string * string) : gmap string as_value :=
  match c !! k with Some r => as_Bins r | None => ∅ end.

(** A write without bins changes nothing; others add their bins to the record.  A
    record that is not there is nil or an error.  [as_knows] and [as_stores] are
    the bin names and byte arrays the server takes. *)
Class AerospikeLaws (E : Type) `{!AerospikeDriver E} `{!Contents E records} := mkAerospikeLaws {
  as_knows : string → Prop;
  as_stores : bytes → Prop;
  as_name : as_key → string * string * string;
  as_newkey ns T key : ∃ k, as_NewKey ns T key = inl k ∧ as_name k = (ns, T, key);
  as_get k s : returns (as_Get (Some k) s) (λ r s', ct s' = ct s ∧ (ct_up s → ct_up s') ∧
    match r with inl o => ct s !! as_name k = o | inr _ => ¬ ct_up s ∨ ct s !! as_name k = None end);
  as_scanall ns T s : returns (as_ScanAll ns T s) (λ _ s', ct s' = ct s);
  as_put k bins s : map_Forall (λ f v, as_knows f ∧ ∃ b, v = AsBytes b ∧ as_stores b) bins →
    returns (as_Put None k bins s) (λ r s', (ct_up s → ct_up s') ∧
      if decide (bins = ∅) then ct s' = ct s
      else ∃ g, match r with
                | None => ct s' = <[as_name k := mkRecord (bins ∪ old_bins (ct s) (as_name k)) g]> (ct s)
                | Some _ => ¬ ct_up s ∧
                    (ct s' = ct s ∨ ct s' = <[as_name k := mkRecord (bins ∪ old_bins (ct s) (as_name k)) g]> (ct s))
                end);
  as_putbins k bins s : NoDup bins.*1 → Forall (λ fv, as_knows fv.1 ∧ ∃ b, fv.2 = AsBytes b ∧ as_stores b) bins →
    returns (as_PutBins k bins s) (λ r s', (ct_up s → ct_up s') ∧
      if decide (bins = []) then ct s' = ct s
      else ∃ g, match r with
                | None => ct s' = <[as_name k := mkRecord (list_to_map bins ∪ old_bins (ct s) (as_name k)) g]> (ct s)
                | Some _ => ¬ ct_up s ∧
                    (ct s' = ct s ∨ ct s' = <[as_name k := mkRecord (list_to_map bins ∪ old_bins (ct s) (as_name k)) g]> (ct s))
                end);
  as_delete k : ct_writes (as_Delete k) (delete (as_name k));
}.

(** A read gives the whole row; an insert merges into the row like an update. *)
Definition aerospike_does (c : tb_call) (o o' : option row) (a : answer) : Prop :=
  match c with
  | CallRead _ _ => o' = o ∧ match o with Some r => a = inl r | None => a = inl ∅ ∨ failed a = true end
  | CallInsert _ values | CallUpdate _ values =>
      (o' = Some (values ∪ default ∅ o) ∧ a = inr None) ∨
      (o' = o ∧ (values = ∅ ∧ (∀ v, a ≠ inl v) ∨ (∃ key, c = CallUpdate key values ∧ o = None ∧ failed a = true)))
  | CallDelete _ => o' = None ∧ a = inr None
  end.

Section AerospikeContract.
Context {E : Type} `{!AerospikeDriver E, !Contents E records, !AerospikeLaws E}.
Context (ns : string) (range : row → list (string * bytes)) (range_perm : ∀ m, range m ≡ₚ map_to_list m).

#[local] Instance aerospike_ycsb : YcsbDB E := aerospike_db ns range.

Definition as_good (r : as_record) : Prop :=
  map_Forall (λ f v, as_knows f ∧ ∃ b, v = AsBytes b ∧ as_stores b) (as_Bins r).
Definition as_view (r : as_record) : row := omap as_bytes (as_Bins r).
Definition as_slot (T key : string) : string * string * string := (ns, T, key).

#[local] Instance as_slot_inj T : Inj (=) (=) (as_slot T).
Proof. by intros k1 k2 [= ->]. Qed.

Lemma as_row_view r : as_good r → as_row (λ _, true) (as_Bins r) = inl (as_view r).
Proof.
  intros Hg. unfold as_row, as_view. rewrite decide_True.
  - do 2 f_equal. apply map_filter_id. done.
  - intros f v Hv _ ->. destruct (Hg f AsOther Hv) as (_ & b & ? & _). done.
Qed.

Lemma as_view_merge (values : row) bins g : as_view (mkRecord ((AsBytes <$> values) ∪ bins) g) = values ∪ omap as_bytes bins.
Proof.
  apply map_eq. intros f. unfold as_view. simpl. rewrite lookup_omap, !lookup_union, lookup_fmap, lookup_omap.
  destruct (values !! f), (bins !! f) as [[]|]; done.
Qed.

Lemma as_bins_good (values : row) bins : map_Forall (λ f v, as_knows f ∧ as_stores v) values →
  map_Forall (λ f v, as_knows f ∧ ∃ b, v = AsBytes b ∧ as_stores b) bins →
  map_Forall (λ f v, as_knows f ∧ ∃ b, v = AsBytes b ∧ as_stores b) ((AsBytes <$> values) ∪ bins).
Proof.
  intros Hv Hb. apply map_Forall_union_2; [|done]. apply map_Forall_fmap. intros f v Hf. destruct (Hv f v Hf). simpl. eauto.
Qed.

Abbreviation aerospike_post := (en_post as_slot as_good as_view aerospike_does False True).

(** The bins of the record of a key. *)
Lemma old_bins_view T key s : en_wf as_slot as_good T s →
  default ∅ (en_row as_slot as_view T s key) = omap as_bytes (old_bins (ct s) (as_slot T key)) ∧
  map_Forall (λ f v, as_knows f ∧ ∃ b, v = AsBytes b ∧ as_stores b) (old_bins (ct s) (as_slot T key)).
Proof.
  intros Hwf. unfold old_bins. rewrite en_row_lookup. destruct (ct s !! as_slot T key) as [r|] eqn:Er; simpl.
  - split; [done|]. apply (Hwf key r Er).
  - split; [by rewrite omap_empty|apply map_Forall_empty].
Qed.

(** A write of the bins of [values] on top of some of the record's. *)
Lemma as_wrote T c values (empty : Prop) `{!Decision empty} s s' r :
  en_wf as_slot as_good T s → (ct_up s → ct_up s') → map_Forall (λ f v, as_knows f ∧ as_stores v) values →
  c = CallInsert (call_key c) values ∨ c = CallUpdate (call_key c) values →
  (empty → values = ∅) →
  let bins' := (AsBytes <$> values) ∪ old_bins (ct s) (as_slot T (call_key c)) in
  (if decide empty then ct s' = ct s
   else ∃ g, match r with
             | None => ct s' = <[as_slot T (call_key c) := mkRecord bins' g]> (ct s)
             | Some _ => ¬ ct_up s ∧ (ct s' = ct s ∨ ct s' = <[as_slot T (call_key c) := mkRecord bins' g]> (ct s))
             end) →
  aerospike_post T c s (inr r) s'.
Proof.
  intros Hwf Hup Hv Hc He bins' Hs. destruct (old_bins_view T (call_key c) s Hwf) as [Hdef Hold]. case_decide as Hd.
  - apply en_unchanged; try done. intros _. left. specialize (He Hd). destruct Hc as [-> | ->]; right; split; try done; by left.
  - destruct Hs as [g Hs].
    eapply (en_write _ _ _ _ _ _ T c s s' _ (mkRecord _ g)); [done|done|by destruct Hc as [-> | ->]|left|exact Hs].
    split; [done|]. split; [by apply as_bins_good|]. unfold bins'. rewrite as_view_merge, <- Hdef. destruct Hc as [-> | ->]; by left.
Qed.

#[local, refine] Instance aerospike_docdb : DocDB E :=
  mkDocDB E aerospike_ycsb as_knows as_stores ct_up False (en_wf as_slot as_good) (en_row as_slot as_view) aerospike_does _ _ eq_refl.
Proof.
  - intros T c s Hwf Hargs.
    eapply (returns_weaken _ (aerospike_post T c s)).
    2:{ intros a s' (? & ? & ? & Hr). split_and!; try done. intros _. by apply Hr. }
    destruct (as_newkey ns T (call_key c)) as (k & Hk & Hname).
    destruct c as [key fields|key values|key values|key]; simpl in *; apply returns_bind.
    + unfold aerospike_Read. rewrite Hk. apply returns_bind. eapply returns_weaken; [apply as_get|].
      intros r s' (Hc & Hup & Hr). rewrite Hname in Hr. simpl. apply en_unchanged; try done. intros _.
      rewrite en_row_lookup. unfold as_slot. simpl. destruct r as [o|err].
      * rewrite Hr. left. destruct o as [r|]; simpl; [|by auto].
        rewrite as_row_view by (by apply (Hwf key r)). done.
      * destruct Hr as [Hn|Hr]; [right; split; [done|]; by split; left|]. left. rewrite Hr. simpl. by auto.
    + unfold aerospike_Insert. rewrite Hk.
      set (bins := map _ (range values)).
      assert (NoDup bins.*1 ∧ list_to_map bins = AsBytes <$> values ∧ (bins = [] → values = ∅)) as (Hnd & Hmap & Hnil).
      { unfold bins. split_and!.
        - change (map ?f ?l) with (f <$> l). rewrite <- list_fmap_compose. change (fst ∘ _) with (fst : string * bytes → string).
          rewrite (Permutation_map fst (range_perm values)). apply NoDup_fst_map_to_list.
        - rewrite (list_to_map_fmap AsBytes (range values)). by rewrite (range_to_map range range_perm).
        - intros H%map_eq_nil. by rewrite <- (range_to_map range range_perm values), H. }
      eapply returns_weaken; [apply as_putbins; [done|]|].
      { apply Forall_forall. intros fv (p & <- & Hp)%list_elem_of_In%in_map_iff. apply list_elem_of_In in Hp.
        rewrite range_perm in Hp. destruct p as [f v]. apply elem_of_map_to_list in Hp. destruct (Hargs f v Hp). simpl. eauto. }
      intros r s' [Hup Hr]. simpl. rewrite Hname, Hmap in Hr.
      apply (as_wrote T (CallInsert key values) values (bins = []) s s' r); try done. by left.
    + unfold aerospike_Update. rewrite Hk. apply returns_bind. eapply returns_weaken; [apply as_get|].
      intros r s1 (Hc & Hup & Hr). rewrite Hname in Hr. destruct r as [o|err].
      * unfold aerospike_update_write. destruct (old_bins_view T key s Hwf) as [_ Hold].
        assert (match o with Some r => as_Bins r | None => ∅ end = old_bins (ct s) (as_slot T key)) as ->
          by (unfold old_bins, as_slot; by rewrite Hr).
        eapply returns_weaken; [apply as_put; by apply as_bins_good|]. intros r s' [Hup' Hs]. simpl.
        rewrite Hname, Hc in Hs. change (ns, T, key) with (as_slot T key) in Hs.
        rewrite <- (assoc_L (∪)), (idemp_L (∪)) in Hs.
        apply (as_wrote T (CallUpdate key values) values ((AsBytes <$> values) ∪ old_bins (ct s) (as_slot T key) = ∅) s s' r);
          [done|auto|done|by right| |].
        -- intros He. apply map_empty. intros f. apply (f_equal (.!! f)) in He. rewrite lookup_union, lookup_fmap, lookup_empty in He.
           by destruct (values !! f), (old_bins _ _ !! f).
        -- case_decide; [done|]. destruct Hs as [g Hs]. exists g. destruct r; [|done]. destruct Hs. split; [auto|done].
      * simpl. apply en_unchanged; try done. intros _. destruct Hr as [Hn|Hr]; [right; split; [done|]; by split; left|].
        left. rewrite en_row_lookup. unfold as_slot. simpl. rewrite Hr. right. split; [done|]. right. by exists key.
    + unfold aerospike_Delete. rewrite Hk. eapply returns_weaken; [apply as_delete|]. intros r s' [Hup Hr]. simpl.
      rewrite Hname in Hr. eapply (en_write _ _ _ _ _ _ T (CallDelete key) s s' _ (mkRecord ∅ 0)); [done..|right; done|by destruct r].
  - intros T key n fields s Hwf. simpl. unfold aerospike_Scan, pbind.
    pose proof (as_scanall ns T s) as Hf. destruct (as_ScanAll ns T s) as [[r|?|?|] s']; try done.
    simpl in *. unfold en_wf, en_row in *. by rewrite Hf.
Defined.
End AerospikeContract.

Lemma aerospike_keeps : does_keep aerospike_does.
Proof.
  intros P c o o' a key Hd Ho Hv.
  assert (row_ok P key (default ∅ o)) as Hdef by (destruct o; [done|apply row_ok_empty]).
  destruct c as [k fields|k values|k values|k]; simpl in *; [| | |by destruct Hd as [-> ->]].
  - destruct Hd as [-> Hd]. split; [done|]. destruct o; [by subst|]. destruct Hd as [-> |Hd]; [apply row_ok_empty|by destruct a].
  - destruct Hd as [[-> ->]|[-> Hd]]; [split; [by apply map_Forall_union_2|done]|]. split; [done|].
    destruct a as [v|]; [|done]. destruct Hd as [[_ Hd]|(? & ? & _)]; [by destruct (Hd v)|done].
  - destruct Hd as [[-> ->]|[-> Hd]]; [split; [by apply map_Forall_union_2|done]|]. split; [done|].
    destruct a as [v|]; [|done]. destruct Hd as [[_ Hd]|(? & _ & _ & ?)]; [by destruct (Hd v)|done].
Qed.
