(* ===== verification/CloudBindings.v ===== *)
(** * CloudBindings: DynamoDB, MinIO, Elasticsearch and Pegasus
    (src/go-ycsb-vendor/db: dynamodb/db.go, minio/db.go, elasticsearch/db.go,
    pegasus/db.go)

    The bindings whose reads do not give back the rows that were written, with the
    theorems that say what they give instead, and the life of DynamoDB's table. *)

From Stdlib Require Import Ascii.
From S2P Require Import Prelude GoLib GoParse Storage YcsbUtil Json Float64 Generators Ycsb TableDb KvStore DocStore DocBindings.

Open Scope Z_scope.

(** [p.MustGetString] and [p.MustGetInt]: a property that is not there, or is not
    a number, ends the process. *)
Definition MustGetString (p : Properties) (key : string) : Outcome string :=
  if p_Has p key then Ok (GetString p key "") else Exit "unknown property".
Definition MustGetInt (p : Properties) (key : string) : Outcome Z :=
  if GetInt p key 0 =? GetInt p key 1 then Ok (GetInt p key 0) else Exit "unknown property or invalid syntax".

(** ** DynamoDB *)

Record dynamodbWrapper := mkDynamo {
  dw_tablename : string; dw_primarykey : string;
  dw_readCapacityUnits : Z; dw_writeCapacityUnits : Z;
  dw_consistentRead : bool; dw_deleteAfterRun : bool; dw_command : string;
}.

Inductive dy_attr := DyB (v : bytes) | DyOther.
Abbreviation item := (gmap string dy_attr).

(** Whether a table is there, or why that is not known. *)
Inductive dy_described := DyFound | DyNotFound | DyFailed (err : error).

(** [dy_LoadDefaultConfig] is given a region and an endpoint, each if it is set;
    an update without an expression sets nothing. *)
Class DynamoDriver (E : Type) := mkDynamoDriver {
  dy_LoadDefaultConfig : option string → option string → PM E (option error);
  dy_DescribeTable : string → PM E dy_described;
  dy_CreateTable : string → string → Z → Z → PM E (option error);
  dy_WaitExists : string → PM E (option error);
  dy_DeleteTable : string → PM E (option error);
  dy_WaitNotExists : string → PM E (option error);
  dy_GetItem : string → item → bool → PM E (item + error);
  dy_UpdateItem : string → item → option (list (string * dy_attr)) → PM E (option error);
  dy_PutItem : string → item → PM E (option error);
  dy_DeleteItem : string → item → PM E (option error);
  dy_MarshalMap : row → item + error;
  dy_UnmarshalMap : item → row + error;
}.

Section Dynamo.
Context {E : Type} `{!DynamoDriver E}.
Context (range : row → list (string * bytes)).

Definition dynamo_GetKey (r : dynamodbWrapper) (key : string) : item := {[dw_primarykey r := DyB (go_bytes key)]}.

Definition dynamo_Read (r : dynamodbWrapper) (table key : string) (fields : list string) : PM E (row + error) :=
  response <~ dy_GetItem (dw_tablename r) (dynamo_GetKey r key) (dw_consistentRead r) ;;
  pret (match response with inr err => inr err | inl it => dy_UnmarshalMap it end).

Definition dynamo_Scan (table startKey : string) (count : Z) (fields : list string) : PM E (list row + error) :=
  pret (inr "scan is not supported").

(** Without values no expression is built; that error is overwritten, and the
    missing expression is then dereferenced for the log if the update fails. *)
Definition dynamo_Update (r : dynamodbWrapper) (table key : string) (values : row) : PM E (option error) :=
  let upd := match range values with [] => None | l => Some (map (λ fv, (fv.1, DyB fv.2)) l) end in
  err <~ dy_UpdateItem (dw_tablename r) (dynamo_GetKey r key) upd ;;
  match err, upd with
  | Some _, None => pfail (Panic "invalid memory address or nil pointer dereference")
  | _, _ => pret err
  end.

(** The key becomes one of the values (in the caller's map as well, which is not
    read again). *)
Definition dynamo_Insert (r : dynamodbWrapper) (table key : string) (values : row) : PM E (option error) :=
  match dy_MarshalMap (<[dw_primarykey r := go_bytes key]> values) with
  | inr err => pfail (Panic err)
  | inl it => dy_PutItem (dw_tablename r) it
  end.

Definition dynamo_Delete (r : dynamodbWrapper) (table key : string) : PM E (option error) :=
  dy_DeleteItem (dw_tablename r) (dynamo_GetKey r key).

Definition dynamo_db (r : dynamodbWrapper) : YcsbDB E :=
  mkYcsbDB E (dynamo_Read r) dynamo_Scan (dynamo_Update r) (dynamo_Insert r) (dynamo_Delete r) None.

Definition tableExists (r : dynamodbWrapper) : PM E (bool * option error) :=
  d <~ dy_DescribeTable (dw_tablename r) ;;
  pret (match d with DyFound => (true, None) | DyNotFound => (false, None) | DyFailed err => (false, Some err) end).

Definition createTable (r : dynamodbWrapper) : PM E (option error) :=
  err <~ dy_CreateTable (dw_tablename r) (dw_primarykey r) (dw_readCapacityUnits r) (dw_writeCapacityUnits r) ;;
  match err with
  | Some err => pret (Some err)
  | None => dy_WaitExists (dw_tablename r)
  end.

Definition deleteTable (r : dynamodbWrapper) : PM E (option error) :=
  err <~ dy_DeleteTable (dw_tablename r) ;;
  match err with
  | Some err => pfail (Exit "Unable to delete table, ")
  | None =>
      err <~ dy_WaitNotExists (dw_tablename r) ;;
      match err with
      | Some err => pfail (Exit "Wait for table deletion failed. Here's why: ")
      | None => pret None
      end
  end.

Definition dynamo_Close (r : dynamodbWrapper) : PM E (option error) :=
  if String.eqb "run" (dw_command r) then
    if dw_deleteAfterRun r then deleteTable r else pret None
  else pret None.

(** The first half of [Create]: the settings. *)
Definition dynamo_settings (p : Properties) : dynamodbWrapper :=
  mkDynamo (GetString p "dynamodb.tablename" "ycsb") (GetString p "dynamodb.primarykey" "_key")
    (GetInt64 p "dynamodb.rc.units" 10) (GetInt64 p "dynamodb.wc.units" 10)
    (GetBool p "dynamodb.consistent.reads" false) (GetBool p "dynamodb.delete.after.run.stage" false)
    (GetString p "command" "").

Definition dynamo_config (p : Properties) : option string * option string :=
  let endpoint := GetString p "dynamodb.endpoint" "" in
  let region := GetString p "dynamodb.region" "" in
  let region := if go_contains endpoint "localhost" && negb (String.eqb region "localhost") then "localhost" else region in
  if String.eqb endpoint "" then (if negb (String.eqb region "") then Some region else None, None)
  else (Some region, Some endpoint).

(** The second half: the table. *)
Definition dynamo_prepare (p : Properties) (rds : dynamodbWrapper) (exists_ : bool) (err : option error) :
    PM E (dynamodbWrapper * option error) :=
  if String.eqb "load" (dw_command rds) then
    if negb exists_ then err <~ createTable rds ;; pret (rds, err)
    else if GetBool p "dynamodb.ensure.clean.table" true then
      deleteTable rds ~; err <~ createTable rds ;; pret (rds, err)
    else pret (rds, err)
  else if negb exists_ then pfail (Exit ("dynamo table named " +:+ dw_tablename rds +:+ " does not exist."))
  else pret (rds, err).

Definition dynamo_Create (p : Properties) : PM E (dynamodbWrapper * option error) :=
  let rds := dynamo_settings p in
  err <~ dy_LoadDefaultConfig (dynamo_config p).1 (dynamo_config p).2 ;;
  match err with
  | Some err => pfail (Exit "unable to load SDK config, ")
  | None => ex <~ tableExists rds ;; dynamo_prepare p rds ex.1 ex.2
  end.
End Dynamo.

(** Tables of items by their key. *)
Abbreviation dy_tables := (gmap string (gmap string item)).

(** The laws of the calls on tables, and of items with binary attributes; [dy_pk]
    is the attribute that is the key. *)
Class DynamoLaws (E : Type) `{!DynamoDriver E} `{!Contents E dy_tables} := mkDynamoLaws {
  dy_pk : string;
  dy_loadconfig region endpoint s : returns (dy_LoadDefaultConfig region endpoint s) (λ r s', ct s' = ct s ∧ (ct_up s → ct_up s' ∧ r = None));
  dy_describetable T s : returns (dy_DescribeTable T s) (λ r s', ct s' = ct s ∧ (ct_up s → ct_up s') ∧
    match r with DyFound => is_Some (ct s !! T) | DyNotFound => ct s !! T = None | DyFailed _ => ¬ ct_up s end);
  dy_createtable T pk rc wc s : returns (dy_CreateTable T pk rc wc s) (λ r s', (ct_up s → ct_up s') ∧
    match r with
    | None => ct s !! T = None ∧ ct s' = <[T := ∅]> (ct s)
    | Some _ => (¬ ct_up s ∨ is_Some (ct s !! T)) ∧ (ct s' = ct s ∨ ct s' = <[T := ∅]> (ct s))
    end);
  dy_waitexists T s : returns (dy_WaitExists T s) (λ r s', ct s' = ct s ∧ (ct_up s → ct_up s') ∧
    (ct_up s → is_Some (ct s !! T) → r = None));
  dy_deletetable T s : returns (dy_DeleteTable T s) (λ r s', (ct_up s → ct_up s') ∧
    match r with
    | None => ct s' = delete T (ct s)
    | Some _ => (¬ ct_up s ∨ ct s !! T = None) ∧ (ct s' = ct s ∨ ct s' = delete T (ct s))
    end);
  dy_waitnotexists T s : returns (dy_WaitNotExists T s) (λ r s', ct s' = ct s ∧ (ct_up s → ct_up s') ∧
    (ct_up s → ct s !! T = None → r = None));
  dy_marshal values : dy_MarshalMap values = inl (DyB <$> values);
  dy_unmarshal values : dy_UnmarshalMap (DyB <$> values) = inl values;
  (* the item replaces one with the same key; a consistent read sees it *)
  dy_putitem T (key : string) it s : it !! dy_pk = Some (DyB (go_bytes key)) →
    returns (dy_PutItem T it s) (λ r s', (ct_up s → ct_up s') ∧
      (ct_up s → is_Some (ct s !! T) → r = None ∧ ct s' = alter <[key := it]> T (ct s)));
  dy_getitem T (key : string) s :
    returns (dy_GetItem T {[dy_pk := DyB (go_bytes key)]} true s) (λ r s', ct s' = ct s ∧
      (ct_up s → is_Some (ct s !! T) → r = inl (default ∅ (ct s !! T ≫= (.!! key)))));
}.

Section DynamoTheory.
Context {E : Type} `{!DynamoDriver E, !Contents E dy_tables, !DynamoLaws E}.
Context (range : row → list (string * bytes)).

(** Making a table that is not there, and removing one that is. *)
Lemma createTable_ok (r : dynamodbWrapper) (s : E) : ct_up s → ct s !! dw_tablename r = None →
  returns (createTable r s) (λ err s', err = None ∧ ct_up s' ∧ ct s' = <[dw_tablename r := ∅]> (ct s)).
Proof.
  intros Hup Hn. apply returns_bind. eapply returns_weaken; [apply dy_createtable|]. intros [err|] s1 [Hu1 Hr1].
  - destruct Hr1 as [[?|[? ?]] _]; [done|congruence].
  - destruct Hr1 as [_ Hr1]. eapply returns_weaken; [apply dy_waitexists|]. intros err s2 (Hc & Hu2 & Hr2).
    split; [|split; [auto|congruence]]. apply Hr2; [auto|]. rewrite Hr1, lookup_insert_eq. by eexists.
Qed.

Lemma deleteTable_ok (r : dynamodbWrapper) (s : E) : ct_up s → is_Some (ct s !! dw_tablename r) →
  returns (deleteTable r s) (λ err s', err = None ∧ ct_up s' ∧ ct s' = delete (dw_tablename r) (ct s)).
Proof.
  intros Hup [t Ht]. apply returns_bind. eapply returns_weaken; [apply dy_deletetable|]. intros [err|] s1 [Hu1 Hr1].
  - destruct Hr1 as [[?|?] _]; [done|congruence].
  - apply returns_bind. eapply returns_weaken; [apply dy_waitnotexists|]. intros err s2 (Hc & Hu2 & Hr2).
    rewrite Hr2; [|auto|by rewrite Hr1, lookup_delete_eq]. simpl. split; [done|]. split; [auto|congruence].
Qed.

Lemma tableExists_ok (r : dynamodbWrapper) (s : E) : ct_up s →
  returns (tableExists r s) (λ ex s', ex = (bool_decide (is_Some (ct s !! dw_tablename r)), None) ∧ ct_up s' ∧ ct s' = ct s).
Proof.
  intros Hup. apply returns_bind. eapply returns_weaken; [apply dy_describetable|]. intros [| |err] s' (Hc & Hu & Hr); simpl.
  - rewrite bool_decide_true by done. auto.
  - rewrite bool_decide_false by (rewrite Hr; by intros []). auto.
  - done.
Qed.

(** The table after [Create]: loading makes it, afresh unless told to keep it;
    other commands want it to be there. *)
Lemma dynamo_Create_ok (p : Properties) (s : E) (r := dynamo_settings p) (T := dw_tablename r) : ct_up s →
  if String.eqb "load" (dw_command r) then
    returns (dynamo_Create p s) (λ res s', res = (r, None) ∧ ct_up s' ∧
      ct s' = if decide (is_Some (ct s !! T)) then
                if GetBool p "dynamodb.ensure.clean.table" true then <[T := ∅]> (ct s) else ct s
              else <[T := ∅]> (ct s))
  else match dynamo_Create p s with
       | (Ok res, s') => is_Some (ct s !! T) ∧ res = (r, None) ∧ ct_up s' ∧ ct s' = ct s
       | (Exit _, _) => ct s !! T = None
       | _ => False
       end.
Proof.
  intros Hup. subst T.
  assert (∃ s2, dynamo_Create p s = dynamo_prepare p r (bool_decide (is_Some (ct s !! dw_tablename r))) None s2 ∧
    ct_up s2 ∧ ct s2 = ct s) as (s2 & -> & Hu2 & Hc2).
  { unfold dynamo_Create, pbind. fold r. pose proof (dy_loadconfig (dynamo_config p).1 (dynamo_config p).2 s) as Hcfg.
    destruct (dy_LoadDefaultConfig _ _ s) as [[e|?|?|] s1]; try done. destruct Hcfg as [Hc1 Hcfg]. destruct (Hcfg Hup) as [Hu1 ->].
    pose proof (tableExists_ok r s1 Hu1) as Hex. destruct (tableExists r s1) as [[ex|?|?|] s2]; try done.
    destruct Hex as (-> & Hu2 & Hc2). exists s2. rewrite Hc1 in *. done. }
  unfold dynamo_prepare. destruct (String.eqb "load" (dw_command r)).
  - case_bool_decide as Hs; simpl.
    + rewrite decide_True by done. destruct (GetBool p "dynamodb.ensure.clean.table" true); [|simpl; auto].
      apply returns_bind. eapply returns_weaken; [apply deleteTable_ok; [done|by rewrite Hc2]|]. intros err s3 (_ & Hu3 & Hc3).
      apply returns_bind. eapply returns_weaken; [apply createTable_ok; [done|rewrite Hc3; apply lookup_delete_eq]|].
      intros err' s4 (-> & Hu4 & Hc4). simpl. split; [done|]. split; [done|]. rewrite Hc4, Hc3, Hc2. apply insert_delete_eq.
    + rewrite decide_False by done. apply returns_bind.
      eapply returns_weaken; [apply createTable_ok; [done|rewrite Hc2; by apply eq_None_not_Some]|].
      intros err' s4 (-> & Hu4 & Hc4). simpl. split; [done|]. split; [done|]. by rewrite Hc4, Hc2.
  - case_bool_decide as Hs; simpl; [done|]. by apply eq_None_not_Some.
Qed.

(** A row that was inserted, read consistently. *)
Lemma dynamo_insert_read (r : dynamodbWrapper) T0 T1 key values fields (s : E) :
  dw_consistentRead r = true → dw_primarykey r = dy_pk → ct_up s → is_Some (ct s !! dw_tablename r) →
  returns ((dynamo_Insert r T0 key values ~; dynamo_Read r T1 key fields) s)
    (λ res _, res = inl (<[dw_primarykey r := go_bytes key]> values)).
Proof.
  intros Hr Hpk Hup [t Ht]. unfold dynamo_Insert, dynamo_Read. rewrite dy_marshal. apply returns_bind.
  eapply returns_weaken; [apply (dy_putitem _ key); rewrite Hpk, lookup_fmap, lookup_insert_eq; done|].
  intros e s1 [Hu1 Hr1]. destruct (Hr1 Hup) as [-> Hc1]; [by eexists|]. apply returns_bind. rewrite Hr. unfold dynamo_GetKey. rewrite Hpk.
  eapply returns_weaken; [apply dy_getitem|]. intros resp s2 [Hc2 Hr2]. simpl. rewrite Hr2.
  - rewrite Hc1, lookup_alter_eq, Ht. simpl. rewrite lookup_insert_eq. simpl. unfold id. by rewrite dy_unmarshal, Hpk.
  - auto.
  - rewrite Hc1, lookup_alter_eq, Ht. by eexists.
Qed.
End DynamoTheory.

(** ** MinIO *)

(** An object is opened and then read; a listing gives the keys with a prefix. *)
Class MinioDriver (E : Type) := mkMinio {
  mi_obj : Type;
  mi_GetObject : string → string → PM E (mi_obj + error);
  mi_ReadAll : mi_obj → PM E (bytes + error);
  mi_ListObjects : string → string → PM E (list string);
  mi_PutObject : string → string → bytes → PM E (option error);
  mi_RemoveObject : string → string → PM E (option error);
}.

Section Minio.
Context {E : Type} `{!MinioDriver E}.
Context (range : row → list (string * bytes)).

Definition minio_Read (table key : string) (fields : list string) : PM E (row + error) :=
  obj <~ mi_GetObject table key ;;
  match obj with
  | inr err => pret (inr err)
  | inl obj =>
      bs <~ mi_ReadAll obj ;;
      pret (match bs with inr err => inr err | inl bs => inl {["field0" := bs]} end)
  end.

Definition minio_Scan (table startKey : string) (count : Z) (fields : list string) : PM E (list row + error) :=
  make_rows count ~;
  ch <~ mi_ListObjects table startKey ;;
  pret (inl (pad_rows count (map (λ k, {[k := []]}) (take (Z.to_nat count) ch)))).

(** The first value the loop over the map meets. *)
Definition minio_Update (table key : string) (values : row) : PM E (option error) :=
  mi_PutObject table key (match range values with [] => [] | (_, v) :: _ => v end).

Definition minio_Insert := minio_Update.
Definition minio_Delete (table key : string) : PM E (option error) := mi_RemoveObject table key.

Definition minio_db : YcsbDB E := mkYcsbDB E minio_Read minio_Scan minio_Update minio_Insert minio_Delete None.
End Minio.

(** Whatever was written, a row that is read has the field [field0] only. *)
Lemma minio_read_field {E} `{!MinioDriver E} T key fields (s s' : E) r :
  minio_Read T key fields s = (Ok (inl r), s') → ∃ v, r = {["field0" := v]}.
Proof.
  unfold minio_Read, pbind. destruct (mi_GetObject T key s) as [[[obj|err]|?|?|] s1]; try done.
  destruct (mi_ReadAll obj s1) as [[[bs|err]|?|?|] s2]; try done. intros [= <- _]. by exists bs.
Qed.

(** ** Elasticsearch *)

Inductive es_action := EsIndex | EsUpdate | EsDelete.

(** The settings of the client and of the bulk indexer that come from the
    properties; the backoff and the timeouts are fixed. *)
Record es_config := mkEsConfig {
  es_Addresses : list string; es_RetryOnStatus : list Z; es_MaxRetries : Z;
  es_Username : string; es_Password : string; es_InsecureSkipVerify : bool;
}.
Record es_bulk := mkEsBulk {
  eb_Index : string; eb_NumWorkers : Z; eb_FlushBytes : Z; eb_FlushInterval : Z; eb_Refresh : string;
}.

(** The body of the response to a get; an item given to the bulk indexer; and the
    calls on the index, whose response may be one of an error. *)
Class ElasticDriver (E : Type) := mkElastic {
  es_Get : string → string → PM E (bytes + error);
  es_Add : es_action → string → option bytes → PM E (option error);
  es_NewClient : es_config → PM E (option error);
  es_NewBulkIndexer : es_bulk → PM E (option error);
  es_DeleteIndex : string → PM E (bool + error);            (* res.IsError() *)
  es_CreateIndex : string → Z → Z → PM E (bool + error);
}.

Record elastic := mkElasticDB { el_indexName : string; el_verbose : bool }.

Section Elastic.
Context {E : Type} `{!ElasticDriver E}.

(** The whole response is decoded into the row, and the error of that ignored. *)
Definition elastic_Read (m : elastic) (table key : string) (fields : list string) : PM E (row + error) :=
  res <~ es_Get (el_indexName m) key ;;
  pret (match res with inr err => inr err | inl body => inl (default ∅ (Decode_into body None).1) end).

Definition elastic_Scan (table startKey : string) (count : Z) (fields : list string) : PM E (list row + error) :=
  pret (inr "scan is not supported").

Definition elastic_add (action : es_action) (key : string) (values : row) : PM E (option error) :=
  match Marshal values with
  | inr err => pret (Some err)
  | inl data => es_Add action key (Some data)
  end.

Definition elastic_Insert (table key : string) (values : row) : PM E (option error) := elastic_add EsIndex key values.
Definition elastic_Update (table key : string) (values : row) : PM E (option error) := elastic_add EsUpdate key values.
Definition elastic_Delete (table key : string) : PM E (option error) := es_Add EsDelete key None.

Definition elastic_db (m : elastic) : YcsbDB E :=
  mkYcsbDB E (elastic_Read m) elastic_Scan elastic_Update elastic_Insert elastic_Delete None.

(** [Create] after the clients are made: for the load command the index is made
    anew.  [None] is the nil database; a response that is not there is
    dereferenced by [res.IsError()]. *)
Definition elastic_recreate (p : Properties) (iname : string) : PM E (option (option error)) :=
  r <~ es_DeleteIndex iname ;;
  match r with
  | inr err => pret (Some (Some err))
  | inl true => pret (Some None)
  | inl false =>
      r <~ es_CreateIndex iname (GetInt p "es.number_of_shards" 1) (GetInt p "es.number_of_replicas" 0) ;;
      let failOnCreate := GetBool p "es.exit.on.index.create.fail" false in
      match r with
      | inr err => if failOnCreate then pret (Some (Some err)) else pfail (Panic "invalid memory address or nil pointer dereference")
      | inl isError => if isError && failOnCreate then pret (Some (Some "Cannot create index: ")) else pret None
      end
  end.

Definition elastic_config (p : Properties) : es_config :=
  mkEsConfig (go_split ","%char (GetString p "es.hosts.list" "http://127.0.0.1:9200")) [502; 503; 504; 429]
    (GetInt p "es.max_retires" 10) (GetString p "es.username" "elastic") (GetString p "es.password" "")
    (GetBool p "es.insecure.ssl" false).

(** [numCPU] is [runtime.NumCPU()]; the interval is computed in [int]. *)
Definition elastic_bulk (numCPU : Z) (p : Properties) : es_bulk :=
  mkEsBulk (GetString p "es.index" "ycsb") (GetInt p "es.bulk.num_workers" numCPU) (GetInt p "es.bulk.flush_bytes" 5000000)
    (wrap64 (GetInt p "es.bulk.flush_interval_secs" 30 * 1000000000))
    (if GetInt p "batch.size" 1 <=? 1 then "wait_for" else "false").

Definition elastic_Create (numCPU : Z) (p : Properties) : PM E (option elastic * option error) :=
  err <~ es_NewClient (elastic_config p) ;;
  match err with
  | Some err => pret (None, Some err)
  | None =>
      err <~ es_NewBulkIndexer (elastic_bulk numCPU p) ;;
      match err with
      | Some err => pret (None, Some err)
      | None =>
          let iname := GetString p "es.index" "ycsb" in
          let m := mkElasticDB iname (GetBool p "verbose" false) in
          if String.eqb "load" (GetString p "command" "") then
            stop <~ elastic_recreate p iname ;;
            pret (match stop with Some err => (None, err) | None => (Some m, None) end)
          else pret (Some m, None)
      end
  end.
End Elastic.

(** The fields of a map decoded from an object are names of its members. *)
Lemma into_members_names l : ∀ m f, is_Some ((into_members l m).1 !! f) → is_Some (m !! f) ∨ f ∈ l.*1.
Proof.
  induction l as [|[k j] l IH]; intros m f; [by left|]. simpl. destruct (into_bytes j) as [b e].
  destruct (into_members l (<[k := b]> m)) as [m' e'] eqn:Em. simpl. intros H.
  pose proof (IH (<[k := b]> m) f) as Hf. rewrite Em in Hf. destruct (Hf H) as [Hi|Hi].
  - destruct (decide (f = k)) as [->|Hne]; [right; by left|]. rewrite lookup_insert_ne in Hi by congruence. by left.
  - right. by right.
Qed.

(** ** Pegasus *)

Class PegasusDriver (E : Type) := mkPegasus {
  ps_session : Type;
  ps_OpenTable : string → PM E (ps_session + error);
  ps_Get : ps_session → bytes → option bytes → PM E (bytes + error);
  ps_Set : ps_session → bytes → option bytes → bytes → PM E (option error);
  ps_Del : ps_session → bytes → option bytes → PM E (option error);
}.

Section Pegasus.
Context {E : Type} `{!PegasusDriver E}.
(** The thread of the caller and the sessions, one for each thread. *)
Context (tid : nat) (sessions : list ps_session).

Definition with_session {A} (f : ps_session → PM E A) : PM E A :=
  match sessions !! tid with Some s => f s | None => pfail (Panic "index out of range") end.

(** [json.Unmarshal] into a map that is not behind a pointer is refused, and its
    error ignored: the map stays nil. *)
Definition pegasus_value (rawValue : bytes) : row := ∅.

Definition pegasus_Read (table key : string) (fields : list string) : PM E (row + error) :=
  with_session (λ s,
    r <~ ps_Get s (go_bytes key) (Some []) ;;
    pret (match r with
          | inr err => inr err
          | inl rawValue =>
              inl (fold_left (λ result field,
                match pegasus_value rawValue !! field with Some v => <[field := v]> result | None => result end) fields ∅)
          end)).

Definition pegasus_Scan (table startKey : string) (count : Z) (fields : list string) : PM E (list row + error) := pret (inl []).

(** An error of [json.Marshal] is ignored too; it has none here. *)
Definition pegasus_encode (values : row) : bytes := match Marshal values with inl data => data | inr _ => [] end.

Definition pegasus_Update (table key : string) (values : row) : PM E (option error) :=
  with_session (λ s, ps_Set s (go_bytes key) None (pegasus_encode values)).
Definition pegasus_Insert (table key : string) (values : row) : PM E (option error) :=
  with_session (λ s, ps_Set s (go_bytes key) (Some []) (pegasus_encode values)).
Definition pegasus_Delete (table key : string) : PM E (option error) :=
  with_session (λ s, ps_Del s (go_bytes key) (Some [])).

Definition pegasus_db : YcsbDB E :=
  mkYcsbDB E pegasus_Read pegasus_Scan pegasus_Update pegasus_Insert pegasus_Delete None.
End Pegasus.

(** [Create]: a session for each of [k] threads. *)
Fixpoint pegasus_open {E} `{!PegasusDriver E} (tbName : string) (k : nat) : PM E (list ps_session + error) :=
  match k with
  | O => pret (inl [])
  | S k =>
      tb <~ ps_OpenTable tbName ;;
      match tb with
      | inr err => pret (inr err)
      | inl tb => rest <~ pegasus_open tbName k ;; pret (match rest with inl l => inl (tb :: l) | inr err => inr err end)
      end
  end.

Definition pegasus_Create {E} `{!PegasusDriver E} (p : Properties) : PM E (list ps_session + error) :=
  pfail (MustGetString p "meta_servers") ~;
  tbName <~ pfail (MustGetString p "table") ;;
  threadCount <~ pfail (MustGetInt p "threadcount") ;;
  make_rows threadCount ~;
  pegasus_open tbName (Z.to_nat threadCount).
