(* ===== verification/FdbBinding.v ===== *)
(** * FdbBinding: FoundationDB (src/go-ycsb-vendor/db/foundationdb/db.go)

    Every operation is a function run by [Transact], which runs it again when its
    commit is refused or its outcome is unknown: a run may follow runs of the same
    function whose writes are already in the store.  The operations of the binding
    can be repeated, so it meets the contract of [TableDb]. *)

From S2P Require Import Prelude GoLib Storage YcsbUtil Float64 Generators Ycsb TableDb KvStore.

Open Scope Z_scope.

(** ** The driver *)

Class FdbDriver (E T : Type) := mkFdb {
  fd_Transact : ∀ A, PM T (A + error) → PM E (A + error);
  fd_Get : string → PM T (option bytes + error);                       (* tr.Get(key).Get() *)
  fd_GetRange : string → string → Z → PM T (list (option bytes + error));  (* what the iterator gives *)
  fd_Set : string → bytes → PM T unit;
  fd_Clear : string → PM T unit;
}.

(** What the store may hold after unfinished attempts at running [fn]. *)
Inductive attempts {T C A} `{!Contents T C} (fn : PM T (A + error)) (c0 : C) : C → Prop :=
  | attempts_start : attempts fn c0 c0
  | attempts_unknown (t t' : T) (a : A) :
      attempts fn c0 (ct t) → fn t = (Ok (inl a), t') → attempts fn c0 (ct t').

(** The pairs from [start] on and before [stop]; a limit of zero is none. *)
Definition kv_range (start stop : string) (limit : Z) (c : gmap string bytes) : list (string * bytes) :=
  let all := List.filter (λ p, go_string_lt p.1 stop) (kv_from start c) in
  if limit =? 0 then all else take (Z.to_nat limit) all.

(** A transaction sees the store as earlier attempts left it; its writes are kept
    when the function returns no error, and discarded otherwise.  While the store
    is up no attempt is repeated. *)
Class FdbLaws (E T : Type) `{!FdbDriver E T}
    `{!Contents E (gmap string bytes)} `{!Contents T (gmap string bytes)} := mkFdbLaws {
  fd_transact A (fn : PM T (A + error)) (s : E) :
    (∃ err s', fd_Transact A fn s = (Ok (inr err), s') ∧ ¬ ct_up s ∧ attempts fn (ct s) (ct s')) ∨
    (∃ t s', attempts fn (ct s) (ct t) ∧ (ct_up s → ct t = ct s ∧ ct_up t ∧ ct_up s') ∧
       match fn t with
       | (Ok (inl a), t') => fd_Transact A fn s = (Ok (inl a), s') ∧ ct s' = ct t'
       | (o, _) => fd_Transact A fn s = (o, s') ∧ ct s' = ct t
       end);
  fd_get key : ct_reads (fd_Get (E := E) (T := T) key) (.!! key);
  fd_getrange start stop limit t : 0 <= limit → returns (fd_GetRange (E := E) start stop limit t) (λ l t',
    ct t' = ct t ∧ (ct_up t → ct_up t') ∧ ∀ v, inl (Some v) ∈ l → v ∈ (kv_range start stop limit (ct t)).*2);
  fd_getrange_negative start stop limit t :
    match fd_GetRange (E := E) start stop limit t with (Exit _, _) => False | (_, t') => ct t' = ct t end;
  fd_set key v t : returns (fd_Set (E := E) key v t) (λ _ t', ct t' = <[key := v]> (ct t));
  fd_clear key t : returns (fd_Clear (E := E) key t) (λ _ t', ct t' = delete key (ct t));
}.

(** ** The binding *)

Section Fdb.
Context {E T : Type} `{!FdbDriver E T}.
Context (n : Z) (range : row → list (string * bytes)).

Definition fdb_getRowKey (table key : string) : string := row_key table key.
Definition fdb_getEndRowKey (table : string) : string := table +:+ ";".

(** The function returns the []byte of [f.Get()] as an interface, which is then
    never nil: a row that is not there is decoded from no bytes. *)
Definition fdb_Read (table key : string) (fields : list string) : PM E (row + error) :=
  r <~ fd_Transact (option bytes) (fd_Get (E := E) (fdb_getRowKey table key)) ;;
  match r with
  | inr err => pret (inr err)
  | inl data => decode n (default [] data) fields
  end.

(** The loop over the iterator. *)
Fixpoint fdb_rows (fields : list string) (l : list (option bytes + error)) : PM T (list row + error) :=
  match l with
  | [] => pret (inl [])
  | inr err :: _ => pret (inr err)
  | inl None :: l =>
      rest <~ fdb_rows fields l ;; pret (match rest with inl rows => inl (∅ :: rows) | inr err => inr err end)
  | inl (Some data) :: l =>
      v <~ decode n data fields ;;
      match v with
      | inr err => pret (inr err)
      | inl v =>
          rest <~ fdb_rows fields l ;; pret (match rest with inl rows => inl (v :: rows) | inr err => inr err end)
      end
  end.

Definition fdb_Scan (table startKey : string) (count : Z) (fields : list string) : PM E (list row + error) :=
  fd_Transact (list row) (
    l <~ fd_GetRange (E := E) (fdb_getRowKey table startKey) (fdb_getEndRowKey table) count ;;
    if count <? 0 then pfail (Panic "makeslice: cap out of range") else fdb_rows fields l).

(** The function of [Update]; a row that is not there is left alone. *)
Definition fdb_update_txn (table key : string) (values : row) : PM T (unit + error) :=
  r <~ fd_Get (E := E) (fdb_getRowKey table key) ;;
  match r with
  | inr err => pret (inr err)
  | inl None => pret (inl tt)
  | inl (Some data) =>
      data <~ decode n data [] ;;
      match data with
      | inr err => pret (inr err)
      | inl data =>
          buf <~ encode n range (values ∪ data) ;;
          match buf with
          | inr err => pret (inr err)
          | inl buf => fd_Set (E := E) (fdb_getRowKey table key) buf ~; pret (inl tt)
          end
      end
  end.

Definition error_of {A} (r : A + error) : option error := match r with inl _ => None | inr err => Some err end.

Definition fdb_Update (table key : string) (values : row) : PM E (option error) :=
  r <~ fd_Transact unit (fdb_update_txn table key values) ;; pret (error_of r).

Definition fdb_Insert (table key : string) (values : row) : PM E (option error) :=
  buf <~ encode n range values ;;
  match buf with
  | inr err => pret (Some err)
  | inl buf =>
      r <~ fd_Transact unit (fd_Set (E := E) (fdb_getRowKey table key) buf ~; pret (inl tt)) ;; pret (error_of r)
  end.

Definition fdb_Delete (table key : string) : PM E (option error) :=
  r <~ fd_Transact unit (fd_Clear (E := E) (fdb_getRowKey table key) ~; pret (inl tt)) ;; pret (error_of r).

Definition fdb_db : YcsbDB E := mkYcsbDB E fdb_Read fdb_Scan fdb_Update fdb_Insert fdb_Delete None.
End Fdb.

(** ** Transactions that can be repeated *)

Lemma kv_range_from start stop limit c p : p ∈ kv_range start stop limit c → p ∈ kv_from start c.
Proof.
  unfold kv_range. intros Hp.
  assert (p ∈ List.filter (λ p, go_string_lt p.1 stop) (kv_from start c)) as H.
  { destruct (limit =? 0); [done|]. apply elem_of_take in Hp as (i & Hi & _). by eapply list_elem_of_lookup_2. }
  rewrite list_elem_of_In, filter_In in H. destruct H as [H _]. by apply list_elem_of_In.
Qed.

Section Repeatable.
Context {E T : Type} `{!FdbDriver E T, !Contents E (gmap string bytes), !Contents T (gmap string bytes), !FdbLaws E T}.

(** Whatever holds before and after every successful run holds between attempts. *)
Lemma attempts_inv {A} (fn : PM T (A + error)) (P : gmap string bytes → Prop) c0 c :
  (∀ t a t', P (ct t) → fn t = (Ok (inl a), t') → P (ct t')) → P c0 → attempts fn c0 c → P c.
Proof. intros Hfn H0. induction 1 as [|t t' a _ IH Hr]; [done|]. by eapply Hfn. Qed.

(** A function that keeps the contents within [P] and leaves them within [Q]. *)
Lemma transact_returns {A} (fn : PM T (A + error)) (s : E) (P Q : gmap string bytes → Prop) (R : A → Prop) (fault : Prop) :
  P (ct s) → (∀ c, Q c → P c) → (¬ ct_up s → fault) →
  (∀ t, P (ct t) → returns (fn t) (λ r t',
     match r with inl a => Q (ct t') ∧ R a | inr _ => (ct_up s → ct_up t) → fault end)) →
  returns (fd_Transact A fn s) (λ r s', (ct_up s → ct_up s') ∧
    match r with inl a => Q (ct s') ∧ R a | inr _ => fault ∧ P (ct s') end).
Proof.
  intros HP HQ Hf Hfn.
  assert (∀ c, attempts fn (ct s) c → P c) as Hatt.
  { intros c. apply attempts_inv; [|done]. intros t a t' Ht Hr. specialize (Hfn t Ht). rewrite Hr in Hfn. by apply HQ, Hfn. }
  destruct (fd_transact A fn s) as [(err & s' & -> & Hu & Ha)|(t & s' & Ha & Hu & Hr)]; simpl.
  - split; [done|]. split; [auto|]. by apply Hatt.
  - pose proof (Hatt _ Ha) as Ht. specialize (Hfn t Ht). destruct (fn t) as [[[a|err]|?|?|] t']; simpl in Hfn; try done;
      destruct Hr as [-> Hc]; simpl; rewrite Hc; (split; [by intros (_ & _ & ?)%Hu|]); [done|].
    split; [|done]. apply Hfn. by intros (_ & ? & _)%Hu.
Qed.
End Repeatable.

(** ** The binding meets the contract of tables *)

Section Contract.
Context (n : Z) (range : row → list (string * bytes)).
Context (n_small : n <= 2 ^ 63) (range_perm : ∀ m, range m ≡ₚ map_to_list m).
Context {E T : Type} `{!FdbDriver E T, !Contents E (gmap string bytes), !Contents T (gmap string bytes), !FdbLaws E T}.

#[local] Instance fdb_ycsb : YcsbDB E := fdb_db n range.

Lemma fdb_rows_returns fields l (t : T) : (∀ v, inl (Some v) ∈ l → decodable n v) →
  returns (fdb_rows (T := T) n fields l t) (λ _ t', t' = t).
Proof.
  revert t. induction l as [|[[data|]|err] l IH]; intros t Hl; [done| | |done]; cbn [fdb_rows].
  - destruct (decode_decodable n (S := T) data fields) as (d & ->); [apply Hl; by left|]. unfold pbind at 1. simpl.
    destruct d as [v|err]; [|done]. apply returns_bind. eapply returns_weaken; [apply IH; intros v' Hv; apply Hl; by right|].
    by intros rest t' ->.
  - apply returns_bind. eapply returns_weaken; [apply IH; intros v' Hv; apply Hl; by right|]. by intros rest t' ->.
Qed.

(** Running the function of [Update], before or after it took effect. *)
Lemma fdb_update_run table key values m (t : T) :
  let m' := <[key := values ∪ old_row m key]> m in
  kv_fits n values → kv_rel n (row_key table) (ct t) m ∨ kv_rel n (row_key table) (ct t) m' →
  returns (fdb_update_txn (E := E) n range table key values t) (λ r t',
    match r with
    | inl _ => kv_rel n (row_key table) (ct t') m' ∨ (m !! key = None ∧ kv_rel n (row_key table) (ct t') m)
    | inr _ => ¬ ct_up t
    end).
Proof.
  intros m' Hfits Hrel. unfold fdb_update_txn. eapply reads_bind; [apply fd_get|]. intros [data|err] t1 Hc Hu Hr; [|done].
  subst data. unfold fdb_getRowKey. destruct (ct t !! row_key table key) as [data|] eqn:Ed.
  - assert (∃ m0, kv_rel n (row_key table) (ct t) m0 ∧ <[key := values ∪ old_row m0 key]> m0 = m') as (m0 & Hrel0 & Hm0).
    { destruct Hrel as [H|H]; [by exists m|]. exists m'. split; [done|]. unfold m', old_row. rewrite lookup_insert_eq. simpl.
      rewrite insert_insert_eq. f_equal. by rewrite (assoc_L (∪)), (idemp_L (∪) values). }
    destruct (kv_rel_some n (row_key table) (ct t) m0 key data Hrel0 Ed) as (r & Hm & Hf & He).
    rewrite (decode_whole n data r He).
    destruct (kv_rel_merge n range n_small range_perm (S := T) (row_key table) (ct t) m0 key values r Hrel0 Hfits Hm) as (buf & Henc & Hrel').
    unfold pbind at 1. simpl. unfold pbind at 1. rewrite Henc. simpl.
    apply returns_bind. eapply returns_weaken; [apply fd_set|]. intros ? t2 Hc2. simpl. left. rewrite Hc2, Hc, <- Hm0. exact Hrel'.
  - simpl. destruct Hrel as [H|H].
    + right. rewrite Hc. split; [|done]. by eapply (kv_rel_none n (row_key table)).
    + pose proof (kv_rel_none n (row_key table) (ct t) m' key H Ed) as Hn. unfold m' in Hn. by rewrite lookup_insert_eq in Hn.
Qed.

(** A transaction that writes without reading. *)
Lemma fdb_blind table (fn : PM T (unit + error)) f (s : E) m m' :
  store_rel n table s m → (∀ t, returns (fn t) (λ r t', r = inl tt ∧ ct t' = f (ct t))) →
  (∀ c, kv_rel n (row_key table) c m ∨ kv_rel n (row_key table) c m' → kv_rel n (row_key table) (f c) m') →
  returns ((r <~ fd_Transact unit fn ;; pret (error_of r)) s) (λ r s', (ct_up s → ct_up s') ∧
    write_result (store_rel n table) (ct_up s) False m m' r s').
Proof.
  intros Hrel Hfn Hf. apply returns_bind.
  eapply returns_weaken; [apply (transact_returns fn s
    (λ c, kv_rel n (row_key table) c m ∨ kv_rel n (row_key table) c m') (λ c, kv_rel n (row_key table) c m') (λ _, True) (¬ ct_up s))|].
  - by left.
  - by right.
  - done.
  - intros t Ht. eapply returns_weaken; [apply Hfn|]. intros r t' [-> ->]. split; [by apply Hf|done].
  - intros [u|err] s' [Hu Hr]; simpl; (split; [done|]); [left; apply Hr|]. destruct Hr as [Hn Hr].
    split; [by left|]. exact Hr.
Qed.

#[local, refine] Instance fdb_tables : TableDB E :=
  mkTableDB E fdb_ycsb (kv_knows n) kv_value ct_up (store_rel n) _ _ _ _ _ _.
Proof.
  - intros table key fields s m Hrel. simpl. unfold fdb_Read. apply returns_bind.
    eapply returns_weaken; [apply (transact_returns _ s (λ c, c = ct s) (λ c, c = ct s) (λ a, a = ct s !! row_key table key) (¬ ct_up s))|];
      [done|done|done| |].
    { intros t Ht. eapply returns_weaken; [apply fd_get|]. intros [a|err] t' (Hc & Hu & Hr); [|tauto].
      rewrite Hc, Ht in *. by subst a. }
    intros [a|err] s' [Hu Hr]; [|destruct Hr as [Hn Hc]; simpl; unfold store_rel; rewrite Hc; naive_solver].
    destruct Hr as [Hc ->]. destruct (ct s !! row_key table key) as [data|] eqn:Ed; cbn [from_option].
    + destruct (kv_rel_some n (row_key table) (ct s) m key data Hrel Ed) as (r & Hm & Hf & He).
      destruct (decode_encodes n (S := E) data r fields He) as (res & Hd & Hres). change (id data) with data. rewrite Hd. simpl.
      unfold store_rel, old_row. rewrite Hc, Hm. done.
    + rewrite decode_nil. simpl. unfold store_rel, old_row.
      rewrite Hc, (kv_rel_none n (row_key table) (ct s) m key Hrel Ed). simpl. by rewrite select_fields_empty.
  - intros table key count fields s m Hrel Hcount. simpl. unfold fdb_Scan.
    eapply returns_weaken; [apply (transact_returns _ s (λ c, c = ct s) (λ c, c = ct s) (λ _, True) True)|]; [done|done|done| |].
    + intros t Ht. apply returns_bind. eapply returns_weaken; [by apply fd_getrange|]. intros l t1 (Hc & Hu & Hl).
      destruct (Z.ltb_spec count 0); [lia|]. eapply returns_weaken; [apply fdb_rows_returns|].
      * intros v Hv. apply Hl, list_elem_of_fmap in Hv as (p & -> & Hp).
        destruct Hrel as [Hdec _]. rewrite <- Ht in Hdec.
        pose proof (kv_from_decodable n (ct t) (fdb_getRowKey table key) Hdec) as Hall. rewrite Forall_forall in Hall. apply Hall.
        by eapply kv_range_from.
      * intros [rows|err] t' ->; [|done]. by rewrite Hc.
    + intros [rows|err] s' [Hu Hr]; unfold store_rel; [destruct Hr as [-> _]|destruct Hr as [_ ->]]; done.
  - intros table key count fields s m Hrel Hcount. simpl. unfold fdb_Scan.
    set (fn := pbind _ _).
    assert (∀ t, match fn t with (Ok _, _) | (Exit _, _) => False | _ => True end) as Hfn.
    { intros t. unfold fn, pbind. pose proof (fd_getrange_negative (E := E) (fdb_getRowKey table key) (fdb_getEndRowKey table) count t) as H.
      destruct (fd_GetRange _ _ count t) as [[l|?|?|] t']; try done. by destruct (Z.ltb_spec count 0); [|lia]. }
    assert (∀ c, attempts fn (ct s) c → c = ct s) as Hatt.
    { intros c. apply (attempts_inv fn (λ c, c = ct s)); [|done]. intros t a t' _ Hr. specialize (Hfn t). by rewrite Hr in Hfn. }
    destruct (fd_transact (list row) fn s) as [(err & s' & -> & _ & Ha)|(t & s' & Ha & _ & Hr)].
    + unfold store_rel. by rewrite (Hatt _ Ha).
    + specialize (Hfn t). destruct (fn t) as [[a|?|?|] t']; try done; by destruct Hr as [-> _].
  - intros table key values s m Hrel Hfits. simpl. unfold fdb_Insert.
    destruct (encode_fits n range n_small range_perm (S := E) values Hfits) as (buf & Henc & He).
    unfold pbind at 1. rewrite He. simpl.
    eapply (fdb_blind table _ <[row_key table key := buf]>); [done| |].
    + intros t. apply returns_bind. eapply returns_weaken; [apply fd_set|]. intros ? t' Hc. by simpl.
    + intros c [Hc|Hc].
      * by apply kv_rel_insert; [apply _|..].
      * rewrite <- (insert_insert_eq m key values values). by apply kv_rel_insert; [apply _|..].
  - intros table key values s m Hrel Hfits. simpl. unfold fdb_Update. apply returns_bind.
    set (m' := <[key := values ∪ old_row m key]> m).
    eapply returns_weaken; [apply (transact_returns _ s
      (λ c, kv_rel n (row_key table) c m ∨ kv_rel n (row_key table) c m')
      (λ c, kv_rel n (row_key table) c m' ∨ (m !! key = None ∧ kv_rel n (row_key table) c m)) (λ _, True) (¬ ct_up s))|].
    + by left.
    + naive_solver.
    + done.
    + intros t Ht. eapply returns_weaken; [by apply (fdb_update_run table key values m t)|].
      intros [u|err] t' Hr; [|tauto]. done.
    + intros [u|err] s' [Hu Hr]; simpl; (split; [done|]); [apply Hr|]. destruct Hr as [Hn Hr]. split; [by left|]. exact Hr.
  - intros table key s m Hrel. simpl. unfold fdb_Delete.
    eapply (fdb_blind table _ (delete (row_key table key))); [done| |].
    + intros t. apply returns_bind. eapply returns_weaken; [apply fd_clear|]. intros ? t' Hc. by simpl.
    + intros c [Hc|Hc].
      * by apply kv_rel_delete; [apply _|].
      * rewrite <- (delete_delete_eq m key). by apply kv_rel_delete; [apply _|].
Defined.
End Contract.
