(* ===== verification/DbConfig.v ===== *)
(** * DbConfig: how the bindings are set up
    (src/go-ycsb-vendor/pkg/util/tls.go and the creators of
    src/go-ycsb-vendor/db: redis, mongodb, etcd, aerospike, minio, foundationdb)

    From the properties of a run to the options a driver is opened with. *)

From Stdlib Require Import Ascii.
From S2P Require Import Prelude GoLib GoParse Storage YcsbUtil Float64 Generators Ycsb CloudBindings.

Open Scope Z_scope.

(** [p.Get]: the value and whether it is there.  Durations are integers of
    nanoseconds, read as such by [p.GetDuration]. *)
Definition p_Get (p : Properties) (key : string) : string * bool := (GetString p key "", p_Has p key).
Definition GetDuration (p : Properties) (key : string) (d : Z) : Z := GetInt64 p key d.

(** ** TLS *)

Record tls_config := mkTls {
  tls_InsecureSkipVerify : bool;
  tls_RootCAs : option (list string);              (* the PEM texts of the pool *)
  tls_Certificates : option (string * string);     (* a certificate and its key, by path *)
}.

Section Tls.
(** Files, the parser of PEM texts and the loader of key pairs. *)
Context (ReadFile : string → string + error) (AppendCertsFromPEM : string → bool).
Context (LoadX509KeyPair : string → string → option error).

Fixpoint makeCertPool (certFiles : list string) (pool : list string) : list string + error :=
  match certFiles with
  | [] => inl pool
  | certFile :: certFiles =>
      match ReadFile certFile with
      | inr err => inr ("could not read certificate " +:+ certFile +:+ ": " +:+ err)
      | inl pem =>
          if AppendCertsFromPEM pem then makeCertPool certFiles (pool ++ [pem])
          else inr ("could not parse any PEM certificates " +:+ certFile)
      end
  end.

Definition loadCertificate (config : tls_config) (certFile keyFile : string) : tls_config + error :=
  match LoadX509KeyPair certFile keyFile with
  | Some err => inr ("could not load keypair " +:+ certFile +:+ ":" +:+ keyFile +:+ ": " +:+ err)
  | None => inl (mkTls (tls_InsecureSkipVerify config) (tls_RootCAs config) (Some (certFile, keyFile)))
  end.

Definition CreateTLSConfig (caPath certPath keyPath : string) (insecureSkipVerify : bool) : tls_config + error :=
  let tlsConfig := mkTls insecureSkipVerify None None in
  match (if negb (String.eqb caPath "") then
           match makeCertPool [caPath] [] with inr err => inr err | inl pool => inl (mkTls insecureSkipVerify (Some pool) None) end
         else inl tlsConfig) with
  | inr err => inr err
  | inl tlsConfig =>
      if negb (String.eqb certPath "") && negb (String.eqb keyPath "") then loadCertificate tlsConfig certPath keyPath
      else inl tlsConfig
  end.

(** ** Redis *)

Definition parseTLS (p : Properties) : option tls_config :=
  let caPath := (p_Get p "redis.tls_ca").1 in
  let certPath := (p_Get p "redis.tls_cert").1 in
  let keyPath := (p_Get p "redis.tls_key").1 in
  let insecureSkipVerify := GetBool p "redis.tls_insecure_skip_verify" false in
  if (negb (String.eqb certPath "") && negb (String.eqb keyPath "")) || negb (String.eqb caPath "") then
    match CreateTLSConfig caPath certPath keyPath insecureSkipVerify with inl config => Some config | inr _ => None end
  else None.

(** The options both clients have. *)
Record redis_common := mkRedisCommon {
  ro_Username : string; ro_Password : string; ro_MaxRetries : Z;
  ro_MinRetryBackoff : Z; ro_MaxRetryBackoff : Z; ro_DialTimeout : Z; ro_ReadTimeout : Z; ro_WriteTimeout : Z;
  ro_PoolSize : Z; ro_MinIdleConns : Z; ro_MaxIdleConns : Z; ro_ConnMaxLifetime : Z; ro_PoolTimeout : Z;
  ro_ConnMaxIdleTime : Z; ro_TLSConfig : option tls_config;
}.
Record redis_single := mkRedisSingle { rs_Addr : string; rs_DB : Z; rs_Network : string; rs_common : redis_common }.
Record redis_cluster := mkRedisCluster {
  rc_Addrs : list string; rc_MaxRedirects : Z; rc_ReadOnly : bool; rc_RouteByLatency : bool; rc_RouteRandomly : bool;
  rc_common : redis_common;
}.

Definition Millisecond : Z := 1000000.
Definition Second_ns : Z := 1000000000.

Definition getOptionsSingle (p : Properties) : Outcome redis_single :=
  let Addr := GetString p "redis.addr" "localhost:6379" in
  let DB := GetInt p "redis.db" 0 in
  let Network := GetString p "redis.network" "tcp" in
  let Username := GetString p "redis.username" "" in
  let Password := (p_Get p "redis.password").1 in
  let MaxRetries := GetInt p "redis.max_retries" 0 in
  let MinRetryBackoff := GetDuration p "redis.min_retry_backoff" (Millisecond * 8) in
  let MaxRetryBackoff := GetDuration p "redis.max_retry_backoff" (Millisecond * 512) in
  let DialTimeout := GetDuration p "redis.dial_timeout" (Second_ns * 5) in
  let ReadTimeout := GetDuration p "redis.read_timeout" (Second_ns * 3) in
  let WriteTimeout := GetDuration p "redis.write_timeout" ReadTimeout in
  let PoolSize := GetInt p "redis.pool_size" 0 in
  obind (MustGetInt p "threadcount") (λ threadCount,
  let PoolSize := if PoolSize =? 0 then threadCount else PoolSize in
  let MinIdleConns := GetInt p "redis.min_idle_conns" PoolSize in
  let MaxIdleConns := GetInt p "redis.max_idle_conns" PoolSize in
  let ConnMaxLifetime := GetDuration p "redis.max_conn_age" (-1) in
  let PoolTimeout := GetDuration p "redis.pool_timeout" (wrap64 (Second_ns + ReadTimeout)) in
  let ConnMaxIdleTime := GetDuration p "redis.idle_timeout" (-1) in
  Ok (mkRedisSingle Addr DB Network
    (mkRedisCommon Username Password MaxRetries MinRetryBackoff MaxRetryBackoff DialTimeout ReadTimeout WriteTimeout
       PoolSize MinIdleConns MaxIdleConns ConnMaxLifetime PoolTimeout ConnMaxIdleTime (parseTLS p)))).

Definition getOptionsCluster (p : Properties) : Outcome redis_cluster :=
  let Addrs := go_split ";" (p_Get p "redis.addr").1 in
  let MaxRedirects := GetInt p "redis.max_redirects" 0 in
  let ReadOnly := GetBool p "redis.read_only" false in
  let RouteByLatency := GetBool p "redis.route_by_latency" false in
  let RouteRandomly := GetBool p "redis.route_randomly" false in
  let Username := GetString p "redis.username" "" in
  let Password := (p_Get p "redis.password").1 in
  let MaxRetries := GetInt p "redis.max_retries" 0 in
  let MinRetryBackoff := GetDuration p "redis.min_retry_backoff" (Millisecond * 8) in
  let MaxRetryBackoff := GetDuration p "redis.max_retry_backoff" (Millisecond * 512) in
  let DialTimeout := GetDuration p "redis.dial_timeout" (Second_ns * 5) in
  let ReadTimeout := GetDuration p "redis.read_timeout" (Second_ns * 3) in
  let WriteTimeout := GetDuration p "redis.write_timeout" ReadTimeout in
  let PoolSize := GetInt p "redis.pool_size" 0 in
  obind (MustGetInt p "threadcount") (λ threadCount,
  let PoolSize := if PoolSize =? 0 then threadCount else PoolSize in
  let MinIdleConns := GetInt p "redis.min_idle_conns" PoolSize in
  let MaxIdleConns := GetInt p "redis.max_idle_conns" PoolSize in
  let ConnMaxLifetime := GetDuration p "redis.max_conn_age" (-1) in
  let PoolTimeout := GetDuration p "redis.pool_timeout" (wrap64 (Second_ns + ReadTimeout)) in
  let ConnMaxIdleTime := GetDuration p "redis.idle_timeout" (-1) in
  Ok (mkRedisCluster Addrs MaxRedirects ReadOnly RouteByLatency RouteRandomly
    (mkRedisCommon Username Password MaxRetries MinRetryBackoff MaxRetryBackoff DialTimeout ReadTimeout WriteTimeout
       PoolSize MinIdleConns MaxIdleConns ConnMaxLifetime PoolTimeout ConnMaxIdleTime (parseTLS p)))).
End Tls.

(** A client, pinged once it is made. *)
Class RedisConn (E : Type) := mkRedisConn {
  rn_Open : redis_cluster + redis_single → PM E unit;
  rn_ReloadState : PM E unit;
  rn_Ping : PM E (option error);
  rn_FlushDB : PM E (option error);
}.

Record redis := mkRedisDB { r_mode : string; r_datatype : string; r_fieldcount : Z }.

Section RedisCreate.
Context {E : Type} `{!RedisConn E}.
Context (ReadFile : string → string + error) (AppendCertsFromPEM : string → bool) (LoadX509KeyPair : string → string → option error).

Definition redis_flush (p : Properties) : PM E (option error) :=
  if GetBool p "dropdata" false then rn_FlushDB else pret None.

Definition redis_Create (p : Properties) : PM E (redis + error) :=
  let cluster := String.eqb (GetString p "redis.mode" "single") "cluster" in
  opts <~ pfail (if cluster then obind (getOptionsCluster ReadFile AppendCertsFromPEM LoadX509KeyPair p) (λ o, Ok (inl o))
                 else obind (getOptionsSingle ReadFile AppendCertsFromPEM LoadX509KeyPair p) (λ o, Ok (inr o))) ;;
  rn_Open opts ~;
  (if cluster then rn_ReloadState else pret tt) ~;
  err <~ rn_Ping ;;
  match err with
  | Some err => pret (inr err)
  | None =>
      err <~ redis_flush p ;;
      match err with
      | Some err => pret (inr err)
      | None => pret (inl (mkRedisDB (if cluster then "cluster" else "single") (GetString p "redis.datatype" "hash")
                             (GetInt64 p "fieldcount" 10)))
      end
  end.
End RedisCreate.

(** ** MongoDB *)

Record mongo_auth := mkMongoAuth { ma_AuthSource : string; ma_Username : string; ma_Password : string }.
Record mongo_opts := mkMongoOpts {
  mo_uri : string; mo_ServerName : option string; mo_InsecureSkipVerify : bool; mo_RootCAs : option string;
  mo_auth : option mongo_auth;
}.

(** The parser of connection strings, whether one asks for TLS, and the client. *)
Class MongoConn (E : Type) := mkMongoConn {
  mc_Parse : string → list string + error;
  mc_TLS : string → bool;
  mc_Connect : mongo_opts → PM E (option error);
  mc_Ping : PM E (option error);
  mc_ListDatabaseNames : PM E (option error);
}.

(** A user name and a password, or neither. *)
Definition mongo_credentials (p : Properties) : option mongo_auth + error :=
  let authdb := GetString p "mongodb.authdb" "admin" in
  let '(username, usrExist) := p_Get p "mongodb.username" in
  let '(password, pwdExist) := p_Get p "mongodb.password" in
  if usrExist && pwdExist then inl (Some (mkMongoAuth authdb username password))
  else if usrExist then inr "mongodb.username is set, but mongodb.password is missing"
  else if pwdExist then inr "mongodb.password is set, but mongodb.username is missing"
  else inl None.

Section MongoCreate.
Context {E : Type} `{!MongoConn E}.
Context (ReadFile : string → string + error) (AppendCertsFromPEM : string → bool).

(** The TLS settings of the options; a certificate that cannot be used ends the
    process. *)
Definition mongo_tls (p : Properties) (hosts : list string) (opts : mongo_opts) : Outcome mongo_opts :=
  if mc_TLS (mo_uri opts) then
    let name := match hosts with [] => mo_ServerName opts | h :: _ => head (go_split ":" h) end in
    let skip := GetBool p "mongodb.tls_skip_verify" false || mo_InsecureSkipVerify opts in
    let caFile := GetString p "mongodb.tls_ca_file" "" in
    if negb (String.eqb caFile "") then
      match ReadFile caFile with
      | inr err => Exit err
      | inl caCert =>
          if AppendCertsFromPEM caCert then Ok (mkMongoOpts (mo_uri opts) name skip (Some caCert) (mo_auth opts))
          else Exit ("certifacte " +:+ caFile +:+ " could not be parsed")
      end
    else Ok (mkMongoOpts (mo_uri opts) name skip (mo_RootCAs opts) (mo_auth opts))
  else Ok opts.

Definition mongo_Create (p : Properties) : PM E (option error) :=
  let uri := GetString p "mongodb.url" "mongodb://127.0.0.1:27017/ycsb?w=1" in
  match mc_Parse uri with
  | inr err => pret (Some err)
  | inl hosts =>
      opts <~ pfail (mongo_tls p hosts (mkMongoOpts uri None false None None)) ;;
      match mongo_credentials p with
      | inr err => pret (Some err)
      | inl auth =>
          err <~ mc_Connect (mkMongoOpts (mo_uri opts) (mo_ServerName opts) (mo_InsecureSkipVerify opts) (mo_RootCAs opts) auth) ;;
          match err with
          | Some err => pret (Some err)
          | None =>
              err <~ mc_Ping ;;
              match err with
              | Some err => pret (Some err)
              | None =>
                  err <~ mc_ListDatabaseNames ;;
                  pret (match err with Some _ => Some "auth failed" | None => None end)
              end
          end
      end
  end.
End MongoCreate.

(** ** etcd *)

Record etcd_tls := mkEtcdTls { ei_CertFile : string; ei_KeyFile : string; ei_TrustedCAFile : string }.
Record etcd_config := mkEtcdConfig { ec_Endpoints : list string; ec_DialTimeout : Z; ec_TLS : option etcd_tls }.

(** [ClientConfig] checks the files of the TLS settings. *)
Definition getClientConfig (ClientConfig : etcd_tls → option error) (p : Properties) : Outcome (etcd_config + error) :=
  let endpoints := GetString p "etcd.endpoints" "localhost:2379" in
  let dialTimeout := GetDuration p "etcd.dial_timeout" (2 * Second_ns) in
  if go_contains endpoints "https" then
    obind (MustGetString p "etcd.cert_file") (λ certFile,
    obind (MustGetString p "etcd.key_file") (λ keyFile,
    obind (MustGetString p "etcd.cacert_file") (λ caFile,
    let tlsInfo := mkEtcdTls certFile keyFile caFile in
    Ok (match ClientConfig tlsInfo with
        | Some err => inr err
        | None => inl (mkEtcdConfig (go_split "," endpoints) dialTimeout (Some tlsInfo))
        end))))
  else Ok (inl (mkEtcdConfig (go_split "," endpoints) dialTimeout None)).

Definition etcd_Create {E} (New : etcd_config → PM E (option error)) (ClientConfig : etcd_tls → option error) (p : Properties) :
    PM E (option error) :=
  cfg <~ pfail (getClientConfig ClientConfig p) ;;
  match cfg with
  | inr err => pret (Some err)
  | inl cfg => New cfg
  end.

(** ** Aerospike, MinIO and FoundationDB *)

(** The namespace, and the error of the client with it. *)
Definition aerospike_Create {E} (NewClient : string → Z → PM E (option error)) (p : Properties) : PM E (string * option error) :=
  let ns := GetString p "aerospike.ns" "test" in
  err <~ NewClient (GetString p "aerospike.host" "localhost") (GetInt p "aerospike.port" 3000) ;;
  pret (ns, err).

Definition minio_Create {E} (New : string → string → string → bool → PM E (option error)) (p : Properties) : PM E (option error) :=
  let accessKeyID := GetString p "minio.access-key" "minio" in
  let secretAccessKey := GetString p "minio.secret-key" "myminio" in
  let endpoint := GetString p "minio.endpoint" "http://127.0.0.1:9000" in
  let secure := GetBool p "minio.secure" false in
  New endpoint accessKeyID secretAccessKey secure.

(** The field count of the row codec, once the database is open. *)
Definition fdb_createDB {E} (MustAPIVersion : Z → PM E unit) (Open : string → string → PM E (option error)) (p : Properties) :
    PM E (Z + error) :=
  let clusterFile := GetString p "fdb.cluster" "" in
  let database := GetString p "fdb.dbname" "DB" in
  let apiVersion := GetInt p "fdb.apiversion" 510 in
  MustAPIVersion apiVersion ~;
  err <~ Open clusterFile database ;;
  pret (match err with Some err => inr err | None => inl (GetInt64 p "fieldcount" 10) end).

(** ** Properties *)

(** the options of the two Redis clients agree in what both have, for every
    property; the pool is as large as the property says or, if that is zero, as
    there are threads. *)
Theorem redis_options_agree ReadFile Append Load (p : Properties) :
  match getOptionsSingle ReadFile Append Load p, getOptionsCluster ReadFile Append Load p with
  | Ok s, Ok c => rs_common s = rc_common c ∧
      MustGetInt p "threadcount" = Ok (GetInt p "threadcount" 0) ∧
      ro_PoolSize (rs_common s) = if GetInt p "redis.pool_size" 0 =? 0 then GetInt p "threadcount" 0 else GetInt p "redis.pool_size" 0
  | Exit _, Exit _ => GetInt p "threadcount" 0 ≠ GetInt p "threadcount" 1
  | _, _ => False
  end.
Proof.
  unfold getOptionsSingle, getOptionsCluster, MustGetInt, obind.
  destruct (Z.eqb_spec (GetInt p "threadcount" 0) (GetInt p "threadcount" 1)); done.
Qed.

(** Redis: a certificate that cannot be read or parsed, or a key pair that cannot be
    loaded, leaves the connection without TLS and reports nothing. *)
Theorem redis_tls_error_is_no_tls ReadFile Append Load (p : Properties) caPath err :
  GetString p "redis.tls_ca" "" = caPath → caPath ≠ "" → ReadFile caPath = inr err →
  parseTLS ReadFile Append Load p = None.
Proof.
  intros Hc Hne Hr. unfold parseTLS, CreateTLSConfig, p_Get. cbn [fst]. rewrite Hc.
  destruct (String.eqb_spec caPath ""); [done|]. simpl. rewrite Hr. by destruct (_ || _).
Qed.

(** In cluster mode the default address is not used: without the property the one
    address is empty. *)
Theorem redis_cluster_has_no_default ReadFile Append Load (p : Properties) s c :
  (∀ d, GetString p "redis.addr" d = d) → getOptionsSingle ReadFile Append Load p = Ok s →
  getOptionsCluster ReadFile Append Load p = Ok c →
  rs_Addr s = "localhost:6379" ∧ rc_Addrs c = [""].
Proof.
  intros Hd. unfold getOptionsSingle, getOptionsCluster, p_Get, obind. cbn [fst]. rewrite !Hd.
  destruct (MustGetInt p "threadcount"); try done. by intros [= <-] [= <-].
Qed.
