(* ===== verification/BasicDb.v ===== *)
(** * BasicDb: the binding that prints (src/go-ycsb-vendor/db/basic/db.go)

    No database is behind it: a call waits, if told to, and prints a line, if told
    to.  The state of a thread is its random source and a buffer that is written
    to the output and reset by every call. *)

From S2P Require Import Prelude GoLib GoParse Storage YcsbUtil Float64 Generators Ycsb Workload.

Open Scope Z_scope.

Record basicDB := mkBasic { bd_verbose : bool; bd_randomizeDelay : bool; bd_toDelay : Z }.

(** [basicDBCreator.Create]. *)
Definition basic_Create (p : Properties) : basicDB :=
  mkBasic (GetBool p "verbose" false) (GetBool p "basicdb.randomizedelay" true) (GetInt64 p "basicdb.simulatedelay" 0).

Section Basic.
Context {R : Type} `{!Rand R}.
Context (db : basicDB) (range : row → list (string * bytes)).

(** [basicState] and the lines printed. *)
Record basicState := mkBasicState { bs_r : R; bs_buf : string; bs_out : list string }.

(** The wait itself is not modelled; [Int63n] panics on an argument that is not
    positive. *)
Definition basic_delay : PM basicState unit := λ st,
  if bd_toDelay db =? 0 then (Ok tt, st)
  else if bd_randomizeDelay db then
    if bd_toDelay db <=? 0 then (Panic "invalid argument to Int63n", st)
    else (Ok tt, mkBasicState (rand_Int63n (bd_toDelay db) (bs_r st)).2 (bs_buf st) (bs_out st))
  else (Ok tt, st).

Definition write_string (s : string) : PM basicState unit := λ st,
  (Ok tt, mkBasicState (bs_r st) (bs_buf st +:+ s) (bs_out st)).

(** [fmt.Println(buf.String()); buf.Reset()] *)
Definition print_line : PM basicState unit := λ st,
  (Ok tt, mkBasicState (bs_r st) "" (bs_out st ++ [bs_buf st])).

Fixpoint write_fields (fields : list string) : PM basicState unit :=
  match fields with
  | [] => pret tt
  | f :: fields => write_string f ~; write_string " " ~; write_fields fields
  end.

Definition write_asked (fields : list string) : PM basicState unit :=
  match fields with [] => write_string "<all fields> " | _ => write_fields fields end.

Fixpoint write_values (l : list (string * bytes)) : PM basicState unit :=
  match l with
  | [] => pret tt
  | (f, v) :: l =>
      write_string f ~; write_string "=" ~; write_string (String.string_of_list_byte v) ~; write_string " " ~; write_values l
  end.

Definition basic_Read (table key : string) (fields : list string) : PM basicState (row + error) :=
  basic_delay ~;
  if negb (bd_verbose db) then pret (inl ∅)
  else
    write_string ("READ " +:+ table +:+ " " +:+ key +:+ " [ ") ~;
    write_asked fields ~; write_string "]" ~; print_line ~; pret (inl ∅).

Definition basic_Scan (table startKey : string) (count : Z) (fields : list string) : PM basicState (list row + error) :=
  basic_delay ~;
  if negb (bd_verbose db) then pret (inl [])
  else
    write_string ("SCAN " +:+ table +:+ " " +:+ startKey +:+ " " +:+ itoa count +:+ " [ ") ~;
    write_asked fields ~; write_string "]" ~; print_line ~; pret (inl []).

Definition basic_Update (table key : string) (values : row) : PM basicState (option error) :=
  basic_delay ~;
  if negb (bd_verbose db) then pret None
  else
    write_string ("UPDATE " +:+ table +:+ " " +:+ key +:+ " [ ") ~;
    write_values (range values) ~; write_string "]" ~; print_line ~; pret None.

Definition insertRecord (table key : string) (values : row) : PM basicState unit :=
  write_string ("INSERT " +:+ table +:+ " " +:+ key +:+ " [ ") ~;
  write_values (range values) ~; write_string "]" ~; print_line.

Definition basic_Insert (table key : string) (values : row) : PM basicState (option error) :=
  basic_delay ~;
  if negb (bd_verbose db) then pret None
  else insertRecord table key values ~; pret None.

Definition basic_Delete (table key : string) : PM basicState (option error) :=
  basic_delay ~;
  if negb (bd_verbose db) then pret None
  else write_string ("DELETE " +:+ table +:+ " " +:+ key) ~; print_line ~; pret None.

(** [for i, key := range keys { insertRecord(buf, table, key, values[i]) }] *)
Fixpoint insert_records (table : string) (keys : list string) (values : list row) : PM basicState (option error) :=
  match keys, values with
  | [], _ => pret None
  | _ :: _, [] => pfail (Panic "index out of range")
  | key :: keys, v :: values => insertRecord table key v ~; insert_records table keys values
  end.

Definition basic_BatchInsert (table : string) (keys : list string) (values : list row) : PM basicState (option error) :=
  basic_delay ~;
  if negb (bd_verbose db) then pret None else insert_records table keys values.

Definition no_batch {A} : PM basicState A := pfail (Panic "The basicDB has not implemented the batch operation").

Definition basic_db : YcsbDB basicState :=
  mkYcsbDB basicState basic_Read basic_Scan basic_Update basic_Insert basic_Delete
    (Some (mkBatchDB basicState basic_BatchInsert (λ _ _ _, no_batch) (λ _ _ _, no_batch) (λ _ _, no_batch))).

(** ** What is printed *)

Definition fields_text (fields : list string) : string :=
  match fields with [] => "<all fields> " | _ => fold_right (λ f s, f +:+ " " +:+ s) "" fields end.
Definition values_text (l : list (string * bytes)) : string :=
  fold_right (λ fv s, fv.1 +:+ "=" +:+ String.string_of_list_byte fv.2 +:+ " " +:+ s) "" l.

(** Writing appends to the buffer. *)
Definition writes (m : PM basicState unit) (text : string) : Prop := ∀ st,
  m st = (Ok tt, mkBasicState (bs_r st) (bs_buf st +:+ text) (bs_out st)).

Lemma append_assoc3 (a b c : string) : (a +:+ b) +:+ c = a +:+ (b +:+ c).
Proof. induction a as [|x a IH]; [done|]. change (String x ((a +:+ b) +:+ c) = String x (a +:+ (b +:+ c))). by rewrite IH. Qed.

Lemma append_empty (a : string) : a +:+ "" = a.
Proof. induction a as [|x a IH]; [done|]. change (String x (a +:+ "") = String x a). by rewrite IH. Qed.

Lemma writes_string s : writes (write_string s) s.
Proof. done. Qed.

Lemma writes_seq m1 m2 s1 s2 : writes m1 s1 → writes m2 s2 → writes (m1 ~; m2) (s1 +:+ s2).
Proof. intros H1 H2 st. unfold pbind. rewrite H1, H2. simpl. by rewrite append_assoc3. Qed.

Lemma writes_nothing : writes (pret tt) "".
Proof. intros []. unfold pret. simpl. by rewrite append_empty. Qed.

Lemma writes_fields fields : writes (write_fields fields) (fold_right (λ f s, f +:+ " " +:+ s) "" fields).
Proof. induction fields as [|f fields IH]; [apply writes_nothing|]. by repeat apply writes_seq. Qed.

Lemma writes_asked fields : writes (write_asked fields) (fields_text fields).
Proof. destruct fields; [done|]. apply writes_fields. Qed.

Lemma writes_values l : writes (write_values l) (values_text l).
Proof. induction l as [|[f v] l IH]; [apply writes_nothing|]. by repeat apply writes_seq. Qed.

(** Every call prints its line and leaves the buffer empty; reads and scans find
    nothing and no call fails. *)
Theorem basic_calls_print (T key : string) (fields : list string) (count : Z) (values : row) (st : basicState) :
  bd_verbose db = true → bd_toDelay db = 0 → bs_buf st = "" →
  let line s := mkBasicState (bs_r st) "" (bs_out st ++ [s]) in
  basic_Read T key fields st = (Ok (inl ∅), line ("READ " +:+ T +:+ " " +:+ key +:+ " [ " +:+ fields_text fields +:+ "]")) ∧
  basic_Scan T key count fields st =
    (Ok (inl []), line ("SCAN " +:+ T +:+ " " +:+ key +:+ " " +:+ itoa count +:+ " [ " +:+ fields_text fields +:+ "]")) ∧
  basic_Update T key values st = (Ok None, line ("UPDATE " +:+ T +:+ " " +:+ key +:+ " [ " +:+ values_text (range values) +:+ "]")) ∧
  basic_Insert T key values st = (Ok None, line ("INSERT " +:+ T +:+ " " +:+ key +:+ " [ " +:+ values_text (range values) +:+ "]")) ∧
  basic_Delete T key st = (Ok None, line ("DELETE " +:+ T +:+ " " +:+ key)).
Proof.
  intros Hv Hd Hb line.
  assert (∀ A (k : PM basicState A), (basic_delay ~; k) st = k st) as Hdelay by (intros; unfold pbind, basic_delay; by rewrite Hd).
  unfold basic_Read, basic_Scan, basic_Update, basic_Insert, insertRecord, basic_Delete. rewrite !Hdelay, Hv.
  cbn [negb]. unfold pbind, print_line, pret, write_string, line.
  rewrite !(writes_asked fields), !(writes_values (range values)). cbn [bs_r bs_buf bs_out]. rewrite Hb.
  split_and!; do 4 f_equal; cbn [String.append]; by rewrite ?append_assoc3.
Qed.
End Basic.

Lemma basic_calls_print_witness :
  basic_Read (R := list Z) (mkBasic true true 0) "usertable" "user1" ["field0"; "field1"] (mkBasicState [] "" []) =
    (Ok (inl ∅), mkBasicState [] "" ["READ usertable user1 [ field0 field1 ]"]).
Proof.
  exact (proj1 (basic_calls_print (R := list Z) (mkBasic true true 0) map_to_list "usertable" "user1" ["field0"; "field1"] 0 ∅
    (mkBasicState [] "" []) eq_refl eq_refl eq_refl)).
Defined.

(** A transaction in a batch that is not of inserts panics. *)
Theorem basic_batches_panic {R} `{!Rand R} db range b (st : basicState (R := R)) T keys fields values :
  db_batch (YcsbDB := basic_db db range) = Some b →
  BatchRead b T keys fields st = (Panic "The basicDB has not implemented the batch operation", st) ∧
  BatchUpdate b T keys values st = (Panic "The basicDB has not implemented the batch operation", st) ∧
  BatchDelete b T keys st = (Panic "The basicDB has not implemented the batch operation", st).
Proof. by intros [= <-]. Qed.
