(* ===== verification/KvRun.v ===== *)
(** * KvRun: the key-value bindings of the YCSB framework at work

    Every binding of [KvBindings], [TikvBindings] and [FdbBinding] behaves like a map from keys
    to rows, and a benchmark run with data integrity over any of them finds what
    it wrote.  Memory drivers show that the laws of the drivers can hold. *)

From S2P Require Import Prelude GoLib Float64 Storage YcsbUtil Generators AckCounter Ycsb Workload YcsbClient.
From S2P Require Import TableDb KvStore KvBindings TikvBindings FdbBinding.

Open Scope Z_scope.

(** ** Drivers in memory *)

Abbreviation mem := (gmap string bytes).

#[export] Instance mem_contents {C} : Contents C C := mkContents C C id (λ _, True).

Definition mem_view {C} (A : Type) (a : A) (fn : PM C (A * option error)) : PM C (A * option error) :=
  λ s, ((fn s).1, s).
Definition mem_update {C} (A : Type) (a : A) (fn : PM C (A * option error)) : PM C (A * option error) :=
  λ s, match fn s with (Ok (b, None), s') => (Ok (b, None), s') | (o, _) => (o, s) end.

Lemma mem_view_law {C} : view_law (E := C) (T := C) mem_view.
Proof. intros A a fn s. right. exists s, s. by split_and!. Qed.

Lemma mem_update_law {C} : update_law (E := C) (T := C) mem_update.
Proof.
  intros A a fn s. right. unfold mem_update. destruct (fn s) as [[[b [err|]]|?|?|] t'] eqn:E.
  - exists s, s. rewrite E. by split_and!.
  - exists s, t'. rewrite E. split_and!; try done. left. done.
  - exists s, s. rewrite E. by split_and!.
  - exists s, s. rewrite E. by split_and!.
  - exists s, s. rewrite E. by split_and!.
Qed.

Definition mem_put (key : string) (v : bytes) : PM mem (option error) := λ c, (Ok None, <[key := v]> c).
Definition mem_del (key : string) : PM mem (option error) := λ c, (Ok None, delete key c).

#[export] Instance mem_badger : BadgerDriver mem mem :=
  mkBadger mem mem bytes mem_view mem_update
    (λ key c, (Ok (match c !! key with Some v => inl v | None => inr "Key not found" end), c))
    (λ it, pret (inl it)) (λ it, pret (inl it)) (λ key c, (Ok (kv_from key c).*2, c)) mem_put mem_del.

#[export, refine] Instance mem_badger_laws : BadgerLaws mem mem := mkBadgerLaws mem mem _ _ _ id mem_view_law mem_update_law _ _ _ _ _ _.
Proof.
  - intros key t. simpl. split; [done|]. split; [done|]. destruct (t !! key) eqn:E; [done|by right].
  - done.
  - done.
  - intros key t. simpl. split; [done|]. split; [done|]. apply map_id.
  - done.
  - done.
Defined.

#[export] Instance mem_bolt : BoltDriver buckets buckets :=
  mkBolt buckets buckets mem_view mem_update
    (λ b c, (Ok (bool_decide (is_Some (c !! b))), c))
    (λ b key c, (Ok (bk ← c !! b; bk !! key), c))
    (λ b key c, (Ok (kv_from key (default ∅ (c !! b))), c))
    (λ b key v c, (Ok None, alter <[key := v]> b c))
    (λ b key c, (Ok None, alter (delete key) b c))
    (λ b c, (Ok None, <[b := default ∅ (c !! b)]> c))
    (λ b c, (Ok (Z.of_nat (size (default ∅ (c !! b)))), c))
    (λ b c, (Ok None, delete b c)).

#[export, refine] Instance mem_bolt_laws : BoltLaws buckets buckets :=
  mkBoltLaws buckets buckets _ _ _ mem_view_law mem_update_law _ _ _ _ _ _ _ _.
Proof.
  all: try done.
  intros b t. simpl. split; [done|]. split; [done|]. intros Hk. apply (map_size_empty_inv (M := gmap string)). unfold ct. simpl. lia.
Defined.

#[export] Instance mem_rocks : RocksDriver mem :=
  mkRocks mem (λ key c, (Ok (inl (default [] (c !! key))), c)) (λ key c, (Ok ((kv_from key c).*2, None), c)) mem_put mem_del.

#[export, refine] Instance mem_rocks_laws : RocksLaws mem := mkRocksLaws mem _ _ _ _ _ _.
Proof.
  - done.
  - intros key s. simpl. split; [done|]. split; [done|]. exists (length (kv_from key s)).
    rewrite take_ge; [done|]. by rewrite length_fmap.
  - done.
  - done.
Defined.

#[export] Instance mem_raw : RawDriver mem :=
  mkRaw mem (λ key c, (Ok (inl (c !! key)), c)) (λ keys c, (Ok (inl (map (c !!.) keys)), c))
    (λ key count c, (Ok (inl (Some <$> take (Z.to_nat count) (kv_from key c).*2)), c)) mem_put
    (λ keys data c, (Ok None, put_all keys data c)) mem_del (λ keys c, (Ok None, delete_all keys c)).

#[export, refine] Instance mem_raw_laws : RawLaws mem := mkRawLaws mem _ _ _ _ _ _ _ _ _.
Proof.
  all: try done.
  intros key count s. simpl. split; [done|]. split; [done|]. intros l [= <-]. by eexists.
Defined.

#[export] Instance mem_txn : TxnDriver mem txn_contents :=
  mkTxn mem txn_contents (λ c, (Ok (inl (c, c)), c)) (λ t c, (Ok None, t.2))
    (λ key t, (Ok (match t.2 !! key with Some v => (Some v, None) | None => (None, Some ErrNotFound) end), t))
    (λ key v t, (Ok None, (t.1, <[key := v]> t.2))) (λ key t, (Ok None, (t.1, delete key t.2)))
    (λ key t, (Ok (inl (kv_from key t.2).*2), t)) (pret None).

#[export, refine] Instance mem_txn_laws : TxnLaws mem txn_contents := mkTxnLaws mem txn_contents _ _ _ _ _ _ _ _ _ _.
Proof.
  all: try done.
  - intros key t. simpl. split; [done|]. split; [done|]. unfold ct. simpl. by destruct (t.2 !! key) eqn:E.
  - intros key t. simpl. split; [done|]. split; [done|]. intros l [= <-]. exists (length (kv_from key t.2)).
    rewrite take_ge; [done|]. by rewrite length_fmap.
Defined.

#[export] Instance mem_fdb : FdbDriver mem mem :=
  mkFdb mem mem (λ A fn c, match fn c with (Ok (inl a), c') => (Ok (inl a), c') | (o, _) => (o, c) end)
    (λ key c, (Ok (inl (c !! key)), c))
    (λ start stop limit c, (Ok (map (λ p, inl (Some p.2)) (kv_range start stop limit c)), c))
    (λ key v c, (Ok tt, <[key := v]> c)) (λ key c, (Ok tt, delete key c)).

#[export, refine] Instance mem_fdb_laws : FdbLaws mem mem := mkFdbLaws mem mem _ _ _ _ _ _ _ _ _.
Proof.
  all: try done.
  - intros A fn s. right. exists s. simpl. destruct (fn s) as [[[a|err]|?|?|] s'] eqn:E; eexists; (split; [apply attempts_start|done]).
  - intros start stop limit t _. simpl. split; [done|]. split; [done|].
    intros v (p & [= ->] & Hp)%list_elem_of_fmap. by apply list_elem_of_fmap_2.
Defined.

(** ** Refinement *)

Definition kv_call_fits (n : Z) (c : tb_call) : Prop :=
  match c with
  | CallRead _ fields => ∀ f, f ∈ fields → kv_knows n f
  | CallInsert _ values | CallUpdate _ values => kv_fits n values
  | CallDelete _ => True
  end.

(** A database whose sequences of calls return and answer as a map of rows does. *)
Definition refines_table {D} (db : YcsbDB D) (n : Z) (up : D → Prop) (rel : string → D → table → Prop) : Prop :=
  ∀ T cs d m, rel T d m → Forall (kv_call_fits n) cs →
    returns (run_calls T cs d) (λ l d',
      calls_present cs m →
        (Forall (λ a, failed a = false) l → l = (spec_calls cs m).1 ∧ rel T d' (spec_calls cs m).2) ∧
        (up d → Forall (λ a, failed a = false) l)).

Lemma table_refines {D} `{!YcsbDB D} `{!TableDB D} n :
  (∀ f, kv_knows n f → tb_knows (D := D) f) → (∀ v, kv_value v → tb_value (D := D) v) →
  refines_table _ n (tb_up (D := D)) tb_rel.
Proof.
  intros Hk Hv T cs d m Hrel Hf. eapply returns_weaken; [apply (run_calls_spec T cs d m Hrel)|by intros l d' [_ H]].
  eapply Forall_impl; [exact Hf|]. intros [key fields|key values|key values|key]; simpl; auto;
    intros Hfit f v Hl; (split; [apply Hk|apply Hv]); apply (Hfit f v Hl).
Qed.


Definition demo_calls : list tb_call :=
  [CallInsert "k" {["field0" := go_bytes "a"; "field1" := go_bytes "b"]}; CallInsert "l" ∅;
   CallUpdate "k" {["field1" := go_bytes "c"]}; CallRead "k" ["field1"]; CallRead "k" []; CallDelete "l"].

Lemma demo_calls_fit : Forall (kv_call_fits 2) demo_calls.
Proof.
  assert (∀ r : row, forallb (λ kv, bool_decide (kv.1 ∈ allFields 2) && bool_decide (in_int64 (Z.of_nat (length kv.2)))) (map_to_list r) = true →
    kv_fits 2 r) as H.
  { intros r Hr f v Hl. rewrite forallb_forall in Hr. apply elem_of_map_to_list, list_elem_of_In in Hl.
    specialize (Hr _ Hl). apply andb_true_iff in Hr as [H1 H2]. apply bool_decide_eq_true in H1, H2. done. }
  unfold demo_calls. rewrite !Forall_cons. split_and!; simpl; try (apply H; vm_compute; reflexivity); try done.
  - intros f Hf. apply list_elem_of_singleton in Hf as ->. change ("field1" ∈ allFields 2). apply (bool_decide_unpack _). vm_compute. exact I.
  - intros f Hf. by apply not_elem_of_nil in Hf.
Qed.


(** ** Benchmark runs *)

(** A database without batches. *)
Lemma no_batches {D} `{!YcsbDB D} `{!TableDB D} : db_batch (D := D) = None → TableBatch D.
Proof. intros H. constructor; intros; congruence. Qed.

Lemma field_names_known n f : f ∈ field_names n → kv_knows n f.
Proof. done. Qed.

(** Over the database [db], holding an empty table under [rel], no round of a run
    with [dataintegrity] ends the process, whatever the threads did before. *)
Definition keeps_integrity {D} (db : YcsbDB D) (rel : string → D → table → Prop)
    (range : row → list (string * bytes)) (p : Properties) : Prop :=
  ∀ R (HR : Rand R) (Log : float64 → float64) (Pow : float64 → float64 → float64) (lower : string → string)
    (ReadFile : string → string + error) (ctx : nat → nat → option ctx_error) (fuel : nat) (r0 r1 : R) (r : nat → R)
    (c : core) (d : D) (yw : YWorld) (s s' : client R (D * YWorld)),
  rel (GetString p "table" "usertable") d ∅ →
  Create Log Pow lower ReadFile p r0 = (Ok c, r1) → GetBool p "dataintegrity" false = true →
  Run p c (d, yw) r = Ok s → rtc (client_step Log Pow lower range ctx fuel) s s' →
  ∀ id warm msg, client_iter Log Pow lower range ctx fuel id warm s' ≠ Some (Exit msg).

Lemma table_run_keeps_integrity {D} `{!YcsbDB D} `{!TableDB D} `{!TableBatch D} range p :
  (∀ m, range m ≡ₚ map_to_list m) →
  (∀ f, f ∈ field_names (GetInt64 p "fieldcount" 10) → tb_knows (D := D) f) →
  (∀ v, Z.of_nat (length v) <= Z.max 0 (GetInt64 p "fieldlength" 100) → tb_value (D := D) v) →
  keeps_integrity _ (tb_rel (D := D)) range p.
Proof.
  intros Hrange Hk Hv R ? Log Pow lower ReadFile ctx fuel r0 r1 r c d yw s s' Hrel Hc Hi Hr Hsteps id warm msg.
  pose (V := table_values (D := D)).
  pose (VW := wrapper_values (ValueDB0 := V)).
  pose (VM := wrapper_measured_values (ValueDB0 := V)).
  eapply (client_ok_no_exit (ValueDB0 := VW) (ValueMeasured0 := VM) Log Pow lower range ctx fuel Hrange).
  eapply (client_ok_steps (ValueDB0 := VW) (ValueMeasured0 := VM) Log Pow lower range ctx fuel Hrange); [|exact Hsteps].
  eapply (run_client_ok (ValueDB0 := VW) Log Pow lower ReadFile p r0 r1 c); [exact Hc|done| |exact Hr].
  split; [|exists ∅; split; [done|apply map_Forall_empty]].
  intros key f v [Hf ->]. split; [by apply Hk|]. apply Hv. rewrite length_take. lia.
Qed.


(** Three records loaded by two threads into a bolt store. *)
Abbreviation demo_bolt := (DbWrapper (YcsbDB0 := bolt_db 2 map_to_list)).

Definition bolt_client : client (list Z) (buckets * YWorld) :=
  let d := (∅, mkYW (λ k, tm (Z.of_nat k)) 0 false (MHistograms ∅)) in
  match Run load_props (core_of load_props) d (λ _, []) with
  | Ok s => s
  | _ => mkClientState (core_of load_props) d ∅
  end.

Definition bolt_rounds (ids : list nat) : client (list Z) (buckets * YWorld) :=
  default bolt_client (run_rounds (YcsbDB0 := demo_bolt) no_cancel ids bolt_client).

Example bolt_load_ex :
  map fst (map_to_list (default ∅ ((cl_db (bolt_rounds [1; 0; 0]%nat)).1 !! "usertable"))) ≡ₚ ["user5"; "user6"; "user7"].
Proof. vm_compute. solve_Permutation. Qed.


(** ** Where the bindings differ from tables *)

Definition kv_row (a b : string) : row := {["field0" := go_bytes a; "field1" := go_bytes b]}.

(** An [Update] of the raw client whose read fails reports success and writes
    nothing. *)
Theorem raw_update_swallows_error {E} `{!RawDriver E} n range T key values (s s' : E) err :
  rw_Get (raw_getRowKey T key) s = (Ok (inr err), s') → raw_Update n range T key values s = (Ok None, s').
Proof. intros H. unfold raw_Update, pbind. by rewrite H. Qed.

Section TikvUpdates.
Context {D : Type} (db : YcsbDB D).

Definition update_one : PM D (row + error) :=
  db_Insert "t" "k" (kv_row "a" "b") ~; db_Update "t" "k" {["field0" := go_bytes "c"]} ~; db_Read "t" "k" [].
Definition update_batch : PM D (row + error) :=
  db_Insert "t" "k" (kv_row "a" "b") ~;
  match db_batch with Some b => BatchUpdate b "t" ["k"] [{["field0" := go_bytes "c"]}] | None => pret None end ~;
  db_Read "t" "k" [].
Definition update_absent : PM D (row + error) := db_Update "t" "k" (kv_row "a" "b") ~; db_Read "t" "k" [].
End TikvUpdates.

(** A batch update replaces the rows, where an update merges its fields into the
    row, in both TiKV clients; the transactional client's update of a row that is
    not there succeeds without writing, the raw client's creates the row. *)
Theorem tikv_updates_differ :
  let raw := raw_db (E := mem) 2 map_to_list in
  let txn := txn_db (E := mem) 2 map_to_list in
  ((update_one raw ∅).1 = Ok (inl (kv_row "c" "b")) ∧ (update_one txn ∅).1 = Ok (inl (kv_row "c" "b"))) ∧
  ((update_batch raw ∅).1 = Ok (inl {["field0" := go_bytes "c"]}) ∧ (update_batch txn ∅).1 = Ok (inl {["field0" := go_bytes "c"]})) ∧
  (update_absent raw ∅).1 = Ok (inl (kv_row "a" "b")) ∧ (update_absent txn ∅).1 = Ok (inl ∅).
Proof. cbv zeta. split_and!; vm_compute; reflexivity. Qed.

(** Two updates of different fields of a row in RocksDB: run one after the other
    both are kept, run with their reads first the first is lost. *)
Theorem rocks_update_lost :
  let up1 : row := {["field0" := go_bytes "c"]} in
  let up2 : row := {["field1" := go_bytes "d"]} in
  let ins : PM mem (option error) := rocks_Insert 2 map_to_list "t" "k" (kv_row "a" "b") in
  let write up (m : row + error) : PM mem (option error) :=
    match m with inl m => rocks_update_write 2 map_to_list "t" "k" up m | inr err => pret (Some err) end in
  ((ins ~; rocks_Update 2 map_to_list "t" "k" up1 ~; rocks_Update 2 map_to_list "t" "k" up2 ~;
    rocks_Read 2 "t" "k" []) ∅).1 = Ok (inl (kv_row "c" "d")) ∧
  ((ins ~; (m1 <~ rocks_Read 2 "t" "k" [] ;; m2 <~ rocks_Read 2 "t" "k" [] ;; write up1 m1 ~; write up2 m2 ~;
    rocks_Read 2 "t" "k" [])) ∅).1 = Ok (inl (kv_row "a" "d")).
Proof. cbv zeta. split; vm_compute; reflexivity. Qed.

(** A scan of a table runs on into the next one: the keys of all tables are in one
    order.  In badger (and RocksDB) it also has nil rows where there are no more. *)
Theorem scans_cross_tables :
  let fill {D} `{!YcsbDB D} : PM D unit :=
    db_Insert "a" "k" (kv_row "1" "2") ~; db_Insert "b" "k" (kv_row "3" "4") ~; pret tt in
  ((fill (YcsbDB0 := badger_db 2 map_to_list) ~; badger_Scan 2 "a" "k" 3 []) (∅ : mem)).1 =
    Ok (inl [kv_row "1" "2"; kv_row "3" "4"; ∅]) ∧
  ((fill (YcsbDB0 := txn_db 2 map_to_list) ~; txn_Scan 2 "a" "k" 3 []) (∅ : mem)).1 =
    Ok (inl [kv_row "1" "2"; kv_row "3" "4"]) ∧
  ((fill (YcsbDB0 := bolt_db 2 map_to_list) ~; bolt_Scan 2 "a" "k" 3 []) (∅ : buckets)).1 =
    Ok (inl [kv_row "1" "2"; ∅; ∅]).
Proof. cbv zeta. split_and!; vm_compute; reflexivity. Qed.

(** A scan of no rows in FoundationDB gives every row from the key on, where the
    others give none: a limit of zero is no limit. *)
Theorem fdb_scan_zero_is_all :
  let fill {D} `{!YcsbDB D} : PM D unit :=
    db_Insert "a" "k" (kv_row "1" "2") ~; db_Insert "a" "l" (kv_row "3" "4") ~; pret tt in
  ((fill (YcsbDB0 := fdb_db 2 map_to_list) ~; fdb_Scan 2 "a" "k" 0 []) (∅ : mem)).1 =
    Ok (inl [kv_row "1" "2"; kv_row "3" "4"]) ∧
  ((fill (YcsbDB0 := fdb_db 2 map_to_list) ~; fdb_Scan 2 "a" "k" 1 []) (∅ : mem)).1 = Ok (inl [kv_row "1" "2"]) ∧
  ((fill (YcsbDB0 := txn_db 2 map_to_list) ~; txn_Scan 2 "a" "k" 0 []) (∅ : mem)).1 = Ok (inl []).
Proof. cbv zeta. split_and!; vm_compute; reflexivity. Qed.
