(* ===== verification/DocRun.v ===== *)
(** * DocRun: the document bindings of the YCSB framework at work

    MongoDB, Redis (hashes and strings), Aerospike and etcd behave like a map from
    keys to rows on the calls each of them supports, and a benchmark run with data
    integrity over any of them finds what it wrote.  Memory drivers show that the
    laws of the drivers can hold, and where the bindings differ from tables. *)

From S2P Require Import Prelude GoLib Float64 Storage YcsbUtil Json Generators AckCounter Ycsb Workload YcsbClient.
From S2P Require Import TableDb KvStore DocStore DocBindings EtcdAerospike KvBindings TikvBindings FdbBinding KvRun.

Open Scope Z_scope.

(** ** The calls of the refinement *)

(** Inserts have all the fields, updates some; [reads] and [updates] say which
    reads and updates a binding supports, [value] which values. *)
Definition doc_fits (n : Z) (value : bytes → Prop) (reads : list string → Prop) (updates : row → Prop) (c : tb_call) : Prop :=
  let known values := map_Forall (λ _ v, value v) values in
  match c with
  | CallRead _ fields => reads fields
  | CallInsert _ values => full n values ∧ known values
  | CallUpdate _ values => within n values ∧ values ≠ ∅ ∧ updates values ∧ known values
  | CallDelete _ => True
  end.

(** Reads of fields of the workload, of at least one of them, and of whole rows. *)
Definition named (n : Z) (fields : list string) : Prop := ∀ f, f ∈ fields → f ∈ allFields n.
Definition some_named (n : Z) (fields : list string) : Prop := fields ≠ [] ∧ named n fields.
Definition whole (n : Z) (fields : list string) : Prop := fields = [] ∨ ∀ f, f ∈ fields ↔ f ∈ allFields n.
Definition any (values : row) : Prop := True.

Section Agree.
Context (n : Z) (n_pos : 1 <= n).

Lemma select_whole fields r : whole n fields → full n r → select_fields fields r = r.
Proof.
  intros Hw Hf. apply map_eq. intros f. rewrite select_fields_lookup. case_decide as H; [done|].
  destruct (r !! f) as [v|] eqn:E; [|done]. destruct H. destruct Hw as [->|Hw]; [by left|right]. apply Hw, Hf. by eexists.
Qed.

Lemma full_nonempty values : full n values → values ≠ ∅.
Proof.
  intros Hf ->. assert ("field0" ∈ allFields n) as H0.
  { apply elem_of_allFields. exists 0. split; [lia|done]. }
  apply Hf in H0 as [v Hv]. by rewrite lookup_empty in Hv.
Qed.

Lemma union_full values r : full n values → within n r → values ∪ r = values.
Proof.
  intros Hf Hr. apply map_eq. intros f. rewrite lookup_union. destruct (values !! f) as [v|] eqn:Ev.
  - by destruct (r !! f).
  - destruct (r !! f) as [v|] eqn:Er; [|done]. destruct (proj2 (Hf f)) as [v' Hv']; [apply Hr; by eexists|]. congruence.
Qed.

Lemma allFields_NoDup : NoDup (allFields n).
Proof.
  unfold allFields. change (map ?f ?l) with (f <$> l). apply NoDup_fmap_2; [|apply NoDup_seqZ].
  intros i j H. unfold field_name in H. apply (inj (String.append "field")) in H. by apply (inj pretty) in H.
Qed.

Lemma within_size_full values : within n values → Z.of_nat (size values) = n → full n values.
Proof.
  intros Hw Hs f. split; [apply Hw|]. intros Hf. rewrite <- elem_of_dom.
  assert (dom values = list_to_set (allFields n)) as ->; [|by apply elem_of_list_to_set].
  apply leibniz_equiv, set_subseteq_size_equiv.
  - intros g Hg%elem_of_dom. apply elem_of_list_to_set. by apply Hw.
  - rewrite size_dom. rewrite size_list_to_set by apply allFields_NoDup. unfold allFields. rewrite length_map, length_seqZ. lia.
Qed.

Lemma mongo_agree value : does_agree n (doc_fits n value (named n) any) mongo_does.
Proof.
  intros c m o' a Hf Hok Hm Hd.
  destruct c as [key fields|key values|key values|key]; simpl in *.
  - destruct Hok as [r Hr]. unfold old_row. rewrite Hr in *. by destruct Hd as [-> ->].
  - rewrite Hok in Hd. rewrite lookup_insert_eq. by destruct Hd as [-> ->].
  - destruct Hok as [r Hr]. unfold old_row. rewrite lookup_insert_eq. rewrite Hr in *. simpl. destruct Hf as (_ & Hne & _).
    destruct Hd as [[-> ->]|[? _]]; done.
  - destruct Hok as [r Hr]. rewrite lookup_delete_eq. rewrite Hr in *. by destruct Hd as [-> ->].
Qed.

Lemma hash_agree value : does_agree n (doc_fits n value (some_named n) any) redis_hash_does.
Proof.
  intros c m o' a Hf Hok Hm Hd.
  destruct c as [key fields|key values|key values|key]; simpl in *.
  - destruct Hok as [r Hr]. unfold old_row. rewrite Hr in *. destruct Hd as [-> ->]. simpl. split; [|done]. f_equal. unfold hash_answer.
    rewrite decide_True; [done|]. destruct Hf as [Hne Hin]. split; [done|]. apply Forall_forall. intros f Hf. by apply (Hm key r Hr), Hin.
  - rewrite Hok in Hd. rewrite decide_False in Hd by (apply full_nonempty, Hf). simpl in Hd. rewrite (right_id_L ∅ (∪)) in Hd.
    rewrite lookup_insert_eq. by destruct Hd as [-> ->].
  - destruct Hok as [r Hr]. unfold old_row. rewrite lookup_insert_eq. rewrite Hr in *. simpl in *.
    rewrite decide_False in Hd by (apply Hf). by destruct Hd as [-> ->].
  - rewrite lookup_delete_eq. by destruct Hd as [-> ->].
Qed.

Lemma string_agree value : does_agree n (doc_fits n value (whole n) any) (redis_string_does n).
Proof.
  intros c m o' a Hf Hok Hm Hd.
  destruct c as [key fields|key values|key values|key]; simpl in *.
  - destruct Hok as [r Hr]. unfold old_row. rewrite Hr in *. simpl. rewrite select_whole by (done || by apply (Hm key)). by destruct Hd as [-> ->].
  - rewrite lookup_insert_eq. by destruct Hd as [-> ->].
  - destruct Hok as [r Hr]. unfold old_row. rewrite lookup_insert_eq. rewrite Hr in *. simpl.
    destruct (Z.eqb_spec (Z.of_nat (size values)) n) as [Hs|]; [|by destruct Hd as [-> ->]].
    rewrite union_full; [by destruct Hd as [-> ->]|by apply within_size_full; [apply Hf|]|apply full_within, (Hm key r Hr)].
  - rewrite lookup_delete_eq. by destruct Hd as [-> ->].
Qed.

Lemma etcd_agree value : does_agree n (doc_fits n value (whole n) (full n)) etcd_does.
Proof.
  intros c m o' a Hf Hok Hm Hd.
  destruct c as [key fields|key values|key values|key]; simpl in *.
  - destruct Hok as [r Hr]. unfold old_row. rewrite Hr in *. simpl. rewrite select_whole by (done || by apply (Hm key)). by destruct Hd as [-> ->].
  - rewrite lookup_insert_eq. by destruct Hd as [-> ->].
  - destruct Hok as [r Hr]. unfold old_row. rewrite lookup_insert_eq. rewrite Hr. simpl.
    rewrite union_full; [by destruct Hd as [-> ->]|apply Hf|apply full_within, (Hm key r Hr)].
  - rewrite lookup_delete_eq. by destruct Hd as [-> ->].
Qed.

Lemma aerospike_agree value : does_agree n (doc_fits n value (whole n) any) aerospike_does.
Proof.
  intros c m o' a Hf Hok Hm Hd.
  destruct c as [key fields|key values|key values|key]; simpl in *.
  - destruct Hok as [r Hr]. unfold old_row. rewrite Hr in *. simpl. rewrite select_whole by (done || by apply (Hm key)). by destruct Hd as [-> ->].
  - rewrite Hok in Hd. simpl in Hd. rewrite (right_id_L ∅ (∪)) in Hd. rewrite lookup_insert_eq.
    destruct Hd as [[-> ->]|[_ [[He _]|(? & ? & _)]]]; [done|by destruct (full_nonempty values (proj1 Hf))|done].
  - destruct Hok as [r Hr]. unfold old_row. rewrite lookup_insert_eq. rewrite Hr in *. simpl in *.
    destruct Hd as [[-> ->]|[_ [[He _]|(? & _ & ? & _)]]]; [done|by destruct Hf as (_ & ? & _)|done].
  - rewrite lookup_delete_eq. by destruct Hd as [-> ->].
Qed.
End Agree.

(** ** Drivers in memory *)

Definition mongo_values (doc : gmap string bson) : row := omap (λ v, match v with BBinary b => Some b | BString _ => None end) doc.
Definition mongo_key (doc : gmap string bson) : string := match doc !! "_id" with Some (BString k) => k | _ => "" end.

#[export] Instance mem_mongo : MongoDriver documents :=
  mkMongo documents
    (λ T key p c, (Ok (match c !! (T, key) with Some r => inl (project p r) | None => inr "mongo: no documents in result" end), c))
    (λ T key p limit, pret (inl []))
    (λ T doc c, match c !! (T, mongo_key doc) with
                | Some _ => (Ok (Some "duplicate key error"), c)
                | None => (Ok None, <[(T, mongo_key doc) := mongo_values doc]> c)
                end)
    (λ T key values c, match c !! (T, key) with
                       | Some old => (Ok (inl 1), <[(T, key) := values ∪ old]> c)
                       | None => (Ok (inl 0), c)
                       end)
    (λ T key c, match c !! (T, key) with Some _ => (Ok (inl 1), delete (T, key) c) | None => (Ok (inl 0), c) end).

Lemma mongo_doc_parts key values : values !! "_id" = None →
  mongo_key (mongo_doc key values) = key ∧ mongo_values (mongo_doc key values) = values.
Proof.
  intros Hid. unfold mongo_key, mongo_values, mongo_doc. split.
  - rewrite lookup_union, lookup_fmap, Hid, lookup_singleton_eq. done.
  - apply map_eq. intros f. rewrite lookup_omap, lookup_union, lookup_fmap.
    destruct (decide (f = "_id")) as [->|Hf]; [rewrite lookup_singleton_eq, Hid|rewrite lookup_singleton_ne by congruence]; [done|].
    by destruct (values !! f).
Qed.

#[export, refine] Instance mem_mongo_laws : MongoLaws documents :=
  mkMongoLaws documents _ _ (λ f, f ≠ "_id") (λ _, True) _ _ _ _ _ _.
Proof.
  - intros H. by apply H.
  - intros T key p s. simpl. unfold ct; simpl. split; [done|]. split; [done|]. intros _. destruct (s !! (T, key)); [done|by right].
  - done.
  - intros T key values s Hv. simpl.
    assert (values !! "_id" = None) as Hid by (apply eq_None_not_Some; intros [v Hx]; by destruct (Hv "_id" v Hx)).
    destruct (mongo_doc_parts key values Hid) as [-> ->]. unfold ct; simpl. destruct (s !! (T, key)) eqn:E; simpl; by rewrite ?E.
  - intros T key values s Hv. simpl. unfold ct; simpl. by destruct (s !! (T, key)) eqn:E.
  - intros T key s. simpl. unfold ct; simpl. by destruct (s !! (T, key)) eqn:E.
Defined.

(** A Redis server for the commands of the hash and string types. *)
Abbreviation redis_store := (gmap string redis_value).

Fixpoint arg_pairs (args : list string) : list (string * string) :=
  match args with f :: v :: args => (f, v) :: arg_pairs args | _ => [] end.

Definition redis_do (args : list string) (c : redis_store) : (option error * list (option string)) * redis_store :=
  match args with
  | cmd :: k :: args =>
      match hash_of c k with
      | None => ((Some "WRONGTYPE", []), c)
      | Some h =>
          if String.eqb cmd "HSET" then
            match arg_pairs args with
            | [] => ((Some "wrong number of arguments", []), c)
            | pairs => ((None, []), <[k := RHash (list_to_map pairs ∪ h)]> c)
            end
          else if String.eqb cmd "HMGET" then
            match args with [] => ((Some "wrong number of arguments", []), c) | _ => ((None, map (λ f, h !! f) args), c) end
          else ((Some "unknown command", []), c)
      end
  | _ => ((Some "unknown command", []), c)
  end.

Definition string_slice (cmd : option error * list (option string)) : list string + error :=
  match cmd.1 with
  | Some err => inr err
  | None => match mapM id cmd.2 with Some l => inl l | None => inr "unexpected type" end
  end.

#[export] Instance mem_redis : RedisDriver redis_store :=
  mkRedis redis_store (option error * list (option string))
    (λ args c, (Ok (redis_do args c).1, (redis_do args c).2))
    (λ _, pret ([], Some "unknown command")) fst (λ cmd, inr "unexpected type") string_slice
    (λ k c, (Ok (match c !! k with Some (RStr v) => inl v | Some _ => inr "WRONGTYPE" | None => inr "redis: nil" end), c))
    (λ k v c, (Ok None, <[k := RStr v]> c)) (λ k c, (Ok None, delete k c)).

Lemma arg_pairs_concat (pairs : list (string * string)) : arg_pairs (concat (map (λ p, [p.1; p.2]) pairs)) = pairs.
Proof. induction pairs as [|[f v] pairs IH]; [done|]. simpl. by rewrite IH. Qed.

Lemma mapM_id_map {A B} (f : A → option B) (l : list A) : mapM id (map f l) = mapM f l.
Proof. induction l as [|x l IH]; [done|]. simpl. by rewrite IH. Qed.

#[export, refine] Instance mem_redis_laws : RedisLaws redis_store := mkRedisLaws redis_store _ _ _ _ _ _ _.
Proof.
  - intros k pairs s _. simpl. unfold ct; simpl. rewrite arg_pairs_concat. split; [done|].
    destruct (hash_of s k) as [h|]; [|done]. by destruct pairs.
  - intros k fields s. simpl. unfold ct; simpl. destruct (hash_of s k) as [h|]; simpl; [|auto 6].
    destruct fields as [|f fields]; simpl; [by auto 6|]. unfold string_slice. simpl. rewrite mapM_id_map.
    destruct (h !! f); simpl; [|by auto 6]. destruct (mapM (λ f, h !! f) fields); simpl; [|by auto 6]. by auto.
  - intros k s. simpl. unfold ct; simpl. split; [done|]. split; [done|]. destruct (s !! k) as [[]|] eqn:E; try done; right; intros v; congruence.
  - done.
  - done.
Defined.

#[export] Instance mem_etcd : EtcdDriver mem :=
  mkEtcd mem (λ k c, (Ok (inl (match c !! k with Some v => (1, [v]) | None => (0, []) end)), c))
    (λ k limit c, (Ok (inl (Z.of_nat (length (kv_from k c)),
       if limit =? 0 then (kv_from k c).*2 else take (Z.to_nat limit) (kv_from k c).*2)), c))
    (λ k v c, (Ok None, <[k := go_bytes v]> c)) (λ k c, (Ok None, delete k c)).

#[export, refine] Instance mem_etcd_laws : EtcdLaws mem := mkEtcdLaws mem _ _ _ _ _ _.
Proof.
  all: try done.
  intros k limit s. simpl. split; [done|]. by intros res [= <-].
Defined.

(** An Aerospike server; a write increments the generation of its record. *)
Definition as_add (k : string * string * string) (bins : gmap string as_value) : PM records (option error) := λ c,
  if decide (bins = ∅) then (Ok (Some "parameter error"), c)
  else (Ok None, <[k := mkRecord (bins ∪ old_bins c k) (match c !! k with Some r => as_Generation r + 1 | None => 1 end)]> c).

#[export] Instance mem_aerospike : AerospikeDriver records :=
  mkAerospike records (string * string * string) (λ ns T key, inl (ns, T, key))
    (λ k c, (Ok (match k with Some k => inl (c !! k) | None => inr "nil key" end), c))
    (λ ns T c, (Ok (inl (map (λ kr, inl kr.2) (List.filter (λ kr, bool_decide (kr.1.1 = (ns, T))) (map_to_list c)))), c))
    (λ policy k bins c,
       match policy with
       | Some p => if bool_decide (as_Generation <$> c !! k = Some (ap_generation p)) then as_add k bins c
                   else (Ok (Some "generation error"), c)
       | None => as_add k bins c
       end)
    (λ k bins, as_add k (list_to_map bins)) (λ k c, (Ok None, delete k c)).

#[export, refine] Instance mem_aerospike_laws : AerospikeLaws records :=
  mkAerospikeLaws records _ _ (λ _, True) (λ _, True) id _ _ _ _ _ _.
Proof.
  - intros ns T key. by eexists.
  - done.
  - done.
  - intros k bins s _. simpl. unfold as_add, ct. destruct (decide (bins = ∅)); simpl; (split; [done|]); [done|]. by eexists.
  - intros k bins s Hnd _. simpl. unfold as_add, ct.
    assert (list_to_map bins = (∅ : gmap string as_value) ↔ bins = []) as Hb.
    { split; [|by intros ->]. intros H. destruct bins as [|[f v] l]; [done|]. by destruct (insert_non_empty (list_to_map l : gmap string as_value) f v). }
    destruct (decide (list_to_map bins = ∅)), (decide (bins = [])); try tauto; simpl; (split; [done|]); [done|]. by eexists.
  - done.
Defined.

(** ** Refinement *)

(** Sequences of such calls, on the rows the database holds, answer as a map of
    rows does unless one reports an error; none does when the database is up. *)
Definition doc_refines {D} `{!YcsbDB D} `{!DocDB D} (n : Z) (fits : tb_call → Prop) : Prop :=
  ∀ T cs d m, doc_rel n T d m → Forall fits cs → calls_ok doc_ok cs m →
    returns (run_calls T cs d) (λ l d',
      (Forall (λ a, failed a = false) l → l = (spec_calls cs m).1 ∧ doc_rel n T d' (spec_calls cs m).2) ∧
      (dc_up d → Forall (λ a, failed a = false) l)).

Lemma doc_refines_of {D} `{!YcsbDB D} `{!DocDB D} n reads updates :
  (∀ f, f ∈ allFields n → dc_knows (D := D) f) → (∀ fields f, reads fields → f ∈ fields → f ∈ allFields n) →
  does_agree n (doc_fits n (dc_value (D := D)) reads updates) (dc_does (D := D)) →
  doc_refines (D := D) n (doc_fits n (dc_value (D := D)) reads updates).
Proof.
  intros Hk Hr Hag T cs d m Hrel Hf Hok. eapply (doc_calls_refined n _); [| |exact Hag|done|exact Hf|done].
  - intros [key fields|key values|key values|key]; simpl; naive_solver.
  - intros [key fields|key values|key values|key]; simpl; try done.
    + intros Hreads. split; [done|]. intros f Hin. by eapply Hk, Hr.
    + intros [Hfull Hv]. split; [|done]. intros f v Hx. split; [|by apply (Hv f)]. apply Hk, Hfull. by eexists.
    + intros (Hw & _ & _ & Hv). split; [|done]. intros f v Hx. split; [|by apply (Hv f)]. apply Hk, Hw. by eexists.
Qed.

Lemma field_ascii n f : f ∈ allFields n → is_ascii f = true.
Proof. apply field_names_ascii. Qed.

Lemma whole_named n fields f : whole n fields → f ∈ fields → f ∈ allFields n.
Proof. intros [->|Hw] Hf; [by apply not_elem_of_nil in Hf|by apply Hw]. Qed.

(** C16: the document bindings hold tables: as long as the driver obeys its laws, any
    sequence of inserts of new rows with all the fields of the workload and of
    reads, updates and deletes of rows that are there answers, unless a call
    reports an error, as a map from keys to rows does and leaves its rows; no call
    reports one when the database is up.  MongoDB takes every such call, Redis
    hashes reads that name a field (and hide the errors of reads, so that the
    database has to be up), Redis strings and Aerospike reads of whole rows, etcd
    reads of whole rows and updates of all the fields. *)
Theorem document_bindings_refine_tables (n : Z) (range : row → list (string * bytes))
    (Hn : 1 <= n) (Hrange : ∀ m, range m ≡ₚ map_to_list m) :
  (∀ E (HD : MongoDriver E) (HE : Contents E documents) (HL : MongoLaws E), (∀ f, f ∈ allFields n → mg_knows f) →
     doc_refines (YcsbDB0 := mongo_db) (DocDB0 := mongo_docdb) n (doc_fits n mg_value (named n) any)) ∧
  (∀ E (HD : RedisDriver E) (HE : Contents E redis_store) (HL : RedisLaws E),
     doc_refines (YcsbDB0 := redis_db "hash" n range) (DocDB0 := hash_docdb n range Hrange) n
       (doc_fits n (λ _, True) (some_named n) any)) ∧
  (∀ E (HD : RedisDriver E) (HE : Contents E redis_store) (HL : RedisLaws E) datatype
     (Hj : String.eqb datatype "json" = false) (Hh : String.eqb datatype "hash" = false),
     doc_refines (YcsbDB0 := redis_db datatype n range) (DocDB0 := string_docdb datatype Hj Hh n range) n
       (doc_fits n (λ _, True) (whole n) any)) ∧
  (∀ E (HD : AerospikeDriver E) (HE : Contents E records) (HL : AerospikeLaws E) ns, (∀ f, f ∈ allFields n → as_knows f) →
     doc_refines (YcsbDB0 := aerospike_db ns range) (DocDB0 := aerospike_docdb ns range Hrange) n
       (doc_fits n as_stores (whole n) any)) ∧
  (∀ E (HD : EtcdDriver E) (HE : Contents E mem) (HL : EtcdLaws E),
     doc_refines (YcsbDB0 := etcd_db) (DocDB0 := etcd_docdb) n (doc_fits n (λ _, True) (whole n) (full n))).
Proof.
  split_and!.
  - intros E HD HE HL Hk. exact (doc_refines_of (D := E) (DocDB0 := mongo_docdb) n (named n) any Hk
      (λ fields f H, H f) (mongo_agree n _)).
  - intros E HD HE HL. exact (doc_refines_of (D := E) (DocDB0 := hash_docdb n range Hrange) n (some_named n) any (λ _ _, I)
      (λ fields f H, proj2 H f) (hash_agree n Hn _)).
  - intros E HD HE HL datatype Hj Hh. exact (doc_refines_of (D := E) (DocDB0 := string_docdb datatype Hj Hh n range) n (whole n) any
      (field_ascii n) (whole_named n) (string_agree n Hn _)).
  - intros E HD HE HL ns Hk. exact (doc_refines_of (D := E) (DocDB0 := aerospike_docdb ns range Hrange) n (whole n) any Hk
      (whole_named n) (aerospike_agree n Hn _)).
  - intros E HD HE HL. exact (doc_refines_of (D := E) (DocDB0 := etcd_docdb) n (whole n) (full n) (field_ascii n)
      (whole_named n) (etcd_agree n _)).
Qed.

Definition demo_doc_calls : list tb_call :=
  [CallInsert "k" (kv_row "a" "b"); CallInsert "l" (kv_row "x" "y"); CallUpdate "k" {["field1" := go_bytes "c"]};
   CallRead "k" ["field1"]; CallRead "k" ["field0"; "field1"]; CallDelete "l"].

Lemma full_of_dom n (values : row) :
  bool_decide (dom values ≡ (list_to_set (allFields n) : gset string)) = true → full n values.
Proof.
  intros H%bool_decide_eq_true f. rewrite <- elem_of_dom, H. apply elem_of_list_to_set.
Qed.

Lemma demo_doc_fit : Forall (doc_fits 2 (λ _, True) (some_named 2) any) demo_doc_calls.
Proof.
  assert (∀ a b, full 2 (kv_row a b)) as Hfull by (intros; apply full_of_dom; vm_compute; reflexivity).
  assert (∀ f, f = "field0" ∨ f = "field1" → f ∈ allFields 2) as Hf.
  { intros f [-> | ->]; apply (bool_decide_unpack _); vm_compute; exact I. }
  unfold demo_doc_calls. rewrite !Forall_cons. split_and!; simpl; try done.
  - split_and!; [|discriminate|done|done]. intros f [v Hv]. apply lookup_singleton_Some in Hv as [<- _]. apply Hf. by right.
  - split; [done|]. intros f ->%list_elem_of_singleton. apply Hf. by right.
  - split; [done|]. intros f Hin. apply Hf. rewrite !elem_of_cons in Hin. destruct Hin as [->|[->|[]%not_elem_of_nil]]; auto.
Qed.

Lemma en_wf_empty {K V} `{!EqDecision K, !Countable K} (kf : string → string → K) (good : V → Prop) T :
  en_wf kf good T (∅ : gmap K V).
Proof. intros key v Hv. change ((∅ : gmap K V) !! kf T key = Some v) in Hv. by rewrite lookup_empty in Hv. Qed.

Lemma document_bindings_refine_tables_witness :
  let '(o, d) := run_calls (YcsbDB0 := redis_db "hash" 2 map_to_list) "t" demo_doc_calls (∅ : redis_store) in
  o = Ok (spec_calls demo_doc_calls ∅).1 ∧
  doc_rel (DocDB0 := hash_docdb 2 map_to_list (λ m, reflexivity _)) 2 "t" d (spec_calls demo_doc_calls ∅).2.
Proof.
  destruct (document_bindings_refine_tables 2 map_to_list ltac:(lia) (λ m, reflexivity _)) as (_ & Hhash & _).
  specialize (Hhash redis_store _ _ _ "t" demo_doc_calls ∅ ∅).
  destruct (run_calls "t" demo_doc_calls ∅) as [[l|?|?|] d]; simpl in Hhash.
  1:{ destruct Hhash as [H1 H2].
      - split; [exact (en_wf_empty getKeyName hash_good "t")|]. split; [done|]. split; [apply map_Forall_empty|]. intros k. reflexivity.
      - apply demo_doc_fit.
      - repeat split; try (by eexists).
      - destruct (H1 (H2 I)) as [-> Hd]. split; [reflexivity|exact Hd]. }
  all: destruct Hhash; [|apply demo_doc_fit|repeat split; try (by eexists)].
  all: split; [exact (en_wf_empty getKeyName hash_good "t")|split; [done|split; [apply map_Forall_empty|intros k; reflexivity]]].
Defined.

(** ** Benchmark runs *)

(** The rows of a database, whatever fields they have. *)
Definition doc_rows {D} `{!YcsbDB D} `{!DocDB D} (T : string) (d : D) (m : table) : Prop :=
  dc_wf T d ∧ ∀ k, dc_row T d k = m !! k.

Lemma doc_run_keeps_integrity {D} `{!YcsbDB D} `{!DocDB D} range p :
  does_keep (dc_does (D := D)) → (∀ m, range m ≡ₚ map_to_list m) →
  (∀ f, f ∈ field_names (GetInt64 p "fieldcount" 10) → dc_knows (D := D) f) →
  (∀ v, Z.of_nat (length v) <= Z.max 0 (GetInt64 p "fieldlength" 100) → dc_value (D := D) v) →
  keeps_integrity _ (doc_rows (D := D)) range p.
Proof.
  intros Hkeep Hrange Hk Hv R ? Log Pow lower ReadFile ctx fuel r0 r1 r c d yw s s' [Hwf Hrel] Hc Hi Hr Hsteps id warm msg.
  pose (V := doc_values (D := D) Hkeep).
  pose (VW := wrapper_values (ValueDB0 := V)).
  pose (VM := wrapper_measured_values (ValueDB0 := V)).
  eapply (client_ok_no_exit (ValueDB0 := VW) (ValueMeasured0 := VM) Log Pow lower range ctx fuel Hrange).
  eapply (client_ok_steps (ValueDB0 := VW) (ValueMeasured0 := VM) Log Pow lower range ctx fuel Hrange); [|exact Hsteps].
  eapply (run_client_ok (ValueDB0 := VW) Log Pow lower ReadFile p r0 r1 c); [exact Hc|done| |exact Hr].
  split; [|split; [done|intros key; by rewrite Hrel]].
  intros key f v [Hf ->]. split; [by apply Hk|]. apply Hv. rewrite length_take. lia.
Qed.


(** Three records loaded by two threads into an etcd store. *)
Abbreviation demo_etcd := (DbWrapper (YcsbDB0 := etcd_db (E := mem))).

Definition etcd_client : client (list Z) (mem * YWorld) :=
  let d := (∅, mkYW (λ k, tm (Z.of_nat k)) 0 false (MHistograms ∅)) in
  match Run load_props (core_of load_props) d (λ _, []) with
  | Ok s => s
  | _ => mkClientState (core_of load_props) d ∅
  end.

Definition etcd_rounds (ids : list nat) : client (list Z) (mem * YWorld) :=
  default etcd_client (run_rounds (YcsbDB0 := demo_etcd) no_cancel ids etcd_client).

Example etcd_load_ex :
  map fst (map_to_list (cl_db (etcd_rounds [1; 0; 0]%nat)).1) ≡ₚ ["usertable:user5"; "usertable:user6"; "usertable:user7"].
Proof. vm_compute. solve_Permutation. Qed.


(** ** Where the bindings differ from tables *)

Section DocCalls.
Context {D : Type} (db : YcsbDB D).

(** A row, an update of one of its fields, and what is read. *)
Definition doc_update (fields : list string) : PM D (row + error) :=
  db_Insert "t" "k" (kv_row "a" "b") ~; db_Update "t" "k" {["field0" := go_bytes "c"]} ~; db_Read "t" "k" fields.
(** A row inserted over another one. *)
Definition doc_replace : PM D (row + error) :=
  db_Insert "t" "k" (kv_row "a" "b") ~; db_Insert "t" "k" {["field0" := go_bytes "c"]} ~; db_Read "t" "k" ["field0"; "field1"].
(** A row of which one field is asked for that is there, and one that is not. *)
Definition doc_partial (fields : list string) : PM D (row + error) :=
  db_Insert "t" "k" {["field0" := go_bytes "a"]} ~; db_Read "t" "k" fields.
End DocCalls.

(** In etcd an update replaces the row, where the reference keeps the fields that
    were not updated. *)
Theorem etcd_update_drops_fields :
  (doc_update (etcd_db (E := mem)) [] ∅).1 = Ok (inl {["field0" := go_bytes "c"]}) ∧
  (doc_update mem_db [] ∅).1 = Ok (inl (kv_row "c" "b")).
Proof. split; vm_compute; reflexivity. Qed.

(** A scan in etcd succeeds only if exactly as many keys follow in the whole store
    as are asked for, and then gives as many empty rows before the rows. *)
Theorem etcd_scan_pads_and_refuses :
  let fill : PM mem unit :=
    etcd_Insert "t" "k" (kv_row "1" "2") ~; etcd_Insert "t" "l" (kv_row "3" "4") ~; pret tt in
  ((fill ~; etcd_Scan "t" "k" 2 []) ∅).1 = Ok (inl [∅; ∅; kv_row "1" "2"; kv_row "3" "4"]) ∧
  (∃ err, ((fill ~; etcd_Scan "t" "k" 1 []) ∅).1 = Ok (inr err)) ∧
  (∃ err, ((fill ~; etcd_Insert "u" "k" (kv_row "5" "6") ~; etcd_Scan "t" "k" 2 []) ∅).1 = Ok (inr err)).
Proof. cbv zeta. split_and!; [vm_compute; reflexivity|eexists; vm_compute; reflexivity..]. Qed.

(** With any driver, a count that is not that of the keys from the start key on to
    the end of the store makes the scan an error. *)
Theorem etcd_scan_wants_all {E} `{!EtcdDriver E, !Contents E mem, !EtcdLaws E} T key count fields (s s' : E) rows :
  count ≠ Z.of_nat (length (kv_from (row_key T key) (ct s))) →
  etcd_Scan T key count fields s ≠ (Ok (inl rows), s').
Proof.
  intros Hne. unfold etcd_Scan, make_rows. destruct (count <? 0); [done|]. unfold pbind at 1. simpl. unfold pbind.
  pose proof (et_getfrom (row_key T key) count s) as Hf.
  destruct (et_GetFrom (row_key T key) count s) as [[[[Count Kvs]|err]|?|?|] s1]; simpl in *; try done.
  destruct Hf as [_ Hc]. specialize (Hc _ eq_refl). simpl in Hc. by destruct (Z.eqb_spec Count count); [congruence|].
Qed.

(** Redis hashes: a read that names no field, or one field that is not there, gives
    an empty row and no error; a read that fails does so too.  An insert keeps the
    other fields of a row that is there. *)
Theorem redis_hash_reads_hide_errors :
  let hash : YcsbDB redis_store := redis_db "hash" 2 map_to_list in
  (doc_partial hash ["field0"] ∅).1 = Ok (inl {["field0" := go_bytes "a"]}) ∧
  (doc_partial hash ["field0"; "field1"] ∅).1 = Ok (inl ∅) ∧
  (doc_partial hash [] ∅).1 = Ok (inl ∅) ∧
  (doc_replace hash ∅).1 = Ok (inl (kv_row "c" "b")) ∧
  (doc_replace mem_db ∅).1 = Ok (inl {["field0" := go_bytes "c"]}) ∧
  ∀ E (HD : RedisDriver E) T key fields (s s' : E) cmd err,
    rd_Do ("HMGET" :: getKeyName T key :: fields) s = (Ok cmd, s') → rd_StringSlice cmd = inr err →
    redis_Read "hash" T key fields s = (Ok (inl ∅), s').
Proof.
  cbv zeta. split_and!; [vm_compute; reflexivity..|].
  intros E HD T key fields s s' cmd err Hd He. unfold redis_Read. simpl. unfold pbind. by rewrite Hd, He.
Qed.

(** Redis strings, Aerospike and etcd give the whole row whatever fields are asked for. *)
Theorem reads_ignore_fields :
  (doc_update (redis_db (E := redis_store) "string" 2 map_to_list) ["field1"] ∅).1 = Ok (inl (kv_row "c" "b")) ∧
  (doc_update (aerospike_db (E := records) "test" map_to_list) ["field1"] ∅).1 = Ok (inl (kv_row "c" "b")) ∧
  (doc_update (etcd_db (E := mem)) ["field1"] ∅).1 = Ok (inl {["field0" := go_bytes "c"]}) ∧
  (doc_update mem_db ["field1"] ∅).1 = Ok (inl {["field1" := go_bytes "b"]}).
Proof. split_and!; vm_compute; reflexivity. Qed.

(** A driver that keeps the commands it is given. *)
#[local] Instance log_redis : RedisDriver (list (list string)) :=
  mkRedis (list (list string)) unit (λ args l, (Ok tt, l ++ [args])) (λ cmds l, (Ok (map (λ _, tt) cmds, None), l ++ cmds))
    (λ _, None) (λ _, inr "") (λ _, inr "") (λ k l, (Ok (inr ""), l)) (λ k v l, (Ok None, l)) (λ k l, (Ok None, l)).

(** Redis JSON: an insert stores the values in base64, an update the values as they
    are, between quotes and with nothing escaped: a quote in a value ends it. *)
Theorem redis_json_encodings_differ :
  let v : row := {["field0" := go_bytes "a"]} in
  let q : row := {["field0" := go_bytes (String quote "x")]} in
  (redis_Insert "json" map_to_list "t" "k" v []).2 =
    [["JSON.SET"; "t/k"; "."; "{" +:+ quoted "field0" +:+ ":" +:+ quoted "YQ==" +:+ "}"]] ∧
  (redis_Update "json" 2 map_to_list "t" "k" v []).2 = [["JSON.SET"; "t/k"; "$.field0"; quoted "a"]] ∧
  (redis_Update "json" 2 map_to_list "t" "k" q []).2 = [["JSON.SET"; "t/k"; "$.field0"; quoted (String quote "x")]] ∧
  parse_prefix (quoted (String quote "x")) = Some (JStr "", "x" +:+ String quote "").
Proof. cbv zeta. split_and!; vm_compute; reflexivity. Qed.

(** Two updates of different fields of an Aerospike record: run one after the other
    both are kept, run with their reads first the first one loses its field
    (the generation of the record that was read is never sent), where a write that
    expects that generation is refused. *)
Theorem aerospike_update_lost :
  let k := ("test", "t", "k") in
  let up1 : row := {["field0" := go_bytes "c"]} in
  let up2 : row := {["field1" := go_bytes "d"]} in
  let ins : PM records (option error) := aerospike_Insert "test" map_to_list "t" "k" (kv_row "a" "b") in
  let get : PM records (option as_record) := r <~ as_Get (Some k) ;; pret (match r with inl o => o | inr _ => None end) in
  ((ins ~; aerospike_Update "test" "t" "k" up1 ~; aerospike_Update "test" "t" "k" up2 ~;
    aerospike_Read "test" "t" "k" []) ∅).1 = Ok (inl (kv_row "c" "d")) ∧
  ((ins ~; (r1 <~ get ;; r2 <~ get ;; aerospike_update_write k up1 r1 ~; aerospike_update_write k up2 r2 ~;
    aerospike_Read "test" "t" "k" [])) ∅).1 = Ok (inl (kv_row "a" "d")) ∧
  ((ins ~; (r2 <~ get ;; aerospike_Update "test" "t" "k" up1 ~;
     as_Put (mkPolicy ∘ as_Generation <$> r2) k ((AsBytes <$> up2) ∪ from_option as_Bins ∅ r2))) ∅).1 = Ok (Some "generation error").
Proof. cbv zeta. split_and!; vm_compute; reflexivity. Qed.

(** A scan in Aerospike that asks for no fields gives empty rows, and one of zero
    rows gives them all; the start key is not looked at. *)
Theorem aerospike_scan_ignores_arguments :
  let fill : PM records unit :=
    aerospike_Insert "test" map_to_list "t" "k" (kv_row "1" "2") ~; pret tt in
  ((fill ~; aerospike_Scan "test" "t" "k" 1 []) ∅).1 = Ok (inl [∅]) ∧
  ((fill ~; aerospike_Scan "test" "t" "z" 1 ["field0"; "field1"]) ∅).1 = Ok (inl [kv_row "1" "2"]) ∧
  ((fill ~; aerospike_Scan "test" "t" "k" 0 ["field0"; "field1"]) ∅).1 = Ok (inl [kv_row "1" "2"]).
Proof. cbv zeta. split_and!; vm_compute; reflexivity. Qed.

(** In Redis strings an update with as many fields as the workload has creates a
    row that is not there, one with fewer is an error. *)
Theorem redis_string_updates_differ :
  let db : YcsbDB redis_store := redis_db "string" 2 map_to_list in
  ((db_Update "t" "k" (kv_row "a" "b") ~; db_Read "t" "k" []) ∅).1 = Ok (inl (kv_row "a" "b")) ∧
  (∃ err, (db_Update "t" "k" {["field0" := go_bytes "a"]} ∅).1 = Ok (Some err)).
Proof. cbv zeta. split; [vm_compute; reflexivity|eexists; vm_compute; reflexivity]. Qed.
