(* ===== verification/CloudRun.v ===== *)
(** * CloudRun: DynamoDB, MinIO, Elasticsearch and Pegasus at work

    What the bindings of [CloudBindings] do instead of giving back the rows that
    were written, over any driver, and the life of DynamoDB's table. *)

From S2P Require Import Prelude GoLib Float64 GoParse Storage YcsbUtil Json Generators AckCounter Ycsb Workload YcsbClient.
From S2P Require Import TableDb KvStore DocStore DocBindings CloudBindings KvRun.

Open Scope Z_scope.

(** ** DynamoDB in memory *)

Definition mem_key (it : item) : string := match it !! "_key" with Some (DyB v) => string_of v | _ => "" end.

#[export] Instance mem_dynamo : DynamoDriver dy_tables :=
  mkDynamoDriver dy_tables (λ _ _, pret None)
    (λ T c, (Ok (match c !! T with Some _ => DyFound | None => DyNotFound end), c))
    (λ T pk rc wc c, match c !! T with
                     | Some _ => (Ok (Some "ResourceInUseException"), c)
                     | None => (Ok None, <[T := ∅]> c)
                     end)
    (λ T, pret None)
    (λ T c, match c !! T with Some _ => (Ok None, delete T c) | None => (Ok (Some "ResourceNotFoundException"), c) end)
    (λ T, pret None)
    (λ T key cons c, (Ok (inl (default ∅ (c !! T ≫= (.!! mem_key key)))), c))
    (λ T key upd c, (Ok None, alter (λ t, <[mem_key key := list_to_map (default [] upd) ∪ default key (t !! mem_key key)]> t) T c))
    (λ T it c, (Ok None, alter <[mem_key it := it]> T c))
    (λ T key c, (Ok None, alter (delete (mem_key key)) T c))
    (λ values, inl (DyB <$> values))
    (λ it, match decide (map_Forall (λ _ v, match v with DyB _ => true | DyOther => false end = true) it) with
           | left _ => inl (omap (λ v, match v with DyB b => Some b | DyOther => None end) it)
           | right _ => inr "cannot unmarshal"
           end).

#[export, refine] Instance mem_dynamo_laws : DynamoLaws dy_tables := mkDynamoLaws dy_tables _ _ "_key" _ _ _ _ _ _ _ _ _ _.
Proof.
  - done.
  - intros T s. simpl. unfold ct; simpl. by destruct (s !! T) eqn:E; [|..].
  - intros T pk rc wc s. simpl. unfold ct; simpl. destruct (s !! T) eqn:E; simpl; [|done]. split; [done|]. split; [right; by eexists|by left].
  - done.
  - intros T s. simpl. unfold ct; simpl. destruct (s !! T) eqn:E; simpl; [done|]. split; [done|]. split; [by right|by left].
  - done.
  - done.
  - intros values. simpl. destruct (decide _) as [_|H].
    + f_equal. apply map_eq. intros f. rewrite lookup_omap, lookup_fmap. by destruct (values !! f).
    + destruct H. by apply map_Forall_fmap.
  - intros T key it s Hk. simpl. split; [done|]. intros _ _. split; [done|]. unfold mem_key. rewrite Hk.
    unfold string_of, go_bytes. by rewrite String.string_of_list_byte_of_string.
  - intros T key s. simpl. split; [done|]. intros _ _. unfold mem_key. rewrite lookup_singleton_eq.
    unfold string_of, go_bytes. by rewrite String.string_of_list_byte_of_string.
Defined.

(** ** Properties *)


Definition dynamo_props (command : string) (clean : bool) : Properties :=
  demo_props [("command", command)] [] [("dynamodb.ensure.clean.table", clean); ("dynamodb.consistent.reads", true)].


(** What a read of DynamoDB gives is the row that was inserted and, as a field of
    its own, its key. *)
Theorem dynamodb_read_gives_key {E} `{!DynamoDriver E, !Contents E dy_tables, !DynamoLaws E}
    (r : dynamodbWrapper) T0 T1 key values fields (s : E) :
  dw_consistentRead r = true → dw_primarykey r = dy_pk → ct_up s → is_Some (ct s !! dw_tablename r) →
  returns ((dynamo_Insert r T0 key values ~; dynamo_Read r T1 key fields) s)
    (λ res _, res = inl (<[dw_primarykey r := go_bytes key]> values)).
Proof. apply dynamo_insert_read. Qed.

(** Hence the first read of a run with [dataintegrity] over DynamoDB ends the
    process: the key is taken for a field, and has not the value of one. *)
Definition dynamo_bench : dy_tables * YWorld := ({["ycsb" := ∅]}, mkYW (λ k, tm (Z.of_nat k)) 0 false (MHistograms ∅)).
Abbreviation demo_dynamo := (DbWrapper (YcsbDB0 := dynamo_db map_to_list (dynamo_settings (dynamo_props "run" false)))).

(** One thread that loads a record, and one that then runs a transaction. *)
Definition dynamo_loaded : dy_tables * YWorld :=
  match Run load_props (core_of load_props) dynamo_bench (λ _, []) with
  | Ok s => cl_db (default s (run_rounds (YcsbDB0 := demo_dynamo) no_cancel [0%nat] s))
  | _ => dynamo_bench
  end.

Definition dynamo_run_props : Properties :=
  demo_props [("insertorder", "ordered")]
    [("recordcount", 6); ("insertstart", 5); ("operationcount", 1); ("threadcount", 1); ("fieldcount", 2); ("fieldlength", 12)]
    [("dataintegrity", true)].

(** With [dataintegrity] a run over DynamoDB ends at its first read, although the
    record was loaded right before: the key attribute in the row is taken for a field. *)
Theorem dynamodb_integrity_run_exits :
  match Run dynamo_run_props (core_of dynamo_run_props) dynamo_loaded (λ _, []) with
  | Ok s => client_iter (YcsbDB0 := demo_dynamo) (λ x, x) pow_one (λ x, x) map_to_list no_cancel 0 0 true s =
              Some (Exit "unexpected deterministic value")
  | _ => False
  end.
Proof. vm_compute. reflexivity. Qed.

(** Settings: an endpoint on localhost sets the region; without an endpoint the
    region alone, if any, is given. *)
Example dynamo_config_ex :
  dynamo_config (demo_props [("dynamodb.endpoint", "http://localhost:8000"); ("dynamodb.region", "us-west-1")] [] []) =
    (Some "localhost", Some "http://localhost:8000") ∧
  dynamo_config (demo_props [("dynamodb.region", "us-west-1")] [] []) = (Some "us-west-1", None) ∧
  dynamo_config (demo_props [] [] []) = (None, None).
Proof. vm_compute. done. Qed.

(** A row read from MinIO has the one field [field0], whatever was written and
    asked for. *)
Theorem minio_reads_one_field {E} `{!MinioDriver E} T key fields (s s' : E) r :
  minio_Read T key fields s = (Ok (inl r), s') → ∃ v, r = {["field0" := v]}.
Proof. apply minio_read_field. Qed.

(** What is written is one of the values, the one the loop over the map meets
    first. *)
Theorem minio_writes_one_value {E} `{!MinioDriver E} range T key f v values l (s : E) :
  range values = (f, v) :: l → minio_Update range T key values s = mi_PutObject T key v s.
Proof. intros H. unfold minio_Update. by rewrite H. Qed.

(** Every field of a row read from Elasticsearch is the name of a member of the
    response, which has the document in its member [_source]: the fields of the
    document are not among them. *)
Theorem elastic_reads_envelope {E} `{!ElasticDriver E} (m : elastic) T key fields (s s' : E) body r l rest :
  es_Get (el_indexName m) key s = (Ok (inl body), s') → parse_prefix (json_text body) = Some (JObj l, rest) →
  elastic_Read m T key fields s = (Ok (inl r), s') → ∀ f, is_Some (r !! f) → f ∈ l.*1.
Proof.
  intros Hg Hp. unfold elastic_Read, pbind. rewrite Hg. unfold Decode_into. rewrite Hp. simpl.
  destruct (into_members l ∅) as [m' err] eqn:Em. intros [= <-] f Hf. simpl in Hf.
  pose proof (into_members_names l ∅ f) as Hn. rewrite Em in Hn. destruct (Hn Hf) as [[v Hv]|]; [by rewrite lookup_empty in Hv|done].
Qed.

(** When the index is there and its deletion is answered with an error, [Create]
    for the load command returns a nil database and no error; when its creation
    is not answered, it panics unless told to fail. *)
Theorem elastic_create_errors {E} `{!ElasticDriver E} (p : Properties) (numCPU : Z) (s s1 s2 s3 s4 : E) err :
  es_NewClient (elastic_config p) s = (Ok None, s1) → es_NewBulkIndexer (elastic_bulk numCPU p) s1 = (Ok None, s2) → GetString p "command" "" = "load" →
  let iname := GetString p "es.index" "ycsb" in
  let create := es_CreateIndex iname (GetInt p "es.number_of_shards" 1) (GetInt p "es.number_of_replicas" 0) in
  (es_DeleteIndex iname s2 = (Ok (inl true), s3) → elastic_Create numCPU p s = (Ok (None, None), s3)) ∧
  (es_DeleteIndex iname s2 = (Ok (inl false), s3) → create s3 = (Ok (inr err), s4) →
   GetBool p "es.exit.on.index.create.fail" false = false →
   elastic_Create numCPU p s = (Panic "invalid memory address or nil pointer dereference", s4)).
Proof.
  intros H1 H2 Hl iname create. unfold elastic_Create, elastic_recreate, pbind. rewrite H1, H2, Hl. simpl. fold iname. split.
  - intros ->. done.
  - intros -> Hc Hf. fold create. rewrite Hc, Hf. done.
Qed.

(** A read from Pegasus that succeeds gives an empty row, whatever is stored. *)
Theorem pegasus_reads_nothing {E} `{!PegasusDriver E} tid sessions T key fields (s s' : E) r :
  pegasus_Read tid sessions T key fields s = (Ok (inl r), s') → r = ∅.
Proof.
  unfold pegasus_Read, with_session, pbind. destruct (sessions !! tid) as [ses|]; [|done].
  destruct (ps_Get ses _ _ s) as [[[raw|err]|?|?|] s1]; try done. intros [= <- _].
  assert (∀ acc : row, fold_left (λ (result : row) (field : string),
    match pegasus_value raw !! field with Some v => <[field := v]> result | None => result end) fields acc = acc) as H; [|apply H].
  induction fields as [|f fields IH]; intros acc; [done|]. simpl. unfold pegasus_value at 2. rewrite lookup_empty. apply IH.
Qed.
