(* ===== verification/Sql.v ===== *)
(** * Sql: the statements the SQL bindings send

    The texts that src/go-ycsb-vendor/db (mysql, pg, sqlite) build, and the part of
    SQL they are written in: words and symbols, the grammar of the seven kinds of
    statement with their placeholders, and what a statement does to the tables of
    a database.  The round trip of the file: each text is read back as the
    statement that is meant, with its placeholders in the order of the arguments. *)

From Stdlib Require Import Ascii.
From S2P Require Import Prelude GoLib Storage YcsbUtil Float64 Generators Ycsb.

Open Scope Z_scope.

(** ** Statements *)

(** What a [WHERE] asks of the key: to be the argument, to be at least the
    argument (with the number of rows as second argument), to be one of them. *)
Inductive cond := KeyIs | KeyFrom | KeyIn (k : nat).

Inductive statement :=
  | Select (cols : option (list string)) (table : string) (wh : cond)
  | Insert (ignore : bool) (table : string) (cols : list string) (rows : nat)
  | UpdateSet (table : string) (cols : list string)
  | DeleteFrom (table : string) (wh : cond)
  | CreateTable (table : string) (cols : list string)
  | DropTable (table : string)
  | AnalyzeTable (table : string).

(** An insert that leaves a row that is there alone. *)
Abbreviation InsertIgnore := (Insert true).

(** The arguments of a statement ([interface{}] in Go). *)
Inductive sql_arg := AString (s : string) | ABytes (b : bytes) | AInt (i : Z).

#[export] Instance cond_eq_dec : EqDecision cond. Proof. solve_decision. Defined.
#[export] Instance statement_eq_dec : EqDecision statement. Proof. solve_decision. Defined.
#[export] Instance sql_arg_eq_dec : EqDecision sql_arg. Proof. solve_decision. Defined.

(** ** Words and symbols *)

Inductive token := Word (w : string) | Sym (c : ascii).

#[export] Instance token_eq_dec : EqDecision token. Proof. solve_decision. Defined.

Definition in_range (lo hi : N) (c : ascii) : bool :=
  (lo <=? Ascii.N_of_ascii c)%N && (Ascii.N_of_ascii c <=? hi)%N.
Definition ident_char (c : ascii) : bool :=
  in_range 48 57 c || in_range 65 90 c || in_range 97 122 c || Ascii.eqb c "_".
(** Names may be qualified.  Placeholders [?], [$1] and [@key], and [*], are words
    too. *)
Definition name_char (c : ascii) : bool := ident_char c || Ascii.eqb c ".".
Definition word_char (c : ascii) : bool :=
  name_char c || Ascii.eqb c "?" || Ascii.eqb c "$" || Ascii.eqb c "@" || Ascii.eqb c "*".

Definition end_word (w : string) (ts : list token) : list token :=
  match w with EmptyString => ts | _ => Word w :: ts end.

Fixpoint lex (w s : string) : list token :=
  match s with
  | EmptyString => end_word w []
  | String c s =>
      if word_char c then lex (w +:+ String c "") s
      else end_word w (if Ascii.eqb c " " then lex "" s else Sym c :: lex "" s)
  end.

(** ** The grammar *)

Definition keyword (w : string) (ts : list token) : option (list token) :=
  match ts with
  | Word w' :: ts => if String.eqb w w' then Some ts else None
  | _ => None
  end.
Definition symbol (c : ascii) (ts : list token) : option (list token) :=
  match ts with
  | Sym c' :: ts => if Ascii.eqb c c' then Some ts else None
  | _ => None
  end.
Definition any_word (ts : list token) : option (string * list token) :=
  match ts with Word w :: ts => Some (w, ts) | _ => None end.

Fixpoint expect (ts0 ts : list token) : option (list token) :=
  match ts0, ts with
  | [], _ => Some ts
  | t0 :: ts0, t :: ts => if decide (t0 = t) then expect ts0 ts else None
  | _, [] => None
  end.
Definition option_tokens (ts0 ts : list token) : list token := default ts (expect ts0 ts).

(** Parameters by name, in the order of the arguments. *)
Definition param_names : list string := ["key"; "limit"].

(** The placeholder of the [i]th argument. *)
Definition is_mark (i : Z) (w : string) : bool :=
  String.eqb w "?" || String.eqb w ("$" +:+ itoa i) ||
  match param_names !! Z.to_nat (i - 1) with Some name => String.eqb w ("@" +:+ name) | None => false end.
Definition mark (i : Z) (ts : list token) : option (list token) :=
  match ts with Word w :: ts => if is_mark i w then Some ts else None | _ => None end.

(** [w1, w2, ...] *)
Fixpoint word_list (ts : list token) : option (list string * list token) :=
  match ts with
  | Word w :: Sym c :: ts =>
      if Ascii.eqb c "," then '(l, r) ← word_list ts; Some (w :: l, r) else Some ([w], Sym c :: ts)
  | Word w :: ts => Some ([w], ts)
  | _ => None
  end.

(** [w1 = ?, w2 = ?, ...] from the [i]th argument on *)
Fixpoint assignments (i : Z) (ts : list token) : option (list string * list token) :=
  match ts with
  | Word w :: Sym e :: Word p :: Sym c :: ts =>
      if Ascii.eqb e "=" && is_mark i p then
        if Ascii.eqb c "," then '(l, r) ← assignments (i + 1) ts; Some (w :: l, r) else None
      else None
  | Word w :: Sym e :: Word p :: ts =>
      if Ascii.eqb e "=" && is_mark i p then Some ([w], ts) else None
  | _ => None
  end.

(** [?, ?, ...)] from the [i]th argument on *)
Fixpoint mark_list (i : Z) (ts : list token) : option (nat * list token) :=
  match ts with
  | Word p :: Sym c :: ts =>
      if negb (is_mark i p) then None
      else if Ascii.eqb c "," then '(k, r) ← mark_list (i + 1) ts; Some (S k, r)
      else if Ascii.eqb c ")" then Some (1%nat, ts)
      else None
  | _ => None
  end.

(** [(?, ?, ...), (?, ?, ...), ...], each of [k] placeholders *)
Fixpoint row_list (fuel k : nat) (i : Z) (ts : list token) : option (nat * list token) :=
  match fuel with
  | O => None
  | S fuel =>
      ts ← symbol "(" ts;
      '(k', ts) ← mark_list i ts;
      if negb (k =? k')%nat then None
      else match symbol "," ts with
           | Some ts => '(m, r) ← row_list fuel k (i + Z.of_nat k) ts; Some (S m, r)
           | None => Some (1%nat, ts)
           end
  end.

(** [WHERE YCSB_KEY ...] to the end of the statement; [i] is the next argument. *)
Definition parse_where (i : Z) (ts : list token) : option cond :=
  ts ← keyword "WHERE" ts;
  ts ← keyword "YCSB_KEY" ts;
  match symbol "=" ts, symbol ">" ts, keyword "IN" ts with
  | Some ts, _, _ => ts ← mark i ts; match ts with [] => Some KeyIs | _ => None end
  | None, Some ts, _ =>
      ts ← symbol "=" ts; ts ← mark i ts; ts ← keyword "LIMIT" ts; ts ← mark (i + 1) ts;
      match ts with [] => Some KeyFrom | _ => None end
  | None, None, Some ts =>
      ts ← symbol "(" ts; '(k, ts) ← mark_list i ts;
      match ts with [] => Some (KeyIn k) | _ => None end
  | _, _, _ => None
  end.

(** The optimizer hint of MySQL: it does not change the result. *)
Definition hint_text : string := "FORCE INDEX(`PRIMARY`)".
(** A comment only TiDB executes. *)
Definition cluster_text : string := " /*T![clustered_index] CLUSTERED */".

Definition parse_select (ts : list token) : option statement :=
  '(cols, ts) ← match keyword "*" ts with
               | Some ts => Some (None, ts)
               | None => '(l, ts) ← word_list ts; Some (Some l, ts)
               end;
  ts ← keyword "FROM" ts;
  '(table, ts) ← any_word ts;
  wh ← parse_where 1 (option_tokens (lex "" hint_text) ts);
  Some (Select cols table wh).

(** The tokens [ts0], if they are there. *)
Definition optional (ts0 ts : list token) : bool * list token :=
  match expect ts0 ts with Some ts => (true, ts) | None => (false, ts) end.

(** [IGNORE] or [OR IGNORE]. *)
Definition ignore_mark (ts : list token) : bool * list token :=
  match keyword "IGNORE" ts with Some ts => (true, ts) | None => optional [Word "OR"; Word "IGNORE"] ts end.
Definition no_conflict : list token := [Word "ON"; Word "CONFLICT"; Word "DO"; Word "NOTHING"].

(** With one of the three ways of leaving a row that is there alone, or none. *)
Definition parse_insert (ts : list token) : option statement :=
  let '(ign, ts) := ignore_mark ts in
  ts ← keyword "INTO" ts;
  '(table, ts) ← any_word ts;
  ts ← symbol "(" ts;
  '(cols, ts) ← word_list ts;
  ts ← symbol ")" ts;
  ts ← keyword "VALUES" ts;
  '(rows, ts) ← row_list (length ts) (length cols) 1 ts;
  let '(ign', ts) := optional no_conflict ts in
  match cols, ts with
  | k :: cols, [] => if String.eqb k "YCSB_KEY" then Some (Insert (ign || ign') table cols rows) else None
  | _, _ => None
  end.

Definition parse_update (ts : list token) : option statement :=
  '(table, ts) ← any_word ts;
  ts ← keyword "SET" ts;
  '(cols, ts) ← assignments 1 ts;
  wh ← parse_where (1 + Z.of_nat (length cols)) ts;
  match wh with KeyIs => Some (UpdateSet table cols) | _ => None end.

Definition parse_delete (ts : list token) : option statement :=
  ts ← keyword "FROM" ts;
  '(table, ts) ← any_word ts;
  wh ← parse_where 1 ts;
  match wh with KeyFrom => None | _ => Some (DeleteFrom table wh) end.

(** [, FIELD0 VARCHAR(100), ...);] *)
Fixpoint column_list (ts : list token) : option (list string) :=
  match ts with
  | [Sym c; Sym d] => if Ascii.eqb c ")" && Ascii.eqb d ";" then Some [] else None
  | Sym c :: Word w :: Word v :: Sym o :: Word _ :: Sym e :: ts =>
      if Ascii.eqb c "," && String.eqb v "VARCHAR" && Ascii.eqb o "(" && Ascii.eqb e ")"
      then l ← column_list ts; Some (w :: l) else None
  | _ => None
  end.

Definition parse_create (ts : list token) : option statement :=
  ts ← expect [Word "TABLE"; Word "IF"; Word "NOT"; Word "EXISTS"] ts;
  '(table, ts) ← any_word ts;
  ts ← expect (lex "" "(YCSB_KEY VARCHAR(64) PRIMARY KEY") ts;
  cols ← column_list (option_tokens (lex "" cluster_text) ts);
  Some (CreateTable table cols).

Definition parse (text : string) : option statement :=
  match lex "" text with
  | Word w :: ts =>
      if String.eqb w "SELECT" then parse_select ts
      else if String.eqb w "INSERT" then parse_insert ts
      else if String.eqb w "UPDATE" then parse_update ts
      else if String.eqb w "DELETE" then parse_delete ts
      else if String.eqb w "CREATE" then parse_create ts
      else if String.eqb w "DROP" then
        ts ← expect [Word "TABLE"; Word "IF"; Word "EXISTS"] ts;
        match ts with [Word table] => Some (DropTable table) | _ => None end
      else if String.eqb w "ANALYZE" then
        match ts with [Word t; Word table] => if String.eqb t "TABLE" then Some (AnalyzeTable table) else None | _ => None end
      else None
  | _ => None
  end.

(** ** What a statement does *)

(** Column names are not case sensitive; [st_rows] has them in upper case.  A
    column that is NULL has no entry. *)
Record sql_table := mkSqlTable { st_cols : list string; st_rows : gmap string row }.
Abbreviation sql_db := (gmap string sql_table).

Definition upper_char (c : ascii) : ascii :=
  if in_range 97 122 c then Ascii.ascii_of_N (Ascii.N_of_ascii c - 32) else c.
Fixpoint upper (s : string) : string :=
  match s with EmptyString => EmptyString | String c s => String (upper_char c) (upper s) end.

Definition known_cols (t : sql_table) (cols : list string) : bool :=
  bool_decide (NoDup (map upper cols)) && forallb (λ c, bool_decide (upper c ∈ st_cols t)) cols.

(** The rows of an [INSERT]: a key and a value per column. *)
Fixpoint bytes_args (args : list sql_arg) : option (list bytes) :=
  match args with
  | [] => Some []
  | ABytes b :: args => l ← bytes_args args; Some (b :: l)
  | _ => None
  end.
Definition new_row (cols : list string) (vals : list bytes) : row := list_to_map (zip (map upper cols) vals).

Fixpoint insert_args (ignore : bool) (cols : list string) (k : nat) (args : list sql_arg) (rows : gmap string row) : option (gmap string row) :=
  match k, args with
  | O, [] => Some rows
  | S k, AString key :: args =>
      vals ← bytes_args (take (length cols) args);
      if negb (length vals =? length cols)%nat then None
      else match rows !! key with
           | None => insert_args ignore cols k (drop (length cols) args) (<[key := new_row cols vals]> rows)
           | Some _ => if ignore then insert_args ignore cols k (drop (length cols) args) rows else None
           end
  | _, _ => None
  end.

Fixpoint key_args (args : list sql_arg) : option (list string) :=
  match args with
  | [] => Some []
  | AString s :: args => l ← key_args args; Some (s :: l)
  | _ => None
  end.

(** [None] is an error, which changes nothing. *)
Definition exec (st : statement) (args : list sql_arg) (c : sql_db) : option sql_db :=
  match st with
  | Insert ignore table cols k =>
      t ← c !! table;
      if negb (known_cols t cols) then None
      else rows ← insert_args ignore cols k args (st_rows t); Some (<[table := mkSqlTable (st_cols t) rows]> c)
  | UpdateSet table cols =>
      t ← c !! table;
      vals ← bytes_args (take (length cols) args);
      match drop (length cols) args with
      | [AString key] =>
          if negb (known_cols t cols) then None
          else Some (<[table := mkSqlTable (st_cols t) (alter (λ r, new_row cols vals ∪ r) key (st_rows t))]> c)
      | _ => None
      end
  | DeleteFrom table wh =>
      t ← c !! table;
      keys ← key_args args;
      let k := match wh with KeyIn k => k | _ => 1%nat end in
      if negb (length keys =? k)%nat then None
      else Some (<[table := mkSqlTable (st_cols t) (foldr delete (st_rows t) keys)]> c)
  | CreateTable table cols =>
      match args, c !! table with
      | [], None => Some (<[table := mkSqlTable (map upper cols) ∅]> c)
      | [], Some _ => Some c
      | _, _ => None
      end
  | DropTable table => match args with [] => Some (delete table c) | _ => None end
  | AnalyzeTable table => match args, c !! table with [], Some _ => Some c | _, _ => None end
  | Select _ _ _ => None
  end.

(** The columns a [SELECT] names and the value of each in a row. *)
Definition selected (t : sql_table) (cols : option (list string)) : list string :=
  match cols with None => "YCSB_KEY" :: st_cols t | Some l => l end.
Definition column (key : string) (r : row) (col : string) : option bytes :=
  if String.eqb (upper col) "YCSB_KEY" then Some (go_bytes key) else r !! upper col.

(** The keys a condition selects: all of them for [KeyIs] and [KeyIn], as many as
    asked for, of those there are, for [KeyFrom]; in no given order. *)
Definition answers (wh : cond) (args : list sql_arg) (rows : gmap string row) (keys : list string) : Prop :=
  NoDup keys ∧
  match wh, args with
  | KeyIs, [AString key] => ∀ k, k ∈ keys ↔ k = key ∧ is_Some (rows !! k)
  | KeyFrom, [AString key; AInt count] =>
      (∀ k, k ∈ keys → go_string_lt k key = false ∧ is_Some (rows !! k)) ∧ Z.of_nat (length keys) <= Z.max 0 count ∧
      (Z.of_nat (length keys) = Z.max 0 count ∨ ∀ k, go_string_lt k key = false → is_Some (rows !! k) → k ∈ keys)
  | KeyIn n, _ => ∃ l, key_args args = Some l ∧ length l = n ∧ ∀ k, k ∈ keys ↔ k ∈ l ∧ is_Some (rows !! k)
  | _, _ => False
  end.

(** An answer to a query: the columns and a value or NULL for each in every row. *)
Definition query (st : statement) (args : list sql_arg) (c : sql_db) (cols : list string) (data : list (list (option bytes))) : Prop :=
  match st with
  | Select sel table wh =>
      ∃ t keys, c !! table = Some t ∧ answers wh args (st_rows t) keys ∧ cols = selected t sel ∧
        forallb (λ c, bool_decide (upper c ∈ "YCSB_KEY" :: st_cols t)) cols = true ∧
        data = map (λ k, map (column k (default ∅ (st_rows t !! k))) cols) keys
  | _ => False
  end.
