(* ===== verification/SqlText.v ===== *)
(** * SqlText: the texts of the SQL bindings
    (src/go-ycsb-vendor/db: mysql/db.go, pg/db.go, sqlite/db.go)

    The statements as strings, built the way the operations build them, and what
    the grammar of [Sql] reads in them. *)

From Stdlib Require Import Ascii.
From S2P Require Import Prelude GoLib GoParse Storage YcsbUtil Float64 Generators Ycsb Sql.

Open Scope Z_scope.

(** ** Loops the bindings share

    [pairs] are the field pairs of the values, in order. *)

(** [f = ?, g = ?, ...]; [asg] is the text of one assignment. *)
Fixpoint set_clause (asg : string → Z → string) (firstField : bool) (i : Z) (pairs : list FieldPair) : string :=
  match pairs with
  | [] => ""
  | p :: pairs => (if firstField then "" else ", ") +:+ asg (fp_Field p) i +:+ set_clause asg false (i + 1) pairs
  end.

Definition field_clause (pairs : list FieldPair) : string :=
  fold_right (λ p s, " ," +:+ fp_Field p +:+ s) "" pairs.

(** [k] more placeholders, [m i] being that of the [i]th argument. *)
Fixpoint mark_clause (m : Z → string) (i : Z) (k : nat) : string :=
  match k with O => "" | S k => " ," +:+ m i +:+ mark_clause m (i + 1) k end.

(** The loop over the keys of a batch. *)
Fixpoint in_clause {A} (keys : list A) : string :=
  match keys with
  | [] => ""
  | [_] => "?"
  | _ :: keys => "?" +:+ "," +:+ in_clause keys
  end.

Fixpoint column_clause (fieldLength : Z) (idx : list Z) : string :=
  match idx with
  | [] => ""
  | i :: idx => ", FIELD" +:+ itoa i +:+ " VARCHAR(" +:+ itoa fieldLength +:+ ")" +:+ column_clause fieldLength idx
  end.

Definition question (i : Z) : string := "?".
Definition dollar (i : Z) : string := "$" +:+ itoa i.

(** ** MySQL *)

Definition mysql_Read_query (hint table : string) (fields : list string) : string :=
  match fields with [] => "SELECT * FROM " +:+ table +:+ " " +:+ hint +:+ " WHERE YCSB_KEY = ?"
  | _ => "SELECT " +:+ Join fields "," +:+ " FROM " +:+ table +:+ " " +:+ hint +:+ " WHERE YCSB_KEY = ?" end.

Definition mysql_BatchRead_query (hint table : string) (keys fields : list string) : string :=
  (match fields with [] => "SELECT * FROM " +:+ table +:+ " " +:+ hint +:+ " WHERE YCSB_KEY IN ("
   | _ => "SELECT " +:+ Join fields "," +:+ " FROM " +:+ table +:+ " " +:+ hint +:+ " WHERE YCSB_KEY IN (" end)
  +:+ in_clause keys +:+ ")".

Definition mysql_Scan_query (hint table : string) (fields : list string) : string :=
  match fields with [] => "SELECT * FROM " +:+ table +:+ " " +:+ hint +:+ " WHERE YCSB_KEY >= ? LIMIT ?"
  | _ => "SELECT " +:+ Join fields "," +:+ " FROM " +:+ table +:+ " " +:+ hint +:+ " WHERE YCSB_KEY >= ? LIMIT ?" end.

Definition mysql_assign (field : string) (i : Z) : string := field +:+ "= ?".

Definition mysql_Update_query (table : string) (pairs : list FieldPair) : string :=
  "UPDATE " +:+ table +:+ " SET " +:+ set_clause mysql_assign true 1 pairs +:+ " WHERE YCSB_KEY = ?".

Definition mysql_Insert_query (table : string) (pairs : list FieldPair) : string :=
  "INSERT IGNORE INTO " +:+ table +:+ " (YCSB_KEY" +:+ field_clause pairs +:+ ") VALUES (?" +:+
  mark_clause question 2 (length pairs) +:+ ")".

(** [pairs] are those of the first row; [keys] says how many rows there are. *)
Definition mysql_BatchInsert_query (table : string) (pairs : list FieldPair) (keys : list string) : string :=
  "INSERT IGNORE INTO " +:+ table +:+ " (YCSB_KEY" +:+ field_clause pairs +:+ ") VALUES " +:+
  Join (map (λ _, "(?" +:+ mark_clause question 2 (length pairs) +:+ ")") keys) ",".

Definition mysql_Delete_query (table : string) : string := "DELETE FROM " +:+ table +:+ " WHERE YCSB_KEY = ?".

Definition mysql_BatchDelete_query (table : string) (keys : list string) : string :=
  "DELETE FROM " +:+ table +:+ " WHERE YCSB_KEY IN (" +:+ in_clause keys +:+ ")".

Definition drop_query (tableName : string) : string := "DROP TABLE IF EXISTS " +:+ tableName.

Definition mysql_create_query (cluster : bool) (tableName : string) (fieldCount fieldLength : Z) : string :=
  "CREATE TABLE IF NOT EXISTS " +:+ tableName +:+ " (YCSB_KEY VARCHAR(64) PRIMARY KEY" +:+
  (if cluster then cluster_text else "") +:+ column_clause fieldLength (seqZ 0 fieldCount) +:+ ");".

Definition mysql_Analyze_query (table : string) : string := "ANALYZE TABLE " +:+ table.

(** ** PostgreSQL *)

Definition pg_Read_query (table : string) (fields : list string) : string :=
  match fields with [] => "SELECT * FROM " +:+ table +:+ " WHERE YCSB_KEY = $1"
  | _ => "SELECT " +:+ Join fields "," +:+ " FROM " +:+ table +:+ " WHERE YCSB_KEY = $1" end.

Definition pg_Scan_query (table : string) (fields : list string) : string :=
  match fields with [] => "SELECT * FROM " +:+ table +:+ " WHERE YCSB_KEY >= $1 LIMIT $2"
  | _ => "SELECT " +:+ Join fields "," +:+ " FROM " +:+ table +:+ " WHERE YCSB_KEY >= $1 LIMIT $2" end.

Definition pg_assign (field : string) (i : Z) : string := field +:+ " = $" +:+ itoa i.

(** [placeHolderIndex] has been increased once per pair when the key is due. *)
Definition pg_Update_query (table : string) (pairs : list FieldPair) : string :=
  "UPDATE " +:+ table +:+ " SET " +:+ set_clause pg_assign true 1 pairs +:+
  " WHERE YCSB_KEY = $" +:+ itoa (1 + Z.of_nat (length pairs)).

Definition pg_Insert_query (table : string) (pairs : list FieldPair) : string :=
  "INSERT INTO " +:+ table +:+ " (YCSB_KEY" +:+ field_clause pairs +:+ ") VALUES ($1" +:+
  mark_clause dollar 2 (length pairs) +:+ ") ON CONFLICT DO NOTHING".

Definition pg_Delete_query (table : string) : string := "DELETE FROM " +:+ table +:+ " WHERE YCSB_KEY = $1".

Definition pg_create_query (tableName : string) (fieldCount fieldLength : Z) : string :=
  "CREATE TABLE IF NOT EXISTS " +:+ tableName +:+ " (YCSB_KEY VARCHAR(64) PRIMARY KEY" +:+
  column_clause fieldLength (seqZ 0 fieldCount) +:+ ");".

(** ** SQLite *)

Definition sqlite_Read_query (table : string) (fields : list string) : string :=
  match fields with [] => "SELECT * FROM " +:+ table +:+ " WHERE YCSB_KEY = ?"
  | _ => "SELECT " +:+ Join fields "," +:+ " FROM " +:+ table +:+ " WHERE YCSB_KEY = ?" end.

Definition sqlite_Scan_query (table : string) (fields : list string) : string :=
  match fields with [] => "SELECT * FROM " +:+ table +:+ " WHERE YCSB_KEY >= ? LIMIT ?"
  | _ => "SELECT " +:+ Join fields "," +:+ " FROM " +:+ table +:+ " WHERE YCSB_KEY >= ? LIMIT ?" end.

Definition sqlite_Update_query (table : string) (pairs : list FieldPair) : string :=
  "UPDATE " +:+ table +:+ " SET " +:+ set_clause mysql_assign true 1 pairs +:+ " WHERE YCSB_KEY = ?".

Definition sqlite_Insert_query (table : string) (pairs : list FieldPair) : string :=
  "INSERT OR IGNORE INTO " +:+ table +:+ " (YCSB_KEY" +:+ field_clause pairs +:+ ") VALUES (?" +:+
  mark_clause question 2 (length pairs) +:+ ")".

Definition sqlite_Delete_query (table : string) : string := "DELETE FROM " +:+ table +:+ " WHERE YCSB_KEY = ?".

Definition sqlite_create_query (tableName : string) (fieldCount fieldLength : Z) : string :=
  "CREATE TABLE IF NOT EXISTS " +:+ tableName +:+ " (YCSB_KEY VARCHAR(64) PRIMARY KEY" +:+
  column_clause fieldLength (seqZ 0 fieldCount) +:+ ");".

(** ** Reading the texts *)

Definition word (s : string) : bool := forallb word_char (String.list_ascii_of_string s).
Definition ident (s : string) : bool := negb (String.eqb s "") && forallb ident_char (String.list_ascii_of_string s).
Definition name (s : string) : bool := negb (String.eqb s "") && forallb name_char (String.list_ascii_of_string s).

Definition starts_sep (s : string) : bool := match s with String c _ => negb (word_char c) | EmptyString => true end.
Fixpoint ends_sep (s : string) : bool :=
  match s with String c EmptyString => negb (word_char c) | String _ s => ends_sep s | EmptyString => false end.

Lemma end_word_app w ts : end_word w ts = end_word w [] ++ ts.
Proof. by destruct w. Qed.

(** Texts that meet at the end of a word are read one after the other. *)
Lemma lex_app_end l : ∀ w s, ends_sep l = true → lex w (l +:+ s) = lex w l ++ lex "" s.
Proof.
  induction l as [|c l IH]; intros w s Hl; [done|]. rewrite append_cons. simpl.
  destruct l as [|c' l'].
  - change ("" +:+ s) with s. simpl in *. apply negb_true_iff in Hl. rewrite Hl. destruct (Ascii.eqb c " ").
    + by rewrite (end_word_app w (lex "" s)).
    + rewrite (end_word_app w (Sym c :: lex "" s)), (end_word_app w [Sym c]). by rewrite <- app_assoc.
  - destruct (word_char c); [by apply IH|]. rewrite IH by done. destruct (Ascii.eqb c " ").
    + rewrite (end_word_app w (_ ++ _)), (end_word_app w (lex "" (String c' l'))). by rewrite app_assoc.
    + rewrite (end_word_app w (Sym c :: _ ++ _)), (end_word_app w (Sym c :: _)). by rewrite <- app_assoc.
Qed.

Lemma lex_app_start l : ∀ w s, starts_sep s = true → lex w (l +:+ s) = lex w l ++ lex "" s.
Proof.
  induction l as [|c l IH]; intros w s Hs; [change ("" +:+ s) with s|rewrite append_cons; simpl].
  - destruct s as [|c s]; [by rewrite app_nil_r|]. simpl in *. apply negb_true_iff in Hs. rewrite Hs.
    rewrite end_word_app. simpl. by destruct (Ascii.eqb c " ").
  - destruct (word_char c); [by apply IH|]. rewrite IH by done. destruct (Ascii.eqb c " ").
    + rewrite (end_word_app w (_ ++ _)), (end_word_app w (lex "" l)). by rewrite app_assoc.
    + rewrite (end_word_app w (Sym c :: _ ++ _)), (end_word_app w (Sym c :: _)). by rewrite <- app_assoc.
Qed.

Lemma lex_word s : ∀ w, word s = true → lex w s = end_word (w +:+ s) [].
Proof.
  unfold word. induction s as [|c s IH]; intros w Hs; simpl in *; [by rewrite append_nil_r|].
  apply andb_true_iff in Hs as [-> Hs]. rewrite IH by done. by rewrite append_assoc.
Qed.

Lemma name_word s : name s = true → word s = true.
Proof.
  unfold name, word. intros [_ H]%andb_true_iff. apply forallb_forall. rewrite forallb_forall in H.
  intros c Hc. unfold word_char. by rewrite (H c Hc).
Qed.

Lemma ident_name s : ident s = true → name s = true.
Proof.
  unfold ident, name. intros [-> H]%andb_true_iff. apply forallb_forall. rewrite forallb_forall in H.
  intros c Hc. unfold name_char. by rewrite (H c Hc).
Qed.

Lemma lex_name s : name s = true → lex "" s = [Word s].
Proof.
  intros H. rewrite lex_word by (by apply name_word). unfold name in H. simpl.
  destruct s; [done|reflexivity].
Qed.

Lemma lex_ident s : ident s = true → lex "" s = [Word s].
Proof. intros H. by apply lex_name, ident_name. Qed.

Lemma starts_sep_app a b : starts_sep a = true → starts_sep b = true → starts_sep (a +:+ b) = true.
Proof. by destruct a. Qed.

Lemma itoa_chars i : 0 <= i → forallb ident_char (String.list_ascii_of_string (itoa i)) = true.
Proof. intros Hi. by apply itoa_forallb. Qed.

Lemma itoa_ident i : 0 <= i → ident (itoa i) = true.
Proof.
  intros Hi. unfold ident. rewrite itoa_chars, andb_true_r by done. apply negb_true_iff, String.eqb_neq.
  unfold itoa. destruct i as [|p|p]; [done| |lia]. apply pretty_pos_nonempty.
Qed.

Lemma ident_prefix c w s :
  forallb ident_char (String.list_ascii_of_string (String c w)) = true →
  forallb ident_char (String.list_ascii_of_string s) = true → ident (String c w +:+ s) = true.
Proof.
  intros Hw Hs. unfold ident. rewrite append_cons at 1. simpl String.eqb.
  assert (∀ a b, String.list_ascii_of_string (a +:+ b) = (String.list_ascii_of_string a ++ String.list_ascii_of_string b)%list) as ->.
  { intros a b. induction a as [|x a IH]; [done|]. rewrite append_cons. simpl. by rewrite IH. }
  by rewrite forallb_app, Hw, Hs.
Qed.

Lemma lex_dollar i : 0 <= i → lex "" (dollar i) = [Word (dollar i)].
Proof.
  intros Hi. rewrite lex_word; [reflexivity|]. unfold word, dollar. rewrite append_cons. simpl.
  apply forallb_forall. intros c Hc. pose proof (itoa_chars i Hi) as H. rewrite forallb_forall in H.
  unfold word_char, name_char. by rewrite (H c Hc).
Qed.

Lemma mark_dollar i : is_mark i (dollar i) = true.
Proof.
  unfold is_mark. rewrite (proj2 (String.eqb_eq (dollar i) ("$" +:+ itoa i)) eq_refl).
  by rewrite orb_true_r.
Qed.
Lemma mark_question i : is_mark i "?" = true.
Proof. done. Qed.

(** The tokens of the clauses. *)
Definition assign_tokens (m : Z → string) (i : Z) (f : string) : list token := [Word f; Sym "="; Word (m i)].

Fixpoint set_tokens (m : Z → string) (first : bool) (i : Z) (fs : list string) : list token :=
  match fs with
  | [] => []
  | f :: fs => (if first then [] else [Sym ","]) ++ assign_tokens m i f ++ set_tokens m false (i + 1) fs
  end.

Definition comma_words (l : list string) : list token := flat_map (λ f, [Sym ","; Word f]) l.

Fixpoint mark_tokens (m : Z → string) (i : Z) (k : nat) : list token :=
  match k with O => [] | S k => Sym "," :: Word (m i) :: mark_tokens m (i + 1) k end.

#[local] Ltac sep := first [reflexivity | assumption | apply starts_sep_app; sep].
#[local] Ltac lex_text :=
  repeat first [rewrite lex_app_end by reflexivity | rewrite lex_app_start by sep];
  repeat match goal with
  | |- context [lex "" (String ?c ?s)] =>
      let t := eval vm_compute in (lex "" (String c s)) in change (lex "" (String c s)) with t
  end.

Lemma mark_list_comma i p ts : is_mark i p = true →
  mark_list i (Word p :: Sym "," :: ts) = ('(k, r) ← mark_list (i + 1) ts; Some (S k, r)).
Proof. intros H. simpl. by rewrite H. Qed.

Lemma mark_list_tokens m (Hm : ∀ i, is_mark i (m i) = true) k : ∀ i p ts,
  is_mark i p = true → mark_list i (Word p :: mark_tokens m (i + 1) k ++ Sym ")" :: ts) = Some (S k, ts).
Proof.
  induction k as [|k IH]; intros i p ts Hp; cbn [mark_tokens app]; [simpl; by rewrite Hp|].
  by rewrite mark_list_comma, IH.
Qed.

Lemma word_list_comma l : ∀ w c ts, Ascii.eqb c "," = false →
  word_list (Word w :: comma_words l ++ Sym c :: ts) = Some (w :: l, Sym c :: ts).
Proof.
  induction l as [|f l IH]; intros w c ts Hc; [simpl; by rewrite Hc|].
  change (('(l, r) ← word_list (Word f :: comma_words l ++ Sym c :: ts); Some (w :: l, r)) = Some (w :: f :: l, Sym c :: ts)).
  by rewrite IH.
Qed.

Lemma word_list_word l : ∀ w x ts, word_list (Word w :: comma_words l ++ Word x :: ts) = Some (w :: l, Word x :: ts).
Proof.
  induction l as [|f l IH]; intros w x ts; [done|].
  change (('(l, r) ← word_list (Word f :: comma_words l ++ Word x :: ts); Some (w :: l, r)) = Some (w :: f :: l, Word x :: ts)).
  by rewrite IH.
Qed.

Lemma assignments_comma i f p ts : is_mark i p = true →
  assignments i (Word f :: Sym "=" :: Word p :: Sym "," :: ts) = ('(l, r) ← assignments (i + 1) ts; Some (f :: l, r)).
Proof. intros H. simpl. by rewrite H. Qed.

Lemma assignments_tokens m (Hm : ∀ i, is_mark i (m i) = true) fs : ∀ i f x ts,
  assignments i (assign_tokens m i f ++ set_tokens m false (i + 1) fs ++ Word x :: ts) = Some (f :: fs, Word x :: ts).
Proof.
  induction fs as [|g fs IH]; intros i f x ts; [simpl; by rewrite Hm|].
  cbn [set_tokens]. rewrite <- !app_assoc. cbn [assign_tokens app]. rewrite assignments_comma by done.
  change (('(l, r) ← assignments (i + 1) (assign_tokens m (i + 1) g ++ set_tokens m false (i + 1 + 1) fs ++ Word x :: ts);
    Some (f :: l, r)) = Some (f :: g :: fs, Word x :: ts)).
  by rewrite IH.
Qed.

(** *** The clauses *)

Lemma set_clause_sep asg i pairs : starts_sep (set_clause asg false i pairs) = true.
Proof. by destruct pairs. Qed.
Lemma field_clause_sep pairs : starts_sep (field_clause pairs) = true.
Proof. by destruct pairs. Qed.
Lemma mark_clause_sep m i k : starts_sep (mark_clause m i k) = true.
Proof. by destruct k. Qed.
Lemma column_clause_sep len idx : starts_sep (column_clause len idx) = true.
Proof. by destruct idx. Qed.

#[local] Hint Resolve set_clause_sep field_clause_sep mark_clause_sep column_clause_sep : core.

Lemma lex_set_clause asg m pairs :
  (∀ f i, ident f = true → 0 <= i → lex "" (asg f i) = assign_tokens m i f) →
  Forall (λ p, ident (fp_Field p) = true) pairs →
  ∀ first i, 0 <= i → lex "" (set_clause asg first i pairs) = set_tokens m first i (map fp_Field pairs).
Proof.
  intros Ha Hp. induction Hp as [|p pairs Hp _ IH]; intros first i Hi; [done|]. cbn [set_clause map set_tokens].
  rewrite <- IH by lia. rewrite <- (Ha (fp_Field p) i) by done. destruct first.
  - change ("" +:+ ?s) with s. by rewrite lex_app_start.
  - rewrite lex_app_end by done. by rewrite lex_app_start.
Qed.

Lemma lex_field_clause pairs :
  Forall (λ p, ident (fp_Field p) = true) pairs → lex "" (field_clause pairs) = comma_words (map fp_Field pairs).
Proof.
  induction 1 as [|p pairs Hp _ IH]; [done|]. change (field_clause (p :: pairs)) with (" ," +:+ fp_Field p +:+ field_clause pairs).
  rewrite lex_app_end by done. rewrite lex_app_start by done.
  by rewrite (lex_ident (fp_Field p)), IH.
Qed.

Lemma lex_mark_clause m k : (∀ i, 0 <= i → lex "" (m i) = [Word (m i)]) →
  ∀ i, 0 <= i → lex "" (mark_clause m i k) = mark_tokens m i k.
Proof.
  intros Hm. induction k as [|k IH]; intros i Hi; [done|]. cbn [mark_clause mark_tokens].
  rewrite lex_app_end by done. rewrite lex_app_start by done. by rewrite Hm, IH by lia.
Qed.

Lemma lex_join f l : Forall (λ f, ident f = true) (f :: l) → lex "" (Join (f :: l) ",") = Word f :: comma_words l.
Proof.
  revert f. induction l as [|g l IH]; intros f [Hf Hl]%Forall_cons; [by apply lex_ident|].
  change (Join (f :: g :: l) ",") with (f +:+ "," +:+ Join (g :: l) ",").
  rewrite lex_app_start by done. rewrite lex_app_end by done. by rewrite (lex_ident f), IH.
Qed.

Lemma lex_in_clause {A} (k : A) keys i :
  lex "" (in_clause (k :: keys)) = Word "?" :: mark_tokens question i (length keys).
Proof.
  revert k i. induction keys as [|k' keys IH]; intros k i; [done|].
  change (in_clause (k :: k' :: keys)) with ("?," +:+ in_clause (k' :: keys)).
  rewrite lex_app_end by done. by rewrite (IH k' (i + 1)).
Qed.

Lemma column_list_clause len idx : 0 <= len → Forall (λ i, 0 <= i) idx →
  column_list (lex "" (column_clause len idx +:+ ");")) = Some (map (λ i, "FIELD" +:+ itoa i) idx).
Proof.
  intros Hlen Hi. induction Hi as [|i idx Hi _ IH]; [done|].
  change (column_clause len (i :: idx) +:+ ");") with
    (", " +:+ ("FIELD" +:+ itoa i +:+ " VARCHAR(" +:+ itoa len +:+ ")" +:+ column_clause len idx) +:+ ");").
  rewrite !append_assoc. rewrite lex_app_end by done. rewrite <- (append_assoc "FIELD").
  rewrite lex_app_start by done. rewrite (lex_app_end " VARCHAR(") by done.
  rewrite (lex_app_start (itoa len)) by done. rewrite (lex_app_end ")") by done.
  rewrite (lex_ident ("FIELD" +:+ itoa i)) by (apply ident_prefix; [done|by apply itoa_chars]).
  rewrite (lex_ident (itoa len)).
  - change (lex "" ", ") with [Sym ","]. change (lex "" " VARCHAR(") with [Word "VARCHAR"; Sym "("].
    change (lex "" ")") with [Sym ")"]. simpl.
    destruct (lex "" (column_clause len idx +:+ ");")) as [|t ts] eqn:E; [done|]. by rewrite IH.
  - by apply itoa_ident.
Qed.

(** ** The texts are the statements meant *)

Definition good_fields (pairs : list FieldPair) : Prop := Forall (λ p, ident (fp_Field p) = true) pairs.

Definition selected_cols (fields : list string) : option (list string) :=
  match fields with [] => None | _ => Some fields end.

Lemma keyword_ident f ts : ident f = true → keyword "*" (Word f :: ts) = None.
Proof. intros Hf. unfold keyword. destruct (String.eqb_spec "*" f) as [<-|]; done. Qed.

(** What a [SELECT] asks for, up to the table. *)
Lemma parse_select_list fields table ts :
  Forall (λ f, ident f = true) fields →
  parse_select (match fields with [] => [Word "*"] | f :: l => Word f :: comma_words l end ++ Word "FROM" :: Word table :: ts) =
  (wh ← parse_where 1 (option_tokens (lex "" hint_text) ts); Some (Select (selected_cols fields) table wh)).
Proof.
  intros Hf. unfold parse_select. generalize (lex "" hint_text). intros hint.
  destruct fields as [|f l]; [reflexivity|]. inversion_clear Hf.
  cbn [app]. rewrite (keyword_ident f) by done.
  rewrite (word_list_word l f "FROM" (Word table :: ts)). reflexivity.
Qed.

Lemma lex_select table fields s : name table = true → Forall (λ f, ident f = true) fields → starts_sep s = true →
  lex "" (match fields with [] => "SELECT * FROM " +:+ table +:+ s | _ => "SELECT " +:+ Join fields "," +:+ " FROM " +:+ table +:+ s end) =
  Word "SELECT" :: match fields with [] => [Word "*"] | f :: l => Word f :: comma_words l end ++ Word "FROM" :: Word table :: lex "" s.
Proof.
  intros Ht Hf Hs. destruct fields as [|f l].
  - rewrite lex_app_end by done. rewrite lex_app_start by done. by rewrite (lex_name table).
  - rewrite (lex_app_end "SELECT ") by done. rewrite lex_app_start by done. rewrite (lex_app_end " FROM ") by done.
    rewrite (lex_app_start table) by done. rewrite (lex_name table), lex_join by done. done.
Qed.

Lemma parse_select_text table fields s : name table = true → Forall (λ f, ident f = true) fields → starts_sep s = true →
  parse (match fields with [] => "SELECT * FROM " +:+ table +:+ s | _ => "SELECT " +:+ Join fields "," +:+ " FROM " +:+ table +:+ s end) =
  (wh ← parse_where 1 (option_tokens (lex "" hint_text) (lex "" s)); Some (Select (selected_cols fields) table wh)).
Proof. intros Ht Hf Hs. unfold parse. rewrite lex_select by done. by apply parse_select_list. Qed.

Lemma select_text_app table fields s t :
  match fields with [] => "SELECT * FROM " +:+ table +:+ s | _ => "SELECT " +:+ Join fields "," +:+ " FROM " +:+ table +:+ s end +:+ t =
  match fields with [] => "SELECT * FROM " +:+ table +:+ (s +:+ t) | _ => "SELECT " +:+ Join fields "," +:+ " FROM " +:+ table +:+ (s +:+ t) end.
Proof. by destruct fields; rewrite !append_assoc. Qed.

(** [hint] is one of the two keywords of a MySQL connection. *)
Definition hint_ok (hint : string) : Prop := hint = "" ∨ hint = hint_text.

Lemma where_in_text {A} (k : A) keys :
  parse_where 1 (lex "" (" WHERE YCSB_KEY IN (" +:+ in_clause (k :: keys) +:+ ")")) = Some (KeyIn (S (length keys))).
Proof.
  rewrite lex_app_end by reflexivity. rewrite lex_app_start by reflexivity. rewrite (lex_in_clause k keys (1 + 1)).
  change (lex "" " WHERE YCSB_KEY IN (") with [Word "WHERE"; Word "YCSB_KEY"; Word "IN"; Sym "("].
  change (lex "" ")") with [Sym ")"]. cbn [app].
  change ((('(k, ts) ← mark_list 1 (Word "?" :: mark_tokens question (1 + 1) (length keys) ++ [Sym ")"]);
    match ts with [] => Some (KeyIn k) | _ => None end) : option cond) = Some (KeyIn (S (length keys)))).
  by rewrite mark_list_tokens.
Qed.

Lemma hint_skipped hint s : hint_ok hint →
  option_tokens (lex "" hint_text) (lex "" (" " +:+ hint +:+ " WHERE " +:+ s)) = lex "" (" WHERE " +:+ s).
Proof.
  intros [-> | ->].
  - change (" " +:+ "" +:+ " WHERE " +:+ s) with ("  WHERE " +:+ s). rewrite !lex_app_end by reflexivity.
    change (lex "" " WHERE ") with [Word "WHERE"]. change (lex "" "  WHERE ") with [Word "WHERE"]. reflexivity.
  - rewrite (lex_app_end " ") by reflexivity. rewrite (lex_app_end hint_text) by reflexivity.
    generalize (lex "" (" WHERE " +:+ s)). intros ts. reflexivity.
Qed.

Lemma keyword_same w ts : keyword w (Word w :: ts) = Some ts.
Proof. unfold keyword. by rewrite (proj2 (String.eqb_eq w w) eq_refl). Qed.
Lemma symbol_same c ts : symbol c (Sym c :: ts) = Some ts.
Proof. unfold symbol. by rewrite (proj2 (Ascii.eqb_eq c c) eq_refl). Qed.

#[local] Ltac grammar :=
  repeat first [rewrite keyword_same | rewrite symbol_same | progress cbn [mbind option_bind any_word]].

(** The rows of an [INSERT]. *)
Lemma row_list_last m (Hm : ∀ i, is_mark i (m i) = true) fuel k i p ts :
  is_mark i p = true → symbol "," ts = None →
  row_list (S fuel) (S k) i (Sym "(" :: Word p :: mark_tokens m (i + 1) k ++ Sym ")" :: ts) = Some (1%nat, ts).
Proof.
  intros Hp Hts. cbn [row_list]. grammar.
  rewrite mark_list_tokens by done. grammar.
  rewrite Nat.eqb_refl, Hts. reflexivity.
Qed.

Lemma row_list_next m (Hm : ∀ i, is_mark i (m i) = true) fuel k i p ts :
  is_mark i p = true →
  row_list (S fuel) (S k) i (Sym "(" :: Word p :: mark_tokens m (i + 1) k ++ Sym ")" :: Sym "," :: ts) =
  ('(n, r) ← row_list fuel (S k) (i + Z.of_nat (S k)) ts; Some (S n, r)).
Proof.
  intros Hp. cbn [row_list]. grammar.
  rewrite mark_list_tokens by done. grammar.
  rewrite Nat.eqb_refl. reflexivity.
Qed.

(** From the three verbs to the rows. *)
Definition insert_verb (ign : bool) (verb : string) (vts : list token) : Prop :=
  ends_sep verb = true ∧ lex "" verb = Word "INSERT" :: vts ∧
  ∀ ts, ignore_mark (vts ++ ts) = (ign, Word "INTO" :: ts).

Lemma parse_insert_tokens ign ign' vts table cols rts n ts :
  (∀ ts, ignore_mark (vts ++ ts) = (ign, Word "INTO" :: ts)) →
  row_list (length rts) (S (length cols)) 1 rts = Some (n, ts) →
  optional no_conflict ts = (ign', []) →
  parse_insert (vts ++ Word table :: Sym "(" :: Word "YCSB_KEY" :: comma_words cols ++ Sym ")" :: Word "VALUES" :: rts)
  = Some (Insert (ign || ign') table cols n).
Proof.
  intros Hv Hr Ho. unfold parse_insert. rewrite Hv. grammar.
  rewrite word_list_comma by reflexivity. grammar. cbn [length]. rewrite Hr. grammar. rewrite Ho. reflexivity.
Qed.

Section Texts.
Context (table : string) (table_ok : name table = true).

Lemma mysql_select_text hint fields s : hint_ok hint → Forall (λ f, ident f = true) fields →
  parse (match fields with [] => "SELECT * FROM " +:+ table +:+ " " +:+ hint +:+ " WHERE " +:+ s
         | _ => "SELECT " +:+ Join fields "," +:+ " FROM " +:+ table +:+ " " +:+ hint +:+ " WHERE " +:+ s end) =
  (wh ← parse_where 1 (lex "" (" WHERE " +:+ s)); Some (Select (selected_cols fields) table wh)).
Proof. intros Hh Hf. rewrite parse_select_text by done. by rewrite hint_skipped. Qed.

Lemma insert_text ign ign' verb vts pairs rest n ts : insert_verb ign verb vts → good_fields pairs →
  row_list (length (lex "" rest)) (S (length pairs)) 1 (lex "" rest) = Some (n, ts) →
  optional no_conflict ts = (ign', []) →
  parse (verb +:+ table +:+ " (YCSB_KEY" +:+ field_clause pairs +:+ ") VALUES " +:+ rest) =
  Some (Insert (ign || ign') table (map fp_Field pairs) n).
Proof.
  intros (He & Hl & Hv) Hp Hr Ho. unfold parse.
  rewrite (lex_app_end verb) by done. rewrite (lex_app_start table) by done.
  rewrite (lex_app_start " (YCSB_KEY") by (by apply starts_sep_app). rewrite (lex_app_start (field_clause pairs)) by done.
  rewrite (lex_app_end ") VALUES ") by done. rewrite Hl, (lex_name table), lex_field_clause by done.
  change (lex "" " (YCSB_KEY") with [Sym "("; Word "YCSB_KEY"]. change (lex "" ") VALUES ") with [Sym ")"; Word "VALUES"].
  cbn [app]. apply parse_insert_tokens with (ts := ts); [done|by rewrite length_map|done].
Qed.

Lemma update_text asg m pairs k :
  (∀ i, is_mark i (m i) = true) → (∀ f i, ident f = true → 0 <= i → lex "" (asg f i) = assign_tokens m i f) →
  good_fields pairs → pairs ≠ [] → is_mark (1 + Z.of_nat (length pairs)) k = true → lex "" k = [Word k] →
  parse ("UPDATE " +:+ table +:+ " SET " +:+ set_clause asg true 1 pairs +:+ " WHERE YCSB_KEY = " +:+ k) =
  Some (UpdateSet table (map fp_Field pairs)).
Proof.
  intros Hm Ha Hp Hne Hk Hlk. unfold parse.
  rewrite (lex_app_end "UPDATE ") by done. rewrite (lex_app_start table) by done. rewrite (lex_app_end " SET ") by done.
  rewrite (lex_app_start (set_clause asg true 1 pairs)) by done. rewrite (lex_app_end " WHERE YCSB_KEY = ") by done.
  rewrite (lex_name table), (lex_set_clause asg m), Hlk by done.
  destruct pairs as [|p pairs]; [done|]. cbn [map set_tokens app].
  change (lex "" " WHERE YCSB_KEY = ") with [Word "WHERE"; Word "YCSB_KEY"; Sym "="].
  change (parse_update (Word table :: Word "SET" :: (assign_tokens m 1 (fp_Field p) ++ set_tokens m false (1 + 1) (map fp_Field pairs)) ++
    Word "WHERE" :: [Word "YCSB_KEY"; Sym "="; Word k]) = Some (UpdateSet table (fp_Field p :: map fp_Field pairs))).
  rewrite <- app_assoc. unfold parse_update. grammar. rewrite (assignments_tokens m Hm). grammar.
  unfold parse_where. grammar. cbn [mark length] in *. rewrite length_map, Hk. reflexivity.
Qed.

Lemma delete_text k : lex "" k = [Word k] → is_mark 1 k = true →
  parse ("DELETE FROM " +:+ table +:+ " WHERE YCSB_KEY = " +:+ k) = Some (DeleteFrom table KeyIs).
Proof.
  intros Hk Hm. unfold parse. rewrite (lex_app_end "DELETE FROM ") by done. rewrite (lex_app_start table) by done.
  rewrite (lex_app_end " WHERE YCSB_KEY = ") by done. rewrite (lex_name table), Hk by done.
  change (lex "" " WHERE YCSB_KEY = ") with [Word "WHERE"; Word "YCSB_KEY"; Sym "="].
  change (parse_delete (Word "FROM" :: Word table :: Word "WHERE" :: Word "YCSB_KEY" :: Sym "=" :: [Word k]) = Some (DeleteFrom table KeyIs)).
  unfold parse_delete, parse_where. grammar. cbn [mark]. by rewrite Hm.
Qed.

Lemma batch_delete_text (key : string) keys :
  parse (mysql_BatchDelete_query table (key :: keys)) = Some (DeleteFrom table (KeyIn (S (length keys)))).
Proof.
  unfold parse, mysql_BatchDelete_query. rewrite (lex_app_end "DELETE FROM ") by done. rewrite (lex_app_start table) by done.
  rewrite (lex_name table) by done.
  change (parse_delete (Word "FROM" :: Word table :: lex "" (" WHERE YCSB_KEY IN (" +:+ in_clause (key :: keys) +:+ ")"))
    = Some (DeleteFrom table (KeyIn (S (length keys))))).
  unfold parse_delete. grammar. by rewrite where_in_text.
Qed.

(** One row of placeholders, and as many as there are keys. *)
Lemma lex_row k i : lex "" ("(?" +:+ mark_clause question 2 k +:+ ")") = Sym "(" :: Word "?" :: mark_tokens question (i + 1) k ++ [Sym ")"].
Proof.
  rewrite lex_app_start by (by apply starts_sep_app). rewrite lex_app_start by done.
  rewrite (lex_mark_clause question k (λ _ _, eq_refl)) by lia.
  assert (∀ j, mark_tokens question 2 k = mark_tokens question j k) as E; [|by rewrite (E (i + 1))].
  generalize 2. clear. induction k as [|k IH]; intros i j; [done|]. simpl. f_equal. f_equal. apply IH.
Qed.

Lemma row_list_text k (keys : list string) : ∀ key fuel i, (length keys < fuel)%nat →
  row_list fuel (S k) i (lex "" (Join (map (λ _, "(?" +:+ mark_clause question 2 k +:+ ")") (key :: keys)) ",")) =
  Some (S (length keys), []).
Proof.
  induction keys as [|key' keys IH]; intros key [|fuel] i Hf; simpl in Hf; try lia.
  - cbn [map Join]. rewrite (lex_row k i). by apply (row_list_last question (λ _, eq_refl)).
  - specialize (IH key' fuel (i + Z.of_nat (S k)) ltac:(lia)). cbn [map] in *.
    change (Join (?a :: ?b :: ?l) ",") with (a +:+ "," +:+ Join (b :: l) ",").
    rewrite lex_app_start by reflexivity. rewrite (lex_app_end ",") by reflexivity. rewrite (lex_row k i).
    change (lex "" ",") with [Sym ","]. cbn [app]. rewrite <- app_assoc. cbn [app].
    rewrite (row_list_next question (λ _, eq_refl)) by reflexivity. by rewrite IH.
Qed.

Lemma rows_length k (keys : list string) :
  (length keys <= length (lex "" (Join (map (λ _, "(?" +:+ mark_clause question 2 k +:+ ")") keys) ",")))%nat.
Proof.
  induction keys as [|key [|key' keys] IH]; [simpl; lia| |].
  - cbn [map Join]. rewrite (lex_row k 0). simpl. lia.
  - cbn [map] in *. change (Join (?a :: ?b :: ?l) ",") with (a +:+ "," +:+ Join (b :: l) ",").
    rewrite lex_app_start by reflexivity. rewrite (lex_app_end ",") by reflexivity. rewrite (lex_row k 0).
    rewrite !length_app. cbn [length] in *. lia.
Qed.

Lemma mysql_assign_lex f i : ident f = true → 0 <= i → lex "" (mysql_assign f i) = assign_tokens question i f.
Proof. intros Hf _. unfold mysql_assign. rewrite lex_app_start by done. by rewrite (lex_ident f). Qed.

Lemma pg_assign_lex f i : ident f = true → 0 <= i → lex "" (pg_assign f i) = assign_tokens dollar i f.
Proof.
  intros Hf Hi. unfold pg_assign. change (" = $" +:+ itoa i) with (" = " +:+ dollar i).
  rewrite lex_app_start by done. rewrite (lex_app_end " = ") by done. by rewrite (lex_ident f), lex_dollar.
Qed.

Lemma expect_app ts0 ts : expect ts0 (ts0 ++ ts) = Some ts.
Proof. induction ts0 as [|t ts0 IH]; [done|]. simpl. by rewrite decide_True. Qed.

Lemma parse_create_tokens ts :
  parse_create (Word "TABLE" :: Word "IF" :: Word "NOT" :: Word "EXISTS" :: Word table :: lex "" "(YCSB_KEY VARCHAR(64) PRIMARY KEY" ++ ts) =
  (cols ← column_list (option_tokens (lex "" cluster_text) ts); Some (CreateTable table cols)).
Proof.
  unfold parse_create. generalize (lex "" cluster_text) (lex "" "(YCSB_KEY VARCHAR(64) PRIMARY KEY"). intros comment key.
  change (Word "TABLE" :: Word "IF" :: Word "NOT" :: Word "EXISTS" :: Word table :: key ++ ts) with
    ([Word "TABLE"; Word "IF"; Word "NOT"; Word "EXISTS"] ++ Word table :: key ++ ts).
  rewrite expect_app. grammar. by rewrite expect_app.
Qed.

Lemma column_clause_comment fieldLength idx :
  option_tokens (lex "" cluster_text) (lex "" (column_clause fieldLength idx +:+ ");")) =
  lex "" (column_clause fieldLength idx +:+ ");").
Proof.
  destruct idx as [|i idx]; [reflexivity|].
  change (column_clause fieldLength (i :: idx)) with
    (", " +:+ "FIELD" +:+ itoa i +:+ " VARCHAR(" +:+ itoa fieldLength +:+ ")" +:+ column_clause fieldLength idx).
  rewrite append_assoc. rewrite (lex_app_end ", ") by reflexivity. generalize (lex "" (("FIELD" +:+
    itoa i +:+ " VARCHAR(" +:+ itoa fieldLength +:+ ")" +:+ column_clause fieldLength idx) +:+ ");")). intros ts.
  change (lex "" ", ") with [Sym ","]. reflexivity.
Qed.

Lemma create_text (cluster : bool) fieldCount fieldLength : 0 <= fieldLength →
  parse (mysql_create_query cluster table fieldCount fieldLength) =
  Some (CreateTable table (map (λ i, "FIELD" +:+ itoa i) (seqZ 0 fieldCount))).
Proof.
  intros Hl. unfold parse, mysql_create_query. rewrite (lex_app_end "CREATE TABLE IF NOT EXISTS ") by done.
  rewrite (lex_app_start table) by done. rewrite (lex_name table) by done.
  assert (starts_sep (column_clause fieldLength (seqZ 0 fieldCount) +:+ ");") = true) by (by apply starts_sep_app).
  rewrite (lex_app_start " (YCSB_KEY VARCHAR(64) PRIMARY KEY") by (destruct cluster; done).
  pose proof (column_list_clause fieldLength (seqZ 0 fieldCount) Hl
    (proj2 (Forall_forall _ _) (λ i H, proj1 (proj1 (elem_of_seqZ _ _ _) H)))) as Hc.
  pose proof (column_clause_comment fieldLength (seqZ 0 fieldCount)) as Ho.
  pose proof (parse_create_tokens (lex "" ((if cluster then cluster_text else "") +:+
    column_clause fieldLength (seqZ 0 fieldCount) +:+ ");"))) as Hp.
  assert (lex "" "CREATE TABLE IF NOT EXISTS " = [Word "CREATE"; Word "TABLE"; Word "IF"; Word "NOT"; Word "EXISTS"]) as ->
    by (vm_compute; reflexivity).
  assert (lex "" " (YCSB_KEY VARCHAR(64) PRIMARY KEY" = lex "" "(YCSB_KEY VARCHAR(64) PRIMARY KEY") as -> by (vm_compute; reflexivity).
  cbn [app]. cbv [String.eqb Ascii.eqb Bool.eqb]. cbn [andb].
  rewrite Hp. destruct cluster; [|change ("" +:+ ?s) with s; by rewrite Ho, Hc].
  rewrite (lex_app_end cluster_text) by reflexivity. unfold option_tokens. revert Hc.
  generalize (lex "" (column_clause fieldLength (seqZ 0 fieldCount) +:+ ");")). intros ts Hc.
  rewrite expect_app. simpl. by rewrite Hc.
Qed.
End Texts.

Section Statements.
Context (table : string) (table_ok : name table = true).
Context (fields : list string) (fields_ok : Forall (λ f, ident f = true) fields).
Context (pairs : list FieldPair) (pairs_ok : good_fields pairs).

Lemma mysql_texts hint (key : string) keys : hint_ok hint →
  parse (mysql_Read_query hint table fields) = Some (Select (selected_cols fields) table KeyIs) ∧
  parse (mysql_Scan_query hint table fields) = Some (Select (selected_cols fields) table KeyFrom) ∧
  parse (mysql_BatchRead_query hint table (key :: keys) fields) = Some (Select (selected_cols fields) table (KeyIn (S (length keys)))) ∧
  parse (mysql_Insert_query table pairs) = Some (InsertIgnore table (map fp_Field pairs) 1) ∧
  parse (mysql_BatchInsert_query table pairs (key :: keys)) = Some (InsertIgnore table (map fp_Field pairs) (S (length keys))) ∧
  parse (mysql_Delete_query table) = Some (DeleteFrom table KeyIs) ∧
  parse (mysql_BatchDelete_query table (key :: keys)) = Some (DeleteFrom table (KeyIn (S (length keys)))).
Proof.
  intros Hh. split_and!.
  - etransitivity; [exact (mysql_select_text table table_ok hint fields "YCSB_KEY = ?" Hh fields_ok)|].
    change (lex "" (" WHERE " +:+ "YCSB_KEY = ?")) with (lex "" " WHERE YCSB_KEY = ?"). reflexivity.
  - etransitivity; [exact (mysql_select_text table table_ok hint fields "YCSB_KEY >= ? LIMIT ?" Hh fields_ok)|]. reflexivity.
  - unfold mysql_BatchRead_query.
    rewrite (select_text_app table fields (" " +:+ hint +:+ " WHERE YCSB_KEY IN (") (in_clause (key :: keys) +:+ ")")).
    rewrite !append_assoc.
    etransitivity; [exact (mysql_select_text table table_ok hint fields ("YCSB_KEY IN (" +:+ in_clause (key :: keys) +:+ ")") Hh fields_ok)|].
    by rewrite <- append_assoc, where_in_text.
  - apply (insert_text table table_ok true false "INSERT IGNORE INTO " [Word "IGNORE"; Word "INTO"] pairs
      ("(?" +:+ mark_clause question 2 (length pairs) +:+ ")") 1 []); [done|done| |done].
    rewrite (lex_row (length pairs) 1). cbn [length]. by apply (row_list_last question (λ _, eq_refl)).
  - apply (insert_text table table_ok true false "INSERT IGNORE INTO " [Word "IGNORE"; Word "INTO"] pairs _ (S (length keys)) []); [done|done| |done].
    apply row_list_text. pose proof (rows_length (length pairs) (key :: keys)) as H. simpl in H. exact H.
  - by apply (delete_text table table_ok "?").
  - by apply batch_delete_text.
Qed.

(** Without a hint. *)
Lemma select_text s :
  parse (match fields with [] => "SELECT * FROM " +:+ table +:+ " WHERE " +:+ s
         | _ => "SELECT " +:+ Join fields "," +:+ " FROM " +:+ table +:+ " WHERE " +:+ s end) =
  (wh ← parse_where 1 (Word "WHERE" :: lex "" s); Some (Select (selected_cols fields) table wh)).
Proof.
  rewrite parse_select_text by done. rewrite (lex_app_end " WHERE ") by reflexivity.
  change (lex "" " WHERE ") with [Word "WHERE"]. generalize (lex "" s). intros ts. reflexivity.
Qed.

Lemma pg_texts :
  parse (pg_Read_query table fields) = Some (Select (selected_cols fields) table KeyIs) ∧
  parse (pg_Scan_query table fields) = Some (Select (selected_cols fields) table KeyFrom) ∧
  parse (pg_Insert_query table pairs) = Some (InsertIgnore table (map fp_Field pairs) 1) ∧
  parse (pg_Delete_query table) = Some (DeleteFrom table KeyIs).
Proof.
  split_and!.
  - etransitivity; [exact (select_text "YCSB_KEY = $1")|]. reflexivity.
  - etransitivity; [exact (select_text "YCSB_KEY >= $1 LIMIT $2")|]. reflexivity.
  - apply (insert_text table table_ok false true "INSERT INTO " [Word "INTO"] pairs
      ("($1" +:+ mark_clause dollar 2 (length pairs) +:+ ") ON CONFLICT DO NOTHING") 1
      [Word "ON"; Word "CONFLICT"; Word "DO"; Word "NOTHING"]); [done|done| |done].
    rewrite lex_app_start by (by apply starts_sep_app). rewrite lex_app_start by done.
    rewrite (lex_mark_clause dollar (length pairs) lex_dollar) by lia.
    change (lex "" "($1") with [Sym "("; Word "$1"]. cbn [app length].
    by apply (row_list_last dollar mark_dollar).
  - by apply (delete_text table table_ok "$1").
Qed.

Lemma sqlite_texts :
  parse (sqlite_Read_query table fields) = Some (Select (selected_cols fields) table KeyIs) ∧
  parse (sqlite_Scan_query table fields) = Some (Select (selected_cols fields) table KeyFrom) ∧
  parse (sqlite_Insert_query table pairs) = Some (InsertIgnore table (map fp_Field pairs) 1) ∧
  parse (sqlite_Delete_query table) = Some (DeleteFrom table KeyIs).
Proof.
  split_and!.
  - etransitivity; [exact (select_text "YCSB_KEY = ?")|]. reflexivity.
  - etransitivity; [exact (select_text "YCSB_KEY >= ? LIMIT ?")|]. reflexivity.
  - apply (insert_text table table_ok true false "INSERT OR IGNORE INTO " [Word "OR"; Word "IGNORE"; Word "INTO"] pairs
      ("(?" +:+ mark_clause question 2 (length pairs) +:+ ")") 1 []); [done|done| |done].
    rewrite (lex_row (length pairs) 1). cbn [length]. by apply (row_list_last question (λ _, eq_refl)).
  - by apply (delete_text table table_ok "?").
Qed.

Lemma update_texts : pairs ≠ [] →
  parse (mysql_Update_query table pairs) = Some (UpdateSet table (map fp_Field pairs)) ∧
  parse (pg_Update_query table pairs) = Some (UpdateSet table (map fp_Field pairs)) ∧
  parse (sqlite_Update_query table pairs) = Some (UpdateSet table (map fp_Field pairs)).
Proof.
  intros Hne. split_and!.
  - exact (update_text table table_ok mysql_assign question pairs "?" mark_question mysql_assign_lex pairs_ok Hne eq_refl eq_refl).
  - exact (update_text table table_ok pg_assign dollar pairs (dollar (1 + Z.of_nat (length pairs))) mark_dollar pg_assign_lex pairs_ok Hne
      (mark_dollar _) (lex_dollar (1 + Z.of_nat (length pairs)) ltac:(lia))).
  - exact (update_text table table_ok mysql_assign question pairs "?" mark_question mysql_assign_lex pairs_ok Hne eq_refl eq_refl).
Qed.

(** No fields to set is no statement. *)
Lemma update_none :
  parse (mysql_Update_query table []) = None ∧ parse (pg_Update_query table []) = None ∧ parse (sqlite_Update_query table []) = None.
Proof.
  assert (∀ s, parse ("UPDATE " +:+ table +:+ " SET  WHERE YCSB_KEY = " +:+ s) = None) as H.
  { intros s. unfold parse. rewrite (lex_app_end "UPDATE ") by done. rewrite (lex_app_start table) by done.
    rewrite (lex_app_end " SET  WHERE YCSB_KEY = ") by done. rewrite (lex_name table) by done.
    generalize (lex "" s). intros ts.
    change (lex "" " SET  WHERE YCSB_KEY = ") with [Word "SET"; Word "WHERE"; Word "YCSB_KEY"; Sym "="]. reflexivity. }
  split_and!; [exact (H "?")|exact (H "$1")|exact (H "?")].
Qed.
End Statements.


