(* ===== verification/SqlBindings.v ===== *)
(** * SqlBindings: the SQL bindings
    (src/go-ycsb-vendor/db: mysql/db.go, pg/db.go, sqlite/db.go)

    MySQL and PostgreSQL keep, per worker thread, a connection and a cache of
    prepared statements ([mysqlState], [pgState]); the operations below are those
    of one thread on that state and the database behind the driver.  SQLite runs
    each operation in a transaction that is tried again when it is busy. *)

From Stdlib Require Import Ascii.
From S2P Require Import Prelude GoLib GoParse Storage YcsbUtil Float64 Generators Ycsb Sql SqlText.

Open Scope Z_scope.

Inductive sql_error := ErrConnDone | ErrSql (err : error).

Definition sql_err (e : sql_error) : error :=
  match e with ErrConnDone => "sql: connection is already closed" | ErrSql err => err end.

(** What a query gives: its columns, what [Scan] makes of the rows [Next] visits
    ([None] is NULL, which leaves a nil slice) and what [Err] says in the end. *)
Record sql_rows := mkSqlRows {
  sr_Columns : list string + error;
  sr_data : list (list (option bytes) + error);
  sr_Err : option error;
}.

(** The map of a row: [m[cols[i]] = dest[i]]. *)
Definition row_map (cols : list string) (vals : list (option bytes)) : row :=
  fold_left (λ m cv, <[cv.1 := default [] cv.2]> m) (zip cols vals) ∅.

Fixpoint scan_rows (cols : list string) (data : list (list (option bytes) + error)) : list row + error :=
  match data with
  | [] => inl []
  | inr err :: _ => inr err
  | inl vals :: data =>
      match scan_rows cols data with
      | inl rows => inl (row_map cols vals :: rows)
      | inr err => inr err
      end
  end.

(** [vs := make([]map[string][]byte, 0, count)] and the loop over the rows. *)
Definition collect_rows {S} (count : Z) (rows : sql_rows) : PM S (list row + error) :=
  match sr_Columns rows with
  | inr err => pret (inr err)
  | inl cols =>
      if count <? 0 then pfail (Panic "makeslice: cap out of range")
      else pret (match scan_rows cols (sr_data rows) with
                 | inr err => inr err
                 | inl vs => match sr_Err rows with Some err => inr err | None => inl vs end
                 end)
  end.

(** The first of the rows, if any. *)
Definition first_row (r : list row + error) : row + error :=
  match r with
  | inr err => inr err
  | inl [] => inl ∅
  | inl (m :: _) => inl m
  end.

Definition values_args (pairs : list FieldPair) : list sql_arg := map (λ p, ABytes (fp_Value p)) pairs.

(** ** Connections and prepared statements *)

Class SqlDriver (E : Type) := mkSqlDriver {
  sq_conn : Type;
  sq_stmt : Type;
  sq_Conn : PM E (sq_conn + error);
  sq_PrepareContext : sq_conn → string → PM E (sq_stmt + sql_error);
  sq_QueryContext : sq_stmt → list sql_arg → PM E (sql_rows + error);
  sq_ExecContext : sq_stmt → list sql_arg → PM E (option error);
  sq_CloseStmt : sq_stmt → PM E unit;
  sq_CloseConn : sq_conn → PM E unit;
  sq_Exec : string → PM E (option error);          (* on any connection *)
}.

Section Conn.
Context {E : Type} `{!SqlDriver E}.

(** The state of a thread; [st_conn] is a pointer. *)
Record sql_state := mkSqlState { st_stmtCache : gmap string sq_stmt; st_conn : option sq_conn }.

Abbreviation D := (sql_state * E)%type.

Definition on_server {A} (m : PM E A) : PM D A := λ d, let '(o, e) := m d.2 in (o, (d.1, e)).
Definition get_state : PM D sql_state := λ d, (Ok d.1, d).
Definition set_state (st : sql_state) : PM D unit := λ d, (Ok tt, (st, d.2)).

Definition InitThread_sql : PM E sql_state :=
  c <~ sq_Conn ;;
  match c with
  | inr err => pfail (Panic ("failed to create db conn " +:+ err))
  | inl c => pret (mkSqlState ∅ (Some c))
  end.

Fixpoint close_all (stmts : list sq_stmt) : PM E unit :=
  match stmts with [] => pret tt | s :: stmts => sq_CloseStmt s ~; close_all stmts end.

Definition nil_conn {S A} : PM S A := pfail (Panic "invalid memory address or nil pointer dereference").

(** [range_stmts] is the order in which Go visits the cache. *)
Definition CleanupThread_sql (range_stmts : gmap string sq_stmt → list sq_stmt) (st : sql_state) : PM E unit :=
  close_all (range_stmts (st_stmtCache st)) ~;
  match st_conn st with Some c => sq_CloseConn c | None => nil_conn end.

Definition prepare (query : string) : PM D (sq_stmt + sql_error) :=
  st <~ get_state ;;
  match st_conn st with
  | Some c => on_server (sq_PrepareContext c query)
  | None => nil_conn
  end.

(** A failed [db.db.Conn] leaves nil in [state.conn]. *)
Definition getAndCacheStmt (query : string) : PM D (sq_stmt + error) :=
  st <~ get_state ;;
  match st_stmtCache st !! query with
  | Some stmt => pret (inl stmt)
  | None =>
      r <~ prepare query ;;
      r <~ (match r with
            | inr ErrConnDone =>
                c <~ on_server sq_Conn ;;
                st <~ get_state ;;
                match c with
                | inl c => set_state (mkSqlState (st_stmtCache st) (Some c)) ~; prepare query
                | inr err => set_state (mkSqlState (st_stmtCache st) None) ~; pret (inr (ErrSql err))
                end
            | r => pret r
            end) ;;
      match r with
      | inr err => pret (inr (sql_err err))
      | inl stmt =>
          st <~ get_state ;;
          set_state (mkSqlState (<[query := stmt]> (st_stmtCache st)) (st_conn st)) ~;
          pret (inl stmt)
      end
  end.

Definition clearCacheIfFailed (query : string) (err : option error) : PM D unit :=
  match err with
  | None => pret tt
  | Some _ =>
      st <~ get_state ;;
      match st_stmtCache st !! query with Some stmt => on_server (sq_CloseStmt stmt) | None => pret tt end ~;
      set_state (mkSqlState (delete query (st_stmtCache st)) (st_conn st))
  end.

Definition queryRows (query : string) (count : Z) (args : list sql_arg) : PM D (list row + error) :=
  stmt <~ getAndCacheStmt query ;;
  match stmt with
  | inr err => pret (inr err)
  | inl stmt =>
      rows <~ on_server (sq_QueryContext stmt args) ;;
      match rows with
      | inr err => pret (inr err)
      | inl rows => collect_rows count rows
      end
  end.

Definition error_of {A} (r : A + error) : option error := match r with inl _ => None | inr err => Some err end.

(** [queryRows] followed by [clearCacheIfFailed]. *)
Definition query_and_clear (query : string) (count : Z) (args : list sql_arg) : PM D (list row + error) :=
  rows <~ queryRows query count args ;;
  clearCacheIfFailed query (error_of rows) ~;
  pret rows.

Definition execQuery (query : string) (args : list sql_arg) : PM D (option error) :=
  stmt <~ getAndCacheStmt query ;;
  match stmt with
  | inr err => pret (Some err)
  | inl stmt =>
      err <~ on_server (sq_ExecContext stmt args) ;;
      clearCacheIfFailed query err ~;
      pret err
  end.

(** ** MySQL *)

Section Mysql.
Context (hint : string) (range : row → list (string * bytes)).

Definition mysql_Read (table key : string) (fields : list string) : PM D (row + error) :=
  rows <~ query_and_clear (mysql_Read_query hint table fields) 1 [AString key] ;;
  pret (first_row rows).

Definition mysql_BatchRead (table : string) (keys fields : list string) : PM D (list row + error) :=
  query_and_clear (mysql_BatchRead_query hint table keys fields) (Z.of_nat (length keys)) (map AString keys).

Definition mysql_Scan (table startKey : string) (count : Z) (fields : list string) : PM D (list row + error) :=
  query_and_clear (mysql_Scan_query hint table fields) count [AString startKey; AInt count].

Definition mysql_Update (table key : string) (values : row) : PM D (option error) :=
  let pairs := NewFieldPairs (range values) in
  execQuery (mysql_Update_query table pairs) (values_args pairs ++ [AString key]).

Fixpoint mysql_BatchUpdate (table : string) (keys : list string) (values : list row) : PM D (option error) :=
  match keys with
  | [] => pret None
  | key :: keys =>
      match values with
      | [] => pfail (Panic "index out of range")
      | v :: values =>
          err <~ mysql_Update table key v ;;
          match err with Some err => pret (Some err) | None => mysql_BatchUpdate table keys values end
      end
  end.

Definition mysql_Insert (table key : string) (values : row) : PM D (option error) :=
  let pairs := NewFieldPairs (range values) in
  execQuery (mysql_Insert_query table pairs) (AString key :: values_args pairs).

(** The arguments of a batch, row by row. *)
Fixpoint batch_args (keys : list string) (values : list row) : option (list sql_arg) :=
  match keys, values with
  | [], _ => Some []
  | key :: keys, v :: values =>
      args ← batch_args keys values;
      Some (AString key :: values_args (NewFieldPairs (range v)) ++ args)
  | _ :: _, [] => None
  end.

(** The columns are those of the first row. *)
Definition mysql_BatchInsert (table : string) (keys : list string) (values : list row) : PM D (option error) :=
  match values, batch_args keys values with
  | first :: _, Some args =>
      execQuery (mysql_BatchInsert_query table (NewFieldPairs (range first)) keys) args
  | _, _ => pfail (Panic "index out of range")
  end.

Definition mysql_Delete (table key : string) : PM D (option error) :=
  execQuery (mysql_Delete_query table) [AString key].

Definition mysql_BatchDelete (table : string) (keys : list string) : PM D (option error) :=
  execQuery (mysql_BatchDelete_query table keys) (map AString keys).

Definition mysql_db : YcsbDB D :=
  mkYcsbDB D mysql_Read mysql_Scan mysql_Update mysql_Insert mysql_Delete
    (Some (mkBatchDB D mysql_BatchInsert mysql_BatchRead mysql_BatchUpdate mysql_BatchDelete)).
End Mysql.

Definition mysql_createTable (p : Properties) (driverName : string) : PM E (option error) :=
  let tableName := GetString p "table" "usertable" in
  err <~ (if GetBool p "dropdata" false && negb (GetBool p "dotransactions" true)
          then sq_Exec (drop_query tableName) else pret None) ;;
  match err with
  | Some err => pret (Some err)
  | None =>
      let cluster := (String.eqb driverName "tidb" || String.eqb driverName "mysql") && GetBool p "tidb.cluster_index" true in
      sq_Exec (mysql_create_query cluster tableName (GetInt64 p "fieldcount" 10) (GetInt64 p "fieldlength" 100))
  end.

Definition mysql_Analyze (table : string) : PM E (option error) := sq_Exec (mysql_Analyze_query table).

(** ** PostgreSQL

    pg/db.go repeats the functions on connections and caches; the texts differ. *)

Definition pg_InitThread : PM E sql_state := InitThread_sql.
Definition pg_CleanupThread (range_stmts : gmap string sq_stmt → list sq_stmt) (st : sql_state) : PM E unit :=
  CleanupThread_sql range_stmts st.
Definition pg_getAndCacheStmt (query : string) : PM D (sq_stmt + error) := getAndCacheStmt query.
Definition pg_clearCacheIfFailed (query : string) (err : option error) : PM D unit := clearCacheIfFailed query err.

Definition pg_queryRows (query : string) (count : Z) (args : list sql_arg) : PM D (list row + error) :=
  stmt <~ pg_getAndCacheStmt query ;;
  match stmt with
  | inr err => pret (inr err)
  | inl stmt =>
      rows <~ on_server (sq_QueryContext stmt args) ;;
      match rows with
      | inr err => pret (inr err)
      | inl rows => collect_rows count rows
      end
  end.

Definition pg_query_and_clear (query : string) (count : Z) (args : list sql_arg) : PM D (list row + error) :=
  rows <~ pg_queryRows query count args ;;
  pg_clearCacheIfFailed query (error_of rows) ~;
  pret rows.

Definition pg_execQuery (query : string) (args : list sql_arg) : PM D (option error) :=
  stmt <~ pg_getAndCacheStmt query ;;
  match stmt with
  | inr err => pret (Some err)
  | inl stmt =>
      err <~ on_server (sq_ExecContext stmt args) ;;
      pg_clearCacheIfFailed query err ~;
      pret err
  end.

Section Pg.
Context (range : row → list (string * bytes)).

Definition pg_Read (table key : string) (fields : list string) : PM D (row + error) :=
  rows <~ pg_query_and_clear (pg_Read_query table fields) 1 [AString key] ;;
  pret (first_row rows).

Definition pg_Scan (table startKey : string) (count : Z) (fields : list string) : PM D (list row + error) :=
  pg_query_and_clear (pg_Scan_query table fields) count [AString startKey; AInt count].

Definition pg_Update (table key : string) (values : row) : PM D (option error) :=
  let pairs := NewFieldPairs (range values) in
  pg_execQuery (pg_Update_query table pairs) (values_args pairs ++ [AString key]).

Definition pg_Insert (table key : string) (values : row) : PM D (option error) :=
  let pairs := NewFieldPairs (range values) in
  pg_execQuery (pg_Insert_query table pairs) (AString key :: values_args pairs).

Definition pg_Delete (table key : string) : PM D (option error) := pg_execQuery (pg_Delete_query table) [AString key].

Definition pg_db : YcsbDB D := mkYcsbDB D pg_Read pg_Scan pg_Update pg_Insert pg_Delete None.
End Pg.

(** The data is dropped whatever the run is to do. *)
Definition pg_createTable (p : Properties) : PM E (option error) :=
  let tableName := GetString p "table" "usertable" in
  err <~ (if GetBool p "dropdata" false then sq_Exec (drop_query tableName) else pret None) ;;
  match err with
  | Some err => pret (Some err)
  | None => sq_Exec (pg_create_query tableName (GetInt64 p "fieldcount" 10) (GetInt64 p "fieldlength" 100))
  end.
End Conn.
Arguments sql_state E {_}.

(** ** How the MySQL binding is set up *)

Definition mysql_forceIndexKeyword (p : Properties) : string := if GetBool p "mysql.force_index" true then hint_text else "".

Definition mysql_tidbs (p : Properties) : list string :=
  List.filter (λ s, negb (String.eqb s "")) (map TrimSpace (go_split ","%char (GetString p "tidb.instances" ""))).

Definition mysql_dsn (user password addr dbName : string) : string :=
  user +:+ ":" +:+ password +:+ "@tcp(" +:+ addr +:+ ")/" +:+ dbName.

(** The data source names a connection is opened with: one per TiDB instance,
    taken in turn, or the one of the host and port. *)
Definition mysql_instances (p : Properties) : list string :=
  let user := GetString p "mysql.user" "root" in
  let password := GetString p "mysql.password" "" in
  let dbName := GetString p "mysql.db" "test" in
  match mysql_tidbs p with
  | [] => [mysql_dsn user password (GetString p "mysql.host" "127.0.0.1" +:+ ":" +:+ itoa (GetInt p "mysql.port" 3306)) dbName]
  | tidbs => map (λ addr, mysql_dsn user password addr dbName) tidbs
  end.

(** [muxDriver.Open]: the cursor is advanced and picks the instance; [int(k)] of a
    cursor past [2^63] is negative, and so is its remainder. *)
Definition mux_open (instances : list string) (cursor : Z) : Outcome string * Z :=
  let k := wrapu64 (cursor + 1) in
  let i := Z.rem (wrap64 k) (Z.of_nat (length instances)) in
  match (if i <? 0 then None else instances !! Z.to_nat i) with
  | Some dsn => (Ok dsn, k)
  | None => (Panic "index out of range", k)
  end.

(** ** SQLite *)

(** The error of a commit; [Busy] is [ErrBusy] or [ErrIoErrUnlock]. *)
Inductive sqlite_error := Busy (err : error) | SqliteOther (err : error).
Definition sqlite_err (e : sqlite_error) : error := match e with Busy err | SqliteOther err => err end.

Class SqliteDriver (E T : Type) := mkSqlite {
  sl_BeginTx : PM E (T + error);
  sl_QueryContext : string → list sql_arg → PM T (sql_rows + error);
  sl_ExecContext : string → list sql_arg → PM T (option error);
  sl_Rollback : T → PM E unit;
  sl_Commit : T → PM E (option sqlite_error);
  sl_Exec : string → PM E (option error);
}.

Section Sqlite.
Context {E T : Type} `{!SqliteDriver E T}.
Context (optimistic : bool) (range : row → list (string * bytes)).

(** The function gets the variable it assigns to, as the last round left it. *)
Fixpoint optimisticTx {A} (fuel : nat) (output : A) (f : A → PM T (A * option error)) : PM E (A * option error) :=
  match fuel with
  | O => pfail OutOfFuel
  | S fuel =>
      tx <~ sl_BeginTx ;;
      match tx with
      | inr err => pret (output, Some err)
      | inl tx =>
          match f output tx with
          | (Ok (output, Some err), tx) => sl_Rollback tx ~; pret (output, Some err)
          | (Ok (output, None), tx) =>
              err <~ sl_Commit tx ;;
              match err with
              | None => pret (output, None)
              | Some (Busy err) => if optimistic then optimisticTx fuel output f else pret (output, Some err)
              | Some (SqliteOther err) => pret (output, Some err)
              end
          | (Panic msg, _) => pfail (Panic msg)
          | (Exit msg, _) => pfail (Exit msg)
          | (OutOfFuel, _) => pfail OutOfFuel
          end
      end
  end.

Definition doQueryRows (query : string) (count : Z) (args : list sql_arg) : PM T (list row + error) :=
  rows <~ sl_QueryContext query args ;;
  match rows with
  | inr err => pret (inr err)
  | inl rows => collect_rows count rows
  end.

Definition sqlite_doRead (table key : string) (fields : list string) : PM T (row + error) :=
  rows <~ doQueryRows (sqlite_Read_query table fields) 1 [AString key] ;;
  pret (first_row rows).

Definition sqlite_doScan (table startKey : string) (count : Z) (fields : list string) : PM T (list row + error) :=
  doQueryRows (sqlite_Scan_query table fields) count [AString startKey; AInt count].

Definition sqlite_doUpdate (table key : string) (values : row) : PM T (option error) :=
  let pairs := NewFieldPairs (range values) in
  sl_ExecContext (sqlite_Update_query table pairs) (values_args pairs ++ [AString key]).

Definition sqlite_doInsert (table key : string) (values : row) : PM T (option error) :=
  let pairs := NewFieldPairs (range values) in
  sl_ExecContext (sqlite_Insert_query table pairs) (AString key :: values_args pairs).

Definition sqlite_doDelete (table key : string) : PM T (option error) :=
  sl_ExecContext (sqlite_Delete_query table) [AString key].

(** [output = res] *)
Definition assign {A} (zero : A) (res : PM T (A + error)) (_ : A) : PM T (A * option error) :=
  r <~ res ;; pret (match r with inl a => (a, None) | inr err => (zero, Some err) end).
Definition no_output (res : PM T (option error)) (_ : unit) : PM T (unit * option error) :=
  err <~ res ;; pret (tt, err).

Definition result {A} (r : A * option error) : A + error := match r.2 with Some err => inr err | None => inl r.1 end.

Context (fuel : nat).

Definition sqlite_Read (table key : string) (fields : list string) : PM E (row + error) :=
  r <~ optimisticTx fuel ∅ (assign ∅ (sqlite_doRead table key fields)) ;; pret (result r).

Definition sqlite_Scan (table startKey : string) (count : Z) (fields : list string) : PM E (list row + error) :=
  r <~ optimisticTx fuel [] (assign [] (sqlite_doScan table startKey count fields)) ;; pret (result r).

Definition sqlite_Update (table key : string) (values : row) : PM E (option error) :=
  r <~ optimisticTx fuel tt (no_output (sqlite_doUpdate table key values)) ;; pret r.2.

Definition sqlite_Insert (table key : string) (values : row) : PM E (option error) :=
  r <~ optimisticTx fuel tt (no_output (sqlite_doInsert table key values)) ;; pret r.2.

Definition sqlite_Delete (table key : string) : PM E (option error) :=
  r <~ optimisticTx fuel tt (no_output (sqlite_doDelete table key)) ;; pret r.2.

(** The loops of the batches, inside one transaction. *)
Fixpoint each_row (op : string → row → PM T (option error)) (keys : list string) (values : list row) : PM T (option error) :=
  match keys with
  | [] => pret None
  | key :: keys =>
      match values with
      | [] => pfail (Panic "index out of range")
      | v :: values =>
          err <~ op key v ;;
          match err with Some err => pret (Some err) | None => each_row op keys values end
      end
  end.

Definition sqlite_BatchInsert (table : string) (keys : list string) (values : list row) : PM E (option error) :=
  r <~ optimisticTx fuel tt (no_output (each_row (sqlite_doInsert table) keys values)) ;; pret r.2.

Fixpoint append_reads (table : string) (keys fields : list string) (output : list row) : PM T (list row * option error) :=
  match keys with
  | [] => pret (output, None)
  | key :: keys =>
      res <~ sqlite_doRead table key fields ;;
      match res with
      | inr err => pret (output, Some err)
      | inl m => append_reads table keys fields (output ++ [m])
      end
  end.

(** [output] is appended to in every round. *)
Definition sqlite_BatchRead (table : string) (keys fields : list string) : PM E (list row + error) :=
  r <~ optimisticTx fuel [] (append_reads table keys fields) ;; pret (result r).

Definition sqlite_BatchUpdate (table : string) (keys : list string) (values : list row) : PM E (option error) :=
  r <~ optimisticTx fuel tt (no_output (each_row (sqlite_doUpdate table) keys values)) ;; pret r.2.

Fixpoint each_key (op : string → PM T (option error)) (keys : list string) : PM T (option error) :=
  match keys with
  | [] => pret None
  | key :: keys =>
      err <~ op key ;;
      match err with Some err => pret (Some err) | None => each_key op keys end
  end.

Definition sqlite_BatchDelete (table : string) (keys : list string) : PM E (option error) :=
  r <~ optimisticTx fuel tt (no_output (each_key (sqlite_doDelete table) keys)) ;; pret r.2.

Definition sqlite_db : YcsbDB E :=
  mkYcsbDB E sqlite_Read sqlite_Scan sqlite_Update sqlite_Insert sqlite_Delete
    (Some (mkBatchDB E sqlite_BatchInsert sqlite_BatchRead sqlite_BatchUpdate sqlite_BatchDelete)).

Definition sqlite_createTable (p : Properties) : PM E (option error) :=
  sl_Exec (sqlite_create_query (GetString p "table" "usertable") (GetInt64 p "fieldcount" 10) (GetInt64 p "fieldlength" 100)).
End Sqlite.
