(* ===== verification/SqlRun.v ===== *)
(** * SqlRun: the SQL bindings hold tables

    What a database with the table of the bindings holds, the laws of the drivers,
    and the refinement: the operations of MySQL, PostgreSQL and SQLite on full rows
    behave like a map from keys to rows. *)

From Stdlib Require Import Ascii.
From S2P Require Import Prelude GoLib GoParse Storage YcsbUtil Float64 Generators Ycsb.
From S2P Require Import TableDb KvStore Sql SqlText SqlBindings.

Open Scope Z_scope.

(** ** Rows of a table with the columns of the bindings *)

Lemma upper_app a b : upper (a +:+ b) = upper a +:+ upper b.
Proof. induction a as [|c a IH]; [done|]. rewrite append_cons. simpl. by rewrite IH. Qed.

Lemma upper_digits x : ∀ s, upper s = s → upper (pretty_N_go x s) = pretty_N_go x s.
Proof.
  induction (N.lt_wf_0 x) as [x _ IH]. intros s Hs.
  destruct (decide (x = 0)%N) as [->|Hx]; [by rewrite pretty_N_go_0|].
  rewrite pretty_N_go_step by lia. apply IH; [apply N.div_lt; lia|]. simpl. rewrite Hs. f_equal.
  unfold pretty_N_char. by repeat case_match.
Qed.

Lemma upper_field i : 0 <= i → upper (field_name i) = "FIELD" +:+ itoa i.
Proof.
  intros Hi. unfold field_name. rewrite upper_app. f_equal. unfold itoa. destruct i as [|p|p]; [done| |lia].
  change (pretty (Z.pos p)) with (pretty p). unfold pretty, pretty_positive, pretty, pretty_N.
  rewrite decide_False by done. by apply upper_digits.
Qed.

Lemma upper_inj n f g : f ∈ allFields n → g ∈ allFields n → upper f = upper g → f = g.
Proof.
  intros (i & Hi & ->)%elem_of_allFields (j & Hj & ->)%elem_of_allFields. rewrite !upper_field by lia.
  intros H%(inj (String.append "FIELD")). unfold itoa in H. apply (inj pretty) in H. by subst.
Qed.

Lemma upper_not_key n f : f ∈ allFields n → String.eqb (upper f) "YCSB_KEY" = false.
Proof. intros (i & Hi & ->)%elem_of_allFields. by rewrite upper_field by lia. Qed.

Lemma field_ident n f : f ∈ allFields n → ident f = true.
Proof. intros (i & Hi & ->)%elem_of_allFields. apply (ident_prefix _ "ield"); [done|]. apply itoa_chars. lia. Qed.

(** The columns a table is created with. *)
Lemma created_cols n : map upper (map (λ i, "FIELD" +:+ itoa i) (seqZ 0 n)) = map upper (allFields n).
Proof.
  unfold allFields. rewrite !map_map. apply map_ext_in. intros i Hi. apply list_elem_of_In, elem_of_seqZ in Hi.
  rewrite upper_field by lia. rewrite upper_app. f_equal.
  pose proof (upper_field i ltac:(lia)) as H. unfold field_name in H. rewrite upper_app in H.
  by apply (inj (String.append "FIELD")) in H.
Qed.

Section Rows.
Context (n : Z) (range : row → list (string * bytes)) (range_perm : ∀ m, range m ≡ₚ map_to_list m).

Definition same_row (r' r : row) : Prop := ∀ f, f ∈ allFields n → r' !! upper f = r !! f.

(** The table [T] of the database [c] holds the rows [m]. *)
Definition rows_hold (rows : gmap string row) (m : table) : Prop :=
  ∀ key, match m !! key with
         | Some r => full n r ∧ ∃ r', rows !! key = Some r' ∧ same_row r' r
         | None => rows !! key = None
         end.
Definition sql_holds (T : string) (c : sql_db) (m : table) : Prop :=
  ∃ t, c !! T = Some t ∧ st_cols t = map upper (allFields n) ∧ rows_hold (st_rows t) m.

Lemma pairs_values values :
  map (λ p, (fp_Field p, fp_Value p)) (NewFieldPairs (range values)) ≡ₚ map_to_list values.
Proof.
  unfold NewFieldPairs. rewrite sort_pairs_perm, map_map. cbn [fp_Field fp_Value]. rewrite range_perm.
  rewrite (map_ext (λ x : string * bytes, (x.1, x.2)) id) by (by intros []). by rewrite map_id.
Qed.

Lemma pairs_elem values f v : (f, v) ∈ map (λ p, (fp_Field p, fp_Value p)) (NewFieldPairs (range values)) ↔ values !! f = Some v.
Proof. rewrite pairs_values. apply elem_of_map_to_list. Qed.

Lemma pairs_good values : within n values → good_fields (NewFieldPairs (range values)).
Proof.
  intros Hw. apply Forall_forall. intros p Hp. apply (field_ident n), Hw. exists (fp_Value p). apply pairs_elem.
  apply list_elem_of_In, in_map_iff. exists p. split; [done|]. by apply list_elem_of_In.
Qed.

Lemma pairs_upper values : within n values → NoDup (map upper (map fp_Field (NewFieldPairs (range values)))).
Proof.
  intros Hw.
  assert (NoDup (map fp_Field (NewFieldPairs (range values)))) as Hnd.
  { rewrite (map_ext _ (λ p, fst (fp_Field p, fp_Value p))) by done. rewrite <- (map_map (λ p, (fp_Field p, fp_Value p)) fst).
    change (map fst ?l) with (fst <$> l). rewrite pairs_values. apply NoDup_fst_map_to_list. }
  assert (∀ f, f ∈ map fp_Field (NewFieldPairs (range values)) → f ∈ allFields n) as Hin.
  { intros f (p & <- & Hp)%list_elem_of_In%in_map_iff. apply Hw. exists (fp_Value p). apply pairs_elem.
    apply list_elem_of_In, in_map_iff. by exists p. }
  induction Hnd as [|f l Hf Hnd IH]; [constructor|]. simpl. constructor.
  - intros (g & Hg & Hgl)%list_elem_of_fmap. apply Hf.
    rewrite (upper_inj n f g); [done|apply Hin; by left|apply Hin; by right|done].
  - apply IH. intros g Hg. apply Hin. by right.
Qed.

Lemma pairs_known t values : within n values → st_cols t = map upper (allFields n) →
  known_cols t (map fp_Field (NewFieldPairs (range values))) = true.
Proof.
  intros Hw Ht. unfold known_cols. rewrite bool_decide_true by (by apply pairs_upper). simpl.
  apply forallb_forall. intros f (p & <- & Hp)%in_map_iff. apply bool_decide_eq_true. rewrite Ht.
  apply list_elem_of_fmap. exists (fp_Field p). split; [done|]. apply Hw. exists (fp_Value p). apply pairs_elem.
  apply list_elem_of_In, in_map_iff. by exists p.
Qed.

Lemma bytes_args_values pairs : bytes_args (values_args pairs) = Some (map fp_Value pairs).
Proof. induction pairs as [|p pairs IH]; [done|].
  change ((l ← bytes_args (values_args pairs); Some (fp_Value p :: l)) = Some (map fp_Value (p :: pairs))). by rewrite IH.
Qed.

(** The new row of columns and values in any order. *)
Lemma new_row_of l values f : l ≡ₚ map_to_list values → within n values → f ∈ allFields n →
  new_row (map fst l) (map snd l) !! upper f = values !! f.
Proof.
  intros Hp Hw Hf. unfold new_row.
  assert (∀ f v, (f, v) ∈ l ↔ values !! f = Some v) as Hl by (intros; by rewrite Hp, elem_of_map_to_list).
  assert (zip (map upper (map fst l)) (map snd l) = map (λ p, (upper p.1, p.2)) l) as ->.
  { clear. induction l as [|p l IH]; [done|]. simpl. by f_equal. }
  assert (NoDup (map (λ p, (upper p.1, p.2)) l).*1) as Hnd.
  { change (?g <$> ?l) with (map g l). rewrite map_map. cbn [fst]. apply NoDup_fmap_2_strong; [|
      apply (NoDup_fmap_1 fst); rewrite Hp; apply NoDup_fst_map_to_list].
    intros [f1 v1] [f2 v2] H1 H2 Hu. simpl in Hu. apply Hl in H1, H2.
    assert (f1 = f2) as <- by (apply (upper_inj n); [by apply Hw; eexists..|done]). by simplify_eq. }
  apply option_eq. intros v. rewrite <- elem_of_list_to_map by done. rewrite <- (Hl f v).
  rewrite !list_elem_of_In, in_map_iff. split.
  - intros ([f' v'] & [= Hu <-] & Hin). simpl in *.
    rewrite <- (upper_inj n f' f); [done|apply Hw; exists v'; by apply Hl, list_elem_of_In|done|done].
  - intros Hin. by exists (f, v).
Qed.

Lemma new_row_lookup values f : within n values → f ∈ allFields n →
  let pairs := NewFieldPairs (range values) in
  new_row (map fp_Field pairs) (map fp_Value pairs) !! upper f = values !! f.
Proof.
  intros Hw Hf pairs. rewrite <- (new_row_of _ values f (pairs_values values) Hw Hf). fold pairs. by rewrite !map_map.
Qed.

(** *** Statements on a table *)

Lemma rows_hold_insert rows m key r r' : rows_hold rows m → full n r → same_row r' r →
  rows_hold (<[key := r']> rows) (<[key := r]> m).
Proof.
  intros H Hf Hs k. specialize (H k). destruct (decide (k = key)) as [->|]; [|by rewrite !lookup_insert_ne by congruence].
  rewrite !lookup_insert_eq. eauto.
Qed.

Lemma rows_hold_delete rows m key : rows_hold rows m → rows_hold (delete key rows) (delete key m).
Proof.
  intros H k. specialize (H k). destruct (decide (k = key)) as [->|]; [by rewrite !lookup_delete_eq|].
  by rewrite !lookup_delete_ne by congruence.
Qed.

Lemma exec_insert T c m key values : sql_holds T c m → full n values → m !! key = None →
  let pairs := NewFieldPairs (range values) in
  ∃ c', exec (InsertIgnore T (map fp_Field pairs) 1) (AString key :: values_args pairs) c = Some c' ∧
    sql_holds T c' (<[key := values]> m).
Proof.
  intros (t & Ht & Hcols & Hrows) Hf Hm. cbv zeta. assert (within n values) as Hw by (intros f; apply Hf).
  unfold exec. rewrite Ht. simpl. rewrite pairs_known by done. simpl.
  rewrite take_ge by (unfold values_args; by rewrite !length_map). rewrite bytes_args_values. simpl.
  rewrite !length_map, Nat.eqb_refl, drop_ge by (unfold values_args; rewrite length_map; done). simpl.
  pose proof (Hrows key) as Hk. rewrite Hm in Hk. rewrite Hk. eexists. split; [done|].
  eexists. rewrite lookup_insert_eq. split; [done|]. split; [done|]. simpl. apply rows_hold_insert; [done|done|].
  intros f Hff. by apply new_row_lookup.
Qed.

Lemma exec_update T c m key values r : sql_holds T c m → within n values → m !! key = Some r →
  let pairs := NewFieldPairs (range values) in
  ∃ c', exec (UpdateSet T (map fp_Field pairs)) (values_args pairs ++ [AString key]) c = Some c' ∧
    sql_holds T c' (<[key := values ∪ r]> m).
Proof.
  intros (t & Ht & Hcols & Hrows) Hw Hm. cbv zeta. unfold exec. rewrite Ht. simpl.
  assert (∀ pairs, length (map fp_Field pairs) = length (values_args pairs)) as Hl by (intros; unfold values_args; by rewrite !length_map).
  rewrite Hl, take_app_length, drop_app_length, bytes_args_values. simpl. rewrite pairs_known by done. simpl.
  pose proof (Hrows key) as Hk. rewrite Hm in Hk. destruct Hk as (Hf & r' & Hr' & Hs).
  eexists. split; [done|]. eexists. rewrite lookup_insert_eq. split; [done|]. split; [done|]. simpl.
  assert (∀ g, alter g key (st_rows t) = <[key := g r']> (st_rows t)) as ->.
  { intros g. apply map_eq. intros k. destruct (decide (k = key)) as [->|]; [by rewrite lookup_alter_eq, lookup_insert_eq, Hr'|].
    by rewrite lookup_alter_ne, lookup_insert_ne by congruence. }
  apply rows_hold_insert; [done| |].
  - intros f. rewrite lookup_union_is_Some, <- (Hf f). split; [|by right]. intros [H|H]; [by apply Hf, Hw|done].
  - intros f Hff. rewrite !lookup_union, (new_row_lookup values f Hw Hff). by rewrite (Hs f Hff).
Qed.

Lemma exec_delete T c m key : sql_holds T c m →
  ∃ c', exec (DeleteFrom T KeyIs) [AString key] c = Some c' ∧ sql_holds T c' (delete key m).
Proof.
  intros (t & Ht & Hcols & Hrows). unfold exec. rewrite Ht. simpl. eexists. split; [done|].
  eexists. rewrite lookup_insert_eq. split; [done|]. split; [done|]. simpl. by apply rows_hold_delete.
Qed.

(** The answer to the query of a read. *)
Definition read_data (fields : list string) (m : table) (key : string) : list (list (option bytes)) :=
  match m !! key with Some r => [map (r !!.) fields] | None => [] end.

Lemma map_known_columns key r' r fields : same_row r' r → (∀ f, f ∈ fields → f ∈ allFields n) →
  map (column key r') fields = map (r !!.) fields.
Proof.
  intros Hs Hf. apply map_ext_in. intros f Hin. apply list_elem_of_In, Hf in Hin. unfold column.
  by rewrite (upper_not_key n f Hin), (Hs f Hin).
Qed.

Lemma query_read T c m key fields cols data : sql_holds T c m → (∀ f, f ∈ fields → f ∈ allFields n) →
  query (Select (Some fields) T KeyIs) [AString key] c cols data → cols = fields ∧ data = read_data fields m key.
Proof.
  intros (t & Ht & Hcols & Hrows) Hf (t' & keys & Ht' & [Hnd Hans] & -> & _ & ->). rewrite Ht in Ht'. injection Ht' as <-.
  split; [done|]. simpl. unfold read_data. specialize (Hrows key). destruct (m !! key) as [r|].
  - destruct Hrows as (_ & r' & Hr' & Hs).
    assert (keys = [key]) as ->.
    { assert (keys ≡ₚ [key]) as Hp; [|by apply Permutation_singleton_r in Hp].
      apply NoDup_Permutation; [done|apply NoDup_singleton|]. intros k. rewrite Hans, list_elem_of_singleton. naive_solver. }
    simpl. rewrite Hr'. simpl. by rewrite (map_known_columns key r' r fields).
  - destruct keys as [|k keys]; [done|]. destruct (Hans k) as [H _]. destruct H as [-> [r Hr]]; [by left|]. congruence.
Qed.

Lemma query_read_exists T c m key fields : sql_holds T c m → (∀ f, f ∈ fields → f ∈ allFields n) →
  ∃ cols data, query (Select (Some fields) T KeyIs) [AString key] c cols data.
Proof.
  intros (t & Ht & Hcols & Hrows) Hf. exists fields. eexists. exists t.
  exists (match st_rows t !! key with Some _ => [key] | None => [] end). split; [done|]. split; [|split; [done|split; [|done]]].
  - split; [destruct (st_rows t !! key); [apply NoDup_singleton|constructor]|]. intros k.
    destruct (st_rows t !! key) as [r|] eqn:E.
    + rewrite list_elem_of_singleton. naive_solver.
    + split; [by intros ?%not_elem_of_nil|]. intros [-> [x Hx]]. congruence.
  - apply forallb_forall. intros f Hin%list_elem_of_In. apply bool_decide_eq_true. right. rewrite Hcols.
    change (map ?g ?l) with (g <$> l). by apply list_elem_of_fmap_2, Hf.
Qed.

(** What the loop over the columns makes of it. *)
Lemma row_map_lookup cols (r : row) f :
  row_map cols (map (r !!.) cols) !! f = if decide (f ∈ cols) then Some (default [] (r !! f)) else None.
Proof.
  unfold row_map.
  assert (∀ m0 : row, fold_left (λ m cv, <[cv.1 := default [] cv.2]> m) (zip cols (map (r !!.) cols)) m0 !! f =
    if decide (f ∈ cols) then Some (default [] (r !! f)) else m0 !! f) as ->.
  { induction cols as [|c cols IH]; intros m0; [done|]. simpl. rewrite IH.
    destruct (decide (f ∈ cols)); [by rewrite decide_True by (by right)|].
    destruct (decide (f = c)) as [->|]; [rewrite lookup_insert_eq, decide_True by (by left)|
      rewrite lookup_insert_ne by congruence; rewrite decide_False by (rewrite elem_of_cons; naive_solver)]; done. }
  case_decide; [done|apply lookup_empty].
Qed.

Lemma row_map_select fields r : full n r → fields ≠ [] → (∀ f, f ∈ fields → f ∈ allFields n) →
  row_map fields (map (r !!.) fields) = select_fields fields r.
Proof.
  intros Hf Hne Hk. apply map_eq. intros f. rewrite row_map_lookup, select_fields_lookup. case_decide as Hin.
  - rewrite decide_True by (by right). destruct (proj2 (Hf f) (Hk f Hin)) as [v ->]. done.
  - rewrite decide_False; [done|]. naive_solver.
Qed.
End Rows.

(** ** Sequences of calls *)

(** Calls the bindings can carry out: reads name their fields, inserts have all of
    them, updates at least one; [stores] says which arguments a driver takes as
    they are (keys and values the columns keep, row counts that are not negative). *)
Definition sql_fits (n : Z) (stores : sql_arg → Prop) (c : tb_call) : Prop :=
  let known values := map_Forall (λ _ v, stores (ABytes v)) values in
  match c with
  | CallRead key fields => stores (AString key) ∧ fields ≠ [] ∧ ∀ f, f ∈ fields → f ∈ allFields n
  | CallInsert key values => stores (AString key) ∧ full n values ∧ known values
  | CallUpdate key values => stores (AString key) ∧ within n values ∧ values ≠ ∅ ∧ known values
  | CallDelete key => stores (AString key)
  end.

(** Inserts are of new rows, updates of rows that are there. *)
Definition sql_ok (c : tb_call) (m : table) : Prop :=
  match c with
  | CallInsert key _ => m !! key = None
  | CallUpdate key _ => is_Some (m !! key)
  | _ => True
  end.

Definition sql_refines {D} (db : YcsbDB D) (n : Z) (stores : sql_arg → Prop) (rel : string → D → table → Prop) : Prop :=
  ∀ T, name T = true → table_refines (rel T) (sql_fits n stores) sql_ok T.

Lemma scan_rows_all cols data : scan_rows cols (map inl data) = inl (map (row_map cols) data).
Proof. induction data as [|vals data IH]; [done|]. simpl. by rewrite IH. Qed.

Lemma stores_values (stores : sql_arg → Prop) n range values (range_perm : ∀ m, range m ≡ₚ map_to_list m) : within n values →
  map_Forall (λ _ v, stores (ABytes v)) values → Forall stores (values_args (NewFieldPairs (range values))).
Proof.
  intros Hw Hv. unfold values_args. apply Forall_forall. intros a (p & <- & Hp)%list_elem_of_In%in_map_iff.
  apply (Hv (fp_Field p)). apply (pairs_elem range range_perm). apply list_elem_of_In, in_map_iff. by exists p.
Qed.

Lemma pairs_nonempty range values (range_perm : ∀ m : row, range m ≡ₚ map_to_list m) :
  values ≠ ∅ → NewFieldPairs (range values) ≠ [].
Proof.
  intros Hne H. apply Hne. pose proof (pairs_values range range_perm values) as Hp. rewrite H in Hp. simpl in Hp.
  symmetry in Hp. apply Permutation_nil_r in Hp. by apply map_to_list_empty_iff.
Qed.

(** The row of a read, from the answer to its query. *)
Lemma read_result n T c m key fields label cols data :
  sql_holds n T c m → fields ≠ [] → (∀ f, f ∈ fields → f ∈ allFields n) → (∀ f, f ∈ allFields n → label f = f) →
  query (Select (Some fields) T KeyIs) [AString key] c cols data →
  first_row (inl (map (row_map (map label cols)) data)) = inl (select_fields fields (old_row m key)).
Proof.
  intros Hh Hne Hf Hlab Hq. destruct (query_read n T c m key fields cols data Hh Hf Hq) as [-> ->].
  assert (map label fields = fields) as ->.
  { rewrite (map_ext_in label id); [apply map_id|]. intros f Hin. by apply Hlab, Hf, list_elem_of_In. }
  unfold read_data, old_row. destruct Hh as (t & _ & _ & Hrows). specialize (Hrows key).
  destruct (m !! key) as [r|]; simpl; [|by rewrite select_fields_empty].
  destruct Hrows as [Hfull _]. by rewrite (row_map_select n).
Qed.

(** ** MySQL and PostgreSQL *)

(** The driver carries out the statement a text stands for; an error it gives in
    a state of [ct_up] is that of the statement. *)
Class SqlLaws (E : Type) `{!SqlDriver E} `{!Contents E sql_db} := mkSqlLaws {
  sq_text : sq_stmt (E := E) → string;
  sq_stores : sql_arg → Prop;
  sq_label : string → string;          (* the name of a column in the answer *)
  sq_prepare_ok c q s : returns (sq_PrepareContext c q s) (λ r s', ct s' = ct s ∧ (ct_up s → ct_up s') ∧
    match r with inl st => sq_text st = q | inr _ => ct_up s → parse q = None end);
  sq_query_ok st args s : Forall sq_stores args → returns (sq_QueryContext st args s) (λ r s',
    ct s' = ct s ∧ (ct_up s → ct_up s') ∧ (ct_up s →
      match r with
      | inl rows => ∃ q cols data, parse (sq_text st) = Some q ∧ query q args (ct s) cols data ∧
          rows = mkSqlRows (inl (map sq_label cols)) (map inl data) None
      | inr _ => ∀ q cols data, parse (sq_text st) = Some q → ¬ query q args (ct s) cols data
      end));
  sq_exec_ok st args s : Forall sq_stores args → returns (sq_ExecContext st args s) (λ r s',
    (ct_up s → ct_up s') ∧ (ct_up s →
      match r with
      | None => ∃ q, parse (sq_text st) = Some q ∧ exec q args (ct s) = Some (ct s')
      | Some _ => ct s' = ct s ∧ ∀ q, parse (sq_text st) = Some q → exec q args (ct s) = None
      end));
  sq_direct_ok q s : returns (sq_Exec q s) (λ r s', (ct_up s → ct_up s') ∧ (ct_up s →
      match r with
      | None => ∃ st, parse q = Some st ∧ exec st [] (ct s) = Some (ct s')
      | Some _ => ct s' = ct s ∧ ∀ st, parse q = Some st → exec st [] (ct s) = None
      end));
}.

Section ConnContract.
Context {E : Type} `{!SqlDriver E, !Contents E sql_db} `{!SqlLaws E}.

Abbreviation D := (sql_state E * E)%type.

(** Every statement in the cache was prepared from the text it is kept under. *)
Definition cache_ok (st : sql_state E) : Prop := map_Forall (λ q s, sq_text s = q) (st_stmtCache st).
Definition conn_ok (d : D) : Prop := ct_up d.2 ∧ is_Some (st_conn d.1) ∧ cache_ok d.1.

Lemma on_server_returns {A} (m : PM E A) (d : D) (Q : A → D → Prop) :
  returns (m d.2) (λ a e, Q a (d.1, e)) → returns (on_server m d) Q.
Proof. unfold on_server. by destruct (m d.2) as [[]]. Qed.

Lemma get_stmt_ok q st d : conn_ok d → parse q = Some st →
  returns (getAndCacheStmt q d) (λ r d', conn_ok d' ∧ ct d'.2 = ct d.2 ∧ ∃ s, r = inl s ∧ sq_text s = q).
Proof.
  intros (Hup & [c Hc] & Hcache) Hq. destruct d as [[cache conn] e]. simpl in *. unfold getAndCacheStmt. cbn.
  destruct (cache !! q) as [s|] eqn:Es.
  - simpl. split; [done|]. split; [done|]. exists s. split; [done|]. apply (Hcache q s Es).
  - subst conn. apply returns_bind. unfold prepare. apply returns_bind. simpl. apply on_server_returns.
    eapply returns_weaken; [apply sq_prepare_ok|]. intros [s|err] e' (Hce & Hu & Hr); simpl in *.
    + split; [|split; [done|by eauto]]. split; [by auto|]. split; [by eexists|].
      unfold cache_ok. simpl. apply map_Forall_insert_2; [done|exact Hcache].
    + specialize (Hr Hup). congruence.
Qed.

Lemma exec_query_ok q st args d c' : conn_ok d → parse q = Some st → Forall sq_stores args →
  exec st args (ct d.2) = Some c' →
  returns (execQuery q args d) (λ r d', r = None ∧ conn_ok d' ∧ ct d'.2 = c').
Proof.
  intros Hd Hq Ha He. unfold execQuery. apply returns_bind. eapply returns_weaken; [by eapply get_stmt_ok|].
  intros r d1 (Hd1 & Hc1 & s & -> & Hs). apply returns_bind, on_server_returns.
  eapply returns_weaken; [by apply sq_exec_ok|]. intros [err|] e' [Hu Hr]; specialize (Hr (proj1 Hd1)).
  - destruct Hr as [_ Hr]. rewrite Hs, Hc1 in Hr. specialize (Hr st Hq). congruence.
  - destruct Hr as (st' & Hp & He'). rewrite Hs, Hq in Hp. injection Hp as <-. rewrite Hc1, He in He'. injection He' as ->.
    simpl. destruct Hd1 as (? & ? & ?). split; [done|]. split; [|done]. split; [by apply Hu|done].
Qed.

Lemma query_and_clear_ok q st count args d : conn_ok d → parse q = Some st → Forall sq_stores args → 0 <= count →
  (∃ cols data, query st args (ct d.2) cols data) →
  returns (query_and_clear q count args d) (λ r d', conn_ok d' ∧ ct d'.2 = ct d.2 ∧
    ∃ cols data, query st args (ct d.2) cols data ∧ r = inl (map (row_map (map sq_label cols)) data)).
Proof.
  intros Hd Hq Ha Hcount (cols & data & Hqd). unfold query_and_clear, queryRows. apply returns_bind, returns_bind.
  eapply returns_weaken; [by eapply get_stmt_ok|]. intros r d1 (Hd1 & Hc1 & s & -> & Hs). apply returns_bind, on_server_returns.
  eapply returns_weaken; [by apply sq_query_ok|]. intros [rows|err] e' (Hce & Hu & Hr); specialize (Hr (proj1 Hd1));
    rewrite Hs, Hc1 in Hr.
  - destruct Hr as (st' & cols' & data' & Hp & Hqd' & ->). rewrite Hq in Hp. injection Hp as <-.
    unfold collect_rows. simpl. destruct (Z.ltb_spec count 0); [lia|]. rewrite scan_rows_all. simpl.
    destruct Hd1 as (? & ? & ?). split; [split; [by apply Hu|done]|]. split; [congruence|by eauto].
  - by destruct (Hr st cols data Hq).
Qed.

Definition conn_rel (n : Z) (T : string) (d : D) (m : table) : Prop := conn_ok d ∧ sql_holds n T (ct d.2) m.

Context (n : Z) (range : row → list (string * bytes)) (range_perm : ∀ m, range m ≡ₚ map_to_list m).
Context (labels : ∀ f, f ∈ allFields n → sq_label f = f).

Lemma conn_write T q st args d m m' : conn_rel n T d m → parse q = Some st → Forall sq_stores args →
  (∃ c', exec st args (ct d.2) = Some c' ∧ sql_holds n T c' m') →
  returns (execQuery q args d) (λ r d', r = None ∧ conn_rel n T d' m').
Proof.
  intros [Hd Hh] Hq Ha (c' & He & Hh'). eapply returns_weaken; [by eapply exec_query_ok|].
  intros r d' (-> & Hd' & Hc). split; [done|]. split; [done|]. by rewrite Hc.
Qed.

(** What the four operations do, given the texts. *)
Record conn_texts (db : YcsbDB D) : Prop := mkConnTexts {
  ct_read T key fields : name T = true → fields ≠ [] → (∀ f, f ∈ fields → f ∈ allFields n) →
    ∃ q, parse q = Some (Select (Some fields) T KeyIs) ∧
      db_Read T key fields = (rows <~ query_and_clear q 1 [AString key] ;; pret (first_row rows));
  ct_insert T key values : name T = true → within n values →
    let pairs := NewFieldPairs (range values) in
    ∃ q, parse q = Some (InsertIgnore T (map fp_Field pairs) 1) ∧
      db_Insert T key values = execQuery q (AString key :: values_args pairs);
  ct_update T key values : name T = true → within n values → values ≠ ∅ →
    let pairs := NewFieldPairs (range values) in
    ∃ q, parse q = Some (UpdateSet T (map fp_Field pairs)) ∧
      db_Update T key values = execQuery q (values_args pairs ++ [AString key]);
  ct_delete T key : name T = true →
    ∃ q, parse q = Some (DeleteFrom T KeyIs) ∧ db_Delete T key = execQuery q [AString key];
}.

Lemma conn_refines db : conn_texts db → sql_refines db n sq_stores (conn_rel n).
Proof.
  intros Ht T HT. apply table_refines_calls. intros c d m Hrel Hf Hc.
  destruct c as [key fields|key values|key values|key]; simpl in *; apply returns_bind.
  - destruct Hf as (Hs & Hne & Hk), Hrel as [Hd Hh]. destruct (ct_read db Ht T key fields HT Hne Hk) as (q & Hq & ->).
    apply returns_bind. eapply returns_weaken; [eapply query_and_clear_ok; [done|done|by constructor|lia|by eapply query_read_exists]|].
    intros r d' (Hd' & Hc' & cols & data & Hqd & ->). rewrite (read_result n T (ct d.2) m key fields sq_label cols data) by done.
    simpl. split; [done|]. split; [done|]. by rewrite Hc'.
  - destruct Hf as (Hs & Hfull & Hv). assert (within n values) as Hw by (intros f; apply Hfull).
    destruct (ct_insert db Ht T key values HT Hw) as (q & Hq & ->).
    eapply returns_weaken; [eapply conn_write; [done|done| |apply (exec_insert n range range_perm T _ m key values (proj2 Hrel) Hfull Hc)]|by intros r d' [-> ?]].
    constructor; [done|by eapply stores_values].
  - destruct Hf as (Hs & Hw & Hne & Hv), Hc as [r0 Hr0]. destruct (ct_update db Ht T key values HT Hw Hne) as (q & Hq & ->).
    unfold old_row. rewrite Hr0.
    eapply returns_weaken; [eapply conn_write; [done|done| |apply (exec_update n range range_perm T _ m key values r0 (proj2 Hrel) Hw Hr0)]|by intros r d' [-> ?]].
    apply Forall_app. split; [by eapply stores_values|by constructor].
  - destruct (ct_delete db Ht T key HT) as (q & Hq & ->).
    eapply returns_weaken; [eapply conn_write; [done|done|by constructor|apply exec_delete, Hrel]|by intros r d' [-> ?]].
Qed.

Lemma known_idents fields : (∀ f, f ∈ fields → f ∈ allFields n) → Forall (λ f, ident f = true) fields.
Proof. intros Hk. apply Forall_forall. intros f Hf. by apply (field_ident n), Hk. Qed.

Lemma mysql_refines hint : hint_ok hint → sql_refines (mysql_db hint range) n sq_stores (conn_rel n).
Proof.
  intros Hh. apply conn_refines. constructor.
  - intros T key fields HT Hne Hk. destruct fields as [|f fields]; [done|].
    exists (mysql_Read_query hint T (f :: fields)). split; [|done].
    apply (mysql_texts T HT (f :: fields) (known_idents _ Hk) [] (Forall_nil_2 _) hint "" [] Hh).
  - intros T key values HT Hw pairs. exists (mysql_Insert_query T pairs). split; [|done].
    apply (mysql_texts T HT [] (Forall_nil_2 _) pairs (pairs_good n range range_perm values Hw) hint "" [] Hh).
  - intros T key values HT Hw Hne pairs. exists (mysql_Update_query T pairs). split; [|done].
    apply (update_texts T HT pairs (pairs_good n range range_perm values Hw) (pairs_nonempty range values range_perm Hne)).
  - intros T key HT. exists (mysql_Delete_query T). split; [|done].
    apply (mysql_texts T HT [] (Forall_nil_2 _) [] (Forall_nil_2 _) hint "" [] Hh).
Qed.

Lemma pg_refines : sql_refines (pg_db range) n sq_stores (conn_rel n).
Proof.
  apply conn_refines. constructor.
  - intros T key fields HT Hne Hk. destruct fields as [|f fields]; [done|].
    exists (pg_Read_query T (f :: fields)). split; [|done].
    apply (pg_texts T HT (f :: fields) (known_idents _ Hk) [] (Forall_nil_2 _)).
  - intros T key values HT Hw pairs. exists (pg_Insert_query T pairs). split; [|done].
    apply (pg_texts T HT [] (Forall_nil_2 _) pairs (pairs_good n range range_perm values Hw)).
  - intros T key values HT Hw Hne pairs. exists (pg_Update_query T pairs). split; [|done].
    apply (update_texts T HT pairs (pairs_good n range range_perm values Hw) (pairs_nonempty range values range_perm Hne)).
  - intros T key HT. exists (pg_Delete_query T). split; [|done].
    apply (pg_texts T HT [] (Forall_nil_2 _) [] (Forall_nil_2 _)).
Qed.
End ConnContract.

(** The table is there, and empty, when it was not there before. *)
Section CreateTable.
Context {E : Type} `{!SqlDriver E, !Contents E sql_db} `{!SqlLaws E}.

Lemma direct_ok q st (e : E) c' : ct_up e → parse q = Some st → exec st [] (ct e) = Some c' →
  returns (sq_Exec q e) (λ r e', r = None ∧ ct_up e' ∧ ct e' = c').
Proof.
  intros Hup Hq He. eapply returns_weaken; [apply sq_direct_ok|]. intros [err|] e' [Hu Hr]; specialize (Hr Hup).
  - destruct Hr as [_ Hr]. specialize (Hr st Hq). congruence.
  - destruct Hr as (st' & Hp & He'). split; [done|]. split; [auto|]. congruence.
Qed.

Lemma drop_text T : name T = true → parse (drop_query T) = Some (DropTable T).
Proof.
  intros HT. unfold parse, drop_query. rewrite (lex_app_end "DROP TABLE IF EXISTS ") by reflexivity. rewrite (lex_name T) by done.
  change (lex "" "DROP TABLE IF EXISTS ") with [Word "DROP"; Word "TABLE"; Word "IF"; Word "EXISTS"]. reflexivity.
Qed.

Lemma create_holds n T c : c !! T = None →
  ∃ c', exec (CreateTable T (map (λ i, "FIELD" +:+ itoa i) (seqZ 0 n))) [] c = Some c' ∧ sql_holds n T c' ∅.
Proof.
  intros Hc. unfold exec. rewrite Hc. eexists. split; [done|]. eexists. rewrite lookup_insert_eq. split; [done|].
  split; [apply created_cols|]. intros key. rewrite !lookup_empty. done.
Qed.

Lemma create_after_drop (drop : bool) q (n : Z) T (e : E) :
  name T = true → ct_up e → ct e !! T = None →
  parse q = Some (CreateTable T (map (λ i, "FIELD" +:+ itoa i) (seqZ 0 n))) →
  returns ((err <~ (if drop then sq_Exec (drop_query T) else pret None) ;;
    match err with Some err => pret (Some err) | None => sq_Exec q end) e)
    (λ r e', r = None ∧ ct_up e' ∧ sql_holds n T (ct e') ∅).
Proof.
  intros HT Hup Habs Hq. apply returns_bind.
  assert (∀ e1, ct_up e1 → ct e1 !! T = None → returns (sq_Exec q e1) (λ r e', r = None ∧ ct_up e' ∧ sql_holds n T (ct e') ∅)) as Hcr.
  { intros e1 Hu1 Ha1. destruct (create_holds n T (ct e1) Ha1) as (c' & He & Hh).
    eapply returns_weaken; [by eapply direct_ok|]. intros r e' (-> & Hu & Hc). rewrite Hc. done. }
  destruct drop; [|by apply Hcr]. eapply returns_weaken; [eapply direct_ok; [done|by apply drop_text|done]|].
  intros r e1 (-> & Hu1 & Hc1). apply Hcr; [done|]. rewrite Hc1. apply lookup_delete_eq.
Qed.
End CreateTable.

(** ** SQLite *)

(** A transaction sees the database at its start and its own writes.  [sl_busy]
    bounds how often a commit will still be refused as busy. *)
Class SqliteLaws (E T : Type) `{!SqliteDriver E T} `{!Contents E sql_db} `{!Contents T (sql_db * sql_db)} := mkSqliteLaws {
  sl_stores : sql_arg → Prop;
  sl_label : string → string;
  sl_busy : E → nat;
  sl_begin_ok s : returns (sl_BeginTx (E := E) (T := T) s) (λ r s', ct s' = ct s ∧ (ct_up s → ct_up s') ∧ (sl_busy s' <= sl_busy s)%nat ∧
    match r with inl t => ct t = (ct s, ct s) ∧ (ct_up s → ct_up t) | inr _ => ¬ ct_up s end);
  sl_query_ok text args t : Forall sl_stores args → returns (sl_QueryContext text args t) (λ r t',
    ct t' = ct t ∧ (ct_up t → ct_up t') ∧ (ct_up t →
      match r with
      | inl rows => ∃ q cols data, parse text = Some q ∧ query q args (ct t).2 cols data ∧
          rows = mkSqlRows (inl (map sl_label cols)) (map inl data) None
      | inr _ => ∀ q cols data, parse text = Some q → ¬ query q args (ct t).2 cols data
      end));
  sl_exec_ok text args t : Forall sl_stores args → returns (sl_ExecContext text args t) (λ r t',
    (ct t').1 = (ct t).1 ∧ (ct_up t → ct_up t') ∧ (ct_up t →
      match r with
      | None => ∃ q, parse text = Some q ∧ exec q args (ct t).2 = Some (ct t').2
      | Some _ => ∀ q, parse text = Some q → exec q args (ct t).2 = None
      end));
  sl_commit_ok t s : (ct t).1 = ct s → returns (sl_Commit t s) (λ r s', (ct_up s → ct_up s') ∧
    match r with
    | None => ct s' = (ct t).2 ∧ (sl_busy s' <= sl_busy s)%nat
    | Some (Busy _) => ct s' = ct s ∧ (sl_busy s' < sl_busy s)%nat
    | Some (SqliteOther _) => ¬ (ct_up s ∧ ct_up t)
    end);
  sl_direct_ok q s : returns (sl_Exec (T := T) q s) (λ r s', (ct_up s → ct_up s') ∧ (sl_busy s' <= sl_busy s)%nat ∧ (ct_up s →
      match r with
      | None => ∃ st, parse q = Some st ∧ exec st [] (ct s) = Some (ct s')
      | Some _ => ∀ st, parse q = Some st → exec st [] (ct s) = None
      end));
}.

Section SqliteContract.
Context {E T : Type} `{!SqliteDriver E T, !Contents E sql_db, !Contents T (sql_db * sql_db)} `{!SqliteLaws E T}.

(** A function that does its work whatever the variable holds is carried out, once,
    however often the commit is refused first. *)
Lemma optimisticTx_ok {A} (f : A → PM T (A * option error)) (a : A) c' : ∀ fuel output (s : E),
  ct_up s → (sl_busy s < fuel)%nat →
  (∀ output t, ct t = (ct s, ct s) → ct_up t →
     returns (f output t) (λ r t', r = (a, None) ∧ ct t' = (ct s, c') ∧ ct_up t')) →
  returns (optimisticTx true fuel output f s) (λ r s', r = (a, None) ∧ ct_up s' ∧ ct s' = c' ∧ (sl_busy s' < fuel)%nat).
Proof.
  induction fuel as [|fuel IH]; intros output s Hup Hb Hf; [lia|]. cbn [optimisticTx]. apply returns_bind.
  eapply returns_weaken; [apply sl_begin_ok|]. intros [t|err] s1 (Hc1 & Hu1 & Hb1 & Ht); [|done].
  destruct Ht as [Ht Hut]. specialize (Hf output t Ht (Hut Hup)) as Hft.
  destruct (f output t) as [[[b [err|]]|?|?|] t']; simpl in Hft; try (by destruct Hft as [? _]); try done.
  destruct Hft as ([= ->] & Ht' & Hut'). apply returns_bind.
  eapply returns_weaken; [apply sl_commit_ok; by rewrite Ht', Hc1|]. intros [[err|err]|] s2 [Hu2 Hr].
  - destruct Hr as [Hc2 Hb2]. eapply returns_weaken; [apply IH; [by auto|lia|]|].
    + intros output' t0 Ht0 Hu0. rewrite Hc2, Hc1 in *. by apply Hf.
    + intros r s3 (-> & ? & ? & ?). split_and!; try done. lia.
  - exfalso. apply Hr. split; [by auto|done].
  - destruct Hr as [Hc2 Hb2]. rewrite Ht' in Hc2. simpl in *. split_and!; [done|by auto|done|lia].
Qed.

Context (n : Z) (range : row → list (string * bytes)) (range_perm : ∀ m, range m ≡ₚ map_to_list m).
Context (labels : ∀ f, f ∈ allFields n → sl_label f = f) (fuel : nat).

Definition sqlite_rel (table : string) (s : E) (m : TableDb.table) : Prop :=
  ct_up s ∧ (sl_busy s < fuel)%nat ∧ sql_holds n table (ct s) m.

Lemma sqlite_write table text st args s m m' : sqlite_rel table s m → parse text = Some st → Forall sl_stores args →
  (∃ c', exec st args (ct s) = Some c' ∧ sql_holds n table c' m') →
  returns ((r <~ optimisticTx true fuel tt (no_output (sl_ExecContext text args)) ;; pret r.2) s)
    (λ r s', r = None ∧ sqlite_rel table s' m').
Proof.
  intros (Hup & Hb & Hh) Hp Ha (c' & He & Hh'). apply returns_bind.
  eapply returns_weaken; [apply (optimisticTx_ok _ tt c' fuel tt s Hup Hb)|].
  - intros output t Ht Hut. unfold no_output. apply returns_bind. eapply returns_weaken; [by apply sl_exec_ok|].
    intros [err|] t' (H1 & Hu & Hr); specialize (Hr Hut); rewrite Ht in *; simpl in *.
    + specialize (Hr st Hp). congruence.
    + destruct Hr as (st' & Hp' & He'). rewrite Hp in Hp'. injection Hp' as <-. rewrite He in He'. injection He' as ->.
      split; [done|]. split; [|by auto]. by rewrite (surjective_pairing (ct t')), H1.
  - intros r s' (-> & ? & Hc & ?). simpl. split; [done|]. split; [done|]. split; [done|]. by rewrite Hc.
Qed.

Lemma sqlite_read_ok table key fields s m : sqlite_rel table s m → name table = true → sl_stores (AString key) → fields ≠ [] →
  (∀ f, f ∈ fields → f ∈ allFields n) →
  returns (sqlite_Read true fuel table key fields s) (λ r s', r = inl (select_fields fields (old_row m key)) ∧ sqlite_rel table s' m).
Proof.
  intros (Hup & Hb & Hh) HT Hs Hne Hk. unfold sqlite_Read. apply returns_bind.
  assert (parse (sqlite_Read_query table fields) = Some (Select (Some fields) table KeyIs)) as Hp.
  { destruct fields as [|f fields]; [done|].
    apply (sqlite_texts table HT (f :: fields) (known_idents n _ Hk) [] (Forall_nil_2 _)). }
  eapply returns_weaken; [apply (optimisticTx_ok _ (select_fields fields (old_row m key)) (ct s) fuel ∅ s Hup Hb)|].
  - intros output t Ht Hut. unfold assign. apply returns_bind. unfold sqlite_doRead, doQueryRows. apply returns_bind, returns_bind.
    eapply returns_weaken; [apply sl_query_ok; by constructor|]. intros [rows|err] t' (Hc & Hu & Hr); specialize (Hr Hut);
      rewrite Ht in *; simpl in Hr.
    + destruct Hr as (q & cols & data & Hp' & Hq & ->). rewrite Hp in Hp'. injection Hp' as <-.
      unfold collect_rows. cbn [sr_Columns sr_data sr_Err]. cbn [Z.ltb Z.compare]. rewrite scan_rows_all. unfold pret, pbind. cbn [returns].
      rewrite (read_result n table (ct s) m key fields sl_label cols data) by done. split_and!; by auto.
    + destruct (query_read_exists n table (ct s) m key fields Hh Hk) as (cols & data & Hq). by destruct (Hr _ _ _ Hp Hq).
  - intros r s' (-> & ? & Hc & ?). simpl. split; [done|]. split; [done|]. split; [done|]. by rewrite Hc.
Qed.

Lemma sqlite_refines : sql_refines (sqlite_db true range fuel) n sl_stores sqlite_rel.
Proof.
  intros table HT. apply table_refines_calls. intros c s m Hrel Hf Hc.
  destruct c as [key fields|key values|key values|key]; simpl in *; apply returns_bind.
  - destruct Hf as (Hs & Hne & Hk). eapply returns_weaken; [by apply (sqlite_read_ok table key fields s m)|]. by intros r s' [-> ?].
  - destruct Hf as (Hs & Hfull & Hv). assert (within n values) as Hw by (intros f; apply Hfull).
    eapply returns_weaken; [eapply sqlite_write; [done|apply (sqlite_texts table HT [] (Forall_nil_2 _) _ (pairs_good n range range_perm values Hw))| |
      apply (exec_insert n range range_perm table _ m key values (proj2 (proj2 Hrel)) Hfull Hc)]|by intros r s' [-> ?]].
    constructor; [done|by eapply stores_values].
  - destruct Hf as (Hs & Hw & Hne & Hv), Hc as [r0 Hr0]. unfold old_row. rewrite Hr0.
    eapply returns_weaken; [eapply sqlite_write; [done|apply (update_texts table HT _ (pairs_good n range range_perm values Hw)
      (pairs_nonempty range values range_perm Hne))| |
      apply (exec_update n range range_perm table _ m key values r0 (proj2 (proj2 Hrel)) Hw Hr0)]|by intros r s' [-> ?]].
    apply Forall_app. split; [by eapply stores_values|by constructor].
  - eapply returns_weaken; [eapply sqlite_write; [done|apply (sqlite_texts table HT [] (Forall_nil_2 _) [] (Forall_nil_2 _))|by constructor|
      apply exec_delete, (proj2 (proj2 Hrel))]|by intros r s' [-> ?]].
Qed.

Lemma sqlite_create_ok (p : Properties) (s : E) :
  let table := GetString p "table" "usertable" in
  n = GetInt64 p "fieldcount" 10 → name table = true → 0 <= GetInt64 p "fieldlength" 100 →
  ct_up s → (sl_busy s < fuel)%nat → ct s !! table = None →
  returns (sqlite_createTable (T := T) p s) (λ r s', r = None ∧ sqlite_rel table s' ∅).
Proof.
  intros table Hn HT Hl Hup Hb Habs. unfold sqlite_createTable. fold table. rewrite <- Hn.
  pose proof (create_text table HT false n (GetInt64 p "fieldlength" 100) Hl) as Hp.
  destruct (create_holds n table (ct s) Habs) as (c' & He & Hh).
  eapply returns_weaken; [apply sl_direct_ok|]. intros [err|] s' (Hu & Hb' & Hr); specialize (Hr Hup).
  - specialize (Hr _ Hp). congruence.
  - destruct Hr as (st & Hp' & He'). split; [done|]. split; [by auto|]. split; [lia|].
    change (parse (mysql_create_query false table n (GetInt64 p "fieldlength" 100)) = Some st) in Hp'. congruence.
Qed.
End SqliteContract.

(** ** Refinement *)

(** The binding creates the table of its rows in a database without it. *)
Definition creates_table {E} `{!Contents E sql_db} (create : PM E (option error)) (n : Z) (T : string) : Prop :=
  ∀ e, ct_up e → ct e !! T = None → returns (create e) (λ r e', r = None ∧ ct_up e' ∧ sql_holds n T (ct e') ∅).


(** ** Drivers in memory *)

Definition mem_keys (wh : cond) (args : list sql_arg) (rows : gmap string row) : option (list string) :=
  match wh, args with
  | KeyIs, [AString key] => Some (match rows !! key with Some _ => [key] | None => [] end)
  | KeyFrom, [AString key; AInt count] =>
      Some (take (Z.to_nat count) (base.filter (λ k, go_string_lt k key = false) (map fst (map_to_list rows))))
  | KeyIn k, _ =>
      l ← key_args args;
      if (length l =? k)%nat then Some (base.filter (λ k, is_Some (rows !! k)) (remove_dups l)) else None
  | _, _ => None
  end.

Lemma mem_keys_answers wh args rows :
  match mem_keys wh args rows with Some keys => answers wh args rows keys | None => ∀ keys, ¬ answers wh args rows keys end.
Proof.
  destruct wh as [| |k]; simpl.
  - destruct args as [|[key|?|?] [|]]; try (by intros keys [_ []]). destruct (rows !! key) as [r|] eqn:E.
    + split; [apply NoDup_singleton|]. intros x. rewrite list_elem_of_singleton. naive_solver.
    + split; [constructor|]. intros x. split; [by intros ?%not_elem_of_nil|]. intros [-> [y Hy]]. congruence.
  - destruct args as [|[key|?|?] [|[?|?|count] [|]]]; try (by intros keys [_ []]).
    assert (∀ k, k ∈ base.filter (λ k, go_string_lt k key = false) (map fst (map_to_list rows)) ↔
      go_string_lt k key = false ∧ is_Some (rows !! k)) as Hin.
    { intros k. rewrite list_elem_of_filter. f_equiv. change (map fst ?l) with (fst <$> l). rewrite list_elem_of_fmap. split.
      - intros ([k' v] & -> & H%elem_of_map_to_list). by eexists.
      - intros [v Hv]. exists (k, v). split; [done|]. by apply elem_of_map_to_list. }
    split; [eapply sublist_NoDup; [|apply sublist_take]; apply NoDup_filter, NoDup_fst_map_to_list|]. split_and!.
    + intros k Hk. apply Hin. apply list_elem_of_lookup in Hk as [i Hi]. rewrite lookup_take_Some in Hi.
      apply list_elem_of_lookup. exists i. apply Hi.
    + rewrite length_take. lia.
    + destruct (decide (length (base.filter (λ k, go_string_lt k key = false) (map fst (map_to_list rows))) <= Z.to_nat count)%nat).
      * right. intros k H1 H2. rewrite take_ge by done. by apply Hin.
      * left. rewrite length_take. lia.
  - destruct (key_args args) as [l|] eqn:E; simpl; [|intros keys [_ (l & Hl & _)]; congruence].
    destruct (Nat.eqb_spec (length l) k) as [Hl|Hl].
    + split; [apply NoDup_filter, NoDup_remove_dups|]. exists l. split; [done|]. split; [done|].
      intros x. rewrite list_elem_of_filter, elem_of_remove_dups. tauto.
    + intros keys [_ (l' & Hl' & Hlen & _)]. congruence.
Qed.

Definition mem_query (st : statement) (args : list sql_arg) (c : sql_db) : option (list string * list (list (option bytes))) :=
  match st with
  | Select sel table wh =>
      t ← c !! table;
      keys ← mem_keys wh args (st_rows t);
      let cols := selected t sel in
      if forallb (λ c, bool_decide (upper c ∈ "YCSB_KEY" :: st_cols t)) cols
      then Some (cols, map (λ k, map (column k (default ∅ (st_rows t !! k))) cols) keys) else None
  | _ => None
  end.

Lemma mem_query_ok st args c :
  match mem_query st args c with
  | Some (cols, data) => query st args c cols data
  | None => ∀ cols data, ¬ query st args c cols data
  end.
Proof.
  destruct st as [sel table wh|? ? ? ?|? ?|? ?|? ?|?|?]; [|by intros ? ? []..]. simpl.
  destruct (c !! table) as [t|] eqn:Et; simpl; [|by intros cols data (t & ks & ? & _)].
  pose proof (mem_keys_answers wh args (st_rows t)) as Ha. destruct (mem_keys wh args (st_rows t)) as [ks|]; simpl.
  - destruct (forallb _ _) eqn:Ef; [by exists t, ks|].
    intros cols data (t' & ks' & Ht' & _ & -> & Hf & _). simplify_eq. congruence.
  - intros cols data (t' & ks' & Ht' & Hk & _). simplify_eq. by apply (Ha ks').
Qed.

#[export] Instance sql_contents {C} : Contents C C := mkContents C C id (λ _, True).

(** [label] names the columns of the answers. *)
Section MemSql.
Context (label : string → string).

Definition mem_rows (text : string) (args : list sql_arg) (c : sql_db) : sql_rows + error :=
  match st ← parse text; mem_query st args c with
  | Some (cols, data) => inl (mkSqlRows (inl (map label cols)) (map inl data) None)
  | None => inr "SQL error"
  end.
Definition mem_exec (text : string) (args : list sql_arg) (c : sql_db) : option error * sql_db :=
  match st ← parse text; exec st args c with
  | Some c' => (None, c')
  | None => (Some "SQL error", c)
  end.

Definition mem_sql : SqlDriver sql_db :=
  mkSqlDriver sql_db unit string (pret (inl tt))
    (λ _ q, pret (match parse q with Some _ => inl q | None => inr (ErrSql "SQL error") end))
    (λ q args c, (Ok (mem_rows q args c), c))
    (λ q args c, let '(r, c') := mem_exec q args c in (Ok r, c'))
    (λ _, pret tt) (λ _, pret tt)
    (λ q c, let '(r, c') := mem_exec q [] c in (Ok r, c')).

Lemma mem_rows_ok q args c :
  match mem_rows q args c with
  | inl rows => ∃ st cols data, parse q = Some st ∧ query st args c cols data ∧
      rows = mkSqlRows (inl (map label cols)) (map inl data) None
  | inr _ => ∀ st cols data, parse q = Some st → ¬ query st args c cols data
  end.
Proof.
  unfold mem_rows. destruct (parse q) as [st|]; simpl; [|done]. pose proof (mem_query_ok st args c) as H.
  destruct (mem_query st args c) as [[cols data]|]; [by exists st, cols, data|].
  intros st' cols data [= <-]. apply H.
Qed.

Lemma mem_exec_ok q args c :
  match mem_exec q args c with
  | (None, c') => ∃ st, parse q = Some st ∧ exec st args c = Some c'
  | (Some _, c') => c' = c ∧ ∀ st, parse q = Some st → exec st args c = None
  end.
Proof.
  unfold mem_exec. destruct (parse q) as [st|]; simpl; [|done]. destruct (exec st args c) as [c'|] eqn:E; [by exists st|].
  split; [done|]. by intros st' [= <-].
Qed.

Definition mem_sql_laws : SqlLaws sql_db (SqlDriver0 := mem_sql).
Proof.
  refine (mkSqlLaws sql_db mem_sql _ id (λ _, True) label _ _ _ _).
  - intros c q s. simpl. destruct (parse q) eqn:E; by split_and!.
  - intros st args s _. simpl. split; [done|]. split; [done|]. intros _. apply mem_rows_ok.
  - intros st args s _. simpl. pose proof (mem_exec_ok st args s) as H. by destruct (mem_exec st args s) as [[err|] c'].
  - intros q s. simpl. pose proof (mem_exec_ok q [] s) as H. by destruct (mem_exec q [] s) as [[err|] c'].
Defined.

(** A SQLite database that refuses its next commits as busy. *)
#[export] Instance busy_contents : Contents (sql_db * nat) sql_db := mkContents (sql_db * nat) sql_db fst (λ _, True).

Definition mem_sqlite : SqliteDriver (sql_db * nat) (sql_db * sql_db) :=
  mkSqlite (sql_db * nat) (sql_db * sql_db) (λ e, (Ok (inl (e.1, e.1)), e))
    (λ q args t, (Ok (mem_rows q args t.2), t))
    (λ q args t, let '(r, c') := mem_exec q args t.2 in (Ok r, (t.1, c')))
    (λ _, pret tt)
    (λ t e, match e.2 with O => (Ok None, (t.2, O)) | S k => (Ok (Some (Busy "database is locked")), (e.1, k)) end)
    (λ q e, let '(r, c') := mem_exec q [] e.1 in (Ok r, (c', e.2))).

Definition mem_sqlite_laws : SqliteLaws (sql_db * nat) (sql_db * sql_db) (SqliteDriver0 := mem_sqlite).
Proof.
  refine (mkSqliteLaws (sql_db * nat) (sql_db * sql_db) mem_sqlite _ _ (λ _, True) label snd _ _ _ _ _).
  - intros s. simpl. by split_and!.
  - intros text args t _. simpl. split; [done|]. split; [done|]. intros _. apply mem_rows_ok.
  - intros text args t _. simpl. pose proof (mem_exec_ok text args t.2) as H. destruct (mem_exec text args t.2) as [[err|] c']; simpl;
      split_and!; try done. intros _. apply H.
  - intros t [c [|k]] Ht; simpl in *; split_and!; try done. lia.
  - intros q s. simpl. pose proof (mem_exec_ok q [] s.1) as H. destruct (mem_exec q [] s.1) as [[err|] c']; simpl; split_and!; try done.
    intros _. apply H.
Defined.
End MemSql.

(** ** At work *)

Definition sql_props (drop : bool) : Properties :=
  mkProperties (λ k d, d) (λ k d, d) (λ k d, if String.eqb k "fieldcount" then 2 else d) (λ k d, d)
    (λ k d, if String.eqb k "dropdata" then drop else d) (λ k, String.eqb k "fieldcount").

Definition sql_row (a b : string) : row := {["field0" := go_bytes a; "field1" := go_bytes b]}.

Definition sql_demo : list tb_call :=
  [CallInsert "k" (sql_row "a" "b"); CallInsert "l" (sql_row "c" "d"); CallUpdate "k" {["field1" := go_bytes "e"]};
   CallRead "k" ["field1"; "field0"]; CallRead "m" ["field0"]; CallDelete "l"].

Lemma full_check n (values : row) :
  bool_decide (dom values ≡ (list_to_set (allFields n) : gset string)) = true → full n values.
Proof.
  intros H%bool_decide_eq_true f. rewrite <- elem_of_dom, <- (elem_of_list_to_set (C := gset string)). exact (H f).
Qed.

Lemma within_check n (values : row) : bool_decide (dom values ⊆ (list_to_set (allFields n) : gset string)) = true → within n values.
Proof. intros H%bool_decide_eq_true f Hf%elem_of_dom. by apply (elem_of_list_to_set (C := gset string)), H. Qed.

Lemma sql_demo_fits : Forall (sql_fits 2 (λ _, True)) sql_demo ∧ calls_ok sql_ok sql_demo ∅.
Proof.
  assert (∀ r : row, map_Forall (λ _ _, True) r) as Hv by (intros r f v _; exact I).
  assert (∀ f, forallb (λ f, bool_decide (f ∈ allFields 2)) f = true → ∀ x, x ∈ f → x ∈ allFields 2) as Hf.
  { intros l Hl x Hx. rewrite forallb_forall in Hl. apply list_elem_of_In in Hx. by apply Hl, bool_decide_eq_true in Hx. }
  split.
  - unfold sql_demo. rewrite !Forall_cons. split_and!; simpl; try (split_and!; try done);
      try (apply full_check; vm_compute; reflexivity); try (apply within_check; vm_compute; reflexivity);
      try (apply Hf; vm_compute; reflexivity); try exact I; apply Forall_nil_2.
  - repeat split; try (vm_compute; reflexivity). vm_compute. by eexists.
Qed.


(** ** Where the bindings differ from tables, and from what they mean *)

(** A lost connection whose replacement fails leaves nil in the thread's state:
    the error is reported, and the thread's next statement that is not in the
    cache ends in a nil pointer dereference. *)
Theorem sql_reconnect_failure_panics {E} `{!SqlDriver E} (d : sql_state E * E) q c e1 err e2 :
  st_stmtCache d.1 !! q = None → st_conn d.1 = Some c →
  sq_PrepareContext c q d.2 = (Ok (inr ErrConnDone), e1) → sq_Conn e1 = (Ok (inr err), e2) →
  ∃ d', getAndCacheStmt q d = (Ok (inr err), d') ∧
    ∀ q', st_stmtCache d'.1 !! q' = None →
      getAndCacheStmt q' d' = (Panic "invalid memory address or nil pointer dereference", d').
Proof.
  destruct d as [[cache conn] e]. simpl. intros Hq -> Hp Hc.
  exists (mkSqlState cache None, e2). split.
  - unfold getAndCacheStmt, prepare, on_server, pbind, get_state, set_state, pret. simpl. rewrite Hq. simpl. rewrite Hp. simpl.
    rewrite Hc. reflexivity.
  - simpl. intros q' Hq'. unfold getAndCacheStmt, prepare, on_server, pbind, get_state. simpl. by rewrite Hq'.
Qed.

(** A database with the table, and a thread of it. *)
Definition demo_db (rows : gmap string row) : sql_db := {["usertable" := mkSqlTable ["FIELD0"; "FIELD1"] rows]}.
Definition stored (a b : string) : row := {["FIELD0" := go_bytes a; "FIELD1" := go_bytes b]}.
Definition demo_thread (rows : gmap string row) : sql_state sql_db (SqlDriver0 := mem_sql id) * sql_db :=
  (mkSqlState (SqlDriver0 := mem_sql id) ∅ (Some tt), demo_db rows).

(** A read of no fields in particular gives the columns of the table, the key's
    included, and not the fields that were written. *)
Theorem sql_read_all_renames :
  (mysql_Read (SqlDriver0 := mem_sql id) hint_text "usertable" "k" [] (demo_thread {["k" := stored "a" "b"]})).1 =
  Ok (inl {["YCSB_KEY" := go_bytes "k"; "FIELD0" := go_bytes "a"; "FIELD1" := go_bytes "b"]}).
Proof. vm_compute. reflexivity. Qed.

(** An insert of a row that is there succeeds and leaves the old row. *)
Theorem sql_insert_keeps_old :
  let d := demo_thread {["k" := stored "a" "b"]} in
  let ins := mysql_Insert (SqlDriver0 := mem_sql id) map_to_list "usertable" "k" (sql_row "c" "d") d in
  ins.1 = Ok None ∧ ins.2.2 = d.2.
Proof. cbv zeta. split; vm_compute; reflexivity. Qed.

(** A batch insert takes the columns of its first row for all of them: a row with
    other fields is stored under the wrong ones.  One without rows panics. *)
Theorem mysql_batch_insert_columns :
  let ins := mysql_BatchInsert (SqlDriver0 := mem_sql id) map_to_list "usertable" in
  (ins ["k"; "l"] [{["field0" := go_bytes "a"]}; {["field1" := go_bytes "b"]}] (demo_thread ∅)).2.2 =
    demo_db {["k" := {["FIELD0" := go_bytes "a"]}; "l" := {["FIELD0" := go_bytes "b"]}]} ∧
  (ins [] [] (demo_thread ∅)).1 = Panic "index out of range".
Proof. cbv zeta. split; vm_compute; reflexivity. Qed.

(** A batch read has a row for the keys that are there only, so the rows no longer
    stand beside their keys. *)
Theorem mysql_batch_read_skips :
  (mysql_BatchRead (SqlDriver0 := mem_sql id) hint_text "usertable" ["j"; "k"] ["field0"] (demo_thread {["k" := stored "a" "b"]})).1 =
  Ok (inl [{["field0" := go_bytes "a"]}]).
Proof. vm_compute. reflexivity. Qed.

(** A batch read of SQLite whose commit is busy reads again into the same slice:
    every round leaves its rows. *)
Theorem sqlite_batch_read_repeats :
  let read busy := (sqlite_BatchRead (SqliteDriver0 := mem_sqlite id) true 3 "usertable" ["k"] ["field0"]
    (demo_db {["k" := stored "a" "b"]}, busy)).1 in
  let r : row := {["field0" := go_bytes "a"]} in
  read 0%nat = Ok (inl [r]) ∧ read 2%nat = Ok (inl [r; r; r]).
Proof. cbv zeta. split; vm_compute; reflexivity. Qed.

(** With [dropdata] the PostgreSQL binding drops the loaded table before a run,
    where the MySQL binding keeps it unless it is about to load. *)
Theorem pg_drops_before_run :
  let c := demo_db {["k" := stored "a" "b"]} in
  let p := sql_props true in
  (mysql_createTable (SqlDriver0 := mem_sql id) p "mysql" c).2 = c ∧
  (pg_createTable (SqlDriver0 := mem_sql id) p c).2 = demo_db ∅.
Proof. cbv zeta. split; vm_compute; reflexivity. Qed.

(** ** Connections to TiDB *)

(** Connections are opened to the instances in turn. *)
Theorem mux_open_round_robin (instances : list string) (cursor : Z) :
  instances ≠ [] → 0 <= cursor < 2 ^ 63 - 1 →
  ∃ dsn, instances !! Z.to_nat ((cursor + 1) mod Z.of_nat (length instances)) = Some dsn ∧
    mux_open instances cursor = (Ok dsn, cursor + 1).
Proof.
  intros Hne Hc. assert (0 < Z.of_nat (length instances)) as Hl by (destruct instances; [done|simpl; lia]).
  pose proof (Z.mod_pos_bound (cursor + 1) (Z.of_nat (length instances)) Hl) as Hm.
  destruct (lookup_lt_is_Some_2 instances (Z.to_nat ((cursor + 1) mod Z.of_nat (length instances)))) as [dsn Hd]; [lia|].
  exists dsn. split; [done|]. unfold mux_open.
  assert (wrapu64 (cursor + 1) = cursor + 1) as -> by (unfold wrapu64; rewrite Z.mod_small; lia).
  rewrite wrap64_id by (unfold in_int64; lia). rewrite Z.rem_mod_nonneg by lia.
  destruct (Z.ltb_spec ((cursor + 1) mod Z.of_nat (length instances)) 0); [lia|]. by rewrite Hd.
Qed.
