(* ===== verification/StoreConfig.v ===== *)
(** * StoreConfig: how the embedded stores and the SQL databases are opened
    (the creators of src/go-ycsb-vendor/db: badger, boltdb, rocksdb, tikv, mysql,
    pg, sqlite)

    The options are what the code sets on top of the defaults of a package, in the
    order of the code; opening is a call of the driver.  What [dropdata] removes is
    removed before. *)

From Stdlib Require Import Ascii.
From S2P Require Import Prelude GoLib GoParse Storage YcsbUtil Float64 Json Generators Ycsb.
From S2P Require Import DbConfig Sql SqlText SqlBindings.

Open Scope Z_scope.

(** An option of a package: its name and the value given. *)
Inductive opt := OBool (b : bool) | OInt (i : Z) | OFloat (f : float64) | OString (s : string) | OName (c : string).
Abbreviation options := (list (string * opt)).

(** A named constant, if the property names one that is known. *)
Definition one_of (names : list string) (field b : string) : options :=
  if bool_decide (b ∈ names) then [(field, OName b)] else [].

Section Stores.
(** [p.GetUint64] and [p.GetUint]. *)
Context (GetUint64 : Properties → string → Z → Z).

(** ** Badger *)

Definition loading_modes : list string := ["FileIO"; "LoadToRAM"; "MemoryMap"].

Definition badger_Dir (p : Properties) : string := GetString p "badger.dir" "/tmp/badger".
Definition badger_ValueDir (p : Properties) : string := GetString p "badger.valuedir" (badger_Dir p).

Definition badger_getOptions (p : Properties) : options :=
  [("Dir", OString (badger_Dir p));
   ("ValueDir", OString (badger_ValueDir p));
   ("SyncWrites", OBool (GetBool p "badger.sync_writes" false));
   ("NumVersionsToKeep", OInt (GetInt p "badger.num_versions_to_keep" 1));
   ("MaxTableSize", OInt (GetInt64 p "badger.max_table_size" (64 * 2 ^ 20)));
   ("LevelSizeMultiplier", OInt (GetInt p "badger.level_size_multiplier" 10));
   ("MaxLevels", OInt (GetInt p "badger.max_levels" 7));
   ("ValueThreshold", OInt (GetInt p "badger.value_threshold" 32));
   ("NumMemtables", OInt (GetInt p "badger.num_memtables" 5));
   ("NumLevelZeroTables", OInt (GetInt p "badger.num_level0_tables" 5));
   ("NumLevelZeroTablesStall", OInt (GetInt p "badger.num_level0_tables_stall" 10));
   ("LevelOneSize", OInt (GetInt64 p "badger.level_one_size" (256 * 2 ^ 20)));
   ("ValueLogFileSize", OInt (GetInt64 p "badger.value_log_file_size" (2 ^ 30)));
   ("ValueLogMaxEntries", OInt (GetUint64 p "badger.value_log_max_entries" 1000000 mod 2 ^ 32));
   ("NumCompactors", OInt (GetInt p "badger.num_compactors" 3));
   ("DoNotCompact", OBool (GetBool p "badger.do_not_compact" false))] ++
  one_of loading_modes "TableLoadingMode" (GetString p "badger.table_loading_mode" "LoadToRAM") ++
  one_of loading_modes "ValueLogLoadingMode" (GetString p "badger.value_log_loading_mode" "MemoryMap").

(** ** Bolt *)

Definition bolt_Path (p : Properties) : string := GetString p "bolt.path" "/tmp/boltdb".

Definition bolt_getOptions (p : Properties) : options :=
  [("Timeout", OInt (GetDuration p "bolt.timeout" 0));
   ("NoGrowSync", OBool (GetBool p "bolt.no_grow_sync" false));
   ("ReadOnly", OBool (GetBool p "bolt.read_only" false));
   ("MmapFlags", OInt (GetInt p "bolt.mmap_flags" 0));
   ("InitialMmapSize", OInt (GetInt p "bolt.initial_mmap_size" 0))].

(** ** RocksDB *)

Definition rocks_filter (p : Properties) : options :=
  if String.eqb (GetString p "rocksdb.filter_policy" "") "rocksdb.BuiltinBloomFilter" then [("BloomFilter", OInt 10)] else [].

Definition rocks_getTableOptions (p : Properties) : options :=
  [("BlockSize", OInt (GetInt p "rocksdb.block_size" (4 * 2 ^ 10)));
   ("BlockSizeDeviation", OInt (GetInt p "rocksdb.block_size_deviation" 10));
   ("CacheIndexAndFilterBlocks", OBool (GetBool p "rocksdb.cache_index_and_filter_blocks" false));
   ("NoBlockCache", OBool (GetBool p "rocksdb.no_block_cache" false));
   ("PinL0FilterAndIndexBlocksInCache", OBool (GetBool p "rocksdb.pin_l0_filter_and_index_blocks_in_cache" false));
   ("WholeKeyFiltering", OBool (GetBool p "rocksdb.whole_key_filtering" true));
   ("BlockRestartInterval", OInt (GetInt p "rocksdb.block_restart_interval" 16))] ++
  rocks_filter p ++
  one_of ["kBinarySearch"; "kHashSearch"; "kTwoLevelIndexSearch"] "IndexType" (GetString p "rocksdb.index_type" "kBinarySearch").

(** The options of the tables come last. *)
Definition rocks_getOptions (p : Properties) : options * options :=
  ([("CreateIfMissing", OBool true);
    ("AllowConcurrentMemtableWrites", OBool (GetBool p "rocksdb.allow_concurrent_memtable_writes" true));
    ("AllowMmapReads", OBool (GetBool p "rocksdb.allow_mmap_reads" false));
    ("AllowMmapWrites", OBool (GetBool p "rocksdb.allow_mmap_writes" false));
    ("ArenaBlockSize", OInt (GetInt p "rocksdb.arena_block_size" 0));
    ("DbWriteBufferSize", OInt (GetInt p "rocksdb.db_write_buffer_size" 0));
    ("HardPendingCompactionBytesLimit", OInt (GetUint64 p "rocksdb.hard_pending_compaction_bytes_limit" (256 * 2 ^ 30)));
    ("Level0FileNumCompactionTrigger", OInt (GetInt p "rocksdb.level0_file_num_compaction_trigger" 4));
    ("Level0SlowdownWritesTrigger", OInt (GetInt p "rocksdb.level0_slowdown_writes_trigger" 20));
    ("Level0StopWritesTrigger", OInt (GetInt p "rocksdb.level0_stop_writes_trigger" 36));
    ("MaxBytesForLevelBase", OInt (GetUint64 p "rocksdb.max_bytes_for_level_base" (256 * 2 ^ 20)));
    ("MaxBytesForLevelMultiplier", OFloat (GetFloat64 p "rocksdb.max_bytes_for_level_multiplier" (f64_of_Z 10)));
    ("MaxTotalWalSize", OInt (GetUint64 p "rocksdb.max_total_wal_size" 0));
    ("MemtableHugePageSize", OInt (GetInt p "rocksdb.memtable_huge_page_size" 0));
    ("NumLevels", OInt (GetInt p "rocksdb.num_levels" 7));
    ("UseDirectReads", OBool (GetBool p "rocksdb.use_direct_reads" false));
    ("UseFsync", OBool (GetBool p "rocksdb.use_fsync" false));
    ("WriteBufferSize", OInt (GetInt p "rocksdb.write_buffer_size" (64 * 2 ^ 20)));
    ("MaxWriteBufferNumber", OInt (GetInt p "rocksdb.max_write_buffer_number" 2));
    ("WalDir", OString (GetString p "rocksdb.wal_dir" ""))],
   rocks_getTableOptions p).

Definition rocks_dir (p : Properties) : string := GetString p "rocksdb.dir" "/tmp/rocksdb".

(** ** Opening *)

Class StoreFiles (E : Type) := mkStoreFiles {
  sf_RemoveAll : string → PM E unit;
  sf_OpenBadger : options → PM E (option error);
  sf_OpenBolt : string → options → PM E (option error);        (* with mode 0600 *)
  sf_OpenRocks : options * options → string → PM E (option error);
}.

Context {E : Type} `{!StoreFiles E}.

(** The field count the row codec is made with, or the error. *)
Definition opened (p : Properties) (open : PM E (option error)) : PM E (Z + error) :=
  err <~ open ;; pret (match err with Some err => inr err | None => inl (GetInt64 p "fieldcount" 10) end).

Definition badger_Create (p : Properties) : PM E (Z + error) :=
  (if GetBool p "dropdata" false then sf_RemoveAll (badger_Dir p) ~; sf_RemoveAll (badger_ValueDir p) else pret tt) ~;
  opened p (sf_OpenBadger (badger_getOptions p)).

Definition bolt_Create (p : Properties) : PM E (Z + error) :=
  (if GetBool p "dropdata" false then sf_RemoveAll (bolt_Path p) else pret tt) ~;
  opened p (sf_OpenBolt (bolt_Path p) (bolt_getOptions p)).

Definition rocks_Create (p : Properties) : PM E (Z + error) :=
  (if GetBool p "dropdata" false then sf_RemoveAll (rocks_dir p) else pret tt) ~;
  opened p (sf_OpenRocks (rocks_getOptions p) (rocks_dir p)).
End Stores.

(** ** TiKV *)

(** The versions of the API and the creation of the two clients. *)
Class TikvConn (E : Type) := mkTikvConn {
  tk_versions : gmap string Z;                              (* kvrpcpb.APIVersion_value *)
  tk_UpdateGlobal : Z → Z → PM E unit;
  tk_NewRaw : list string → Z → PM E (option error);
  tk_NewTxn : list string → PM E (option error);
}.

Inductive tikv_client := RawClient | TxnClient (asyncCommit onePC : bool).

Section Tikv.
(** [p.GetUint] and [strings.ToUpper]. *)
Context {E : Type} `{!TikvConn E} (GetUint : Properties → string → Z → Z) (ToUpper : string → string).

Definition createRawDB (p : Properties) : PM E (tikv_client + error) :=
  let pdAddr := GetString p "tikv.pd" "127.0.0.1:2379" in
  let apiVersionStr := ToUpper (GetString p "tikv.apiversion" "V1") in
  match tk_versions !! apiVersionStr with
  | None => pret (inr ("Invalid tikv apiversion " +:+ apiVersionStr +:+ "."))
  | Some apiVersion =>
      err <~ tk_NewRaw (go_split ","%char pdAddr) apiVersion ;;
      pret (match err with Some err => inr err | None => inl RawClient end)
  end.

Definition createTxnDB (p : Properties) : PM E (tikv_client + error) :=
  let pdAddr := GetString p "tikv.pd" "127.0.0.1:2379" in
  err <~ tk_NewTxn (go_split ","%char pdAddr) ;;
  pret (match err with
        | Some err => inr err
        | None => inl (TxnClient (GetBool p "tikv.async_commit" true) (GetBool p "tikv.one_pc" true))
        end).

Definition tikv_Create (p : Properties) : PM E (tikv_client + error) :=
  tk_UpdateGlobal (GetUint p "tikv.conncount" 128) (GetUint p "tikv.batchsize" 128) ~;
  let tp := GetString p "tikv.type" "raw" in
  if String.eqb tp "raw" then createRawDB p
  else if String.eqb tp "txn" then createTxnDB p
  else pret (inr ("unsupported type " +:+ tp)).
End Tikv.

(** ** SQL *)

Class SqlOpen (E : Type) := mkSqlOpen {
  so_Open : string → list string → PM E (option error);       (* the names taken in turn *)
  so_SetPool : Z → Z → PM E unit;                             (* idle and open connections *)
  so_RemoveAll : string → PM E unit;
}.

Section SqlCreate.
Context {E : Type} `{!SqlOpen E} `{!SqlDriver E}.

(** The answer is the hint of the connection.  Several instances are opened by a
    driver that takes them in turn, [mux_open]. *)
Definition mysql_Create (p : Properties) (name : string) : PM E (string + error) :=
  err <~ so_Open "mysql" (mysql_instances p) ;;
  match err with
  | Some err => pret (inr err)
  | None =>
      let threadCount := GetInt64 p "threadcount" 200 in
      so_SetPool (wrap64 (threadCount + 1)) (wrap64 (threadCount * 2)) ~;
      err <~ mysql_createTable p name ;;
      pret (match err with Some err => inr err | None => inl (mysql_forceIndexKeyword p) end)
  end.

Definition pg_dsn (p : Properties) : string :=
  "postgres://" +:+ GetString p "pg.user" "root" +:+ ":" +:+ GetString p "pg.password" "" +:+ "@" +:+
  GetString p "pg.host" "127.0.0.1" +:+ ":" +:+ itoa (GetInt p "pg.port" 5432) +:+ "/" +:+ GetString p "pg.db" "test" +:+
  "?sslmode=" +:+ GetString p "pg.sslmode" "disable".

Definition pg_Create (p : Properties) : PM E (option error) :=
  err <~ so_Open "postgres" [pg_dsn p] ;;
  match err with
  | Some err => pret (Some err)
  | None =>
      let threadCount := GetInt64 p "threadcount" 200 in
      so_SetPool (wrap64 (threadCount + 1)) (wrap64 (threadCount * 2)) ~;
      pg_createTable p
  end.
End SqlCreate.

(** [url.QueryEscape]: a space is a plus, what is not unreserved a code in
    hexadecimal. *)
Definition unreserved (c : ascii) : bool :=
  ident_char c || Ascii.eqb c "-" || Ascii.eqb c "." || Ascii.eqb c "~".
Definition upper_hex (n : N) : ascii := List.nth (N.to_nat n) (String.list_ascii_of_string "0123456789ABCDEF") "0"%char.
Fixpoint QueryEscape (s : string) : string :=
  match s with
  | EmptyString => EmptyString
  | String c s =>
      if unreserved c then String c (QueryEscape s)
      else if Ascii.eqb c " " then String "+" (QueryEscape s)
      else String "%" (String (upper_hex (Ascii.N_of_ascii c / 16)) (String (upper_hex (Ascii.N_of_ascii c mod 16)) (QueryEscape s)))
  end.

(** [v.Encode] sorts the keys. *)
Definition sqlite_query (p : Properties) : string :=
  "_journal_mode=" +:+ QueryEscape (GetString p "sqlite.journalmode" "WAL") +:+
  "&cache=" +:+ QueryEscape (GetString p "sqlite.cache" "shared") +:+
  "&mode=" +:+ QueryEscape (GetString p "sqlite.mode" "rwc").
Definition sqlite_path (p : Properties) : string := GetString p "sqlite.db" "/tmp/sqlite.db".
Definition sqlite_dsn (p : Properties) : string := "file:" +:+ sqlite_path p +:+ "?" +:+ sqlite_query p.

(** The settings of [optimisticTx]: whether it tries again, and after how many
    milliseconds. *)
Definition sqlite_Create {E T} `{!SqlOpen E} `{!SqliteDriver E T} (p : Properties) : PM E ((bool * Z) + error) :=
  (if GetBool p "dropdata" false then so_RemoveAll (sqlite_path p) else pret tt) ~;
  err <~ so_Open "sqlite3" [sqlite_dsn p] ;;
  match err with
  | Some err => pret (inr err)
  | None =>
      so_SetPool (GetInt p "sqlite.maxidleconns" 2) (GetInt p "sqlite.maxopenconns" 1) ~;
      err <~ sqlite_createTable (T := T) p ;;
      pret (match err with
            | Some err => inr err
            | None => inl (GetBool p "sqlite.optimistic" false, GetInt p "sqlite.optimistic_backoff_ms" 5)
            end)
  end.

(** ** What is shown of it *)

(** [url.ParseQuery], as the driver reads the text back. *)
Fixpoint QueryUnescape (s : string) : option string :=
  match s with
  | EmptyString => Some EmptyString
  | String c s =>
      if Ascii.eqb c "%" then
        match s with
        | String a (String b s) => x ← hex_value a; y ← hex_value b; String (Ascii.ascii_of_N (x * 16 + y)) <$> QueryUnescape s
        | _ => None
        end
      else String (if Ascii.eqb c "+" then " " else c)%char <$> QueryUnescape s
  end.

Definition query_pair (s : string) : option (string * string) :=
  match go_split "="%char s with
  | [k; v] => k ← QueryUnescape k; v ← QueryUnescape v; Some (k, v)
  | _ => None
  end.
Definition query_pairs (s : string) : option (list (string * string)) := mapM query_pair (go_split "&"%char s).

(** What a byte is escaped to has no separator in it and reads as that byte. *)
Lemma QueryEscape_cons c s : QueryEscape (String c s) = QueryEscape (String c "") +:+ QueryEscape s.
Proof. cbn [QueryEscape]. by repeat case_match. Qed.

Lemma hex_of_byte c :
  let n := Ascii.N_of_ascii c in
  hex_value (upper_hex (n / 16)) = Some (n / 16)%N ∧ hex_value (upper_hex (n mod 16)) = Some (n mod 16)%N ∧
  Ascii.ascii_of_N (n / 16 * 16 + n mod 16) = c.
Proof. destruct c as [[] [] [] [] [] [] [] []]; vm_compute; done. Qed.

Lemma unreserved_plain c : unreserved c = true → Ascii.eqb c "%" = false ∧ Ascii.eqb c "+" = false.
Proof. destruct c as [[] [] [] [] [] [] [] []]; vm_compute; done. Qed.

Lemma QueryUnescape_byte c t : QueryUnescape (QueryEscape (String c "") +:+ t) = String c <$> QueryUnescape t.
Proof.
  cbn [QueryEscape]. destruct (unreserved c) eqn:Hu.
  { apply unreserved_plain in Hu as [H1 H2]. change (String c "" +:+ t) with (String c t). cbn [QueryUnescape]. by rewrite H1, H2. }
  destruct (Ascii.eqb c " ") eqn:Hs; [apply Ascii.eqb_eq in Hs; subst c; done|].
  change (?x +:+ t) with (String "%" (String (upper_hex (Ascii.N_of_ascii c / 16)) (String (upper_hex (Ascii.N_of_ascii c mod 16)) t))).
  cbn [QueryUnescape]. change (Ascii.eqb "%" "%") with true. cbn iota. destruct (hex_of_byte c) as (-> & -> & H3).
  cbn [mbind option_bind]. by rewrite H3.
Qed.

Lemma QueryEscape_byte_clean c : str_has "&" (QueryEscape (String c "")) || str_has "=" (QueryEscape (String c "")) = false.
Proof. destruct c as [[] [] [] [] [] [] [] []]; vm_compute; reflexivity. Qed.

Lemma QueryUnescape_escape s : QueryUnescape (QueryEscape s) = Some s.
Proof. induction s as [|c s IH]; [done|]. by rewrite QueryEscape_cons, QueryUnescape_byte, IH. Qed.

Lemma QueryEscape_clean s : str_has "&" (QueryEscape s) = false ∧ str_has "=" (QueryEscape s) = false.
Proof.
  induction s as [|c s [IH1 IH2]]; [done|]. rewrite QueryEscape_cons, !str_has_app, IH1, IH2, !orb_false_r.
  by apply orb_false_iff, QueryEscape_byte_clean.
Qed.

(** A setting that was encoded, under a name without special characters. *)
Lemma query_pair_read k v : QueryEscape k = k → query_pair (k +:+ String "=" (QueryEscape v)) = Some (k, v).
Proof.
  intros Hk. unfold query_pair. pose proof (QueryEscape_clean k) as [_ Hc]. rewrite Hk in Hc.
  rewrite go_split_head by done. rewrite go_split_none by apply QueryEscape_clean.
  pose proof (QueryUnescape_escape k) as Hr. rewrite Hk in Hr. by rewrite Hr, QueryUnescape_escape.
Qed.

Lemma query_pair_clean k v : QueryEscape k = k → str_has "&" (k +:+ String "=" (QueryEscape v)) = false.
Proof.
  intros Hk. pose proof (QueryEscape_clean k) as [Hc _]. rewrite Hk in Hc.
  rewrite str_has_app, Hc. cbn [str_has orb]. by rewrite (proj1 (QueryEscape_clean v)).
Qed.

(** The driver of SQLite reads back the settings of the properties, whatever
    characters they hold. *)
Theorem sqlite_query_read (p : Properties) :
  query_pairs (sqlite_query p) =
  Some [("_journal_mode", GetString p "sqlite.journalmode" "WAL"); ("cache", GetString p "sqlite.cache" "shared");
        ("mode", GetString p "sqlite.mode" "rwc")].
Proof.
  unfold query_pairs, sqlite_query.
  set (a := GetString p "sqlite.journalmode" "WAL"). set (b := GetString p "sqlite.cache" "shared").
  set (c := GetString p "sqlite.mode" "rwc").
  change (mapM query_pair (go_split "&" (("_journal_mode" +:+ String "=" (QueryEscape a)) +:+ String "&"
    (("cache" +:+ String "=" (QueryEscape b)) +:+ String "&" ("mode" +:+ String "=" (QueryEscape c))))) =
    Some [("_journal_mode", a); ("cache", b); ("mode", c)]).
  rewrite !go_split_head, go_split_none by (by apply query_pair_clean). cbn [mapM].
  by rewrite !query_pair_read.
Qed.

(** The name of a PostgreSQL database is put together without such encoding:
    different users and passwords give the same name. *)
Theorem pg_dsn_ambiguous :
  let props user password := mkProperties
    (λ k d, if String.eqb k "pg.user" then user else if String.eqb k "pg.password" then password else d)
    (λ k d, d) (λ k d, d) (λ k d, d) (λ k d, d) (λ k, false) in
  pg_dsn (props "app:a" "b") = pg_dsn (props "app" "a:b").
Proof. reflexivity. Qed.

(** A comment names a third type of client, which is refused. *)
Theorem tikv_coprocessor_refused {E} `{!TikvConn E} GetUint ToUpper (p : Properties) e :
  GetString p "tikv.type" "raw" = "coprocessor" →
  tikv_Create GetUint ToUpper p e =
  pbind (tk_UpdateGlobal (GetUint p "tikv.conncount" 128) (GetUint p "tikv.batchsize" 128))
    (λ _, pret (inr "unsupported type coprocessor")) e.
Proof. intros Ht. unfold tikv_Create. by rewrite Ht. Qed.

(** A loading mode that is not known is ignored: the default of the package stays,
    and not the one the binding gives where the property is missing. *)
Theorem badger_unknown_mode_ignored GetUint64 (p : Properties) :
  let modes := [GetString p "badger.table_loading_mode" "LoadToRAM"; GetString p "badger.value_log_loading_mode" "MemoryMap"] in
  Forall (λ b, b ∉ loading_modes) modes → length (badger_getOptions GetUint64 p) = 16%nat.
Proof.
  intros modes [H1 [H2 _]%Forall_cons]%Forall_cons. unfold badger_getOptions, one_of.
  by rewrite !bool_decide_false by done.
Qed.
