(* ===== verification/Cassandra.v ===== *)
(** * Cassandra: the Cassandra binding (src/go-ycsb-vendor/db/cassandra/db.go)

    CQL texts on tables qualified by the keyspace.  What CQL and SQL share is read
    by the grammar of [Sql]; a table is created with columns without a length, and
    both [INSERT] and [UPDATE] write the columns given into a row that may or may
    not be there.  The session of the driver is a class with laws. *)

From Stdlib Require Import Ascii.
From S2P Require Import Prelude GoLib GoParse Storage YcsbUtil Float64 Generators Ycsb.
From S2P Require Import TableDb KvStore DocStore Sql SqlText SqlBindings SqlRun.

Open Scope Z_scope.

(** ** Texts *)

Definition cql_table (keySpace table : string) : string := keySpace +:+ "." +:+ table.

Definition cassandra_Read_query (keySpace table : string) (fields : list string) : string :=
  "SELECT " +:+ Join fields "," +:+ " FROM " +:+ cql_table keySpace table +:+ " WHERE YCSB_KEY = ?".

Definition cassandra_Update_query (keySpace table : string) (pairs : list FieldPair) : string :=
  "UPDATE " +:+ cql_table keySpace table +:+ " SET " +:+ set_clause mysql_assign true 1 pairs +:+ " WHERE YCSB_KEY = ?".

Definition cassandra_Insert_query (keySpace table : string) (pairs : list FieldPair) : string :=
  "INSERT INTO " +:+ cql_table keySpace table +:+ " (YCSB_KEY" +:+ field_clause pairs +:+ ") VALUES (?" +:+
  mark_clause question 2 (length pairs) +:+ ")".

Definition cassandra_Delete_query (keySpace table : string) : string :=
  "DELETE FROM " +:+ cql_table keySpace table +:+ " WHERE YCSB_KEY = ?".

Definition cassandra_drop_query (keySpace tableName : string) : string :=
  "DROP TABLE IF EXISTS " +:+ cql_table keySpace tableName.

Fixpoint cql_column_clause (idx : list Z) : string :=
  match idx with [] => "" | i :: idx => ", FIELD" +:+ itoa i +:+ " VARCHAR" +:+ cql_column_clause idx end.

Definition cassandra_create_query (keySpace tableName : string) (fieldCount : Z) : string :=
  "CREATE TABLE IF NOT EXISTS " +:+ cql_table keySpace tableName +:+ " (YCSB_KEY VARCHAR PRIMARY KEY" +:+
  cql_column_clause (seqZ 0 fieldCount) +:+ ");".

(** ** What the texts mean *)

Fixpoint cql_columns (ts : list token) : option (list string) :=
  match ts with
  | [Sym c; Sym d] => if Ascii.eqb c ")" && Ascii.eqb d ";" then Some [] else None
  | Sym c :: Word w :: Word v :: ts =>
      if Ascii.eqb c "," && String.eqb v "VARCHAR" then l ← cql_columns ts; Some (w :: l) else None
  | _ => None
  end.

Definition cql_create (ts : list token) : option statement :=
  ts ← expect [Word "CREATE"; Word "TABLE"; Word "IF"; Word "NOT"; Word "EXISTS"] ts;
  '(table, ts) ← any_word ts;
  ts ← expect [Sym "("; Word "YCSB_KEY"; Word "VARCHAR"; Word "PRIMARY"; Word "KEY"] ts;
  cols ← cql_columns ts;
  Some (CreateTable table cols).

Definition cql_parse (text : string) : option statement :=
  match cql_create (lex "" text) with Some st => Some st | None => parse text end.

(** The columns given are written; the others stay as they are. *)
Definition upsert (key : string) (r : row) (t : sql_table) : sql_table :=
  mkSqlTable (st_cols t) (<[key := r ∪ default ∅ (st_rows t !! key)]> (st_rows t)).

Definition cql_write (table : string) (cols : list string) (key : string) (args : list sql_arg) (c : sql_db) : option sql_db :=
  t ← c !! table;
  vals ← bytes_args args;
  if (length vals =? length cols)%nat && known_cols t cols
  then Some (<[table := upsert key (new_row cols vals) t]> c) else None.

Definition cql_exec (st : statement) (args : list sql_arg) (c : sql_db) : option sql_db :=
  match st with
  | Insert ignore table cols rows =>
      match args with
      | AString key :: args => if negb ignore && (rows =? 1)%nat then cql_write table cols key args c else None
      | _ => None
      end
  | UpdateSet table cols =>
      match drop (length cols) args with
      | [AString key] => cql_write table cols key (take (length cols) args) c
      | _ => None
      end
  | _ => exec st args c
  end.

(** ** The binding *)

(** The settings of the cluster that come from the properties; the timeout and
    the consistency level [Quorum] are fixed. *)
Record cql_config := mkCqlConfig {
  cc_Hosts : list string; cc_Keyspace : string; cc_NumConns : Z; cc_Username : string; cc_Password : string;
}.

(** What [Scan] of one row gives. *)
Inductive cql_scanned := CqlRow (vals : list (option bytes)) | CqlNotFound | CqlFailed (err : error).

Class CassandraDriver (E : Type) := mkCassandra {
  cq_CreateSession : cql_config → PM E (option error);
  cq_Exec : string → list sql_arg → PM E (option error);
  cq_Scan : string → list sql_arg → nat → PM E cql_scanned;    (* into so many variables *)
}.

Record cassandraDB := mkCassandraDB { cs_keySpace : string; cs_fieldNames : list string }.

Section Binding.
Context {E : Type} `{!CassandraDriver E}.

(** [createTable] also sets the field names; [make] of a negative size panics. *)
Definition cassandra_createTable (p : Properties) (keySpace : string) : PM E (list string * option error) :=
  let tableName := GetString p "table" "usertable" in
  err <~ (if GetBool p "dropdata" false then cq_Exec (cassandra_drop_query keySpace tableName) [] else pret None) ;;
  match err with
  | Some err => pret ([], Some err)
  | None =>
      let fieldCount := GetInt64 p "fieldcount" 10 in
      if fieldCount <? 0 then pfail (Panic "makeslice: len out of range")
      else
        err <~ cq_Exec (cassandra_create_query keySpace tableName fieldCount) [] ;;
        pret (allFields fieldCount, err)
  end.

Definition cassandra_config (p : Properties) : cql_config :=
  mkCqlConfig (go_split ","%char (GetString p "cassandra.cluster" "127.0.0.1:9042")) (GetString p "cassandra.keyspace" "test")
    (GetInt p "cassandra.connections" 2) (GetString p "cassandra.username" "cassandra")
    (GetString p "cassandra.password" "cassandra").

Definition cassandra_Create (p : Properties) : PM E (cassandraDB + error) :=
  let cluster := cassandra_config p in
  err <~ cq_CreateSession cluster ;;
  match err with
  | Some err => pret (inr err)
  | None =>
      r <~ cassandra_createTable p (cc_Keyspace cluster) ;;
      pret (match r.2 with Some err => inr err | None => inl (mkCassandraDB (cc_Keyspace cluster) r.1) end)
  end.

Section Ops.
Context (db : cassandraDB) (range : row → list (string * bytes)).

Definition cassandra_Read (table key : string) (fields : list string) : PM E (row + error) :=
  let fields := match fields with [] => cs_fieldNames db | _ => fields end in
  r <~ cq_Scan (cassandra_Read_query (cs_keySpace db) table fields) [AString key] (length fields) ;;
  pret (match r with
        | CqlNotFound => inl ∅
        | CqlFailed err => inr err
        | CqlRow dest => inl (row_map fields dest)
        end).

Definition cassandra_Scan (table startKey : string) (count : Z) (fields : list string) : PM E (list row + error) :=
  pret (inr "scan is not supported").

Definition cassandra_execQuery (query : string) (args : list sql_arg) : PM E (option error) := cq_Exec query args.

Definition cassandra_Update (table key : string) (values : row) : PM E (option error) :=
  let pairs := NewFieldPairs (range values) in
  cassandra_execQuery (cassandra_Update_query (cs_keySpace db) table pairs) (values_args pairs ++ [AString key]).

Definition cassandra_Insert (table key : string) (values : row) : PM E (option error) :=
  let pairs := NewFieldPairs (range values) in
  cassandra_execQuery (cassandra_Insert_query (cs_keySpace db) table pairs) (AString key :: values_args pairs).

Definition cassandra_Delete (table key : string) : PM E (option error) :=
  cassandra_execQuery (cassandra_Delete_query (cs_keySpace db) table) [AString key].

Definition cassandra_db : YcsbDB E :=
  mkYcsbDB E cassandra_Read cassandra_Scan cassandra_Update cassandra_Insert cassandra_Delete None.
End Ops.
End Binding.

(** ** The texts are the statements meant *)

Lemma name_app a b : name a = true → name b = true → name (a +:+ b) = true.
Proof.
  assert (∀ a b, String.list_ascii_of_string (a +:+ b) = (String.list_ascii_of_string a ++ String.list_ascii_of_string b)%list) as Happ.
  { intros x y. induction x as [|c x IH]; [done|]. rewrite append_cons. simpl. by rewrite IH. }
  unfold name. intros [Ha Hca]%andb_true_iff [_ Hcb]%andb_true_iff. rewrite Happ, forallb_app, Hca, Hcb.
  destruct a; [done|]. by rewrite append_cons.
Qed.

Lemma cql_table_name keySpace table : name keySpace = true → name table = true → name (cql_table keySpace table) = true.
Proof. intros Hk Ht. apply name_app; [done|]. by apply (name_app "."). Qed.

Lemma cql_parse_other verb rest w ts :
  ends_sep verb = true → lex "" verb = Word w :: ts → String.eqb w "CREATE" = false →
  cql_parse (verb +:+ rest) = parse (verb +:+ rest).
Proof.
  intros He Hl Hw. unfold cql_parse, cql_create. rewrite lex_app_end, Hl by done. cbn [app expect].
  rewrite decide_False; [done|]. intros [= <-]. done.
Qed.

Lemma cql_column_clause_sep idx : starts_sep (cql_column_clause idx) = true.
Proof. by destruct idx. Qed.

Lemma cql_columns_clause idx : Forall (λ i, 0 <= i) idx →
  cql_columns (lex "" (cql_column_clause idx +:+ ");")) = Some (map (λ i, "FIELD" +:+ itoa i) idx).
Proof.
  induction 1 as [|i idx Hi _ IH]; [done|].
  change (cql_column_clause (i :: idx) +:+ ");") with
    (", " +:+ ("FIELD" +:+ itoa i +:+ " VARCHAR" +:+ cql_column_clause idx) +:+ ");").
  rewrite !append_assoc. rewrite lex_app_end by done. rewrite <- (append_assoc "FIELD").
  rewrite lex_app_start by done.
  rewrite (lex_app_start " VARCHAR") by (apply starts_sep_app; [apply cql_column_clause_sep|done]).
  rewrite (lex_ident ("FIELD" +:+ itoa i)) by (apply ident_prefix; [done|by apply itoa_chars]).
  change (lex "" ", ") with [Sym ","]. change (lex "" " VARCHAR") with [Word "VARCHAR"]. simpl.
  destruct (lex "" (cql_column_clause idx +:+ ");")) as [|t ts] eqn:Et; [done|]. by rewrite IH.
Qed.

Section Texts.
Context (ks T : string) (ks_ok : name ks = true) (T_ok : name T = true).

Lemma cassandra_statements fields pairs :
  Forall (λ f, ident f = true) fields → fields ≠ [] → good_fields pairs →
  cql_parse (cassandra_Read_query ks T fields) = Some (Select (Some fields) (cql_table ks T) KeyIs) ∧
  cql_parse (cassandra_Insert_query ks T pairs) = Some (Insert false (cql_table ks T) (map fp_Field pairs) 1) ∧
  (pairs ≠ [] → cql_parse (cassandra_Update_query ks T pairs) = Some (UpdateSet (cql_table ks T) (map fp_Field pairs))) ∧
  cql_parse (cassandra_Delete_query ks T) = Some (DeleteFrom (cql_table ks T) KeyIs) ∧
  cql_parse (cassandra_drop_query ks T) = Some (DropTable (cql_table ks T)).
Proof.
  intros Hf Hne Hp. pose proof (cql_table_name ks T ks_ok T_ok) as HT.
  destruct (sqlite_texts (cql_table ks T) HT fields Hf pairs Hp) as (Hread & _ & _ & Hdel). split_and!.
  - unfold cassandra_Read_query. rewrite (cql_parse_other _ _ "SELECT" []) by reflexivity. by destruct fields.
  - unfold cassandra_Insert_query. rewrite (cql_parse_other _ _ "INSERT" [Word "INTO"]) by reflexivity.
    apply (insert_text (cql_table ks T) HT false false "INSERT INTO " [Word "INTO"] pairs
      ("(?" +:+ mark_clause question 2 (length pairs) +:+ ")") 1 []); [done|done| |done].
    rewrite (lex_row (length pairs) 1). cbn [length]. by apply (row_list_last question (λ _, eq_refl)).
  - intros Hne'. unfold cassandra_Update_query. rewrite (cql_parse_other _ _ "UPDATE" []) by reflexivity.
    apply (update_texts (cql_table ks T) HT pairs Hp Hne').
  - unfold cassandra_Delete_query. by rewrite (cql_parse_other _ _ "DELETE" [Word "FROM"]) by reflexivity.
  - unfold cassandra_drop_query. rewrite (cql_parse_other _ _ "DROP" [Word "TABLE"; Word "IF"; Word "EXISTS"]) by reflexivity.
    by apply drop_text.
Qed.

Lemma cassandra_create_statement n :
  cql_parse (cassandra_create_query ks T n) = Some (CreateTable (cql_table ks T) (map (λ i, "FIELD" +:+ itoa i) (seqZ 0 n))).
Proof.
  pose proof (cql_columns_clause (seqZ 0 n) (proj2 (Forall_forall _ _) (λ i H, proj1 (proj1 (elem_of_seqZ _ _ _) H)))) as Hc.
  unfold cql_parse, cql_create, cassandra_create_query.
  rewrite (lex_app_end "CREATE TABLE IF NOT EXISTS ") by done. rewrite (lex_app_start (cql_table ks T)) by done.
  rewrite (lex_name (cql_table ks T)) by (by apply cql_table_name).
  rewrite (lex_app_start " (YCSB_KEY VARCHAR PRIMARY KEY") by (apply starts_sep_app; [apply cql_column_clause_sep|done]).
  change (lex "" "CREATE TABLE IF NOT EXISTS ") with [Word "CREATE"; Word "TABLE"; Word "IF"; Word "NOT"; Word "EXISTS"].
  change (lex "" " (YCSB_KEY VARCHAR PRIMARY KEY") with [Sym "("; Word "YCSB_KEY"; Word "VARCHAR"; Word "PRIMARY"; Word "KEY"].
  rewrite expect_app. cbn [mbind option_bind any_word app]. change (?a :: ?b :: ?c :: ?d :: ?e :: ?ts) with ([a; b; c; d; e] ++ ts).
  rewrite expect_app. cbn [mbind option_bind]. by rewrite Hc.
Qed.
End Texts.

(** ** Rows that are written whether they are there or not *)

Section Upserts.
Context (n : Z).

Lemma full_old m key : map_Forall (λ _, full n) m → old_row m key = ∅ ∨ full n (old_row m key).
Proof. intros Hm. unfold old_row. destruct (m !! key) as [r|] eqn:Hr; [right|by left]. by apply (Hm key). Qed.

Lemma sql_holds_full T c m : sql_holds n T c m → map_Forall (λ _, full n) m.
Proof. intros (t & _ & _ & H) key r Hr. specialize (H key). rewrite Hr in H. by destruct H. Qed.

Lemma full_over values r : full n values → r = ∅ ∨ full n r → values ∪ r = values.
Proof.
  intros Hv Hr. apply map_eq. intros f. rewrite lookup_union. destruct (values !! f) as [v|] eqn:Hf; [by destruct (r !! f)|].
  destruct Hr as [-> | Hr]; [done|]. destruct (r !! f) eqn:Hrf; [|done].
  assert (is_Some (values !! f)) as [? ?] by (apply Hv, Hr; by eexists). congruence.
Qed.

(** A write of values that leaves a full row. *)
Lemma rows_hold_upsert t m key r values :
  rows_hold n (st_rows t) m → same_row n r values → full n (values ∪ old_row m key) →
  rows_hold n (st_rows (upsert key r t)) (<[key := values ∪ old_row m key]> m).
Proof.
  intros Hh Hs Hfull. unfold upsert. simpl. apply rows_hold_insert; [done|done|]. intros f Hf.
  rewrite !lookup_union, (Hs f Hf). f_equal. specialize (Hh key). unfold old_row. destruct (m !! key) as [r0|].
  - destruct Hh as (_ & r1 & -> & H1). simpl. by apply H1.
  - by rewrite Hh.
Qed.
End Upserts.

(** ** Refinement *)

Class CassandraLaws (E : Type) `{!CassandraDriver E} `{!Contents E sql_db} := mkCassandraLaws {
  cq_stores : sql_arg → Prop;
  cq_session_ok cfg s : returns (cq_CreateSession cfg s) (λ r s', ct s' = ct s ∧ (ct_up s → ct_up s') ∧ (ct_up s → r = None));
  cq_exec_ok text args s : Forall cq_stores args → returns (cq_Exec text args s) (λ r s', (ct_up s → ct_up s') ∧ (ct_up s →
      match r with
      | None => ∃ st, cql_parse text = Some st ∧ cql_exec st args (ct s) = Some (ct s')
      | Some _ => ct s' = ct s ∧ ∀ st, cql_parse text = Some st → cql_exec st args (ct s) = None
      end));
  cq_scan_ok text args k s : Forall cq_stores args → returns (cq_Scan text args k s) (λ r s',
      ct s' = ct s ∧ (ct_up s → ct_up s') ∧ (ct_up s →
      match r with
      | CqlRow vals => ∃ st cols data, cql_parse text = Some st ∧ query st args (ct s) cols (vals :: data) ∧ length cols = k
      | CqlNotFound => ∃ st cols, cql_parse text = Some st ∧ query st args (ct s) cols []
      | CqlFailed _ => ∀ st cols data, cql_parse text = Some st → query st args (ct s) cols data → length cols ≠ k
      end));
}.

(** Calls Cassandra carries out: as in SQL, but a read may leave the fields out and
    an insert may be of a row that is there. *)
Definition cql_fits (n : Z) (stores : sql_arg → Prop) (c : tb_call) : Prop :=
  match c with
  | CallRead key fields => stores (AString key) ∧ ∀ f, f ∈ fields → f ∈ allFields n
  | _ => sql_fits n stores c
  end.
Definition update_present (c : tb_call) (m : table) : Prop :=
  match c with CallUpdate key _ => is_Some (m !! key) | _ => True end.

Section Contract.
Context {E : Type} `{!CassandraDriver E, !Contents E sql_db, !CassandraLaws E}.
Context (n : Z) (n_pos : 1 <= n) (range : row → list (string * bytes)) (range_perm : ∀ m, range m ≡ₚ map_to_list m).
Context (ks : string) (ks_ok : name ks = true).

Definition cql_rel (T : string) (s : E) (m : table) : Prop := ct_up s ∧ sql_holds n (cql_table ks T) (ct s) m.

Lemma cql_exec_done text st args s c' : ct_up s → Forall cq_stores args → cql_parse text = Some st →
  cql_exec st args (ct s) = Some c' → returns (cq_Exec text args s) (λ r s', r = None ∧ ct_up s' ∧ ct s' = c').
Proof.
  intros Hup Ha Hp He. eapply returns_weaken; [by apply cq_exec_ok|]. intros [err|] s' [Hu Hr]; specialize (Hr Hup).
  - destruct Hr as [_ Hr]. specialize (Hr st Hp). congruence.
  - destruct Hr as (st' & Hp' & He'). rewrite Hp in Hp'. injection Hp' as <-. split_and!; [done|auto|congruence].
Qed.

Lemma cql_write_holds T c m key values : sql_holds n T c m → within n values → full n (values ∪ old_row m key) →
  let pairs := NewFieldPairs (range values) in
  ∃ c', cql_write T (map fp_Field pairs) key (values_args pairs) c = Some c' ∧
    sql_holds n T c' (<[key := values ∪ old_row m key]> m).
Proof.
  intros (t & Ht & Hcols & Hrows) Hw Hfull. cbv zeta. unfold cql_write. rewrite Ht. cbn [mbind option_bind].
  rewrite bytes_args_values. cbn [mbind option_bind]. rewrite !length_map, Nat.eqb_refl, (pairs_known n range) by done.
  eexists. split; [done|]. eexists. rewrite lookup_insert_eq. split; [done|]. split; [done|].
  apply rows_hold_upsert; [done| |done]. intros f Hf. by apply (new_row_lookup n range).
Qed.

Lemma cql_write_done T text st args s m key values : cql_rel T s m → Forall cq_stores args → cql_parse text = Some st →
  (∀ c, cql_exec st args c = cql_write (cql_table ks T) (map fp_Field (NewFieldPairs (range values))) key
      (values_args (NewFieldPairs (range values))) c) →
  within n values → full n (values ∪ old_row m key) →
  returns (cq_Exec text args s) (λ r s', r = None ∧ cql_rel T s' (<[key := values ∪ old_row m key]> m)).
Proof.
  intros [Hup Hh] Ha Hp Hst Hw Hfull. destruct (cql_write_holds _ _ _ _ _ Hh Hw Hfull) as (c' & Hc & Hh').
  eapply returns_weaken; [eapply cql_exec_done; [done|done|done|by rewrite Hst]|].
  intros r s' (-> & Hup' & Hs). split; [done|]. split; [done|]. by rewrite Hs.
Qed.

(** A row read into variables, one per field. *)
Lemma cassandra_read_ok T s m key fields : name T = true → cql_rel T s m → cq_stores (AString key) →
  fields ≠ [] → (∀ f, f ∈ fields → f ∈ allFields n) →
  returns (cq_Scan (cassandra_Read_query ks T fields) [AString key] (length fields) s) (λ r s', cql_rel T s' m ∧
    match r with
    | CqlRow vals => row_map fields vals = select_fields fields (old_row m key)
    | CqlNotFound => m !! key = None
    | CqlFailed _ => False
    end).
Proof.
  intros HT [Hup Hh] Hs Hne Hk.
  destruct (cassandra_statements ks T ks_ok HT fields [] (known_idents n fields Hk) Hne (Forall_nil_2 _)) as [Hp _].
  eapply returns_weaken; [apply cq_scan_ok; by constructor|]. intros r s' (Hc & Hu & Hr). specialize (Hr Hup).
  split; [split; [auto|by rewrite Hc]|]. destruct r as [vals| |err].
  - destruct Hr as (st & cols & data & Hp' & Hq & _). rewrite Hp in Hp'. injection Hp' as <-.
    destruct (query_read n _ _ _ _ _ _ _ Hh Hk Hq) as [-> Hd]. unfold read_data in Hd. unfold old_row.
    destruct Hh as (t & _ & _ & Hrows). specialize (Hrows key). destruct (m !! key) as [r0|]; [|done].
    injection Hd as -> _. destruct Hrows as [Hfull _]. by apply (row_map_select n).
  - destruct Hr as (st & cols & Hp' & Hq). rewrite Hp in Hp'. injection Hp' as <-.
    destruct (query_read n _ _ _ _ _ _ _ Hh Hk Hq) as [_ Hd]. unfold read_data in Hd. by destruct (m !! key).
  - destruct (query_read_exists n _ _ _ key fields Hh Hk) as (cols & data & Hq).
    destruct (query_read n _ _ _ _ _ _ _ Hh Hk Hq) as [-> _]. by destruct (Hr _ _ _ Hp Hq).
Qed.

Lemma all_fields_nonempty : allFields n ≠ [].
Proof. unfold allFields. rewrite seqZ_cons by lia. done. Qed.

Lemma select_all_fields r : r = ∅ ∨ full n r → select_fields (allFields n) r = select_fields [] r.
Proof.
  intros Hr. apply map_eq. intros f. rewrite !select_fields_lookup. rewrite (decide_True (P := [] = [] ∨ f ∈ [])) by (by left).
  case_decide as Hf; [done|]. destruct Hr as [-> | Hr]; [done|]. symmetry. apply eq_None_not_Some. intros H%Hr. apply Hf. by right.
Qed.

Lemma cassandra_refines T : name T = true →
  let db := cassandra_db (mkCassandraDB ks (allFields n)) range in
  table_refines (YcsbDB0 := db) (cql_rel T) (cql_fits n cq_stores) update_present T.
Proof.
  intros HT db. apply table_refines_calls. intros c s m Hrel Hf Hok.
  pose proof (sql_holds_full n _ _ m (proj2 Hrel)) as Hfull.
  destruct c as [key fields|key values|key values|key]; simpl in *; apply returns_bind.
  - destruct Hf as [Hs Hk]. unfold cassandra_Read. cbn [cs_fieldNames cs_keySpace].
    set (fs := match fields with [] => allFields n | _ => fields end).
    assert (fs ≠ []) as Hne by (destruct fields; [apply all_fields_nonempty|done]).
    assert (∀ f, f ∈ fs → f ∈ allFields n) as Hk' by (by destruct fields).
    assert (select_fields fs (old_row m key) = select_fields fields (old_row m key)) as Hsel
      by (destruct fields; [apply select_all_fields, full_old|]; done).
    apply returns_bind. eapply returns_weaken; [by apply (cassandra_read_ok T s m key fs)|].
    intros r s' [Hrel' Hr]. destruct r as [vals| |err]; simpl; [by rewrite <- Hsel, <- Hr| |done].
    unfold old_row. rewrite Hr. simpl. by rewrite select_fields_empty.
  - destruct Hf as (Hs & Hfv & Hv). assert (within n values) as Hw by (intros f; apply Hfv).
    assert (values ∪ old_row m key = values) as Hover by (apply (full_over n); [done|by apply full_old]).
    destruct (cassandra_statements ks T ks_ok HT (allFields n) _ (known_idents n _ (λ f H, H)) all_fields_nonempty
      (pairs_good n range range_perm values Hw)) as (_ & Hp & _).
    eapply returns_weaken; [eapply (cql_write_done T _ _ _ s m key values); [done| |exact Hp|done|done|by rewrite Hover]|
      by rewrite Hover; intros r s' [-> ?]].
    constructor; [done|by eapply stores_values].
  - destruct Hf as (Hs & Hw & Hne & Hv), Hok as [r0 Hr0].
    destruct (cassandra_statements ks T ks_ok HT (allFields n) _ (known_idents n _ (λ f H, H)) all_fields_nonempty
      (pairs_good n range range_perm values Hw)) as (_ & _ & Hp & _).
    specialize (Hp (pairs_nonempty range values range_perm Hne)).
    assert (∀ pairs, length (map fp_Field pairs) = length (values_args pairs)) as Hl
      by (intros; unfold values_args; by rewrite !length_map).
    eapply returns_weaken; [eapply (cql_write_done T _ _ _ s m key values); [done| |exact Hp| |done|]|by intros r s' [-> ?]].
    + apply Forall_app. split; [by eapply stores_values|by constructor].
    + intros c. unfold cql_exec. by rewrite Hl, drop_app_length, take_app_length.
    + apply full_union; [done|]. unfold old_row. rewrite Hr0. by apply (Hfull key).
  - destruct (cassandra_statements ks T ks_ok HT (allFields n) [] (known_idents n _ (λ f H, H)) all_fields_nonempty
      (Forall_nil_2 _)) as (_ & _ & _ & Hp & _).
    destruct Hrel as [Hup Hh]. destruct (exec_delete n _ _ _ key Hh) as (c' & He & Hh').
    eapply returns_weaken; [eapply cql_exec_done; [done|by constructor|exact Hp|exact He]|].
    intros r s' (-> & Hup' & Hc). split; [done|]. split; [done|]. by rewrite Hc.
Qed.

(** [Create] on a cluster without the table: the table is there, without rows. *)
Lemma cassandra_Create_ok (p : Properties) (s : E) :
  let T := GetString p "table" "usertable" in
  ks = GetString p "cassandra.keyspace" "test" → n = GetInt64 p "fieldcount" 10 → name T = true →
  ct_up s → ct s !! cql_table ks T = None →
  returns (cassandra_Create p s) (λ r s', r = inl (mkCassandraDB ks (allFields n)) ∧ cql_rel T s' ∅).
Proof.
  intros T Hks Hn HT Hup Habs. unfold cassandra_Create. apply returns_bind.
  eapply returns_weaken; [apply cq_session_ok|]. intros r s1 (Hc1 & Hu1 & Hr). rewrite (Hr Hup). specialize (Hu1 Hup).
  unfold cassandra_config. cbn [cc_Keyspace]. rewrite <- Hks. apply returns_bind. unfold cassandra_createTable.
  fold T. rewrite <- Hn. apply returns_bind.
  assert (∀ s2, ct_up s2 → ct s2 !! cql_table ks T = None →
    returns (cq_Exec (cassandra_create_query ks T n) [] s2) (λ r s', r = None ∧ cql_rel T s' ∅)) as Hcreate.
  { intros s2 Hu2 Ha2. destruct (create_holds n _ _ Ha2) as (c' & He & Hh).
    eapply returns_weaken; [eapply cql_exec_done; [done|constructor|by apply cassandra_create_statement|exact He]|].
    intros r2 s' (-> & Hu & Hc). split; [done|]. split; [done|]. by rewrite Hc. }
  assert (∀ s2, ct_up s2 → ct s2 !! cql_table ks T = None →
    returns ((if n <? 0 then pfail (Panic "makeslice: len out of range")
              else err <~ cq_Exec (cassandra_create_query ks T n) [] ;; pret (allFields n, err)) s2)
      (λ r s', r = (allFields n, None) ∧ cql_rel T s' ∅)) as Hrest.
  { intros s2 Hu2 Ha2. destruct (Z.ltb_spec n 0); [lia|]. apply returns_bind.
    eapply returns_weaken; [by apply Hcreate|]. intros r2 s' [-> ?]. done. }
  apply (returns_weaken _ (λ r s2, r = None ∧ ct_up s2 ∧ ct s2 !! cql_table ks T = None)).
  - destruct (GetBool p "dropdata" false); [|split; [done|]; split; [done|]; by rewrite Hc1].
    destruct (cassandra_statements ks T ks_ok HT (allFields n) [] (known_idents n _ (λ f H, H)) all_fields_nonempty
      (Forall_nil_2 _)) as (_ & _ & _ & _ & Hp).
    eapply returns_weaken; [eapply cql_exec_done; [done|constructor|exact Hp|reflexivity]|].
    intros r2 s2 (-> & Hu2 & Hc2). split_and!; [done|done|]. rewrite Hc2. apply lookup_delete_eq.
  - intros r2 s2 (-> & Hu2 & Ha2). eapply returns_weaken; [by apply Hrest|]. by intros r3 s3 [-> ?].
Qed.
End Contract.

(** ** A session in memory *)

Definition mem_cassandra : CassandraDriver sql_db :=
  mkCassandra sql_db (λ _, pret None)
    (λ text args c, match st ← cql_parse text; cql_exec st args c with
                    | Some c' => (Ok None, c')
                    | None => (Ok (Some "CQL error"), c)
                    end)
    (λ text args k c, (Ok match st ← cql_parse text; mem_query st args c with
                          | Some (cols, data) =>
                              if (length cols =? k)%nat then match data with [] => CqlNotFound | vals :: _ => CqlRow vals end
                              else CqlFailed "not enough columns to scan into"
                          | None => CqlFailed "CQL error"
                          end, c)).

Definition mem_cassandra_laws : CassandraLaws sql_db (CassandraDriver0 := mem_cassandra).
Proof.
  refine (mkCassandraLaws sql_db mem_cassandra _ (λ _, True) _ _ _).
  - intros cfg s. simpl. done.
  - intros text args s _. simpl. destruct (cql_parse text) as [st|]; simpl; [|done].
    destruct (cql_exec st args s) as [c'|] eqn:He; (split; [done|]); intros _; [by exists st|]. split; [done|]. intros ? [= <-]. done.
  - intros text args k s _. simpl. split; [done|]. split; [done|]. intros _.
    destruct (cql_parse text) as [st|]; simpl; [|done]. pose proof (mem_query_ok st args s) as Hq.
    destruct (mem_query st args s) as [[cols data]|] eqn:Em; [|intros ? ? ? [= <-] H; by destruct (Hq _ _ H)].
    destruct (Nat.eqb_spec (length cols) k) as [Hk|Hk]; [destruct data as [|vals data]; [by exists st, cols|by exists st, cols, data]|].
    intros st' cols' data' [= <-] Hq'. destruct st; try done. destruct Hq as (t & ks & Ht & _ & Hcols & _), Hq' as (t' & ks' & Ht' & _ & Hcols' & _).
    congruence.
Defined.
