(* ===== verification/Spanner.v ===== *)
(** * Spanner: the Spanner binding (src/go-ycsb-vendor/db/spanner/db.go)

    Reads and scans are queries with parameters by name, writes are mutations: the
    names of the columns, the key first, and their values as strings.  The
    database and the table are prepared through the admin client.  The clients are
    a class with laws. *)

From Stdlib Require Import Ascii.
From S2P Require Import Prelude GoLib GoParse Storage YcsbUtil Float64 Generators Ycsb.
From S2P Require Import TableDb KvStore DocStore DocBindings Sql SqlText SqlBindings SqlRun Cassandra.

Open Scope Z_scope.

(** ** Texts *)

Definition spanner_Read_query (table : string) (fields : list string) : string :=
  match fields with [] => "SELECT * FROM " +:+ table +:+ " WHERE YCSB_KEY = @key"
  | _ => "SELECT " +:+ Join fields "," +:+ " FROM " +:+ table +:+ " WHERE YCSB_KEY = @key" end.

Definition spanner_Scan_query (table : string) (fields : list string) : string :=
  match fields with [] => "SELECT * FROM " +:+ table +:+ " WHERE YCSB_KEY >= @key LIMIT @limit"
  | _ => "SELECT " +:+ Join fields "," +:+ " FROM " +:+ table +:+ " WHERE YCSB_KEY >= @key LIMIT @limit" end.

Fixpoint spanner_column_clause (fieldLength : Z) (idx : list Z) : string :=
  match idx with
  | [] => ""
  | i :: idx => ", FIELD" +:+ itoa i +:+ " STRING(" +:+ itoa fieldLength +:+ ")" +:+ spanner_column_clause fieldLength idx
  end.

Definition spanner_create_query (tableName : string) (fieldCount fieldLength : Z) : string :=
  "CREATE TABLE  " +:+ tableName +:+ " (YCSB_KEY STRING(" +:+ itoa fieldLength +:+ ")" +:+
  spanner_column_clause fieldLength (seqZ 0 fieldCount) +:+ ") PRIMARY KEY (YCSB_KEY)".

Definition spanner_drop_query (tableName : string) : string := "DROP TABLE " +:+ tableName.

Definition spanner_create_database (dbName : string) : string := "CREATE DATABASE `" +:+ dbName +:+ "`".

(** The regular expression of [createDatabase], anything, the separator and
    anything: the first group takes as much as it can, so the last separator
    counts; neither group has a newline. *)
Definition db_separator : string := "/databases/".
Fixpoint strip_prefix (p s : string) : option string :=
  match p, s with
  | EmptyString, _ => Some s
  | String a p, String b s => if Ascii.eqb a b then strip_prefix p s else None
  | _, EmptyString => None
  end.
Fixpoint cut_last (s : string) : option (string * string) :=
  match s with
  | EmptyString => None
  | String c s' =>
      match cut_last s' with
      | Some (a, b) => Some (String c a, b)
      | None => b ← strip_prefix db_separator s; Some ("", b)
      end
  end.
Definition has_newline (s : string) : bool := existsb (Ascii.eqb (Ascii.ascii_of_nat 10)) (String.list_ascii_of_string s).
Definition db_match (dbName : string) : option (string * string) :=
  if has_newline dbName then None else cut_last dbName.

Lemma strip_prefix_app p s b : strip_prefix p s = Some b ↔ s = p +:+ b.
Proof.
  revert s. induction p as [|a p IH]; intros s; simpl; [split; [by intros [= ->]|intros ->; done]|].
  destruct s as [|c s]; [split; [done|]; by rewrite append_cons|]. rewrite append_cons.
  destruct (Ascii.eqb_spec a c) as [<-|Hne]; [|split; [done|congruence]]. rewrite IH. split; [by intros ->|by intros [= ->]].
Qed.

Lemma cut_last_suffix u v : cut_last (u +:+ v) = None → cut_last v = None.
Proof.
  induction u as [|c u IH]; [done|]. rewrite append_cons. cbn [cut_last]. intros H. apply IH.
  by destruct (cut_last (u +:+ v)) as [[]|].
Qed.

(** The name is cut at the last separator, if it has one. *)
Lemma cut_last_spec s :
  match cut_last s with
  | Some (a, b) => s = a +:+ db_separator +:+ b ∧ cut_last b = None
  | None => ∀ a b, s ≠ a +:+ db_separator +:+ b
  end.
Proof.
  induction s as [|c s IH]; [by intros [|? ?] b|]. cbn [cut_last].
  destruct (cut_last s) as [[a b]|] eqn:Hs; [destruct IH as [-> ?]; by rewrite append_cons|].
  destruct (strip_prefix db_separator (String c s)) as [b|] eqn:Hp; cbn [mbind option_bind].
  - apply strip_prefix_app in Hp. split; [done|]. unfold db_separator in Hp. rewrite append_cons in Hp. injection Hp as _ Hp.
    rewrite Hp in Hs. by apply cut_last_suffix in Hs.
  - intros [|x a] b Heq; [|rewrite append_cons in Heq; injection Heq as _ Heq; by apply (IH a b)].
    assert (strip_prefix db_separator (String c s) = Some b) by (by apply strip_prefix_app). congruence.
Qed.

(** ** Mutations *)

Inductive mutation :=
  | MUpdate (table : string) (cols : list string) (vals : list string)
  | MInsertOrUpdate (table : string) (cols : list string) (vals : list string)
  | MDelete (table : string) (key : string).

(** The key is the first column; the row gets the values of the others. *)
Definition mutation_row (cols vals : list string) : option (string * (list string * row)) :=
  match cols, vals with
  | k :: cols, key :: vals =>
      if String.eqb k "YCSB_KEY" && (length vals =? length cols)%nat
      then Some (key, (cols, new_row cols (map go_bytes vals))) else None
  | _, _ => None
  end.

(** [None] is an error, which changes nothing: an update is of a row that is there. *)
Definition apply_mutation (mu : mutation) (c : sql_db) : option sql_db :=
  match mu with
  | MUpdate table cols vals =>
      t ← c !! table;
      '(key, (cols, r)) ← mutation_row cols vals;
      if known_cols t cols && bool_decide (is_Some (st_rows t !! key)) then Some (<[table := upsert key r t]> c) else None
  | MInsertOrUpdate table cols vals =>
      t ← c !! table;
      '(key, (cols, r)) ← mutation_row cols vals;
      if known_cols t cols then Some (<[table := upsert key r t]> c) else None
  | MDelete table key =>
      t ← c !! table;
      Some (<[table := mkSqlTable (st_cols t) (delete key (st_rows t))]> c)
  end.

(** ** The binding *)

(** The state of a database, of which [STATE_UNSPECIFIED] matters. *)
Inductive db_state := StateUnspecified | StateOther.

Class SpannerDriver (E : Type) := mkSpanner {
  sp_op : Type;
  sp_Setenv : string → string → PM E unit;
  sp_CurrentHome : PM E (string + error);                     (* user.Current *)
  sp_NewDatabaseAdminClient : PM E (option error);
  sp_NewClient : string → PM E (option error);
  sp_GetDatabase : string → PM E (db_state + error);
  sp_CreateDatabase : string → string → PM E (sp_op + error);
  sp_UpdateDatabaseDdl : string → list string → PM E (sp_op + error);
  sp_Wait : sp_op → PM E (option error);
  (* what Next gives until it is done: the columns of a row and its strings or NULL *)
  sp_Query : string → list (string * sql_arg) → PM E (list (list (string * option string) + error));
  sp_Apply : list mutation → PM E (option error);
}.

Section Binding.
Context {E : Type} `{!SpannerDriver E}.

Fixpoint null_row (cols : list (string * option string)) (m : row) : row :=
  match cols with
  | [] => m
  | (col, Some v) :: cols => null_row cols (<[col := go_bytes v]> m)
  | (_, None) :: cols => null_row cols m
  end.

Fixpoint next_rows (l : list (list (string * option string) + error)) (vs : list row) : list row + error :=
  match l with
  | [] => inl vs
  | inr err :: _ => inr err
  | inl cols :: l => next_rows l (vs ++ [null_row cols ∅])
  end.

Definition spanner_queryRows (stmt : string) (params : list (string * sql_arg)) (count : Z) : PM E (list row + error) :=
  iter <~ sp_Query stmt params ;;
  if count <? 0 then pfail (Panic "makeslice: cap out of range") else pret (next_rows iter []).

Definition spanner_Read (table key : string) (fields : list string) : PM E (row + error) :=
  rows <~ spanner_queryRows (spanner_Read_query table fields) [("key", AString key)] 1 ;;
  pret (first_row rows).

Definition spanner_Scan (table startKey : string) (count : Z) (fields : list string) : PM E (list row + error) :=
  spanner_queryRows (spanner_Scan_query table fields) [("key", AString startKey); ("limit", AInt count)] count.

Section Ops.
Context (range : row → list (string * bytes)).

Definition createMutations (key : string) (mutations : row) : list string * list string :=
  ("YCSB_KEY" :: map fst (range mutations), key :: map (λ fv, string_of fv.2) (range mutations)).

Definition spanner_Update (table key : string) (mutations : row) : PM E (option error) :=
  let '(keys, values) := createMutations key mutations in sp_Apply [MUpdate table keys values].

Definition spanner_Insert (table key : string) (mutations : row) : PM E (option error) :=
  let '(keys, values) := createMutations key mutations in sp_Apply [MInsertOrUpdate table keys values].

Definition spanner_Delete (table key : string) : PM E (option error) := sp_Apply [MDelete table key].

Definition spanner_db : YcsbDB E :=
  mkYcsbDB E spanner_Read spanner_Scan spanner_Update spanner_Insert spanner_Delete None.
End Ops.

(** ** Creation *)

Definition spanner_createDatabase (dbName : string) : PM E (string + error) :=
  match db_match dbName with
  | None => pret (inr ("Invalid database id " +:+ dbName))
  | Some (parent, name) =>
      database <~ sp_GetDatabase dbName ;;
      match database with
      | inr err => pret (inr err)
      | inl StateOther => pret (inl name)
      | inl StateUnspecified =>
          op <~ sp_CreateDatabase parent (spanner_create_database name) ;;
          match op with
          | inr err => pret (inr err)
          | inl op => err <~ sp_Wait op ;; pret (match err with Some err => inr err | None => inl name end)
          end
      end
  end.

Definition table_query : string :=
  "SELECT t.table_name FROM information_schema.tables AS t " +:+ String (Ascii.ascii_of_nat 10) (String (Ascii.ascii_of_nat 9) "") +:+
  "WHERE t.table_catalog = '' AND t.table_schema = '' AND t.table_name = @name".

(** The loop stops at the first row. *)
Definition tableExisted (table : string) : PM E (bool + error) :=
  iter <~ sp_Query table_query [("name", AString table)] ;;
  pret (match iter with [] => inl false | inr err :: _ => inr err | inl _ :: _ => inl true end).

(** One statement through the admin client, and the wait for its operation. *)
Definition spanner_ddl (dbName statement : string) : PM E (option error) :=
  op <~ sp_UpdateDatabaseDdl dbName [statement] ;;
  match op with
  | inr err => pret (Some err)
  | inl op => sp_Wait op
  end.

Definition spanner_createTable (p : Properties) (dbName : string) : PM E (option error) :=
  let tableName := GetString p "table" "usertable" in
  let fieldCount := GetInt64 p "fieldcount" 10 in
  let fieldLength := GetInt64 p "fieldlength" 100 in
  existed <~ tableExisted tableName ;;
  match existed with
  | inr err => pret (Some err)
  | inl existed =>
      let drop := GetBool p "dropdata" false && existed in
      err <~ (if drop then spanner_ddl dbName (spanner_drop_query tableName) else pret None) ;;
      match err with
      | Some err => pret (Some err)
      | None =>
          if existed && negb drop then pret None
          else spanner_ddl dbName (spanner_create_query tableName fieldCount fieldLength)
      end
  end.

(** [path_Join] is [path.Join]. *)
Definition spanner_Create (path_Join : string → string → string) (p : Properties) : PM E (option error) :=
  let credentials := GetString p "spanner.credentials" "" in
  credentials <~ (match credentials with
                  | EmptyString =>
                      usr <~ sp_CurrentHome ;;
                      pret (match usr with inl home => inl (path_Join home ".spanner/credentials.json") | inr err => inr err end)
                  | _ => pret (inl credentials)
                  end) ;;
  match credentials with
  | inr err => pret (Some err)
  | inl credentials =>
      sp_Setenv "GOOGLE_APPLICATION_CREDENTIALS" credentials ~;
      err <~ sp_NewDatabaseAdminClient ;;
      match err with
      | Some err => pret (Some err)
      | None =>
          let dbName := GetString p "spanner.db" "" in
          if String.eqb dbName "" then pret (Some "must provide a database like projects/xxxx/instances/xxxx/databases/xxx")
          else
            r <~ spanner_createDatabase dbName ;;
            match r with
            | inr err => pret (Some err)
            | inl _ =>
                err <~ sp_NewClient dbName ;;
                match err with Some err => pret (Some err) | None => spanner_createTable p dbName end
            end
      end
  end.
End Binding.

(** ** What the texts mean *)

Fixpoint spanner_columns (ts : list token) : option (list string) :=
  match ts with
  | [Sym c; Word p; Word k; Sym o; Word y; Sym e] =>
      if decide ([Sym c; Word p; Word k; Sym o; Word y; Sym e] =
                 [Sym ")"; Word "PRIMARY"; Word "KEY"; Sym "("; Word "YCSB_KEY"; Sym ")"]) then Some [] else None
  | Sym c :: Word w :: Word v :: Sym o :: Word _ :: Sym e :: ts =>
      if Ascii.eqb c "," && String.eqb v "STRING" && Ascii.eqb o "(" && Ascii.eqb e ")"
      then l ← spanner_columns ts; Some (w :: l) else None
  | _ => None
  end.

Definition spanner_parse (text : string) : option statement :=
  match lex "" text with
  | [Word d; Word t; Word table] =>
      if String.eqb d "DROP" && String.eqb t "TABLE" then Some (DropTable table) else None
  | ts =>
      ts ← expect [Word "CREATE"; Word "TABLE"] ts;
      '(table, ts) ← any_word ts;
      ts ← expect [Sym "("; Word "YCSB_KEY"; Word "STRING"; Sym "("] ts;
      '(_, ts) ← any_word ts;
      ts ← symbol ")" ts;
      cols ← spanner_columns ts;
      Some (CreateTable table cols)
  end.

(** A table that is there is not created, one that is not there is not dropped. *)
Definition spanner_exec (st : statement) (c : sql_db) : option sql_db :=
  match st with
  | CreateTable table cols => match c !! table with None => exec st [] c | Some _ => None end
  | DropTable table => match c !! table with Some _ => exec st [] c | None => None end
  | _ => None
  end.

Lemma spanner_column_clause_sep len idx : starts_sep (spanner_column_clause len idx) = true.
Proof. by destruct idx. Qed.

Lemma spanner_columns_cons w l t ts :
  spanner_columns (Sym "," :: Word w :: Word "STRING" :: Sym "(" :: Word l :: Sym ")" :: t :: ts) =
  (cols ← spanner_columns (t :: ts); Some (w :: cols)).
Proof. reflexivity. Qed.

Lemma spanner_columns_clause len idx : 0 <= len → Forall (λ i, 0 <= i) idx →
  spanner_columns (lex "" (spanner_column_clause len idx +:+ ") PRIMARY KEY (YCSB_KEY)")) = Some (map (λ i, "FIELD" +:+ itoa i) idx).
Proof.
  intros Hlen. induction 1 as [|i idx Hi _ IH]; [done|].
  change (spanner_column_clause len (i :: idx) +:+ ") PRIMARY KEY (YCSB_KEY)") with
    (", " +:+ ("FIELD" +:+ itoa i +:+ " STRING(" +:+ itoa len +:+ ")" +:+ spanner_column_clause len idx) +:+ ") PRIMARY KEY (YCSB_KEY)").
  rewrite !append_assoc. rewrite lex_app_end by done. rewrite <- (append_assoc "FIELD").
  rewrite lex_app_start by done. rewrite (lex_app_end " STRING(") by done.
  rewrite (lex_app_start (itoa len)) by done. rewrite (lex_app_end ")") by done.
  rewrite (lex_ident ("FIELD" +:+ itoa i)) by (apply ident_prefix; [done|by apply itoa_chars]).
  rewrite (lex_ident (itoa len)) by (by apply itoa_ident).
  change (lex "" ", ") with [Sym ","]. change (lex "" " STRING(") with [Word "STRING"; Sym "("].
  change (lex "" ")") with [Sym ")"]. cbn [app].
  revert IH. destruct (lex "" (spanner_column_clause len idx +:+ ") PRIMARY KEY (YCSB_KEY)")) as [|t ts] eqn:Et; [done|].
  intros IH. by rewrite spanner_columns_cons, IH.
Qed.

Section Texts.
Context (T : string) (T_ok : name T = true).

Lemma spanner_query_texts fields : Forall (λ f, ident f = true) fields →
  parse (spanner_Read_query T fields) = Some (Select (selected_cols fields) T KeyIs) ∧
  parse (spanner_Scan_query T fields) = Some (Select (selected_cols fields) T KeyFrom).
Proof.
  intros Hf. split.
  - etransitivity; [exact (select_text T T_ok fields Hf "YCSB_KEY = @key")|]. reflexivity.
  - etransitivity; [exact (select_text T T_ok fields Hf "YCSB_KEY >= @key LIMIT @limit")|]. reflexivity.
Qed.

Lemma spanner_drop_text : spanner_parse (spanner_drop_query T) = Some (DropTable T).
Proof.
  unfold spanner_parse, spanner_drop_query. rewrite (lex_app_end "DROP TABLE ") by reflexivity. by rewrite (lex_name T).
Qed.

Lemma spanner_create_text n len : 0 <= len →
  spanner_parse (spanner_create_query T n len) = Some (CreateTable T (map (λ i, "FIELD" +:+ itoa i) (seqZ 0 n))).
Proof.
  intros Hlen.
  pose proof (spanner_columns_clause len (seqZ 0 n) Hlen (proj2 (Forall_forall _ _) (λ i H, proj1 (proj1 (elem_of_seqZ _ _ _) H)))) as Hc.
  unfold spanner_parse, spanner_create_query.
  rewrite (lex_app_end "CREATE TABLE  ") by done. rewrite (lex_app_start T) by done. rewrite (lex_name T) by done.
  rewrite (lex_app_end " (YCSB_KEY STRING(") by done. rewrite (lex_app_start (itoa len)) by done.
  rewrite (lex_ident (itoa len)) by (by apply itoa_ident). rewrite (lex_app_end ")") by done.
  change (lex "" "CREATE TABLE  ") with [Word "CREATE"; Word "TABLE"].
  change (lex "" " (YCSB_KEY STRING(") with [Sym "("; Word "YCSB_KEY"; Word "STRING"; Sym "("].
  change (lex "" ")") with [Sym ")"]. cbn [app]. simpl. by rewrite Hc.
Qed.
End Texts.

(** ** Refinement *)

(** Strings the columns keep; the statements of an operation of the admin client. *)
Class SpannerLaws (E : Type) `{!SpannerDriver E} `{!Contents E sql_db} := mkSpannerLaws {
  sp_stores : string → Prop;
  sp_label : string → string;
  sp_statements : sp_op (E := E) → list string;
  sp_query_ok text args s : (length args <= 2)%nat → returns (sp_Query text (zip param_names args) s) (λ iter s', ct s' = ct s ∧ (ct_up s → ct_up s') ∧ (ct_up s →
      (∃ st cols data, parse text = Some st ∧ query st args (ct s) cols data ∧
         iter = map (λ vals, inl (zip (map sp_label cols) (map (fmap string_of) vals))) data) ∨
      (∃ err, iter = [inr err]) ∧ ∀ st cols data, parse text = Some st → ¬ query st args (ct s) cols data));
  sp_exists_ok T s : returns (sp_Query table_query [("name", AString T)] s) (λ iter s', ct s' = ct s ∧ (ct_up s → ct_up s') ∧ (ct_up s →
      if decide (is_Some (ct s !! T)) then ∃ r l, iter = inl r :: l else iter = []));
  sp_apply_ok mu s : (match mu with MUpdate _ _ vals | MInsertOrUpdate _ _ vals => Forall sp_stores vals | MDelete _ _ => True end) →
    returns (sp_Apply [mu] s) (λ r s', (ct_up s → ct_up s') ∧ (ct_up s →
      match r with None => apply_mutation mu (ct s) = Some (ct s') | Some _ => ct s' = ct s ∧ apply_mutation mu (ct s) = None end));
  sp_ddl_ok dbName text s : returns (sp_UpdateDatabaseDdl dbName [text] s) (λ r s', ct s' = ct s ∧ (ct_up s → ct_up s') ∧
      match r with inl op => sp_statements op = [text] | inr _ => ct_up s → spanner_parse text = None end);
  sp_wait_ok op text s : sp_statements op = [text] → returns (sp_Wait op s) (λ r s', (ct_up s → ct_up s') ∧ (ct_up s →
      match r with
      | None => ∃ st, spanner_parse text = Some st ∧ spanner_exec st (ct s) = Some (ct s')
      | Some _ => ct s' = ct s ∧ ∀ st, spanner_parse text = Some st → spanner_exec st (ct s) = None
      end));
}.

(** A row of named columns, without those that are NULL. *)
Lemma null_row_lookup fields (r : row) : ∀ m f,
  null_row (zip fields (map (fmap string_of) (map (r !!.) fields))) m !! f =
  if decide (f ∈ fields) then match r !! f with Some v => Some v | None => m !! f end else m !! f.
Proof.
  induction fields as [|g fields IH]; intros m f; [done|]. simpl.
  destruct (decide (f ∈ g :: fields)) as [Hin|Hin].
  - destruct (r !! g) as [v|] eqn:Hg; simpl; rewrite IH, ?go_bytes_string_of; case_decide as Hf; try done.
    + destruct (r !! f) eqn:Hrf; [done|]. rewrite lookup_insert_ne; congruence.
    + apply elem_of_cons in Hin as [->|?]; [|done]. by rewrite lookup_insert_eq, Hg.
    + apply elem_of_cons in Hin as [->|?]; [|done]. by rewrite Hg.
  - rewrite not_elem_of_cons in Hin. destruct Hin as [Hne Hin].
    destruct (r !! g) as [v|]; simpl; rewrite IH, decide_False by done; [|done]. by rewrite lookup_insert_ne by congruence.
Qed.

Lemma null_row_select fields (r : row) : fields ≠ [] →
  null_row (zip fields (map (fmap string_of) (map (r !!.) fields))) ∅ = select_fields fields r.
Proof.
  intros Hne. apply map_eq. intros f. rewrite null_row_lookup, select_fields_lookup. case_decide as Hf.
  - rewrite decide_True by (by right). by destruct (r !! f).
  - rewrite decide_False; [done|]. naive_solver.
Qed.

(** The arguments of a call, as the strings that reach the columns. *)
Definition stores_arg (stores : string → Prop) (a : sql_arg) : Prop :=
  match a with AString s => stores s | ABytes v => stores (string_of v) | AInt _ => True end.

Section Contract.
Context {E : Type} `{!SpannerDriver E, !Contents E sql_db, !SpannerLaws E}.
Context (n : Z) (range : row → list (string * bytes)) (range_perm : ∀ m, range m ≡ₚ map_to_list m).
Context (labels : ∀ f, f ∈ allFields n → sp_label f = f).

Definition spanner_rel (T : string) (s : E) (m : table) : Prop := ct_up s ∧ sql_holds n T (ct s) m.

Lemma next_rows_all {X} (g : X → list (string * option string)) (l : list X) : ∀ vs,
  next_rows (map (λ x, inl (g x)) l) vs = inl (vs ++ map (λ x, null_row (g x) ∅) l).
Proof. induction l as [|x l IH]; intros vs; simpl; [by rewrite app_nil_r|]. rewrite IH. by rewrite <- app_assoc. Qed.

Lemma spanner_read_ok T s m key fields : name T = true → spanner_rel T s m → fields ≠ [] → (∀ f, f ∈ fields → f ∈ allFields n) →
  returns (spanner_Read T key fields s) (λ r s', r = inl (select_fields fields (old_row m key)) ∧ spanner_rel T s' m).
Proof.
  intros HT [Hup Hh] Hne Hk. destruct (spanner_query_texts T HT fields (known_idents n fields Hk)) as [Hp _].
  assert (selected_cols fields = Some fields) as Hsel by (by destruct fields). rewrite Hsel in Hp.
  unfold spanner_Read, spanner_queryRows. apply returns_bind, returns_bind.
  eapply returns_weaken; [apply (sp_query_ok _ [AString key]); simpl; lia|]. intros iter s' (Hc & Hu & Hr). specialize (Hr Hup).
  destruct (query_read_exists n T (ct s) m key fields Hh Hk) as (cols0 & data0 & Hq0).
  destruct Hr as [(st & cols & data & Hp' & Hq & ->)|[_ Hno]]; [|by destruct (Hno _ _ _ Hp Hq0)].
  rewrite Hp in Hp'. injection Hp' as <-. destruct (query_read n _ _ _ _ _ _ _ Hh Hk Hq) as [-> ->].
  assert (map sp_label fields = fields) as ->.
  { rewrite (map_ext_in sp_label id); [apply map_id|]. intros f Hf. by apply labels, Hk, list_elem_of_In. }
  change (1 <? 0) with false. cbv iota. rewrite next_rows_all. unfold pret, pbind. cbn [returns app].
  split; [|split; [auto|by rewrite Hc]]. f_equal. unfold read_data, old_row. destruct (m !! key) as [r0|]; cbn [map first_row].
  - f_equal. by apply null_row_select.
  - cbn. by rewrite select_fields_empty.
Qed.

(** The row of the columns and values of a mutation. *)
Lemma mutation_row_of key values : within n values →
  mutation_row ("YCSB_KEY" :: map fst (range values)) (key :: map (λ fv, string_of fv.2) (range values)) =
  Some (key, (map fst (range values), new_row (map fst (range values)) (map snd (range values)))).
Proof.
  intros Hw. unfold mutation_row. rewrite !length_map, Nat.eqb_refl. cbn [String.eqb].
  change (String.eqb "YCSB_KEY" "YCSB_KEY" && true) with true. cbv iota. rewrite map_map.
  rewrite (map_ext (λ x, go_bytes (string_of x.2)) snd); [done|]. intros x. apply go_bytes_string_of.
Qed.

Lemma mutation_known t values : within n values → st_cols t = map upper (allFields n) → known_cols t (map fst (range values)) = true.
Proof.
  intros Hw Ht.
  assert (∀ f, f ∈ map fst (range values) → f ∈ allFields n) as Hin.
  { intros f (x & -> & Hx)%list_elem_of_fmap. destruct x as [f v]. rewrite range_perm in Hx. apply elem_of_map_to_list in Hx.
    apply Hw. by exists v. }
  unfold known_cols. apply andb_true_iff. split.
  - apply bool_decide_eq_true. apply NoDup_fmap_2_strong; [intros f g Hf Hg; apply (upper_inj n); by apply Hin|].
    change (map fst (range values)) with (fst <$> range values). rewrite range_perm. apply NoDup_fst_map_to_list.
  - apply forallb_forall. intros f Hf%list_elem_of_In. apply bool_decide_eq_true. rewrite Ht. by apply list_elem_of_fmap_2, Hin.
Qed.

Lemma mutation_stores key values : stores_arg sp_stores (AString key) → map_Forall (λ _ v, stores_arg sp_stores (ABytes v)) values →
  Forall sp_stores (createMutations range key values).2.
Proof.
  intros Hk Hv. simpl. constructor; [done|]. apply Forall_forall. intros x (y & -> & Hy)%list_elem_of_fmap.
  destruct y as [f v]. rewrite range_perm in Hy. apply elem_of_map_to_list in Hy. apply (Hv f v Hy).
Qed.

Lemma spanner_apply_done T mu s m m' : spanner_rel T s m →
  (match mu with MUpdate _ _ vals | MInsertOrUpdate _ _ vals => Forall sp_stores vals | MDelete _ _ => True end) →
  (∃ c', apply_mutation mu (ct s) = Some c' ∧ sql_holds n T c' m') →
  returns (sp_Apply [mu] s) (λ r s', r = None ∧ spanner_rel T s' m').
Proof.
  intros [Hup Hh] Hs (c' & Hc & Hh'). eapply returns_weaken; [by apply sp_apply_ok|].
  intros [err|] s' [Hu Hr]; specialize (Hr Hup); [destruct Hr; congruence|]. split; [done|]. split; [auto|].
  assert (c' = ct s') as <- by congruence. done.
Qed.

Lemma upsert_holds T c m key values : sql_holds n T c m → within n values → full n (values ∪ old_row m key) →
  ∃ t, c !! T = Some t ∧ known_cols t (map fst (range values)) = true ∧ (is_Some (m !! key) → is_Some (st_rows t !! key)) ∧
    sql_holds n T (<[T := upsert key (new_row (map fst (range values)) (map snd (range values))) t]> c)
      (<[key := values ∪ old_row m key]> m).
Proof.
  intros (t & Ht & Hcols & Hrows) Hw Hfull. exists t. split_and!; [done|by apply mutation_known| |].
  - intros [r Hr]. specialize (Hrows key). rewrite Hr in Hrows. destruct Hrows as (_ & r' & ? & _). by eexists.
  - eexists. rewrite lookup_insert_eq. split; [done|]. split; [done|]. apply rows_hold_upsert; [done| |done].
    intros f Hf. apply (new_row_of n); [apply range_perm|done|done].
Qed.

Lemma spanner_refines T : name T = true →
  table_refines (YcsbDB0 := spanner_db range) (spanner_rel T) (sql_fits n (stores_arg sp_stores)) update_present T.
Proof.
  intros HT. apply table_refines_calls. intros c s m Hrel Hf Hok.
  pose proof (sql_holds_full n _ _ m (proj2 Hrel)) as Hfull.
  destruct c as [key fields|key values|key values|key]; cbn [run_call spec_call fst snd] in *; apply returns_bind.
  - destruct Hf as (_ & Hne & Hk). eapply returns_weaken; [by apply (spanner_read_ok T s m key fields)|].
    by intros r s' [-> ?].
  - destruct Hf as (Hs & Hfv & Hv). assert (within n values) as Hw by (intros f; apply Hfv).
    assert (values ∪ old_row m key = values) as Hover by (apply (full_over n); [done|by apply full_old]).
    eapply returns_weaken; [apply (spanner_apply_done T _ s m (<[key := values]> m) Hrel); [by apply mutation_stores|]|by intros r s' [-> ?]].
    destruct (upsert_holds T _ m key values (proj2 Hrel) Hw) as (t & Ht & Hkn & _ & Hh); [by rewrite Hover|]. rewrite Hover in Hh.
    eexists. split; [|exact Hh]. unfold apply_mutation. rewrite Ht. cbn [mbind option_bind].
    rewrite (mutation_row_of key values Hw). cbn [mbind option_bind]. by rewrite Hkn.
  - destruct Hf as (Hs & Hw & Hne & Hv), Hok as [r0 Hr0].
    assert (full n (values ∪ old_row m key)) as Hfu.
    { apply full_union; [done|]. unfold old_row. rewrite Hr0. by apply (Hfull key). }
    eapply returns_weaken; [apply (spanner_apply_done T _ s m (<[key := values ∪ old_row m key]> m) Hrel); [by apply mutation_stores|]|by intros r s' [-> ?]].
    destruct (upsert_holds T _ m key values (proj2 Hrel) Hw Hfu) as (t & Ht & Hkn & Hthere & Hh).
    eexists. split; [|exact Hh]. unfold apply_mutation. rewrite Ht. cbn [mbind option_bind].
    rewrite (mutation_row_of key values Hw). cbn [mbind option_bind]. rewrite Hkn, bool_decide_true; [done|]. apply Hthere. by eexists.
  - eapply returns_weaken; [apply (spanner_apply_done T (MDelete T key) s m (delete key m) Hrel I)|by intros r s' [-> ?]].
    destruct Hrel as [_ (t & Ht & Hcols & Hrows)]. unfold apply_mutation. rewrite Ht. eexists. split; [done|].
    eexists. rewrite lookup_insert_eq. split; [done|]. split; [done|]. simpl. by apply rows_hold_delete.
Qed.

(** *** The table *)

Lemma spanner_ddl_done dbName text st s c' : ct_up s → spanner_parse text = Some st → spanner_exec st (ct s) = Some c' →
  returns (spanner_ddl dbName text s) (λ r s', r = None ∧ ct_up s' ∧ ct s' = c').
Proof.
  intros Hup Hp He. unfold spanner_ddl. apply returns_bind. eapply returns_weaken; [apply sp_ddl_ok|].
  intros [op|err] s1 (Hc1 & Hu1 & Hop); [|specialize (Hop Hup); congruence].
  eapply returns_weaken; [by apply sp_wait_ok|]. intros [err|] s2 [Hu2 Hr]; specialize (Hr (Hu1 Hup)); rewrite Hc1 in Hr.
  - destruct Hr as [_ Hr]. specialize (Hr st Hp). congruence.
  - destruct Hr as (st' & Hp' & He'). rewrite Hp in Hp'. injection Hp' as <-. split_and!; [done|auto|congruence].
Qed.

(** The table is there afterwards: without rows if it was not there or was to be
    dropped, and as it was otherwise. *)
Lemma spanner_table_ok (p : Properties) dbName (s : E) :
  let T := GetString p "table" "usertable" in
  n = GetInt64 p "fieldcount" 10 → name T = true → 0 <= GetInt64 p "fieldlength" 100 → ct_up s →
  returns (spanner_createTable p dbName s) (λ r s', r = None ∧ ct_up s' ∧
    if decide (is_Some (ct s !! T)) then if GetBool p "dropdata" false then sql_holds n T (ct s') ∅ else ct s' = ct s
    else sql_holds n T (ct s') ∅).
Proof.
  intros T Hn HT Hlen Hup. unfold spanner_createTable. fold T. rewrite <- Hn. apply returns_bind. unfold tableExisted. apply returns_bind.
  eapply returns_weaken; [apply sp_exists_ok|]. intros iter s1 (Hc1 & Hu1 & Hr). specialize (Hr Hup). specialize (Hu1 Hup).
  assert (∀ s2 : E, ct_up s2 → ct s2 !! T = None →
    returns (spanner_ddl dbName (spanner_create_query T n (GetInt64 p "fieldlength" 100)) s2)
      (λ r s', r = None ∧ ct_up s' ∧ sql_holds n T (ct s') ∅)) as Hcreate.
  { intros s2 Hu2 Ha2. destruct (create_holds n _ _ Ha2) as (c' & He & Hh).
    eapply returns_weaken; [eapply (spanner_ddl_done _ _ _ _ c'); [done|by apply spanner_create_text|by unfold spanner_exec; rewrite Ha2]|].
    intros r s' (-> & Hu & Hc). by rewrite Hc. }
  case_decide as Hex.
  - destruct Hr as (x & l & ->). unfold pret at 1. cbn [returns]. destruct Hex as [t Ht]. rewrite andb_true_r. apply returns_bind.
    destruct (GetBool p "dropdata" false).
    + eapply returns_weaken; [eapply (spanner_ddl_done _ _ (DropTable T) _ (delete T (ct s))); [done|by apply spanner_drop_text|]|].
      * unfold spanner_exec. by rewrite Hc1, Ht.
      * intros r s2 (-> & Hu2 & Hc2). apply Hcreate; [done|]. rewrite Hc2. apply lookup_delete_eq.
    + done.
  - subst iter. unfold pret at 1. cbn [returns]. rewrite andb_false_r. apply returns_bind. unfold pret at 1. cbn [returns].
    apply Hcreate; [done|]. rewrite Hc1. by apply eq_None_not_Some.
Qed.
End Contract.


(** ** A client in memory *)

Definition mem_select (text : string) (args : list sql_arg) (c : sql_db) : list (list (string * option string) + error) :=
  match st ← parse text; mem_query st args c with
  | Some (cols, data) => map (λ vals, inl (zip cols (map (fmap string_of) vals))) data
  | None => [inr "Spanner error"]
  end.
Definition mem_iter (text : string) (params : list (string * sql_arg)) (c : sql_db) : list (list (string * option string) + error) :=
  match params with
  | [(param, AString T)] =>
      if String.eqb param "name" then
        if String.eqb text table_query then match c !! T with Some _ => [inl [("table_name", Some T)]] | None => [] end
        else [inr "Spanner error"]
      else mem_select text [AString T] c
  | _ => mem_select text (map snd params) c
  end.

Definition mem_ddl (text : string) (c : sql_db) : option error * sql_db :=
  match st ← spanner_parse text; spanner_exec st c with Some c' => (None, c') | None => (Some "Spanner error", c) end.

Definition mem_spanner : SpannerDriver sql_db :=
  mkSpanner sql_db (list string) (λ _ _, pret tt) (pret (inl "/root")) (pret None) (λ _, pret None)
    (λ _, pret (inl StateOther)) (λ _ _, pret (inl [])) (λ _ texts, pret (inl texts))
    (λ op c, match op with [text] => let '(r, c') := mem_ddl text c in (Ok r, c') | _ => (Ok None, c) end)
    (λ text params c, (Ok (mem_iter text params c), c))
    (λ mus c, match mus with
              | [mu] => match apply_mutation mu c with Some c' => (Ok None, c') | None => (Ok (Some "Spanner error"), c) end
              | _ => (Ok (Some "Spanner error"), c)
              end).

Lemma mem_iter_params text args c : (length args <= 2)%nat → mem_iter text (zip param_names args) c = mem_select text args c.
Proof. intros H. destruct args as [|a [|b [|]]]; simpl in H; [done|by destruct a|by destruct a|lia]. Qed.

Definition mem_spanner_laws : SpannerLaws sql_db (SpannerDriver0 := mem_spanner).
Proof.
  refine (mkSpannerLaws sql_db mem_spanner _ (λ _, True) id id _ _ _ _ _).
  - intros text args s Hl. unfold mem_spanner, sp_Query. cbv beta. cbn [returns]. rewrite mem_iter_params by done. unfold mem_select.
    split; [done|]. split; [done|]. intros _. destruct (parse text) as [st|]; cbn [mbind option_bind]; [|right; split; [by eexists|done]].
    pose proof (mem_query_ok st args s) as Hq. destruct (mem_query st args s) as [[cols data]|].
    + left. exists st, cols, data. by rewrite map_id.
    + right. split; [by eexists|]. intros st' cols data [= <-]. apply Hq.
  - intros T s. simpl. split; [done|]. split; [done|]. intros _. destruct (s !! T) as [t|] eqn:Ht; case_decide as Hd.
    + by eauto.
    + by destruct Hd; eexists.
    + by destruct Hd.
    + done.
  - intros mu s _. simpl. by destruct (apply_mutation mu s).
  - intros dbName text s. simpl. done.
  - intros op text s Hop. unfold id in Hop. subst op. simpl. unfold mem_ddl. destruct (spanner_parse text) as [st|]; cbn [mbind option_bind]; [|done].
    destruct (spanner_exec st s) as [c'|] eqn:He; simpl; (split; [done|]); intros _; [by exists st|]. split; [done|]. intros ? [= <-]. done.
Defined.

(** ** At work *)

Definition wide_demo : list tb_call :=
  [CallInsert "k" (sql_row "a" "b"); CallInsert "k" (sql_row "c" "d"); CallUpdate "k" {["field1" := go_bytes "e"]};
   CallRead "k" ["field1"; "field0"]; CallRead "l" ["field0"]; CallDelete "k"].

Lemma wide_demo_fits (stores : sql_arg → Prop) : (∀ a, stores a) →
  Forall (sql_fits 2 stores) wide_demo ∧ calls_ok update_present wide_demo ∅.
Proof.
  intros Hs. assert (∀ r : row, map_Forall (λ _ v, stores (ABytes v)) r) as Hv by (intros r f v _; apply Hs).
  assert (∀ f, forallb (λ f, bool_decide (f ∈ allFields 2)) f = true → ∀ x, x ∈ f → x ∈ allFields 2) as Hf.
  { intros l Hl x Hx. rewrite forallb_forall in Hl. apply list_elem_of_In in Hx. by apply Hl, bool_decide_eq_true in Hx. }
  split.
  - unfold wide_demo. rewrite !Forall_cons. split_and!; simpl; try (split_and!; try done);
      try (apply full_check; vm_compute; reflexivity); try (apply within_check; vm_compute; reflexivity);
      try (apply Hf; vm_compute; reflexivity); try apply Hs; apply Forall_nil_2.
  - repeat split. exists (sql_row "c" "d"). vm_compute. reflexivity.
Qed.


(** ** Where the bindings differ *)

(** An update of a row that is not there: Cassandra makes a row of the given fields
    and reports success, Spanner refuses it. *)
Theorem wide_updates_differ :
  let c0 : sql_db := {["test.t" := mkSqlTable ["FIELD0"; "FIELD1"] ∅; "t" := mkSqlTable ["FIELD0"; "FIELD1"] ∅]} in
  let values : row := {["field1" := go_bytes "x"]} in
  let cas := cassandra_db (CassandraDriver0 := mem_cassandra) (mkCassandraDB "test" (allFields 2)) map_to_list in
  (db_Update (YcsbDB := cas) "t" "k" values c0).1 = Ok None ∧
  ((db_Update (YcsbDB := cas) "t" "k" values ~; db_Read (YcsbDB := cas) "t" "k" []) c0).1 =
    Ok (inl {["field0" := []; "field1" := go_bytes "x"]}) ∧
  (db_Update (YcsbDB := spanner_db (SpannerDriver0 := mem_spanner) map_to_list) "t" "k" values c0).1 = Ok (Some "Spanner error").
Proof. cbv zeta. split_and!; vm_compute; reflexivity. Qed.

(** A database that does not exist is not created: the answer to the question for
    its state is an error, which is returned. *)
Theorem spanner_missing_database {E} `{!SpannerDriver E} (dbName : string) (parent_name : string * string) (s s' : E) err :
  db_match dbName = Some parent_name → sp_GetDatabase dbName s = (Ok (inr err), s') →
  spanner_createDatabase dbName s = (Ok (inr err), s').
Proof. intros Hm Hg. unfold spanner_createDatabase. destruct parent_name. rewrite Hm. unfold pbind. by rewrite Hg. Qed.

Example db_match_ex :
  db_match "projects/p/instances/i/databases/d" = Some ("projects/p/instances/i", "d") ∧
  db_match "a/databases/databases/d" = Some ("a/databases", "d") ∧ db_match "projects/p" = None.
Proof. vm_compute. done. Qed.

(** The column of the key is as long as a field, whatever the length of the keys. *)
Example spanner_key_length :
  spanner_create_query "usertable" 1 10 =
  "CREATE TABLE  usertable (YCSB_KEY STRING(10), FIELD0 STRING(10)) PRIMARY KEY (YCSB_KEY)".
Proof. vm_compute. done. Qed.
