(* ===== verification/Report.v ===== *)
(** * Report: what a benchmark prints and what the report tool reads
    (src/go-ycsb-vendor: pkg/measurement/histogram.go, histograms.go,
    pkg/util/output.go, tool/report.go)

    The summary lines of the measurements and the tool that collects the logs of
    several databases into tables.  The round trip of the file: the tool reads
    from a log the throughput and the 99th percentile that the summary printed. *)

From Stdlib Require Import Ascii.
From S2P Require Import Prelude GoLib GoParse Float64 Storage YcsbUtil Generators Ycsb.

Open Scope Z_scope.

(** ** The summaries of the measurements *)

(** The HDR histogram package, on the microseconds recorded. *)
Record Hdr := mkHdr {
  hdr_Min : list Z → Z;
  hdr_Max : list Z → Z;
  hdr_Mean : list Z → Z;              (* converted to int64 *)
  hdr_TotalCount : list Z → Z;
  hdr_ValueAtPercentile : list Z → string → Z;
}.

Definition header : list string :=
  ["Operation"; "Takes(s)"; "Count"; "OPS"; "Avg(us)"; "Min(us)"; "Max(us)"; "50th(us)"; "90th(us)"; "95th(us)";
   "99th(us)"; "99.9th(us)"; "99.99th(us)"].

(** Lines as they are written, one [Println] each. *)
Definition unlines (ls : list string) : string := String.concat "" (map (λ l, l +:+ String newline "") ls).

Section Output.
(** [fmt.Sprintf("%.1f")] and the third-party histogram. *)
Context (fmt1 : float64 → string) (hdr : Hdr).

(** [Summary] of one histogram, over the result of [getInfo]; [elapsed] is the
    time since it was made. *)
Definition histogram_Summary (elapsed : float64) (recorded : list Z) : list string :=
  let count := hdr_TotalCount hdr recorded in
  let qps := f64_div (f64_of_Z count) elapsed in
  [fmt1 elapsed; itoa count; fmt1 qps; itoa (hdr_Mean hdr recorded); itoa (hdr_Min hdr recorded);
   itoa (hdr_Max hdr recorded)] ++
  map (λ p, itoa (hdr_ValueAtPercentile hdr recorded p)) ["50"; "90"; "95"; "99"; "99.9"; "99.99"].

(** [sort.Strings] on the names of the operations. *)
Definition sorted_keys {A} (m : gmap string A) : list string :=
  map fp_Field (NewFieldPairs (map (λ kv, (kv.1, [])) (map_to_list m))).

(** The lines of [Output]: the name of the operation and its summary. *)
Definition summary_lines (elapsed : string → float64) (hs : gmap string (list Z)) : list (list string) :=
  map (λ op, op :: histogram_Summary (elapsed op) (default [] (hs !! op))) (sorted_keys hs).

(** [%-6s] *)
Definition pad6 (s : string) : string := s +:+ String.string_of_list_ascii (replicate (6 - String.length s) " "%char).

(** [RenderString] with the format [%-6s - %s\n]: its lines; a value with fewer
    entries than the header is an index out of range. *)
Fixpoint render_args (headers value : list string) : option (list string) :=
  match headers, value with
  | [], _ => Some []
  | h :: headers, v :: value => l ← render_args headers value; Some ((h +:+ ": " +:+ v) :: l)
  | _ :: _, [] => None
  end.

Definition render_line (headers value : list string) : option string :=
  match value with
  | [] => None
  | op :: vals => args ← render_args (tl headers) vals; Some (pad6 op +:+ " - " +:+ Join args ", ")
  end.

Fixpoint render_lines (headers : list string) (values : list (list string)) : option (list string) :=
  match values with
  | [] => Some []
  | v :: values => l ← render_line headers v; ls ← render_lines headers values; Some (l :: ls)
  end.

Definition RenderString (headers : list string) (values : list (list string)) : Outcome (list string) :=
  match render_lines headers values with
  | Some ls => Ok ls
  | None => Panic "index out of range"
  end.

(** [RenderJson]: one map per line. *)
Fixpoint json_line (headers value : list string) (line : gmap string string) : option (gmap string string) :=
  match headers, value with
  | [], _ => Some line
  | h :: headers, v :: value => json_line headers value (<[h := v]> line)
  | _ :: _, [] => None
  end.

(** [Output], in the styles that are rendered by this program; [table] is the
    third-party table writer, [marshal] is [json.Marshal]. *)
Definition histograms_Output (table : list string → list (list string) → list string)
    (marshal : list (gmap string string) → string + error) (p : Properties)
    (elapsed : string → float64) (hs : gmap string (list Z)) : Outcome (list string) :=
  let lines := summary_lines elapsed hs in
  let outputStyle := GetString p "outputstyle" "plain" in
  if String.eqb outputStyle "plain" then RenderString header lines
  else if String.eqb outputStyle "json" then
    match lines with
    | [] => Ok []
    | _ => match mapM (λ v, json_line header v ∅) lines with
           | None => Panic "index out of range"
           | Some data => Ok [match marshal data with inl s => s | inr err => err end]
           end
    end
  else if String.eqb outputStyle "table" then Ok (match lines with [] => [] | _ => table header lines end)
  else Panic ("unsupported outputstyle: " +:+ outputStyle).

(** The log of a run, as [runClientCommandFunc] writes it with what [Run] writes
    every interval: the properties, the summaries so far, and the final one. *)
Definition property_line (kv : string * string) : string :=
  let quote := String (ascii_of_nat 34) "" in
  quote +:+ kv.1 +:+ quote +:+ "=" +:+ quote +:+ kv.2 +:+ quote.

Fixpoint progress_lines (output : (string → float64) → gmap string (list Z) → Outcome (list string))
    (progress : list ((string → float64) * gmap string (list Z))) : Outcome (list string) :=
  match progress with
  | [] => Ok []
  | (elapsed, hs) :: progress => let! ls := output elapsed hs in let! rest := progress_lines output progress in Ok (ls ++ rest)
  end.

Definition bench_log (table : list string → list (list string) → list string)
    (marshal : list (gmap string string) → string + error) (p : Properties) (props : list (string * string))
    (progress : list ((string → float64) * gmap string (list Z))) (takes : string)
    (elapsed : string → float64) (hs : gmap string (list Z)) : Outcome string :=
  let output := histograms_Output table marshal p in
  let stars := "**********************************************" in
  let! during := progress_lines output progress in
  let! final := output elapsed hs in
  Ok (unlines (["***************** properties *****************"] ++ map property_line props ++ [stars] ++ during ++
    [stars; "Run finished, takes " +:+ takes] ++ final)).
End Output.

(** ** The report tool *)

Definition operations : list string := ["INSERT"; "READ"; "UPDATE"; "SCAN"; "READ_MODIFY_WRITE"; "DELETE"].
Definition workloads : list string :=
  ["load"; "workloada"; "workloadb"; "workloadc"; "workloadd"; "workloade"; "workloadf"].

Record stat := mkStat { stat_OPS : float64; stat_P99 : float64 }.

Definition statFieldFunc (c : ascii) : bool := Ascii.eqb c ":" || Ascii.eqb c ",".

(** [strings.FieldsFunc]: the longest runs of other characters. *)
Fixpoint fields_from (w s : string) : list string :=
  match s with
  | EmptyString => match w with EmptyString => [] | _ => [w] end
  | String c s =>
      if statFieldFunc c then match w with EmptyString => fields_from "" s | _ => w :: fields_from "" s end
      else fields_from (w +:+ String c "") s
  end.
Definition FieldsFunc (s : string) : list string := fields_from "" s.

Section Report.
(** [strconv.ParseFloat], and [fmt.Sprintf("%.f")]. *)
Context (ParseFloat : string → float64 + error) (fmt0 : float64 → string).

(** The loop over the pairs; [kvs[i+1]] of an odd number of fields panics. *)
Fixpoint stat_loop (kvs : list string) (s : stat) : Outcome (stat + error) :=
  match kvs with
  | [] => Ok (inl s)
  | [_] => Panic "index out of range"
  | k :: v :: kvs =>
      match ParseFloat (TrimSpace v) with
      | inr err => Ok (inr err)
      | inl f =>
          let k := TrimSpace k in
          stat_loop kvs
            (if String.eqb k "OPS" then mkStat f (stat_P99 s)
             else if String.eqb k "99th(us)" then mkStat (stat_OPS s) f
             else s)
      end
  end.

Definition newStat (line : string) : Outcome (stat + error) := stat_loop (FieldsFunc line) (mkStat f64_zero f64_zero).

Record dbStat := mkDbStat { ds_db : string; ds_workload : string; ds_summary : gmap string stat }.

(** The loop over the lines of the file; [seps[1]] of a line without a dash panics. *)
Fixpoint scan_log (lines : list string) (handleSummary : bool) (summary : gmap string stat) : Outcome (gmap string stat + error) :=
  match lines with
  | [] => Ok (inl summary)
  | line :: lines =>
      if String.prefix "Run finished" line then scan_log lines true summary
      else
        let seps := go_split "-" line in
        let op := TrimSpace (hd "" seps) in
        if negb (bool_decide (op ∈ operations)) then scan_log lines handleSummary summary
        else match seps with
             | _ :: sep :: _ =>
                 let! st := newStat (TrimSpace sep) in
                 match st with
                 | inl s => scan_log lines handleSummary (if handleSummary then <[op := s]> summary else summary)
                 | inr err => Ok (inr err)
                 end
             | _ => Panic "index out of range"
             end
  end.

(** [strings.TrimSuffix(s, ".log")] *)
Definition trim_log (s : string) : string :=
  let n := (String.length s - 4)%nat in
  if String.eqb (String.substring n 4 s) ".log" && (4 <=? String.length s)%nat then String.substring 0 n s else s.

(** [bufio.ScanLines]: the lines without their ends; the last may be unterminated. *)
Definition drop_cr (s : string) : string :=
  match string_rev s with
  | String c r => if Ascii.eqb c (ascii_of_nat 13) then string_rev r else s
  | EmptyString => s
  end.

Fixpoint drop_last_empty (ls : list string) : list string :=
  match ls with
  | [] => []
  | l :: ls => match l, ls with EmptyString, [] => [] | _, _ => l :: drop_last_empty ls end
  end.

Definition scan_lines (text : string) : list string := map drop_cr (drop_last_empty (go_split newline text)).

(** What reading a file gives: the error of opening it, or its lines with the
    error that ended the scanner, if any. *)
Definition LogFile : Type := (list string * option error) + error.

(** [fileName] is the base of the path. *)
Definition parseDBStat (fileName : string) (read : LogFile) : Outcome (option dbStat + error) :=
  match go_split "_" fileName with
  | [db; sep1] =>
      let workload := trim_log sep1 in
      if negb (bool_decide (workload ∈ workloads)) then Ok (inl None)
      else match read with
           | inr err => Ok (inr err)
           | inl (lines, scan_err) =>
               let! scanned := scan_log lines false ∅ in
               Ok (match scanned, scan_err with
                   | inl summary, None => inl (Some (mkDbStat db workload summary))
                   | inl _, Some err => inr err
                   | inr err, _ => inr err
                   end)
           end
  | _ => Ok (inl None)
  end.

Definition report_fields (workload : string) : list string :=
  if String.eqb workload "load" then ["INSERT"]
  else if String.eqb workload "workloada" then ["READ"; "UPDATE"]
  else if String.eqb workload "workloadb" then ["READ"; "UPDATE"]
  else if String.eqb workload "workloadc" then ["READ"]
  else if String.eqb workload "workloadd" then ["READ"; "INSERT"]
  else if String.eqb workload "workloade" then ["SCAN"; "INSERT"]
  else if String.eqb workload "workloadf" then ["READ_MODIFY_WRITE"]
  else [].

Definition report_cell (s : dbStat) (field : string) : string :=
  match ds_summary s !! field with
  | None => ",0.0"
  | Some st => "," +:+ fmt0 (stat_OPS st) +:+ "," +:+ fmt0 (stat_P99 st)
  end.

Definition report_row (fields : list string) (s : dbStat) : string :=
  ds_db s +:+ String.concat "" (map (report_cell s) fields).

(** What is written for a workload; [sort] orders the databases by name. *)
Definition report_rows (sort : list dbStat → list dbStat) (workload : string) (stats : list dbStat) : list string :=
  let fields := report_fields workload in
  ("DB" +:+ String.concat "" (map (λ f, "," +:+ f +:+ " OPS," +:+ f +:+ " P99(us)") fields))
  :: map (report_row fields) (sort stats).

(** The file is opened without truncating it: what was there beyond the new text
    stays. *)
Definition overwrite (old new : string) : string :=
  new +:+ String.substring (String.length new) (String.length old - String.length new) old.

Definition reportDBStats (sort : list dbStat → list dbStat) (workload : string) (stats : list dbStat) (old : string) : string :=
  overwrite old (unlines (report_rows sort workload stats)).

(** The statistics of [main] by workload, from the files in the order of the
    directory; a file that cannot be read or parsed is left out. *)
Fixpoint collect_stats (files : list (string * LogFile)) (stats : gmap string (list dbStat)) :
    Outcome (gmap string (list dbStat)) :=
  match files with
  | [] => Ok stats
  | (name, read) :: files =>
      let! parsed := parseDBStat name read in
      match parsed with
      | inl (Some s) => collect_stats files (<[ds_workload s := default [] (stats !! ds_workload s) ++ [s]]> stats)
      | _ => collect_stats files stats
      end
  end.
End Report.

(** ** Lemmas on strings *)

Definition graphic (c : ascii) : bool := (33 <=? N_of_ascii c)%N && (N_of_ascii c <=? 126)%N.

(** No space is encoded by bytes that start, or end, in a graphic character. *)
Definition not_graphic (encs : list string) : bool :=
  forallb (λ e, match e with String d _ => negb (graphic d) | EmptyString => false end) encs.

Lemma strip_graphic encs c s : not_graphic encs = true → graphic c = true → strip_prefix_of encs (String c s) = None.
Proof.
  intros He Hc. unfold strip_prefix_of. induction encs as [|e encs IH]; [done|]. simpl in He.
  apply andb_true_iff in He as [H1 H2]. destruct e as [|d e]; [done|]. cbn [List.find String.prefix].
  destruct (ascii_dec d c) as [->|]; [by rewrite Hc in H1|]. by apply IH.
Qed.

Lemma substring_all s : String.substring 0 (String.length s) s = s.
Proof. induction s as [|c s IH]; [done|]. simpl. by rewrite IH. Qed.

Lemma strip_space encs s : encs = space_encodings ∨ encs = map string_rev space_encodings →
  strip_prefix_of encs (String " " s) = Some s.
Proof.
  assert (∀ t, Some (String.substring 1 (String.length (String " " t) - 1) (String " " t)) = Some t) as H.
  { intros t. simpl. by rewrite Nat.sub_0_r, substring_all. }
  intros [-> | ->]; destruct s as [|c s]; first [exact (H "") | exact (H (String c s))].
Qed.

Definition spaces (k : nat) : string := String.string_of_list_ascii (replicate k " "%char).

Lemma trim_left_spaces encs k fuel c s :
  encs = space_encodings ∨ encs = map string_rev space_encodings → graphic c = true → (k <= fuel)%nat →
  trim_left_of encs fuel (spaces k +:+ String c s) = String c s.
Proof.
  intros He Hc. assert (not_graphic encs = true) as Hg by (destruct He as [-> | ->]; vm_compute; reflexivity).
  revert k. induction fuel as [|fuel IH]; intros [|k] Hk; try lia; try done.
  - change (spaces 0 +:+ String c s) with (String c s). cbn [trim_left_of]. by rewrite strip_graphic.
  - change (spaces (S k) +:+ String c s) with (String " " (spaces k +:+ String c s)). cbn [trim_left_of].
    rewrite strip_space by done. apply IH. lia.
Qed.

Lemma list_of_append a b : String.list_ascii_of_string (a +:+ b) = String.list_ascii_of_string a ++ String.list_ascii_of_string b.
Proof. induction a as [|c a IH]; [done|]. rewrite append_cons. simpl. by rewrite IH. Qed.

Lemma string_of_app l1 l2 : String.string_of_list_ascii (l1 ++ l2) = String.string_of_list_ascii l1 +:+ String.string_of_list_ascii l2.
Proof. induction l1 as [|c l1 IH]; [done|]. simpl. by rewrite append_cons, IH. Qed.

Lemma string_rev_app a b : string_rev (a +:+ b) = string_rev b +:+ string_rev a.
Proof. unfold string_rev. by rewrite list_of_append, rev_app_distr, string_of_app. Qed.

Lemma string_rev_involutive s : string_rev (string_rev s) = s.
Proof.
  unfold string_rev. rewrite String.list_ascii_of_string_of_list_ascii, rev_involutive. apply String.string_of_list_ascii_of_string.
Qed.

Lemma string_rev_spaces k : string_rev (spaces k) = spaces k.
Proof.
  unfold string_rev, spaces. rewrite String.list_ascii_of_string_of_list_ascii. f_equal.
  induction k as [|k IH]; [done|]. cbn [replicate rev]. rewrite IH. clear. induction k as [|k IH]; [done|]. simpl. by rewrite IH.
Qed.

Lemma length_append a b : String.length (a +:+ b) = (String.length a + String.length b)%nat.
Proof. induction a as [|c a IH]; [done|]. rewrite append_cons. simpl. by rewrite IH. Qed.

Lemma length_spaces k : String.length (spaces k) = k.
Proof. induction k as [|k IH]; [done|]. unfold spaces in *. simpl. by rewrite IH. Qed.

(** A text that starts and ends in graphic characters. *)
Definition trimmed (s : string) : Prop :=
  (∃ c t, s = String c t ∧ graphic c = true) ∧ (∃ c t, string_rev s = String c t ∧ graphic c = true).

Lemma TrimSpace_trimmed k m x : trimmed x → TrimSpace (spaces k +:+ x +:+ spaces m) = x.
Proof.
  intros [(c & t & -> & Hc) (d & u & Hrev & Hd)]. unfold TrimSpace.
  rewrite append_cons, (trim_left_spaces space_encodings k) by (auto; rewrite !length_append, length_spaces; simpl; lia).
  rewrite <- append_cons, string_rev_app, string_rev_spaces, Hrev.
  rewrite (trim_left_spaces _ m) by (auto; rewrite !length_append, length_spaces; lia).
  rewrite <- Hrev. apply string_rev_involutive.
Qed.

(** ** Reading a summary line *)

(** Names and numbers as they are printed: graphic, without the separators. *)
Definition value_char (c : ascii) : bool := graphic c && negb (statFieldFunc c) && negb (Ascii.eqb c "-").
Definition value_text (s : string) : bool := negb (String.eqb s "") && forallb value_char (String.list_ascii_of_string s).

Lemma value_text_chars s : value_text s = true → s ≠ "" ∧ forallb value_char (String.list_ascii_of_string s) = true.
Proof. intros [H1 H2]%andb_true_iff. split; [|done]. by destruct s. Qed.

Lemma value_char_graphic c : value_char c = true → graphic c = true.
Proof. unfold value_char. by intros [[H _]%andb_true_iff _]%andb_true_iff. Qed.

Lemma value_text_trimmed s : value_text s = true → trimmed s.
Proof.
  intros [Hne Hc]%value_text_chars. split.
  - destruct s as [|c s]; [done|]. exists c, s. split; [done|]. simpl in Hc. apply andb_true_iff in Hc as [Hc _].
    by apply value_char_graphic.
  - destruct (string_rev s) as [|c t] eqn:E.
    + exfalso. apply Hne. by rewrite <- (string_rev_involutive s), E.
    + exists c, t. split; [done|]. apply value_char_graphic. rewrite forallb_forall in Hc. apply Hc.
      rewrite <- (rev_involutive (String.list_ascii_of_string s)). apply in_rev. rewrite rev_involutive.
      assert (String.list_ascii_of_string (string_rev s) = rev (String.list_ascii_of_string s)) as <-
        by (unfold string_rev; apply String.list_ascii_of_string_of_list_ascii).
      rewrite E. by left.
Qed.

Lemma trim_value k s : value_text s = true → TrimSpace (spaces k +:+ s) = s.
Proof. intros H. rewrite <- (append_nil_r s) at 1. apply (TrimSpace_trimmed k 0). by apply value_text_trimmed. Qed.

Lemma value_no_dash s : value_text s = true → str_has "-" s = false.
Proof.
  intros [_ H]%value_text_chars. induction s as [|c s IH]; [done|]. simpl in *. apply andb_true_iff in H as [Hc Hs].
  rewrite (IH Hs), orb_false_r. unfold value_char in Hc. apply andb_true_iff in Hc as [_ Hd]. by apply negb_true_iff in Hd.
Qed.

Lemma fields_word w : ∀ acc s, forallb value_char (String.list_ascii_of_string w) = true →
  fields_from acc (w +:+ s) = fields_from (acc +:+ w) s.
Proof.
  induction w as [|c w IH]; intros acc s Hw; [by rewrite append_nil_r|]. rewrite append_cons. simpl in *.
  apply andb_true_iff in Hw as [Hc Hw]. unfold value_char in Hc. apply andb_true_iff in Hc as [[_ Hc]%andb_true_iff _].
  apply negb_true_iff in Hc. rewrite Hc, IH by done. by rewrite append_assoc.
Qed.

Lemma fields_end w s : w ≠ "" → fields_from w (String ":" s) = w :: fields_from "" s ∧ fields_from w (String "," s) = w :: fields_from "" s ∧
  fields_from w "" = [w].
Proof. by destruct w. Qed.

Definition line_arg (hv : string * string) : string := hv.1 +:+ ": " +:+ hv.2.

Lemma append_nonempty a b : b ≠ "" → a +:+ b ≠ "".
Proof. by destruct a. Qed.

(** The fields of the part after the dash: name, value, name, value. *)
Lemma fields_pairs acc h v ps : value_text h = true → value_text v = true →
  fields_from acc (Join (map line_arg ((h, v) :: ps)) ", ") =
  (acc +:+ h) :: (" " +:+ v) :: match ps with [] => [] | _ => fields_from " " (Join (map line_arg ps) ", ") end.
Proof.
  intros [Hh0 Hh]%value_text_chars [Hv0 Hv]%value_text_chars.
  assert (∀ s, fields_from acc (h +:+ ": " +:+ v +:+ s) = (acc +:+ h) :: fields_from (" " +:+ v) s) as Hs.
  { intros s. rewrite fields_word by done. change (": " +:+ v +:+ s) with (String ":" (String " " (v +:+ s))).
    destruct (fields_end (acc +:+ h) (String " " (v +:+ s))) as [-> _]; [by apply append_nonempty|].
    change (fields_from "" (String " " (v +:+ s))) with (fields_from " " (v +:+ s)). by rewrite fields_word. }
  cbn [map]. destruct ps as [|p ps].
  - cbn [map Join]. unfold line_arg. simpl. rewrite <- (append_nil_r v) at 1. rewrite Hs.
    destruct (fields_end (" " +:+ v) "") as (_ & _ & ->); done.
  - cbn [map]. change (Join (?a :: ?b :: ?l) ", ") with (a +:+ ", " +:+ Join (b :: l) ", ").
    unfold line_arg at 1. simpl fst. simpl snd. rewrite !append_assoc, Hs.
    change (", " +:+ ?s) with (String "," (String " " s)).
    destruct (fields_end (" " +:+ v) (String " " (Join (line_arg p :: map line_arg ps) ", "))) as (_ & -> & _); done.
Qed.

Section Reading.
Context (ParseFloat : string → float64 + error).

(** What the loop of [newStat] makes of the pairs. *)
Fixpoint stat_of (hvs : list (string * string)) (s : stat) : stat + error :=
  match hvs with
  | [] => inl s
  | (h, v) :: hvs =>
      match ParseFloat v with
      | inr err => inr err
      | inl f =>
          stat_of hvs (if String.eqb h "OPS" then mkStat f (stat_P99 s)
                       else if String.eqb h "99th(us)" then mkStat (stat_OPS s) f else s)
      end
  end.

Lemma stat_loop_pairs hvs : Forall (λ hv, value_text hv.1 = true ∧ value_text hv.2 = true) hvs → hvs ≠ [] →
  ∀ k s, stat_loop ParseFloat (fields_from (spaces k) (Join (map line_arg hvs) ", ")) s = Ok (stat_of hvs s).
Proof.
  induction 1 as [|[h v] hvs [Hh Hv] Hhvs IH]; [done|]. intros _ k s. simpl in Hh, Hv. rewrite fields_pairs by done.
  cbn [stat_loop stat_of]. change (" " +:+ v) with (spaces 1 +:+ v). rewrite !trim_value by done.
  destruct (ParseFloat v) as [f|err]; [|done]. destruct hvs as [|hv hvs]; [done|]. by apply (IH ltac:(done) 1%nat).
Qed.

Lemma newStat_pairs hvs : Forall (λ hv, value_text hv.1 = true ∧ value_text hv.2 = true) hvs → hvs ≠ [] →
  newStat ParseFloat (Join (map line_arg hvs) ", ") = Ok (stat_of hvs (mkStat f64_zero f64_zero)).
Proof. intros H Hne. apply (stat_loop_pairs hvs H Hne 0%nat). Qed.
End Reading.

Lemma spaces_app k m : spaces k +:+ spaces m = spaces (k + m).
Proof. unfold spaces. by rewrite <- string_of_app, <- replicate_add. Qed.

Lemma spaces_no_dash k : str_has "-" (spaces k) = false.
Proof. induction k as [|k IH]; [done|]. exact IH. Qed.

Lemma join_no_dash hvs : Forall (λ hv, value_text hv.1 = true ∧ value_text hv.2 = true) hvs →
  str_has "-" (Join (map line_arg hvs) ", ") = false.
Proof.
  induction 1 as [|[h v] hvs [Hh Hv] _ IH]; [done|]. simpl in Hh, Hv.
  assert (str_has "-" (line_arg (h, v)) = false) as Ha.
  { unfold line_arg. simpl. rewrite !str_has_app, (value_no_dash h), (value_no_dash v) by done. done. }
  destruct hvs as [|hv hvs]; [done|]. cbn [map] in *. change (Join (?a :: ?b :: ?l) ", ") with (a +:+ ", " +:+ Join (b :: l) ", ").
  rewrite !str_has_app, Ha, IH. done.
Qed.

(** A line of the summary: an operation and the named values. *)
Definition stat_line (op : string) (hvs : list (string * string)) : string := pad6 op +:+ " - " +:+ Join (map line_arg hvs) ", ".

Lemma split_line op hvs : value_text op = true → Forall (λ hv, value_text hv.1 = true ∧ value_text hv.2 = true) hvs →
  go_split "-" (stat_line op hvs) =
  [op +:+ spaces (6 - String.length op + 1); " " +:+ Join (map line_arg hvs) ", "].
Proof.
  intros Hop Hh.
  assert (stat_line op hvs = (op +:+ spaces (6 - String.length op + 1)) +:+ String "-" (" " +:+ Join (map line_arg hvs) ", ")) as ->.
  { unfold stat_line, pad6. rewrite <- spaces_app, !append_assoc. reflexivity. }
  rewrite go_split_head by (by rewrite str_has_app, (value_no_dash op), spaces_no_dash).
  by rewrite go_split_none by (by rewrite str_has_app, join_no_dash).
Qed.

(** No operation is called so that its line looks like the end of the run. *)
Lemma line_not_finished op hvs : value_text op = true → String.prefix "Run finished" (stat_line op hvs) = false.
Proof.
  intros [Hne Hop]%value_text_chars. unfold stat_line, pad6. generalize (Join (map line_arg hvs) ", "). intros body.
  destruct op as [|c1 [|c2 [|c3 [|c4 op]]]]; [done| | | |]; cbn [String.length Nat.sub]; rewrite !append_cons;
    cbn [String.prefix]; repeat (case_match; [|done]); try done.
  simpl in Hop. subst. apply andb_true_iff in Hop as [_ Hop]. done.
Qed.

Lemma join_trimmed hvs : Forall (λ hv, value_text hv.1 = true ∧ value_text hv.2 = true) hvs → hvs ≠ [] →
  trimmed (Join (map line_arg hvs) ", ").
Proof.
  intros Hh Hne. split.
  - destruct Hh as [|[h v] hvs [Hh Hv] _]; [done|]. simpl in Hh. destruct (value_text_trimmed h Hh) as [(c & t & -> & Hc) _].
    destruct hvs; simpl; eexists c, _; (split; [|done]); unfold line_arg; simpl; by rewrite !append_cons.
  - assert (∀ a, ∃ c t, string_rev (a +:+ Join (map line_arg hvs) ", ") = String c t ∧ graphic c = true ∨ hvs = []) as H.
    { clear Hne. induction Hh as [|[h v] hvs [Hh Hv] _ IH]; intros a; [exists "a"%char, ""; by right|]. simpl in Hh, Hv.
      destruct (value_text_trimmed v Hv) as [_ (c & t & Hr & Hc)].
      destruct hvs as [|hv hvs].
      - exists c. eexists. left. cbn [map Join]. unfold line_arg. simpl. rewrite <- !append_assoc, string_rev_app, Hr, append_cons.
        done.
      - cbn [map] in *. change (Join (?a :: ?b :: ?l) ", ") with (a +:+ ", " +:+ Join (b :: l) ", ").
        rewrite <- !append_assoc. destruct (IH ((a +:+ line_arg (h, v)) +:+ ", ")) as (c' & t' & [H|?]); [|done].
        exists c', t'. by left. }
    destruct (H "") as (c & t & [Hx|Hx]); [|done]. exists c, t. exact Hx.
Qed.

(** ** Lines of a file *)

(** A text that is one line: it has no line feed and no carriage return. *)
Definition is_line (l : string) : Prop := str_has newline l = false ∧ str_has (ascii_of_nat 13) l = false.

Lemma is_line_app a b : is_line a → is_line b → is_line (a +:+ b).
Proof. intros [H1 H2] [H3 H4]. split; by rewrite str_has_app, ?H1, ?H2, ?H3, ?H4. Qed.

Lemma not_graphic_absent d s : graphic d = false → forallb value_char (String.list_ascii_of_string s) = true → str_has d s = false.
Proof.
  intros Hd. induction s as [|c s IH]; [done|]. simpl. intros [Hc Hs]%andb_true_iff. rewrite (IH Hs), orb_false_r.
  apply Ascii.eqb_neq. intros ->. by rewrite (value_char_graphic _ Hc) in Hd.
Qed.

Lemma value_text_line s : value_text s = true → is_line s.
Proof. intros [_ H]%value_text_chars. split; (apply not_graphic_absent; [by vm_compute|done]). Qed.

Lemma spaces_line k : is_line (spaces k).
Proof. induction k as [|k IH]; [done|]. exact IH. Qed.

Lemma join_line hvs : Forall (λ hv, value_text hv.1 = true ∧ value_text hv.2 = true) hvs → is_line (Join (map line_arg hvs) ", ").
Proof.
  induction 1 as [|[h v] hvs [Hh Hv] _ IH]; [done|]. simpl in Hh, Hv.
  assert (is_line (line_arg (h, v))) as Ha.
  { unfold line_arg. cbn [fst snd]. apply is_line_app; [by apply value_text_line|]. apply is_line_app; [done|by apply value_text_line]. }
  destruct hvs as [|hv hvs]; [done|]. cbn [map] in *. change (Join (?a :: ?b :: ?l) ", ") with (a +:+ ", " +:+ Join (b :: l) ", ").
  apply is_line_app; [done|]. by apply is_line_app.
Qed.

Lemma stat_line_is_line op hvs : value_text op = true → Forall (λ hv, value_text hv.1 = true ∧ value_text hv.2 = true) hvs →
  is_line (stat_line op hvs).
Proof.
  intros Hop Hh. unfold stat_line, pad6. apply is_line_app; [|apply is_line_app; [done|by apply join_line]].
  apply is_line_app; [by apply value_text_line|apply spaces_line].
Qed.

Lemma drop_cr_line l : str_has (ascii_of_nat 13) l = false → drop_cr l = l.
Proof.
  intros H. unfold drop_cr. destruct (string_rev l) as [|c r] eqn:E; [done|]. case_match eqn:Ec; [|done]. exfalso.
  apply Ascii.eqb_eq in Ec as ->. apply (f_equal string_rev) in E. rewrite string_rev_involutive in E.
  change (String ?c ?r) with (String c "" +:+ r) in E. rewrite string_rev_app in E. subst l. by rewrite str_has_app, orb_true_r in H.
Qed.

Lemma unlines_cons l ls : unlines (l :: ls) = l +:+ String newline (unlines ls).
Proof. unfold unlines. destruct ls; simpl; rewrite ?append_nil_r, ?append_assoc; done. Qed.

(** What is written line by line is scanned back. *)
Lemma scan_unlines ls : Forall is_line ls → scan_lines (unlines ls) = ls.
Proof.
  unfold scan_lines. induction 1 as [|l ls [H1 H2] _ IH]; [done|]. rewrite unlines_cons, go_split_head by done.
  destruct (go_split newline (unlines ls)) as [|x xs] eqn:E; [by destruct (unlines ls); simpl in E; repeat case_match|].
  assert (drop_last_empty (l :: x :: xs) = l :: drop_last_empty (x :: xs)) as -> by (by destruct l).
  rewrite map_cons, IH. f_equal. by apply drop_cr_line.
Qed.

(** What is relied on: a decimal integer is read as the nearest float, and the
    histogram reports no negative latency or count. *)
Class ReportLaws (ParseFloat : string → float64 + error) (hdr : Hdr) : Prop := {
  parse_int i : 0 <= i → ParseFloat (itoa i) = inl (f64_of_Z i);
  hdr_nonneg l p : 0 <= hdr_TotalCount hdr l ∧ 0 <= hdr_Mean hdr l ∧ 0 <= hdr_Min hdr l ∧ 0 <= hdr_Max hdr l ∧
    0 <= hdr_ValueAtPercentile hdr l p;
}.

Section Roundtrip.
Context (ParseFloat : string → float64 + error) (fmt1 : float64 → string) (hdr : Hdr).
(** What [ParseFloat] reads from a printed float. *)
Context (parse1 : float64 → float64).

Definition printable (x : float64) : Prop := value_text (fmt1 x) = true ∧ ParseFloat (fmt1 x) = inl (parse1 x).

Lemma scan_line op hvs st lines b summary : value_text op = true →
  Forall (λ hv, value_text hv.1 = true ∧ value_text hv.2 = true) hvs → hvs ≠ [] →
  stat_of ParseFloat hvs (mkStat f64_zero f64_zero) = inl st →
  scan_log ParseFloat (stat_line op hvs :: lines) b summary =
  scan_log ParseFloat lines b (if b && bool_decide (op ∈ operations) then <[op := st]> summary else summary).
Proof.
  intros Hop Hh Hne Hst. cbn [scan_log]. rewrite line_not_finished by done. rewrite split_line by done. cbn [hd].
  assert (TrimSpace (op +:+ spaces (6 - String.length op + 1)) = op) as ->.
  { apply (TrimSpace_trimmed 0). by apply value_text_trimmed. }
  case_bool_decide; simpl negb; cbn iota; [|by rewrite andb_false_r].
  assert (TrimSpace (" " +:+ Join (map line_arg hvs) ", ") = Join (map line_arg hvs) ", ") as ->.
  { rewrite <- (append_nil_r (Join (map line_arg hvs) ", ")) at 1. apply (TrimSpace_trimmed 1 0). by apply join_trimmed. }
  rewrite newStat_pairs by done. rewrite Hst, andb_true_r. done.
Qed.

(** The statistics of an operation as the report has them. *)
Definition read_back (elapsed : float64) (recorded : list Z) : stat :=
  mkStat (parse1 (f64_div (f64_of_Z (hdr_TotalCount hdr recorded)) elapsed))
    (f64_of_Z (hdr_ValueAtPercentile hdr recorded "99")).

Context {L : ReportLaws ParseFloat hdr}.

Lemma itoa_value i : 0 <= i → value_text (itoa i) = true.
Proof.
  intros Hi. unfold value_text. rewrite (itoa_forallb value_char) by done. rewrite andb_true_r. apply negb_true_iff, String.eqb_neq.
  unfold itoa. destruct i as [|p|p]; [done| |lia]. apply pretty_pos_nonempty.
Qed.

(** Of the columns, the throughput and the 99th percentile are kept. *)
Lemma stat_of_header v1 v2 v3 v4 v5 v6 v7 v8 v9 v10 v11 v12 f1 f2 f3 f4 f5 f6 f7 f8 f9 f10 f11 f12 s :
  ParseFloat v1 = inl f1 → ParseFloat v2 = inl f2 → ParseFloat v3 = inl f3 → ParseFloat v4 = inl f4 →
  ParseFloat v5 = inl f5 → ParseFloat v6 = inl f6 → ParseFloat v7 = inl f7 → ParseFloat v8 = inl f8 →
  ParseFloat v9 = inl f9 → ParseFloat v10 = inl f10 → ParseFloat v11 = inl f11 → ParseFloat v12 = inl f12 →
  stat_of ParseFloat (zip (tl header) [v1; v2; v3; v4; v5; v6; v7; v8; v9; v10; v11; v12]) s = inl (mkStat f3 f10).
Proof. intros H1 H2 H3 H4 H5 H6 H7 H8 H9 H10 H11 H12. simpl. by rewrite H1, H2, H3, H4, H5, H6, H7, H8, H9, H10, H11, H12. Qed.

(** A rendered line of the summary, and what is read from it. *)
Lemma summary_line op elapsed recorded :
  value_text op = true → printable elapsed → printable (f64_div (f64_of_Z (hdr_TotalCount hdr recorded)) elapsed) →
  let hvs := zip (tl header) (histogram_Summary fmt1 hdr elapsed recorded) in
  render_line header (op :: histogram_Summary fmt1 hdr elapsed recorded) = Some (stat_line op hvs) ∧
  Forall (λ hv, value_text hv.1 = true ∧ value_text hv.2 = true) hvs ∧ hvs ≠ [] ∧
  stat_of ParseFloat hvs (mkStat f64_zero f64_zero) = inl (read_back elapsed recorded).
Proof.
  intros Hop [He Hpe] [Hq Hpq]. cbv zeta. split; [reflexivity|].
  pose proof (λ p, hdr_nonneg recorded p) as Hn. split_and!; [|done|].
  - unfold histogram_Summary. cbn [header tl map app zip zip_with].
    repeat apply Forall_cons_2; try apply Forall_nil_2;
      (split; cbn [fst snd]; [vm_compute; reflexivity|first [assumption|apply itoa_value, Hn; exact ""]]).
  - unfold histogram_Summary, read_back. cbn [map app].
    eapply stat_of_header; first [exact Hpe|exact Hpq|eapply parse_int, Hn; exact ""].
Qed.

(** A summary that can be read back: names and floats as they are printed. *)
Definition printable_summary (elapsed : string → float64) (hs : gmap string (list Z)) : Prop :=
  ∀ op recorded, hs !! op = Some recorded →
    value_text op = true ∧ printable (elapsed op) ∧ printable (f64_div (f64_of_Z (hdr_TotalCount hdr recorded)) (elapsed op)).

(** The effect of the rendered lines, after the end of the run or before it. *)
Definition read_ops (elapsed : string → float64) (hs : gmap string (list Z)) (ops : list string) (b : bool)
    (summary : gmap string stat) : gmap string stat :=
  fold_left (λ m op, if b && bool_decide (op ∈ operations) then <[op := read_back (elapsed op) (default [] (hs !! op))]> m else m)
    ops summary.

Lemma scan_summary elapsed (hs : gmap string (list Z)) ops : printable_summary elapsed hs → (∀ op, op ∈ ops → is_Some (hs !! op)) →
  ∃ lines, render_lines header (map (λ op, op :: histogram_Summary fmt1 hdr (elapsed op) (default [] (hs !! op))) ops) = Some lines ∧
    Forall is_line lines ∧
    ∀ b rest summary, scan_log ParseFloat (lines ++ rest) b summary = scan_log ParseFloat rest b (read_ops elapsed hs ops b summary).
Proof.
  intros Hp. induction ops as [|op ops IH]; intros Hops; [by exists []|].
  destruct (Hops op ltac:(by left)) as [recorded Hrec]. destruct (Hp op recorded Hrec) as (Hop & He & Hq).
  destruct IH as (lines & Hr & Hls & Hs); [intros o Ho; apply Hops; by right|].
  destruct (summary_line op (elapsed op) recorded Hop He Hq) as (Hl & Hh & Hne & Hst).
  eexists. split_and!.
  - cbn [map render_lines]. rewrite Hrec. change (default [] (Some recorded)) with recorded. rewrite Hl. cbn [mbind option_bind]. rewrite Hr. reflexivity.
  - apply Forall_cons. split; [|done]. by apply stat_line_is_line.
  - intros b rest summary. rewrite <- app_comm_cons, (scan_line op _ _ _ b summary Hop Hh Hne Hst), Hs.
    unfold read_ops. cbn [fold_left]. by rewrite Hrec.
Qed.

Lemma read_ops_before elapsed hs ops summary : read_ops elapsed hs ops false summary = summary.
Proof using Type. unfold read_ops. by induction ops. Qed.

Lemma read_ops_after elapsed hs ops summary op : NoDup ops →
  read_ops elapsed hs ops true summary !! op =
  if decide (op ∈ ops ∧ op ∈ operations) then Some (read_back (elapsed op) (default [] (hs !! op))) else summary !! op.
Proof using Type.
  clear L ParseFloat. intros Hnd. unfold read_ops. revert summary.
  induction Hnd as [|o ops Ho Hnd IH]; intros summary; [by rewrite decide_False by set_solver|].
  simpl. rewrite IH. destruct (decide (op ∈ ops ∧ op ∈ operations)) as [[H1 H2]|H].
  - rewrite decide_True by set_solver. done.
  - case_bool_decide as Hop; [destruct (decide (op = o)) as [->|]; [rewrite lookup_insert_eq, decide_True by set_solver; done|]|].
    + rewrite lookup_insert_ne by congruence. rewrite decide_False by set_solver. done.
    + rewrite decide_False by set_solver. done.
Qed.

Lemma sorted_keys_spec {A} (m : gmap string A) : NoDup (sorted_keys m) ∧ ∀ k, k ∈ sorted_keys m ↔ is_Some (m !! k).
Proof using Type.
  assert (sorted_keys m ≡ₚ (map_to_list m).*1) as Hp.
  { unfold sorted_keys, NewFieldPairs. change (map fp_Field ?l) with (fp_Field <$> l). rewrite sort_pairs_perm, !map_map.
    change (fp_Field <$> ?l) with (map fp_Field l). rewrite ?map_map. done. }
  split; [rewrite Hp; apply NoDup_fst_map_to_list|]. intros k. rewrite Hp, list_elem_of_fmap. split.
  - intros ([k' v] & -> & H%elem_of_map_to_list). by eexists.
  - intros [v Hv]. exists (k, v). split; [done|]. by apply elem_of_map_to_list.
Qed.
End Roundtrip.

(** ** The other lines of a log *)

Lemma substring_suffix n s : ∃ p, s = p +:+ String.substring n (String.length s - n) s.
Proof.
  revert n. induction s as [|c s IH]; intros n; [exists ""; by destruct n|]. destruct n as [|n].
  - exists "". by rewrite Nat.sub_0_r, substring_all.
  - destruct (IH n) as [p Hp]. exists (String c p). rewrite append_cons. simpl. by rewrite <- Hp.
Qed.

Lemma trim_left_suffix encs fuel s : ∃ p, s = p +:+ trim_left_of encs fuel s.
Proof.
  revert s. induction fuel as [|fuel IH]; intros s; [by exists ""|]. cbn [trim_left_of].
  destruct (strip_prefix_of encs s) as [s'|] eqn:E; [|by exists ""]. unfold strip_prefix_of in E. case_match; simplify_eq.
  destruct (substring_suffix (String.length s0) s) as [p Hp].
  destruct (IH (String.substring (String.length s0) (String.length s - String.length s0) s)) as [q Hq].
  exists (p +:+ q). rewrite append_assoc, <- Hq. done.
Qed.

(** A text that starts in a graphic character still does when it is trimmed. *)
Lemma TrimSpace_head c s : graphic c = true → TrimSpace (String c s) = "" ∨ ∃ t, TrimSpace (String c s) = String c t.
Proof.
  intros Hc. unfold TrimSpace. cbn [trim_left_of String.length].
  rewrite strip_graphic by (try done; by vm_compute). cbv zeta.
  set (m := trim_left_of _ _ (string_rev (String c s))).
  destruct (trim_left_suffix (map string_rev space_encodings) (String.length (String c s)) (string_rev (String c s))) as [p Hp].
  fold m in Hp. apply (f_equal string_rev) in Hp. rewrite string_rev_involutive, string_rev_app in Hp.
  destruct (string_rev m) as [|d t]; [by left|]. right. exists t. rewrite append_cons in Hp. by injection Hp as ->.
Qed.

Lemma go_split_first c s sep : Ascii.eqb c sep = false → ∃ t, hd "" (go_split sep (String c s)) = String c t.
Proof. intros H. cbn [go_split]. rewrite H. destruct (go_split sep s); by eexists. Qed.

(** The first characters of the lines the tool looks at. *)
Definition op_start (c : ascii) : bool :=
  existsb (λ o, match o with String d _ => Ascii.eqb c d | EmptyString => false end) operations.

Lemma scan_skip ParseFloat c s rest b summary : graphic c = true → op_start c = false → Ascii.eqb c "-" = false →
  scan_log ParseFloat (String c s :: rest) b summary = scan_log ParseFloat rest b summary.
Proof.
  intros Hc Ho Hd. destruct (go_split_first c s "-" Hd) as [t Ht]. cbn [scan_log]. rewrite Ht.
  assert (String.prefix "Run finished" (String c s) = false) as ->.
  { cbn [String.prefix]. destruct (ascii_dec "R" c) as [<-|]; [|done]. by vm_compute in Ho. }
  rewrite bool_decide_false; [done|]. intros Hin.
  destruct (TrimSpace_head c t Hc) as [E|[u E]]; rewrite E in Hin.
  - by vm_compute in Hin; repeat (apply elem_of_cons in Hin as [?|Hin]; [done|]); apply elem_of_nil in Hin.
  - assert (op_start c = true) as Hx; [|by rewrite Hx in Ho]. unfold op_start. apply existsb_exists. exists (String c u).
    split; [by apply list_elem_of_In|apply Ascii.eqb_refl].
Qed.

Lemma scan_finished ParseFloat takes rest b summary :
  scan_log ParseFloat (("Run finished, takes " +:+ takes) :: rest) b summary = scan_log ParseFloat rest true summary.
Proof. reflexivity. Qed.

Lemma scan_properties ParseFloat props rest b summary :
  scan_log ParseFloat (map property_line props ++ rest) b summary = scan_log ParseFloat rest b summary.
Proof.
  induction props as [|kv props IH]; [done|]. cbn [map app]. unfold property_line at 1. cbv zeta. rewrite append_cons.
  rewrite scan_skip by (by vm_compute). exact IH.
Qed.

Lemma split_name db workload : str_has "_" db = false → str_has "_" workload = false →
  go_split "_" (db +:+ "_" +:+ workload) = [db; workload].
Proof.
  intros H1 H2. change ("_" +:+ workload) with (String "_" workload). rewrite go_split_head by done. by rewrite go_split_none.
Qed.

(** The names of the workloads are read from the names of the files. *)
Lemma workload_name w : w ∈ workloads → trim_log (w +:+ ".log") = w ∧ str_has "_" (w +:+ ".log") = false.
Proof. intros H. repeat (apply elem_of_cons in H as [->|H]; [by vm_compute|]). by apply elem_of_nil in H. Qed.

Section Report_theorem.
Context (ParseFloat : string → float64 + error) (fmt1 : float64 → string) (hdr : Hdr) (parse1 : float64 → float64).
Context {L : ReportLaws ParseFloat hdr}.
Context (table : list string → list (list string) → list string) (marshal : list (gmap string string) → string + error).
Context (p : Properties) (Hplain : GetString p "outputstyle" "plain" = "plain").

Lemma output_lines elapsed hs : printable_summary ParseFloat fmt1 hdr parse1 elapsed hs →
  ∃ lines, histograms_Output fmt1 hdr table marshal p elapsed hs = Ok lines ∧ Forall is_line lines ∧
    ∀ b rest summary, scan_log ParseFloat (lines ++ rest) b summary =
      scan_log ParseFloat rest b (read_ops hdr parse1 elapsed hs (sorted_keys hs) b summary).
Proof.
  intros Hp. destruct (scan_summary ParseFloat fmt1 hdr parse1 elapsed hs (sorted_keys hs) Hp) as (lines & Hr & Hl & Hs).
  { intros op. apply sorted_keys_spec. }
  exists lines. split_and!; [|done|done]. unfold histograms_Output, RenderString, summary_lines. by rewrite Hplain, Hr.
Qed.

Lemma progress_output progress :
  Forall (λ eh, printable_summary ParseFloat fmt1 hdr parse1 eh.1 eh.2) progress →
  ∃ lines, progress_lines (histograms_Output fmt1 hdr table marshal p) progress = Ok lines ∧ Forall is_line lines ∧
    ∀ rest summary, scan_log ParseFloat (lines ++ rest) false summary = scan_log ParseFloat rest false summary.
Proof.
  induction 1 as [|[elapsed hs] progress Hp _ (rest & Hr & Hl & Hs)]; [by exists []|].
  destruct (output_lines elapsed hs Hp) as (lines & Ho & Hl' & Hs').
  exists (lines ++ rest). cbn [progress_lines]. rewrite Ho. cbn [obind]. rewrite Hr. split_and!; [done|by apply Forall_app|].
  intros tail summary. by rewrite <- app_assoc, Hs', read_ops_before, Hs.
Qed.

Lemma property_lines props : Forall (λ kv, is_line kv.1 ∧ is_line kv.2) props → Forall is_line (map property_line props).
Proof.
  induction 1 as [|kv props [Hk Hv] _ IH]; [done|]. constructor; [|done]. unfold property_line. cbv zeta.
  repeat (apply is_line_app; [done|]). done.
Qed.

(** C22: the round trip of a benchmark's log.  What a run prints in the plain
    style (the properties, any number of intermediate summaries, the final
    summary), written to a file that is named for the database and the workload,
    is read by the report tool as the statistics of that database and workload:
    for every operation the tool reports and the run measured, the throughput
    and the 99th percentile of the final summary, as printed, and nothing for
    any other operation. *)
Theorem report_reads_summary props progress takes elapsed hs db workload :
  Forall (λ kv, is_line kv.1 ∧ is_line kv.2) props → is_line takes →
  Forall (λ eh, printable_summary ParseFloat fmt1 hdr parse1 eh.1 eh.2) progress →
  printable_summary ParseFloat fmt1 hdr parse1 elapsed hs →
  str_has "_" db = false → workload ∈ workloads →
  ∃ text summary, bench_log fmt1 hdr table marshal p props progress takes elapsed hs = Ok text ∧
    parseDBStat ParseFloat (db +:+ "_" +:+ workload +:+ ".log") (inl (scan_lines text, None)) =
      Ok (inl (Some (mkDbStat db workload summary))) ∧
    ∀ op, summary !! op =
      if decide (op ∈ operations) then recorded ← hs !! op; Some (read_back hdr parse1 (elapsed op) recorded) else None.
Proof.
  intros Hprops Htakes Hprog Hfinal Hdb Hw.
  destruct (progress_output progress Hprog) as (during & Hd & Hdl & Hds).
  destruct (output_lines elapsed hs Hfinal) as (final & Hf & Hfl & Hfs).
  unfold bench_log. rewrite Hd. cbn [obind]. rewrite Hf. cbn [obind].
  eexists _, (read_ops hdr parse1 elapsed hs (sorted_keys hs) true ∅). split_and!; [reflexivity| |].
  - destruct (workload_name workload Hw) as [Htrim Hus]. unfold parseDBStat. rewrite split_name by done. rewrite Htrim.
    rewrite bool_decide_true by done. simpl negb. cbn iota. rewrite scan_unlines.
    + cbn [app]. rewrite scan_skip by (by vm_compute). rewrite scan_properties. rewrite scan_skip by (by vm_compute).
      rewrite Hds. rewrite scan_skip by (by vm_compute). rewrite scan_finished, <- (app_nil_r final), Hfs. done.
    + repeat (apply Forall_app; split); try done; [by constructor|by apply property_lines|by constructor|].
      constructor; [done|]. constructor; [|done]. by apply is_line_app.
  - intros op. destruct (sorted_keys_spec hs) as [Hnd Hk]. rewrite read_ops_after by done. rewrite lookup_empty.
    destruct (decide (op ∈ operations)) as [Ho|Ho]; [|by rewrite decide_False by tauto].
    destruct (hs !! op) as [recorded|] eqn:E.
    + rewrite decide_True; [by simpl|]. split; [|done]. apply Hk. by eexists.
    + rewrite decide_False; [done|]. intros [H _]. apply Hk in H. rewrite E in H. by destruct H.
Qed.
End Report_theorem.

(** ** A concrete printer, parser and histogram *)

Fixpoint dec_go (s : string) (acc : Z) : option Z :=
  match s with
  | EmptyString => Some acc
  | String c s => match digit_val c with Some d => dec_go s (10 * acc + d) | None => None end
  end.

Definition dec_parse (s : string) : float64 + error :=
  match go_split "." s with
  | [a] => match dec_go a 0 with Some n => inl (f64_of_Z n) | None => inr "invalid syntax" end
  | [a; b] => match dec_go (a +:+ b) 0 with Some n => inl (f64_lit n 10) | None => inr "invalid syntax" end
  | _ => inr "invalid syntax"
  end.

Definition tenths (x : float64) : Z := Z.abs (f64_to_int (f64_add (f64_mul x (f64_of_Z 10)) (f64_lit 1 2))).
Definition dec_fmt1 (x : float64) : string := itoa (tenths x / 10) +:+ "." +:+ itoa (tenths x mod 10).
Definition dec_read (x : float64) : float64 := f64_lit (tenths x) 10.

Definition small_hdr : Hdr :=
  mkHdr (λ l, Z.abs (foldr Z.min 0 l)) (λ l, foldr Z.max 0 l) (λ l, Z.abs (foldr Z.add 0 l / Z.of_nat (length l)))
    (λ l, Z.of_nat (length l)) (λ l _, foldr Z.max 0 l).

Lemma dec_go_pretty x : ∀ s, dec_go (pretty_N_go x s) 0 = dec_go s (Z.of_N x).
Proof.
  induction (N.lt_wf_0 x) as [x _ IH]; intros s. destruct (decide (x = 0%N)) as [->|Hx]; [done|].
  rewrite pretty_N_go_step by lia. rewrite IH by (apply N.div_lt; lia). cbn [dec_go].
  assert (digit_val (pretty_N_char (x `mod` 10)) = Some (Z.of_N (x `mod` 10))) as ->.
  { assert (x `mod` 10 < 10)%N as Hd by (apply N.mod_lt; lia).
    by destruct (x `mod` 10)%N as [|q]; [|do 10 (try destruct q as [q|q|]; try done; try lia)]. }
  f_equal. rewrite (N.div_mod x 10) at 3 by done. lia.
Qed.

#[global] Instance small_laws : ReportLaws dec_parse small_hdr.
Proof.
  assert (∀ l, 0 <= foldr Z.max 0 l) as Hm by (induction l; simpl; lia).
  split; [|intros l p; cbn; specialize (Hm l); lia]. intros i Hi. unfold dec_parse.
  assert (str_has "." (itoa i) = false) as Hdot by (rewrite <- (Z2Nat.id i) by done; by apply itoa_digits).
  rewrite go_split_none by done. unfold itoa. destruct i as [|q|q]; [done| |lia].
  change (pretty (Z.pos q)) with (pretty_N_go (N.pos q) ""). by rewrite dec_go_pretty.
Qed.

Definition small_props : Properties := mkProperties (λ k d, d) (λ k d, d) (λ k d, d) (λ k d, d) (λ k d, d) (λ k, false).
Definition small_hs : gmap string (list Z) := {["READ" := [120; 80; 200]; "UPDATE" := [300]; "READ_ERROR" := [50]]}.
Definition small_elapsed (op : string) : float64 := f64_lit 5 2.

Lemma small_printable : printable_summary dec_parse dec_fmt1 small_hdr dec_read small_elapsed small_hs.
Proof.
  intros op recorded H. unfold small_hs in H.
  repeat (apply lookup_insert_Some in H as [[<- <-]|[_ H]]; [repeat split; by vm_compute|]).
  apply lookup_singleton_Some in H as [<- <-]. repeat split; by vm_compute.
Qed.

Lemma report_reads_summary_witness : ∃ text summary,
  bench_log dec_fmt1 small_hdr (λ _ _, []) (λ _, inr "") small_props [("workload", "core")] [(small_elapsed, small_hs)] "2.5s"
    small_elapsed small_hs = Ok text ∧
  parseDBStat dec_parse "acp_workloada.log" (inl (scan_lines text, None)) = Ok (inl (Some (mkDbStat "acp" "workloada" summary))) ∧
  ∀ op, summary !! op =
    if decide (op ∈ operations) then recorded ← small_hs !! op; Some (read_back small_hdr dec_read (small_elapsed op) recorded)
    else None.
Proof.
  apply (report_reads_summary dec_parse dec_fmt1 small_hdr dec_read (λ _ _, []) (λ _, inr "") small_props eq_refl
    [("workload", "core")] [(small_elapsed, small_hs)] "2.5s" small_elapsed small_hs "acp" "workloada").
  - repeat constructor; by vm_compute.
  - split; by vm_compute.
  - constructor; [exact small_printable|constructor].
  - exact small_printable.
  - by vm_compute.
  - apply (bool_decide_unpack _). by vm_compute.
Defined.

(** ** Where the tool differs from what it says or means *)

(** The comment of [parseDBStat] gives the names db_load.log and
    db_run_workloadx.log; a file of the second form is passed over. *)
Theorem documented_name_skipped ParseFloat db workload read :
  str_has "_" db = false → str_has "_" workload = false →
  parseDBStat ParseFloat (db +:+ "_" +:+ "run" +:+ "_" +:+ workload +:+ ".log") read = Ok (inl None).
Proof.
  intros H1 H2. unfold parseDBStat.
  assert (str_has "_" (workload +:+ ".log") = false) as H3 by (by rewrite str_has_app, H2).
  change (db +:+ "_" +:+ "run" +:+ "_" +:+ workload +:+ ".log") with (db +:+ String "_" ("run" +:+ String "_" (workload +:+ ".log"))).
  rewrite go_split_head by done. rewrite (go_split_head "_" "run") by done. by rewrite go_split_none.
Qed.

(** A database that did not measure an operation of the workload gets one column
    for it where the heading has two, so its later columns are one to the left. *)
Theorem missing_operation_shifts fmt0 db st : str_has "," db = false →
  str_has "," (fmt0 (stat_OPS st)) = false → str_has "," (fmt0 (stat_P99 st)) = false →
  go_split "," (report_row fmt0 (report_fields "workloada") (mkDbStat db "workloada" {["UPDATE" := st]})) =
  [db; "0.0"; fmt0 (stat_OPS st); fmt0 (stat_P99 st)] ∧
  report_rows fmt0 id "workloada" [] = ["DB,READ OPS,READ P99(us),UPDATE OPS,UPDATE P99(us)"].
Proof.
  intros H1 H2 H3. split; [|reflexivity]. unfold report_row. cbn [report_fields ds_db].
  assert (map (report_cell fmt0 (mkDbStat db "workloada" {["UPDATE" := st]})) (report_fields "workloada") =
    [",0.0"; "," +:+ fmt0 (stat_OPS st) +:+ "," +:+ fmt0 (stat_P99 st)]) as -> by reflexivity.
  change (go_split "," (db +:+ String "," ("0.0" +:+ String "," (fmt0 (stat_OPS st) +:+ String "," (fmt0 (stat_P99 st))))) =
    [db; "0.0"; fmt0 (stat_OPS st); fmt0 (stat_P99 st)]).
  rewrite go_split_head by done. rewrite (go_split_head "," "0.0") by done. by rewrite go_split_head, go_split_none.
Qed.

(** A line that is only the name of an operation ends the tool. *)
Theorem bare_operation_panics ParseFloat db :
  str_has "_" db = false →
  parseDBStat ParseFloat (db +:+ "_" +:+ "load.log") (inl (["INSERT"], None)) = Panic "index out of range".
Proof. intros H. unfold parseDBStat. rewrite split_name by done. reflexivity. Qed.

(** A report that is shorter than the one before keeps the end of the old file. *)
Theorem shorter_report_keeps_tail fmt0 st old : old = unlines (report_rows fmt0 id "load" [mkDbStat "acp" "load" {["INSERT" := st]}]) →
  ∃ tail, reportDBStats fmt0 id "load" [] old = unlines (report_rows fmt0 id "load" []) +:+ tail ∧ tail ≠ "".
Proof.
  intros ->. unfold reportDBStats, overwrite. eexists. split; [reflexivity|].
  assert (∀ a b, b ≠ "" → String.substring (String.length a) (String.length (a +:+ b) - String.length a) (a +:+ b) ≠ "") as H.
  { intros a b Hb. induction a as [|c a IH]; [|exact IH]. change ("" +:+ b) with b. simpl String.length.
    by rewrite Nat.sub_0_r, substring_all. }
  apply (H (unlines (report_rows fmt0 id "load" [])) (unlines [report_row fmt0 ["INSERT"] (mkDbStat "acp" "load" {["INSERT" := st]})])).
  done.
Qed.
