(* ===== verification/Process.v ===== *)
(** * Process: the process of the YCSB command
    (src/go-ycsb-vendor: cmd/go-ycsb/main.go, pkg/client/client.go, pkg/measurement)

    What goes on around the rounds of the workers: the goroutine of [Client.Run]
    that ends the warm-up and prints summaries, the join of all goroutines, the
    output of the measurements, the handler of signals and the closing of the
    database.  The first part is the output itself, the second the process as a
    step function on its state; which step is next is up to the scheduler, the
    timers and the user. *)

From S2P Require Import Prelude GoLib Storage YcsbUtil Float64 Generators Ycsb Report.

Open Scope Z_scope.

(** ** Output *)

(** Files and the standard output, which is the file with the empty name; a write
    goes through a buffer that is flushed. *)
Class OutFiles (E : Type) := mkOutFiles {
  of_Create : string → PM E (option error);
  of_Write : string → string → PM E (option error);
  of_Flush : string → PM E (option error);
}.

Section Output.
Context {E : Type} `{!OutFiles E}.
(** The parameters of [Report]; [PercentilesPrint] of the histogram package and the
    orders in which Go visits the maps. *)
Context (fmt1 : float64 → string) (hdr : Hdr) (table : list string → list (list string) → list string).
Context (marshal : list (gmap string string) → string + error) (percentiles : list Z → string).
Context (csv_order : gmap string (list csventry) → list (string * list csventry)).
Context (hist_order : gmap string (list Z) → list (string * list Z)) (elapsed : string → float64).

Definition Measurer_Output (p : Properties) (m : Measurer) : Outcome (list string) :=
  match m with
  | MCsv opCsv => Ok (csvs_Output csv_order opCsv)
  | MHistograms hs => histograms_Output fmt1 hdr table marshal p elapsed hs
  end.

(** [measurement.output]; the histograms ignore the errors of their writes. *)
Definition measurement_output (p : Properties) (m : Measurer) : PM E unit :=
  let outFile := GetString p "measurement.output_file" "" in
  err <~ (if String.eqb outFile "" then pret None else of_Create outFile) ;;
  match err with
  | Some err => pfail (Panic ("failed to create output file: " +:+ err))
  | None =>
      lines <~ pfail (Measurer_Output p m) ;;
      err <~ of_Write outFile (unlines lines) ;;
      match m, err with
      | MCsv _, Some err => pfail (Panic ("failed to write output: " +:+ err))
      | _, _ =>
          err <~ of_Flush outFile ;;
          match err with Some err => pfail (Panic ("failed to flush output: " +:+ err)) | None => pret tt end
      end
  end.

(** [GenerateExtendedOutputs] of the histograms; the error of the flush is dropped. *)
Fixpoint export_histograms (path : string) (l : list (string * list Z)) : PM E unit :=
  match l with
  | [] => pret tt
  | (op, opM) :: l =>
      let outFile := path +:+ op +:+ "-percentiles.txt" in
      of_Write "" ("Exporting the full latency spectrum for operation '" +:+ op +:+
        "' in percentile output format into file: " +:+ outFile +:+ "." +:+ String newline "") ~;
      err <~ of_Create outFile ;;
      match err with
      | Some err => pfail (Panic ("failed to create percentile output file: " +:+ err))
      | None =>
          err <~ of_Write outFile (percentiles opM) ;;
          of_Flush outFile ~;
          match err with
          | Some err => pfail (Panic ("failed to print percentiles: " +:+ err))
          | None => export_histograms path l
          end
      end
  end.

Definition GenerateExtendedOutputs (p : Properties) (m : Measurer) : PM E unit :=
  match m with
  | MCsv _ => pret tt
  | MHistograms hs =>
      if GetBool p "histogram.percentiles.export" false
      then export_histograms (GetString p "histogram.percentiles.export.filepath" "./") (hist_order hs)
      else pret tt
  end.

Definition Output (p : Properties) (m : Measurer) : PM E unit := GenerateExtendedOutputs p m ~; measurement_output p m.

(** [Summary]: the csv measurer keeps none. *)
Definition Summary (p : Properties) (m : Measurer) : PM E unit :=
  match m with
  | MCsv _ => pret tt
  | MHistograms hs => lines <~ pfail (histograms_Output fmt1 hdr table marshal p elapsed hs) ;; of_Write "" (unlines lines) ~; pret tt
  end.

(** When [Output] returns the file has been created, written and flushed: what it
    was given is the output of the measurer, and no error was passed over, except
    those of the writes of histograms. *)
Lemma measurement_output_done p m s s' :
  measurement_output p m s = (Ok tt, s') →
  ∃ lines s1 s2 w, let outFile := GetString p "measurement.output_file" "" in
    Measurer_Output p m = Ok lines ∧
    (if String.eqb outFile "" then s1 = s else of_Create outFile s = (Ok None, s1)) ∧
    of_Write outFile (unlines lines) s1 = (Ok w, s2) ∧ (match m with MCsv _ => w = None | MHistograms _ => True end) ∧
    of_Flush outFile s2 = (Ok None, s').
Proof.
  unfold measurement_output, pbind. set (outFile := GetString p "measurement.output_file" "").
  destruct ((if String.eqb outFile "" then pret None else of_Create outFile) s) as [[[err|]|?|?|] s1] eqn:Hc; try done.
  destruct (Measurer_Output p m) as [lines|?|?|] eqn:Hl; simpl; try done.
  destruct (of_Write outFile (unlines lines) s1) as [[w|?|?|] s2] eqn:Hw; try done. intros H. exists lines, s1, s2, w.
  assert (of_Flush outFile s2 = (Ok None, s') ∧ match m with MCsv _ => w = None | MHistograms _ => True end) as [Hf Hm].
  { destruct m as [opCsv|hs], w as [err|]; try done; destruct (of_Flush outFile s2) as [[[?|]|?|?|] s3];
      try done; by injection H as ->. }
  split_and!; [done| |done|done|done]. destruct (String.eqb outFile ""); [by injection Hc|done].
Qed.
End Output.

(** ** The process *)

(** The goroutine of [Run]: before its first test, in the wait for the end of the
    warm-up, in the loop over the ticker, ended (with [measureCh] filled). *)
Inductive routine := RStart | RWarm | RTick | RDone.
(** [main]: in [wg.Wait], in the receive from [measureCh], before [Output], before
    the database is closed, before the send to [closeDone], returned. *)
Inductive main_pc := MWait | MJoin | MOutput | MClosing | MClosed | MReturned.
(** The handler of signals: in the receive from [sc], in the select after
    [globalCancel]. *)
Inductive signal_pc := SWait | SGot.

#[export] Instance routine_eq_dec : EqDecision routine. Proof. solve_decision. Defined.
#[export] Instance main_pc_eq_dec : EqDecision main_pc. Proof. solve_decision. Defined.
#[export] Instance signal_pc_eq_dec : EqDecision signal_pc. Proof. solve_decision. Defined.

(** The state; [pr_workers] has the operations left of every worker that has not
    ended, [pr_output] what [Output] was called on. *)
Record proc := mkProc {
  pr_ctx : bool;
  pr_measureCtx : bool;
  pr_workers : list nat;
  pr_routine : routine;
  pr_world : YWorld;
  pr_main : main_pc;
  pr_signal : signal_pc;
  pr_output : option Measurer;
  pr_closed : nat;
  pr_exit : option Z;
}.

Definition start_proc (counts : list nat) (w : YWorld) : proc :=
  mkProc false false counts RStart w MWait SWait None 0 None.

Inductive event :=
  | EOperation (i : nat) (op : string) (start : Time) (lan : Duration)   (* a worker measures an operation *)
  | EWorkerEnd (i : nat)
  | EStarted                        (* the goroutine looks at DoTransactions *)
  | EWarmUpOver                     (* time.After of the warm-up *)
  | EWarmUpCancelled                (* ctx.Done in the warm-up *)
  | ETick                           (* Summary *)
  | ECancelled                      (* measureCtx.Done *)
  | EJoined                         (* wg.Wait returns, measureCancel *)
  | EMeasureDone                    (* the receive from measureCh *)
  | EOutput                         (* Output, then globalCancel *)
  | EClose
  | EReturn                         (* closeDone, end of main *)
  | ESignal                         (* the first signal: globalCancel *)
  | ESignalAgain
  | EForced.                        (* ten seconds later *)

Section Steps.
Context (doTransactions : bool).

Definition set_ctx (p : proc) : proc :=
  mkProc true (pr_measureCtx p) (pr_workers p) (pr_routine p) (pr_world p) (pr_main p) (pr_signal p) (pr_output p) (pr_closed p) (pr_exit p).
Definition set_workers (ws : list nat) (p : proc) : proc :=
  mkProc (pr_ctx p) (pr_measureCtx p) ws (pr_routine p) (pr_world p) (pr_main p) (pr_signal p) (pr_output p) (pr_closed p) (pr_exit p).
Definition set_routine (r : routine) (w : YWorld) (p : proc) : proc :=
  mkProc (pr_ctx p) (pr_measureCtx p) (pr_workers p) r w (pr_main p) (pr_signal p) (pr_output p) (pr_closed p) (pr_exit p).
Definition set_main (m : main_pc) (p : proc) : proc :=
  mkProc (pr_ctx p) (pr_measureCtx p) (pr_workers p) (pr_routine p) (pr_world p) m (pr_signal p) (pr_output p) (pr_closed p) (pr_exit p).
Definition set_exit (code : Z) (p : proc) : proc :=
  mkProc (pr_ctx p) (pr_measureCtx p) (pr_workers p) (pr_routine p) (pr_world p) (pr_main p) (pr_signal p) (pr_output p) (pr_closed p) (Some code).

(** The goroutine of [Run]. *)
Definition routine_step (e : event) (p : proc) : option proc :=
  let w := pr_world p in
  match e, pr_routine p with
  | EStarted, RStart => Some (if doTransactions then set_routine RWarm w p else set_routine RTick (EnableWarmUp false w) p)
  | EWarmUpOver, RWarm => Some (set_routine RTick (EnableWarmUp false w) p)
  | EWarmUpCancelled, RWarm => if pr_ctx p then Some (set_routine RDone w p) else None
  | ETick, RTick => Some p
  | ECancelled, RTick => if pr_ctx p || pr_measureCtx p then Some (set_routine RDone w p) else None
  | _, _ => None
  end.

(** The workers: a round, or the end when the operations are done or the context
    is cancelled. *)
Definition worker_step (e : event) (p : proc) : option proc :=
  match e with
  | EOperation i op start lan =>
      match pr_workers p !! i with
      | Some (S k) => Some (set_workers (<[i := k]> (pr_workers p)) (set_routine (pr_routine p) (Measure op start lan (pr_world p)) p))
      | _ => None
      end
  | EWorkerEnd i =>
      match pr_workers p !! i with
      | Some k => if (k =? 0)%nat || pr_ctx p then Some (set_workers (delete i (pr_workers p)) p) else None
      | None => None
      end
  | _ => None
  end.

(** The end of [Run]. *)
Definition join_step (e : event) (p : proc) : option proc :=
  match e, pr_main p with
  | EJoined, MWait =>
      match pr_workers p with
      | [] => Some (mkProc (pr_ctx p) true [] (pr_routine p) (pr_world p) MJoin (pr_signal p) (pr_output p) (pr_closed p) (pr_exit p))
      | _ => None
      end
  | EMeasureDone, MJoin => if decide (pr_routine p = RDone) then Some (set_main MOutput p) else None
  | _, _ => None
  end.

(** The end of [main], with the output after [Run]. *)
Definition close_step (e : event) (p : proc) : option proc :=
  match e, pr_main p with
  | EOutput, MOutput =>
      Some (mkProc true (pr_measureCtx p) (pr_workers p) (pr_routine p) (pr_world p) MClosing (pr_signal p)
              (Some (yw_measurer (pr_world p))) (pr_closed p) (pr_exit p))
  | EClose, MClosing =>
      Some (mkProc (pr_ctx p) (pr_measureCtx p) (pr_workers p) (pr_routine p) (pr_world p) MClosed (pr_signal p)
              (pr_output p) (S (pr_closed p)) (pr_exit p))
  | EReturn, MClosed => Some (set_exit 0 (set_main MReturned p))
  | _, _ => None
  end.

Definition signal_step (e : event) (p : proc) : option proc :=
  match e, pr_signal p with
  | ESignal, SWait =>
      Some (mkProc true (pr_measureCtx p) (pr_workers p) (pr_routine p) (pr_world p) (pr_main p) SGot
              (pr_output p) (pr_closed p) (pr_exit p))
  | ESignalAgain, SGot | EForced, SGot => Some (set_exit 1 p)
  | _, _ => None
  end.

Definition proc_step (e : event) (p : proc) : option proc :=
  match pr_exit p with
  | Some _ => None
  | None =>
      match e with
      | EOperation _ _ _ _ | EWorkerEnd _ => worker_step e p
      | EStarted | EWarmUpOver | EWarmUpCancelled | ETick | ECancelled => routine_step e p
      | EJoined | EMeasureDone => join_step e p
      | EOutput | EClose | EReturn => close_step e p
      | ESignal | ESignalAgain | EForced => signal_step e p
      end
  end.

Definition pstep (p p' : proc) : Prop := ∃ e, proc_step e p = Some p'.
(** Steps other than a tick of the summary. *)
Definition wstep (p p' : proc) : Prop := ∃ e, e ≠ ETick ∧ proc_step e p = Some p'.

Fixpoint run_events (es : list event) (p : proc) : option proc :=
  match es with [] => Some p | e :: es => p' ← proc_step e p; run_events es p' end.
End Steps.

(** ** Invariant *)

(** What holds of [main] at each of its points. *)
Definition main_inv (p : proc) : Prop :=
  match pr_main p with
  | MWait => pr_output p = None ∧ pr_closed p = 0%nat
  | MJoin => pr_output p = None ∧ pr_closed p = 0%nat ∧ pr_workers p = [] ∧ pr_measureCtx p = true
  | MOutput => pr_output p = None ∧ pr_closed p = 0%nat ∧ pr_workers p = [] ∧ pr_routine p = RDone
  | MClosing => pr_output p = Some (yw_measurer (pr_world p)) ∧ pr_closed p = 0%nat ∧ pr_workers p = [] ∧ pr_routine p = RDone
  | MClosed | MReturned =>
      pr_output p = Some (yw_measurer (pr_world p)) ∧ pr_closed p = 1%nat ∧ pr_workers p = [] ∧ pr_routine p = RDone
  end.

Definition exit_inv (p : proc) : Prop :=
  match pr_exit p with
  | None => pr_main p ≠ MReturned
  | Some code => code = 0 ∧ pr_main p = MReturned ∨ code = 1 ∧ pr_signal p = SGot
  end.

(** Nothing is measured in the warm-up. *)
Definition warm_inv (m0 : Measurer) (p : proc) : Prop :=
  yw_warmUp (pr_world p) = true → yw_measurer (pr_world p) = m0.

Definition proc_inv (m0 : Measurer) (p : proc) : Prop := main_inv p ∧ exit_inv p ∧ warm_inv m0 p.

Lemma measure_warm op start lan w :
  yw_warmUp (Measure op start lan w) = yw_warmUp w ∧
  (yw_warmUp w = true → yw_measurer (Measure op start lan w) = yw_measurer w).
Proof. unfold Measure, IsWarmUpFinished. by destruct (yw_warmUp w) eqn:Hw. Qed.

Ltac step_cases H :=
  unfold worker_step, routine_step, join_step, close_step, signal_step in H;
  repeat match type of H with
  | context [match ?x with _ => _ end] => destruct x eqn:?; try discriminate H
  end;
  try (injection H as <-).

Lemma proc_inv_step tx m0 e p p' : proc_inv m0 p → proc_step tx e p = Some p' → proc_inv m0 p'.
Proof.
  intros (Hm & He & Hw) Hs. unfold proc_step in Hs. destruct (pr_exit p) eqn:Hx; [done|].
  unfold proc_inv, main_inv, exit_inv, warm_inv in *. rewrite Hx in He.
  destruct p as [ctx mctx ws r w m sg o c x]; simpl in *. subst x.
  destruct e; step_cases Hs; simpl in *; repeat match goal with H : _ && _ = true |- _ => clear H | H : _ || _ = true |- _ => clear H end;
    subst; simpl in *; try done; split_and!; try done; try (by destruct m; naive_solver); try tauto.
  - destruct (measure_warm op start lan w) as [-> H]. intros Hwu. rewrite H by done. by apply Hw.
  - destruct Hm as (_ & -> & _). done.
Qed.

Lemma proc_inv_reachable tx counts w p : rtc (pstep tx) (start_proc counts w) p → proc_inv (yw_measurer w) p.
Proof.
  apply (rtc_ind_r (λ p, proc_inv (yw_measurer w) p)).
  - unfold proc_inv, main_inv, exit_inv, warm_inv. simpl. done.
  - intros p1 p2 _ [e Hs] Hi. by eapply proc_inv_step.
Qed.

(** ** Termination *)

Definition rank_routine (r : routine) : nat := match r with RStart => 3 | RWarm => 2 | RTick => 1 | RDone => 0 end.
Definition rank_main (m : main_pc) : nat :=
  match m with MWait => 5 | MJoin => 4 | MOutput => 3 | MClosing => 2 | MClosed => 1 | MReturned => 0 end.

(** The steps a process can still take, apart from the ticks. *)
Definition steps_left (p : proc) : nat :=
  sum_list (pr_workers p) + length (pr_workers p) + rank_routine (pr_routine p) + rank_main (pr_main p) +
  (match pr_signal p with SWait => 1 | SGot => 0 end) + (match pr_exit p with None => 1 | Some _ => 0 end).

Lemma sum_list_insert l i k : l !! i = Some (S k) → S (sum_list (<[i := k]> l)) = sum_list l.
Proof.
  revert i. induction l as [|x l IH]; intros [|i] Hi; simpl in *; [done|done|by injection Hi as ->|].
  rewrite <- (IH i Hi). lia.
Qed.

Lemma sum_list_delete l i k : l !! i = Some k → (sum_list (delete i l) <= sum_list l)%nat ∧ length l = S (length (delete i l)).
Proof.
  revert i. induction l as [|x l IH]; intros [|i] Hi; simpl in *; [done|done|split; [lia|done]|].
  destruct (IH i Hi) as [H1 H2]. split; [lia|]. by rewrite H2.
Qed.

Lemma steps_left_step tx e p p' : e ≠ ETick → proc_step tx e p = Some p' → (steps_left p' < steps_left p)%nat.
Proof.
  intros He Hs. unfold proc_step in Hs. destruct (pr_exit p) eqn:Hx; [done|]. unfold steps_left.
  destruct p as [ctx mctx ws r w m sg o c x]; simpl in *. subst x.
  destruct e; try done; step_cases Hs; simpl in *; subst; simpl; try lia.
  - rewrite length_insert. match goal with H : ws !! i = Some (S ?k) |- _ => pose proof (sum_list_insert ws i k H) end. lia.
  - match goal with H : ws !! i = Some ?k |- _ => pose proof (sum_list_delete ws i k H) end. lia.
Qed.

(** As long as the process runs there is a step for it to take. *)
Lemma proc_progress tx m0 p : proc_inv m0 p → pr_exit p = None → ∃ p', wstep tx p p'.
Proof.
  intros (Hm & He & _) Hx. unfold main_inv, exit_inv in *. rewrite Hx in He.
  assert (∀ e p', e ≠ ETick → proc_step tx e p = Some p' → ∃ p', wstep tx p p') as Hgo by (intros e p' ? ?; exists p', e; done).
  assert (∀ e, proc_step tx e p = match e with
      | EOperation _ _ _ _ | EWorkerEnd _ => worker_step e p
      | EStarted | EWarmUpOver | EWarmUpCancelled | ETick | ECancelled => routine_step tx e p
      | EJoined | EMeasureDone => join_step e p
      | EOutput | EClose | EReturn => close_step e p
      | _ => signal_step e p end) as Hstep by (intros e; unfold proc_step; by rewrite Hx).
  destruct (pr_main p) eqn:Hmain; [| | | | |done].
  - destruct (pr_workers p) as [|[|k] ws] eqn:Hws.
    + eapply (Hgo EJoined); [done|]. rewrite Hstep. unfold join_step. by rewrite Hmain, Hws.
    + eapply (Hgo (EWorkerEnd 0)); [done|]. rewrite Hstep. unfold worker_step. by rewrite Hws.
    + eapply (Hgo (EOperation 0 "" (mkTime 0 None) 0)); [done|]. rewrite Hstep. unfold worker_step. by rewrite Hws.
  - destruct Hm as (_ & _ & _ & Hctx). destruct (pr_routine p) eqn:Hr.
    + eapply (Hgo EStarted); [done|]. rewrite Hstep. unfold routine_step. by rewrite Hr.
    + eapply (Hgo EWarmUpOver); [done|]. rewrite Hstep. unfold routine_step. by rewrite Hr.
    + eapply (Hgo ECancelled); [done|]. rewrite Hstep. unfold routine_step. by rewrite Hr, Hctx, orb_true_r.
    + eapply (Hgo EMeasureDone); [done|]. rewrite Hstep. unfold join_step. by rewrite Hmain, Hr.
  - eapply (Hgo EOutput); [done|]. rewrite Hstep. unfold close_step. by rewrite Hmain.
  - eapply (Hgo EClose); [done|]. rewrite Hstep. unfold close_step. by rewrite Hmain.
  - eapply (Hgo EReturn); [done|]. rewrite Hstep. unfold close_step. by rewrite Hmain.
Qed.

(** ** Properties *)


(** ** At work *)

Definition demo_world (warmUp : bool) : YWorld := mkYW (λ _, mkTime 0 None) 0 warmUp (MHistograms ∅).
Definition demo_op (i : nat) : event := EOperation i "READ" (mkTime 0 None) 5000.

(** Two workers, one of which ends before the warm-up is over. *)
Definition demo_events : list event :=
  [EStarted; demo_op 0; EWorkerEnd 0; EWarmUpOver; ETick; demo_op 0; EWorkerEnd 0; EJoined; ECancelled; EMeasureDone; EOutput;
   EClose; EReturn].

Lemma run_events_rtc tx es p p' : run_events tx es p = Some p' → rtc (pstep tx) p p'.
Proof.
  revert p. induction es as [|e es IH]; intros p; simpl; [intros [= ->]; apply rtc_refl|].
  destruct (proc_step tx e p) as [p1|] eqn:Hs; simpl; [|done]. intros H. eapply rtc_l; [by exists e|by apply IH].
Qed.


(** ** What the goroutine of [Run] does not do *)

(** In the warm-up it waits for the context of the command and not for that of the
    run: when the workers have ended before, only the timer or a signal lets the
    process go on. *)
Theorem warm_up_outlives_run (p p' : proc) (e : event) :
  pr_main p = MJoin → pr_workers p = [] → pr_routine p = RWarm → pr_ctx p = false → pr_signal p = SWait →
  proc_step true e p = Some p' → e = EWarmUpOver ∨ e = ESignal.
Proof.
  intros Hm Hws Hr Hc Hs H. unfold proc_step in H. destruct (pr_exit p); [done|].
  destruct e; unfold worker_step, routine_step, join_step, close_step, signal_step in H;
    rewrite ?Hm, ?Hws, ?Hr, ?Hc, ?Hs, ?lookup_nil in H; try discriminate H; auto.
Qed.

(** And such a run has no measurements: all its operations were in the warm-up. *)
Theorem short_run_measures_nothing :
  match run_events true [EStarted; demo_op 0; demo_op 0; EWorkerEnd 0; EJoined] (start_proc [2]%nat (demo_world true)) with
  | Some p => pr_main p = MJoin ∧ pr_routine p = RWarm ∧ proc_step true ECancelled p = None ∧
      match run_events true [EWarmUpOver; ECancelled; EMeasureDone; EOutput] p with
      | Some p => pr_output p = Some (MHistograms ∅)
      | None => False
      end
  | None => False
  end.
Proof. vm_compute. done. Qed.

(** In a load the warm-up ends with the first step of the goroutine; what the
    workers do before it is not measured either. *)
Theorem load_can_miss_operations :
  match run_events false [demo_op 0; EStarted; demo_op 0] (start_proc [2]%nat (demo_world true)) with
  | Some p => yw_measurer (pr_world p) = MHistograms {["READ" := [5]]}
  | None => False
  end.
Proof. vm_compute. done. Qed.
