(* ===== verification/YcsbCommand.v ===== *)
(** * YcsbCommand: the commands of go-ycsb
    (src/go-ycsb-vendor/cmd/go-ycsb: main.go, client.go, shell.go)

    [initialGlobal] builds the properties, the workload and the database from the
    command line; the commands load and run start the client of [YcsbClient] on
    them; the shell sends single operations to the database.  The command-line
    package and the properties package are third-party: classes with the laws
    that are relied on. *)

From Stdlib Require Import Ascii.
From S2P Require Import Prelude GoLib GoParse Float64 Storage YcsbUtil Generators AckCounter Ycsb Workload YcsbClient TableDb Report.

Open Scope Z_scope.

(** ** The properties package *)

Class PropsLib (P : Type) := mkPropsLib {
  props_New : P;
  props_MustLoadFiles : list string → Outcome P;
  props_Set : string → string → P → P;
  props_of : P → Properties;
}.

(** A value without an expression to expand. *)
Definition plain (v : string) : bool := negb (str_has "$" v).

(** [pl_raw]: the stored texts.  The typed getters read plain texts, and return
    the default for a key that is absent. *)
Class PropsLaws (P : Type) `{!PropsLib P} := mkPropsLaws {
  pl_raw : P → gmap string string;
  pl_New : pl_raw props_New = ∅;
  pl_Set k v p : plain v = true → pl_raw (props_Set k v p) = <[k := v]> (pl_raw p);
  pl_Has p k : p_Has (props_of p) k = bool_decide (is_Some (pl_raw p !! k));
  pl_absent p k : pl_raw p !! k = None →
    (∀ d, GetString (props_of p) k d = d) ∧ (∀ d, GetInt (props_of p) k d = d) ∧ (∀ d, GetInt64 (props_of p) k d = d) ∧
    (∀ d, GetFloat64 (props_of p) k d = d) ∧ (∀ d, GetBool (props_of p) k d = d);
  pl_string p k v : pl_raw p !! k = Some v → plain v = true → ∀ d, GetString (props_of p) k d = v;
  pl_int p k n : pl_raw p !! k = Some (itoa n) → 0 <= n → in_int64 n →
    (∀ d, GetInt (props_of p) k d = n) ∧ (∀ d, GetInt64 (props_of p) k d = n);
  pl_bool p k (b : bool) : pl_raw p !! k = Some (if b then "true" else "false") → ∀ d, GetBool (props_of p) k d = b;
}.

(** ** The globals *)

(** [strings.SplitN(s, sep, 2)] *)
Fixpoint SplitN2 (sep : ascii) (s : string) : list string :=
  match s with
  | EmptyString => [""]
  | String c s =>
      if Ascii.eqb c sep then [""; s]
      else match SplitN2 sep s with
           | [] => [String c ""]
           | x :: xs => String c x :: xs
           end
  end.

(** The flags of the commands; the last three are set when the flag was given. *)
Record Flags := mkFlags {
  fl_propertyFiles : list string;
  fl_propertyValues : list string;
  fl_tableName : string;
  fl_threads : option Z;
  fl_target : option Z;
  fl_interval : option Z;
}.

Section Commands.
Context {P R D : Type} `{!PropsLib P} `{!YcsbDB D}.
(** The registered workloads and databases, and the clock of the measurements. *)
Context (workloads : gmap string (Properties → Outcome (core + error))).
Context (dbs : gmap string (Properties → Outcome (D + error))) (clock : nat → Time).

Fixpoint set_values (values : list string) (p : P) : Outcome P :=
  match values with
  | [] => Ok p
  | prop :: values =>
      match SplitN2 "=" prop with
      | [k; v] => set_values values (props_Set k v p)
      | _ => Exit ("bad property: `" +:+ prop +:+ "`, expected format `name=value`")
      end
  end.

Record Globals := mkGlobals {
  g_props : P;
  g_table : string;
  g_workload : core;
  g_db : D * YWorld;
}.

(** A workload that is not registered is a nil creator, on which [Create] panics;
    a database that is not registered ends the process. *)
Definition initialGlobal (flags : Flags) (dbName : string) (onProperties : P → P) : Outcome Globals :=
  let! p := (match fl_propertyFiles flags with [] => Ok props_New | files => props_MustLoadFiles files end) in
  let! p := set_values (fl_propertyValues flags) p in
  let p := onProperties p in
  let! mw := InitMeasure (props_of p) in
  let table := if String.eqb (fl_tableName flags) "" then GetString (props_of p) "table" "usertable" else fl_tableName flags in
  let workloadName := GetString (props_of p) "workload" "core" in
  match (workloads !! workloadName : option (Properties → Outcome (core + error))) with
  | None => Panic "invalid memory address or nil pointer dereference"
  | Some create =>
      let! w := create (props_of p) in
      match w with
      | inr err => Exit ("create workload " +:+ workloadName +:+ " failed " +:+ err)
      | inl w =>
          match (dbs !! dbName : option (Properties → Outcome (D + error))) with
          | None => Exit (dbName +:+ " is not registered")
          | Some create =>
              let! d := create (props_of p) in
              match d with
              | inr err => Exit ("create db " +:+ dbName +:+ " failed " +:+ err)
              | inl d => Ok (mkGlobals p table w (d, mkYW clock 0 mw.2 mw.1))
              end
          end
      end
  end.

(** The properties that load and run add. *)
Definition client_properties (flags : Flags) (doTransactions : bool) (command : string) (p : P) : P :=
  let set_flag k f p := match f with Some n => props_Set k (itoa n) p | None => p end in
  let p := props_Set "dotransactions" (if doTransactions then "true" else "false") p in
  let p := props_Set "command" command p in
  let p := set_flag "threadcount" (fl_threads flags) p in
  let p := set_flag "target" (fl_target flags) p in
  set_flag "measurement.interval" (fl_interval flags) p.

(** Up to the rounds of the client, which the scheduler interleaves. *)
Definition runClientCommandFunc (flags : Flags) (dbName : string) (doTransactions : bool) (command : string) (r : nat → R) :
    Outcome (client R (D * YWorld)) :=
  let! g := initialGlobal flags dbName (client_properties flags doTransactions command) in
  Run (props_of (g_props g)) (g_workload g) (g_db g) r.

Definition runLoadCommandFunc (flags : Flags) (dbName : string) := runClientCommandFunc flags dbName false "load".
Definition runTransCommandFunc (flags : Flags) (dbName : string) := runClientCommandFunc flags dbName true "run".
End Commands.

(** [coreCreator.Create], with the source the process starts from. *)
Definition core_creator {R} `{!Rand R} Log Pow lower ReadFile (r0 : R) (p : Properties) : Outcome (core + error) :=
  let! c := (Create Log Pow lower ReadFile p r0).1 in Ok (inl c).

(** ** Lemmas on the properties *)

(** The flags [-p k=v]. *)
Definition prop_flags (kvs : list (string * string)) : list string := map (λ kv, kv.1 +:+ "=" +:+ kv.2) kvs.

(** The last value given for a key counts. *)
Definition given (kvs : list (string * string)) : gmap string string := fold_left (λ m kv, <[kv.1 := kv.2]> m) kvs ∅.

Lemma split_prop k v : str_has "=" k = false → SplitN2 "=" (k +:+ "=" +:+ v) = [k; v].
Proof.
  induction k as [|c k IH]; intros Hk; [done|]. rewrite append_cons. cbn [SplitN2]. simpl in Hk.
  apply orb_false_iff in Hk as [-> Hk]. by rewrite IH.
Qed.

Section Props.
Context {P : Type} `{!PropsLib P} `{!PropsLaws P}.

Lemma set_values_spec kvs : Forall (λ kv, str_has "=" kv.1 = false ∧ plain kv.2 = true) kvs → ∀ p : P,
  ∃ p', set_values (prop_flags kvs) p = Ok p' ∧ pl_raw p' = fold_left (λ m kv, <[kv.1 := kv.2]> m) kvs (pl_raw p).
Proof.
  induction 1 as [|[k v] kvs [Hk Hv] _ IH]; intros p; [by exists p|]. simpl in Hk, Hv.
  cbn [prop_flags map set_values fst snd]. rewrite split_prop by done.
  destruct (IH (props_Set k v p)) as (p' & Hp & Hr). exists p'. split; [exact Hp|]. rewrite Hr, pl_Set by done. done.
Qed.

Lemma itoa_plain n : 0 <= n → plain (itoa n) = true.
Proof. intros Hn. unfold plain. rewrite <- (Z2Nat.id n) by done. by rewrite itoa_digits. Qed.

(** What the load command has set, over the given properties. *)
Lemma load_properties flags t command (p : P) : plain command = true →
  fl_threads flags = Some t → 0 <= t → fl_target flags = None → fl_interval flags = None →
  pl_raw (client_properties flags false command p) =
  <["threadcount" := itoa t]> (<["command" := command]> (<["dotransactions" := "false"]> (pl_raw p))).
Proof.
  intros Hc Ht H0 Htg Hi. unfold client_properties. rewrite Ht, Htg, Hi. rewrite !pl_Set by (try done; by apply itoa_plain). done.
Qed.

(** What a client reads of them. *)
Lemma load_getters kvs n t (p : P) :
  pl_raw p = <["threadcount" := itoa t]> (<["command" := "load"]> (<["dotransactions" := "false"]> (given kvs))) →
  given kvs !! "recordcount" = Some (itoa n) →
  Forall (λ k, given kvs !! k = None) ["insertstart"; "insertcount"; "batch.size"; "workload"; "measurementtype"; "warmuptime"] →
  in_int64 n → 0 < t <= n →
  GetBool (props_of p) "dotransactions" true = false ∧ totalOpCount (props_of p) = n ∧
  GetInt (props_of p) "threadcount" 1 = t ∧ GetInt64 (props_of p) "insertstart" 0 = 0 ∧
  GetInt (props_of p) "batch.size" 1 = 1 ∧ GetString (props_of p) "workload" "core" = "core" ∧
  ∃ mw, InitMeasure (props_of p) = Ok mw.
Proof.
  intros Hraw Hn Habs Hi Ht.
  assert (∀ k, k ∈ ["insertstart"; "insertcount"; "batch.size"; "workload"; "measurementtype"; "warmuptime"] → pl_raw p !! k = None) as Hnone.
  { intros k Hk. rewrite Hraw. rewrite Forall_forall in Habs. specialize (Habs k Hk).
    rewrite !lookup_insert_ne; [done|..]; intros <-; by apply (bool_decide_pack _) in Hk. }
  assert (∀ b, GetBool (props_of p) "dotransactions" b = false) as Hb.
  { apply (pl_bool p _ false). rewrite Hraw. by rewrite !lookup_insert_ne, lookup_insert_eq by done. }
  destruct (pl_int p "recordcount" n) as [_ Hrc]; [|lia|done|].
  { rewrite Hraw. by rewrite !lookup_insert_ne by done. }
  destruct (pl_int p "threadcount" t) as [Hth _]; [by rewrite Hraw, lookup_insert_eq|lia|unfold in_int64 in *; lia|].
  pose proof (λ k H, pl_absent p k (Hnone k H)) as Hd.
  split_and!; [apply Hb| |apply Hth|apply Hd; set_solver..|].
  - unfold totalOpCount. rewrite Hb, pl_Has, Hnone by set_solver. apply Hrc.
  - unfold InitMeasure. destruct (Hd "measurementtype" ltac:(set_solver)) as [-> _]. by eexists.
Qed.
End Props.

(** A client with no more threads than operations starts. *)
Lemma run_starts {R D} p c (d : D) (r : nat → R) : 0 < GetInt p "threadcount" 1 → GetInt p "threadcount" 1 <= totalOpCount p →
  ∃ s, Run p c d r = Ok s.
Proof.
  intros Hn Hle. unfold Run. set (n := GetInt p "threadcount" 1) in *. rewrite (proj2 (Z.ltb_ge n 0)) by lia.
  assert (∀ ids, ∃ ts, start_threads c p n r ids = Ok ts) as H; [|destruct (H (seq 0 (Z.to_nat n))) as [ts ->]; by eexists].
  induction ids as [|id ids [ts IH]]; [by eexists|]. cbn [start_threads]. unfold start_thread, newWorker.
  rewrite (proj2 (Z.ltb_ge (totalOpCount p) n)) by lia. rewrite (proj2 (Z.eqb_neq n 0)) by lia.
  case_match. cbn [obind]. rewrite IH. by eexists.
Qed.

(** ** The load command *)


(** ** A concrete properties package *)

#[export] Instance map_props : PropsLib (gmap string string) :=
  mkPropsLib (gmap string string) ∅ (λ _, Exit "no such file") (λ k v m, <[k := v]> m)
    (λ m, mkProperties (λ k d, default d (m !! k))
      (λ k d, match m !! k with Some v => default d (dec_go v 0) | None => d end)
      (λ k d, match m !! k with Some v => default d (dec_go v 0) | None => d end)
      (λ k d, match m !! k with Some v => match dec_parse v with inl x => x | inr _ => d end | None => d end)
      (λ k d, match m !! k with Some v => String.eqb v "true" | None => d end)
      (λ k, bool_decide (is_Some (m !! k)))).

Lemma dec_go_itoa n : 0 <= n → dec_go (itoa n) 0 = Some n.
Proof.
  intros Hn. unfold itoa. destruct n as [|q|q]; [done| |lia].
  change (pretty (Z.pos q)) with (pretty_N_go (N.pos q) ""). by rewrite dec_go_pretty.
Qed.

#[export, refine] Instance map_laws : PropsLaws (gmap string string) := mkPropsLaws (gmap string string) _ id _ _ _ _ _ _ _.
Proof.
  - done.
  - done.
  - done.
  - intros m k Hk. unfold id in Hk. cbn. by rewrite Hk.
  - intros m k v Hk _ d. unfold id in Hk. cbn. by rewrite Hk.
  - intros m k n Hk Hn _. unfold id in Hk. cbn. by rewrite Hk, dec_go_itoa.
  - intros m k b Hk d. unfold id in Hk. cbn. rewrite Hk. by destruct b.
Defined.

Definition demo_kvs : list (string * string) := [("fieldcount", "2"); ("fieldlength", "12"); ("recordcount", "3")].
Definition demo_raw : gmap string string :=
  <["threadcount" := "2"]> (<["command" := "load"]> (<["dotransactions" := "false"]> (given demo_kvs))).
Definition demo_workloads : gmap string (Properties → Outcome (core + error)) :=
  {["core" := core_creator (λ x, x) pow_one (λ x, x) (λ _, inr "no such file") ([] : list Z)]}.
Definition demo_dbs : gmap string (Properties → Outcome (MemDB + error)) := {["mem" := λ _, Ok (inl ∅)]}.
Definition demo_flags : Flags := mkFlags [] (prop_flags demo_kvs) "" (Some 2) None None.

Definition created (o : Outcome core * list Z) : bool := match o with (Ok _, _) => true | _ => false end.

Lemma demo_created :
  let create := Create (λ x, x) pow_one (λ x, x) (λ _, inr "no such file") (props_of demo_raw) ([] : list Z) in
  create = (Ok (core_of (props_of demo_raw)), create.2).
Proof.
  cbv zeta. unfold core_of. assert (created (Create (λ x, x) pow_one (λ x, x) (λ _, inr "no such file") (props_of demo_raw) []) = true) as H
    by (vm_compute; reflexivity).
  by destruct (Create _ _ _ _ _ _) as [[c|?|?|] r].
Qed.


(** ** The shell *)

Inductive Readline := RLine (line : string) | RInterrupt | REOF | RError.

Section Shell.
(** [D] is the wrapped database.  [range] is the order of a map's entries, [quote]
    is the format [%q], [nil_row] tells a nil map from an empty one, [find] is how
    the command-line package resolves a command, [usage] its help. *)
Context {D : Type} `{!YcsbDB D} (range : row → list (string * bytes)) (quote : bytes → string) (nil_row : row → bool).
Context (find : list string → (string * list string) + error) (usage : list string).

Record Shell := mkShell { sh_table : string; sh_db : D }.

Definition on_shell_db {A} (m : PM D A) : PM Shell A := pfocus sh_db (λ d s, mkShell (sh_table s) d) m.
Definition get_table : PM Shell string := λ s, (Ok (sh_table s), s).
Definition print_row (r : row) : list string := map (λ kv, kv.1 +:+ "=" +:+ quote kv.2) (range r).

Definition runShellReadCommand (key : string) (fields : list string) : PM Shell (list string) :=
  table <~ get_table ;;
  r <~ on_shell_db (db_Read table key fields) ;;
  pret match r with
       | inr err => ["Read " +:+ key +:+ " failed " +:+ err]
       | inl v => if nil_row v then ["Read empty for " +:+ key] else ("Read " +:+ key +:+ " ok") :: print_row v
       end.

Definition runShellScanCommand (key count : string) (fields : list string) : PM Shell (list string) :=
  match Atoi count with
  | None => pret ["invalid record count " +:+ count +:+ " for scan"]
  | Some n =>
      table <~ get_table ;;
      r <~ on_shell_db (db_Scan table key n fields) ;;
      pret match r with
           | inr err => ["Scan from " +:+ key +:+ " with " +:+ itoa n +:+ " failed " +:+ err]
           | inl [] => ["0 records"]
           | inl rows =>
               ["--------------------------------"] ++
               concat (imap (λ i v, ("Record " +:+ itoa (Z.of_nat i + 1)) :: print_row v) rows) ++
               ["--------------------------------"]
           end
  end.

(** The arguments field=value; one without "=" is an index out of range. *)
Fixpoint pair_values (args : list string) (values : row) : Outcome row :=
  match args with
  | [] => Ok values
  | arg :: args =>
      match SplitN2 "=" arg with
      | k :: v :: _ => pair_values args (<[k := go_bytes v]> values)
      | _ => Panic "index out of range"
      end
  end.

Definition runShellWriteCommand (name : string) (op : string → string → row → PM D (option error)) (key : string)
    (args : list string) : PM Shell (list string) :=
  match pair_values args ∅ with
  | Ok values =>
      table <~ get_table ;;
      r <~ on_shell_db (op table key values) ;;
      pret [match r with
            | Some err => name +:+ " " +:+ key +:+ " failed " +:+ err
            | None => name +:+ " " +:+ key +:+ " ok"
            end]
  | Panic msg => pfail (Panic msg)
  | Exit msg => pfail (Exit msg)
  | OutOfFuel => pfail OutOfFuel
  end.
Definition runShellInsertCommand := runShellWriteCommand "Insert" db_Insert.
Definition runShellUpdateCommand := runShellWriteCommand "Update" db_Update.

Definition runShellDeleteCommand (key : string) : PM Shell (list string) :=
  table <~ get_table ;;
  r <~ on_shell_db (db_Delete table key) ;;
  pret [match r with Some err => "Delete " +:+ key +:+ " failed " +:+ err | None => "Delete " +:+ key +:+ " ok" end].

Definition runShellTableCommand (args : list string) : PM Shell (list string) :=
  (match args with [name] => pmodify (λ s, mkShell name (sh_db s)) | _ => pret tt end) ~;
  table <~ get_table ;;
  pret ["Using table " +:+ table].

(** The commands with the numbers of arguments they take. *)
Definition runShellCommand (args : list string) : PM Shell (list string) :=
  match find args with
  | inr _ => pret usage
  | inl (name, args) =>
      if String.eqb name "read" then
        match args with key :: fields => runShellReadCommand key fields | _ => pret usage end
      else if String.eqb name "scan" then
        match args with key :: count :: fields => runShellScanCommand key count fields | _ => pret usage end
      else if String.eqb name "insert" then
        match args with key :: arg :: args => runShellInsertCommand key (arg :: args) | _ => pret usage end
      else if String.eqb name "update" then
        match args with key :: arg :: args => runShellUpdateCommand key (arg :: args) | _ => pret usage end
      else if String.eqb name "delete" then
        match args with key :: _ => runShellDeleteCommand key | _ => pret usage end
      else if String.eqb name "table" then
        match args with [] | [_] => runShellTableCommand args | _ => pret usage end
      else pret usage
  end.

(** The loop, over what the line editor returns. *)
Fixpoint shellLoop (inputs : list Readline) : PM Shell (list string) :=
  match inputs with
  | [] | RInterrupt :: _ | REOF :: _ => pret []
  | RError :: inputs => shellLoop inputs
  | RLine line :: inputs =>
      if String.eqb line "exit" then pret []
      else
        out <~ runShellCommand (go_split " " (TrimSpace line)) ;;
        rest <~ shellLoop inputs ;;
        pret (out ++ rest)
  end.
End Shell.
Arguments mkShell {D}.
Arguments sh_table {D}.
Arguments sh_db {D}.

(** [runShellCommandFunc]: the shell of a database, from the command line to the
    end of the loop. *)
Definition runShellCommandFunc {P D} `{!PropsLib P} `{!YcsbDB D} workloads dbs clock range quote nil_row find usage
    (flags : Flags) (dbName : string) (inputs : list Readline) : Outcome (list string * Shell (D := D * YWorld)) :=
  let! g := initialGlobal (P := P) workloads dbs clock flags dbName id in
  match shellLoop range quote nil_row find usage inputs (mkShell (g_table g) (g_db g)) with
  | (Ok out, s) => Ok (out, s)
  | (Panic msg, _) => Panic msg
  | (Exit msg, _) => Exit msg
  | (OutOfFuel, _) => OutOfFuel
  end.

(** ** The wrapper keeps the contract of a table database *)

Section WrapperTable.
Context {D : Type} `{!YcsbDB D} `{!TableDB D}.

Lemma measured_returns {A} op (err_of : A → option error) (m : PM D A) d yw (Q : A → D → Prop) :
  returns (m d) Q → returns (measured op err_of m (d, yw)) (λ a s, Q a s.1).
Proof.
  unfold measured, measure, pbind, y_now, on_db, pfocus, y_measure, pmodify, pret. simpl. destruct (m d) as [[a|?|?|] d']; [|done..].
  by destruct (err_of a).
Qed.

#[export, refine] Instance wrapper_table : TableDB (D * YWorld) :=
  mkTableDB (D * YWorld) _ (tb_knows (D := D)) (tb_value (D := D)) (λ s, tb_up s.1) (λ T s m, tb_rel T s.1 m) _ _ _ _ _ _.
Proof.
  - intros T key fields [d yw] m Hr. exact (measured_returns "READ" err_of_sum _ d yw _ (tb_Read T key fields d m Hr)).
  - intros T key n fields [d yw] m Hr Hn. exact (measured_returns "SCAN" err_of_sum _ d yw _ (tb_Scan T key n fields d m Hr Hn)).
  - intros T key n fields [d yw] m Hr Hn. pose proof (tb_Scan_negative T key n fields d m Hr Hn) as H. simpl.
    unfold wrapper_Scan, measured, measure, pbind, y_now, on_db, pfocus, y_measure, pmodify, pret. simpl.
    destruct (db_Scan T key n fields d) as [[a|?|?|] d']; [|done..]. by destruct (err_of_sum a).
  - intros T key values [d yw] m Hr Hf. exact (measured_returns "INSERT" id _ d yw _ (tb_Insert T key values d m Hr Hf)).
  - intros T key values [d yw] m Hr Hf. exact (measured_returns "UPDATE" id _ d yw _ (tb_Update T key values d m Hr Hf)).
  - intros T key [d yw] m Hr. exact (measured_returns "DELETE" id _ d yw _ (tb_Delete T key d m Hr)).
Defined.
End WrapperTable.

(** ** Sessions of the shell *)

(** A word of a line: graphic characters, not a flag. *)
Definition word (w : string) : bool :=
  match w with
  | EmptyString => false
  | String c _ => negb (Ascii.eqb c "-") && forallb graphic (String.list_ascii_of_string w)
  end.

Lemma word_graphic w : word w = true → w ≠ "" ∧ forallb graphic (String.list_ascii_of_string w) = true.
Proof. destruct w as [|c w]; [done|]. by intros [_ H]%andb_true_iff. Qed.

Lemma graphic_trimmed w : w ≠ "" → forallb graphic (String.list_ascii_of_string w) = true → trimmed w.
Proof.
  intros Hne Hw. split.
  - destruct w as [|c w]; [done|]. exists c, w. simpl in Hw. by apply andb_true_iff in Hw as [Hw _].
  - destruct (string_rev w) as [|c t] eqn:E; [by rewrite <- (string_rev_involutive w), E in Hne|]. exists c, t. split; [done|].
    rewrite forallb_forall in Hw. apply Hw, in_rev.
    assert (String.list_ascii_of_string (string_rev w) = rev (String.list_ascii_of_string w)) as <-
      by (unfold string_rev; apply String.list_ascii_of_string_of_list_ascii).
    rewrite E. by left.
Qed.

Lemma graphic_no_space w : forallb graphic (String.list_ascii_of_string w) = true → str_has " " w = false.
Proof.
  induction w as [|c w IH]; [done|]. simpl. intros [Hc Hw]%andb_true_iff. rewrite (IH Hw), orb_false_r.
  apply Ascii.eqb_neq. by intros ->.
Qed.

Lemma split_words ws : ws ≠ [] → Forall (λ w, word w = true) ws → go_split " " (Join ws " ") = ws.
Proof.
  intros Hne Hws. induction Hws as [|w ws Hw Hws IH]; [done|]. apply word_graphic in Hw as [_ Hw].
  destruct ws as [|w' ws]; [by apply go_split_none, graphic_no_space|].
  change (Join (w :: w' :: ws) " ") with (w +:+ String " " (Join (w' :: ws) " ")).
  rewrite go_split_head by (by apply graphic_no_space). by rewrite IH.
Qed.

Lemma words_trimmed ws : ws ≠ [] → Forall (λ w, word w = true) ws → trimmed (Join ws " ").
Proof.
  intros Hne Hws. induction Hws as [|w ws Hw Hws IH]; [done|]. apply word_graphic in Hw as [Hw0 Hw].
  destruct (graphic_trimmed w Hw0 Hw) as [(c & t & Hct & Hc) Hrev]. destruct ws as [|w' ws]; [by apply graphic_trimmed|].
  change (Join (w :: w' :: ws) " ") with (w +:+ " " +:+ Join (w' :: ws) " ").
  destruct (IH ltac:(done)) as [_ (c' & t' & Hr & Hc')]. split.
  - rewrite Hct, append_cons. by eexists _, _.
  - rewrite <- append_assoc, string_rev_app, Hr, append_cons. by eexists _, _.
Qed.

Lemma TrimSpace_words ws : ws ≠ [] → Forall (λ w, word w = true) ws → go_split " " (TrimSpace (Join ws " ")) = ws.
Proof.
  intros Hne Hws. rewrite <- (append_nil_r (Join ws " ")). change (Join ws " " +:+ "") with (spaces 0 +:+ Join ws " " +:+ spaces 0).
  rewrite TrimSpace_trimmed by (by apply words_trimmed). by apply split_words.
Qed.

(** The line that asks for a call. *)
Definition pair_arg (kv : string * bytes) : string := kv.1 +:+ "=" +:+ String.string_of_list_byte kv.2.

Definition call_words (c : tb_call) : list string :=
  match c with
  | CallRead key fields => "read" :: key :: fields
  | CallInsert key values => "insert" :: key :: map pair_arg (map_to_list values)
  | CallUpdate key values => "update" :: key :: map pair_arg (map_to_list values)
  | CallDelete key => ["delete"; key]
  end.
Definition call_line (c : tb_call) : string := Join (call_words c) " ".

(** Calls that can be typed. *)
Definition typable (c : tb_call) : bool :=
  forallb word (call_words c) &&
  match c with
  | CallInsert _ values | CallUpdate _ values =>
      negb (bool_decide (values = ∅)) && forallb (λ kv, negb (str_has "=" kv.1)) (map_to_list values)
  | _ => true
  end.

Lemma pair_values_typed l : Forall (λ kv, str_has "=" kv.1 = false) l → ∀ acc,
  pair_values (map pair_arg l) acc = Ok (fold_left (λ m kv, <[kv.1 := kv.2]> m) l acc).
Proof.
  induction 1 as [|[k v] l Hk _ IH]; intros acc; [done|]. simpl in Hk. cbn [map pair_values fold_left]. unfold pair_arg at 1. cbn [fst snd].
  rewrite split_prop by done. rewrite IH. unfold go_bytes. by rewrite String.list_byte_of_string_of_list_byte.
Qed.

Lemma pair_values_map (values : row) : forallb (λ kv, negb (str_has "=" kv.1)) (map_to_list values) = true →
  pair_values (map pair_arg (map_to_list values)) ∅ = Ok values.
Proof.
  intros H. rewrite pair_values_typed.
  - f_equal. rewrite <- fold_left_rev_right. trans (list_to_map (rev (map_to_list values)) : row); [done|].
    rewrite <- (list_to_map_to_list values) at 2. apply list_to_map_proper.
    + rewrite <- Permutation_rev. apply NoDup_fst_map_to_list.
    + by rewrite <- Permutation_rev.
  - rewrite forallb_forall in H. apply Forall_forall. intros kv Hkv%list_elem_of_In. by apply H, negb_true_iff in Hkv.
Qed.

Section Session.
Context {D : Type} `{!YcsbDB D} (range : row → list (string * bytes)) (quote : bytes → string) (nil_row : row → bool).
Context (find : list string → (string * list string) + error) (usage : list string).
(** The command-line package finds a command by its full name when no argument
    looks like a flag. *)
Context (find_spec : ∀ name args, name ∈ ["read"; "scan"; "insert"; "update"; "delete"; "table"] →
  Forall (λ w, word w = true) args → find (name :: args) = inl (name, args)).

(** What the shell prints for an answer. *)
Definition render (c : tb_call) (a : answer) : list string :=
  let outcome name key := match a with inr (Some err) => [name +:+ " " +:+ key +:+ " failed " +:+ err] | _ => [name +:+ " " +:+ key +:+ " ok"] end in
  match c with
  | CallRead key _ =>
      match a with
      | inl v => if nil_row v then ["Read empty for " +:+ key] else ("Read " +:+ key +:+ " ok") :: print_row range quote v
      | _ => outcome "Read" key
      end
  | CallInsert key _ => outcome "Insert" key
  | CallUpdate key _ => outcome "Update" key
  | CallDelete key => outcome "Delete" key
  end.

Lemma shell_write name op (run : string → list string → PM Shell (list string)) T key values (d : D) :
  negb (bool_decide (values = ∅)) && forallb (λ kv, negb (str_has "=" kv.1)) (map_to_list values) = true →
  run = runShellWriteCommand name op →
  match map pair_arg (map_to_list values) with arg :: args => run key (arg :: args) | [] => pret usage end (mkShell T d) =
  match op T key values d with
  | (Ok r, d') => (Ok [match r with Some err => name +:+ " " +:+ key +:+ " failed " +:+ err | None => name +:+ " " +:+ key +:+ " ok" end],
                   mkShell T d')
  | (Panic msg, d') => (Panic msg, mkShell T d')
  | (Exit msg, d') => (Exit msg, mkShell T d')
  | (OutOfFuel, d') => (OutOfFuel, mkShell T d')
  end.
Proof.
  intros [Hne Hv]%andb_true_iff ->. pose proof (pair_values_map values Hv) as Hp.
  destruct (map pair_arg (map_to_list values)) as [|arg args] eqn:E.
  - apply map_eq_nil, map_to_list_empty_iff in E. by rewrite bool_decide_true in Hne.
  - unfold runShellWriteCommand. rewrite Hp. unfold get_table, on_shell_db, pfocus, pbind, pret. cbn.
    by destruct (op T key values d) as [[[err|]|?|?|] d'].
Qed.

(** A typed line makes its call on the current table. *)
Lemma shell_call T c (d : D) : typable c = true →
  runShellCommand range quote nil_row find usage (call_words c) (mkShell T d) =
  match run_call T c d with
  | (Ok a, d') => (Ok (render c a), mkShell T d')
  | (Panic msg, d') => (Panic msg, mkShell T d')
  | (Exit msg, d') => (Exit msg, mkShell T d')
  | (OutOfFuel, d') => (OutOfFuel, mkShell T d')
  end.
Proof.
  unfold typable. intros [Hw Hv]%andb_true_iff.
  assert (∀ n ws, call_words c = n :: ws → Forall (λ w, word w = true) ws) as Hargs.
  { intros n ws E. rewrite E in Hw. cbn [forallb] in Hw. apply andb_true_iff in Hw as [_ Hw]. rewrite forallb_forall in Hw.
    apply Forall_forall. intros w Hin%list_elem_of_In. by apply Hw. }
  unfold runShellCommand. destruct c as [key fields|key values|key values|key]; cbn [call_words] in *;
    rewrite find_spec by (first [by apply Hargs with (1 := eq_refl)|set_solver]).
  - cbn. unfold runShellReadCommand, run_call, get_table, on_shell_db, pfocus, pbind, pret. cbn.
    destruct (db_Read T key fields d) as [[[v|err]|?|?|] d']; reflexivity.
  - etrans; [exact (shell_write "Insert" db_Insert _ T key values d Hv eq_refl)|].
    unfold run_call, pbind, pret. by destruct (db_Insert T key values d) as [[[err|]|?|?|] d'].
  - etrans; [exact (shell_write "Update" db_Update _ T key values d Hv eq_refl)|].
    unfold run_call, pbind, pret. by destruct (db_Update T key values d) as [[[err|]|?|?|] d'].
  - cbn. unfold runShellDeleteCommand, run_call, get_table, on_shell_db, pfocus, pbind, pret. cbn.
    destruct (db_Delete T key d) as [[[err|]|?|?|] d']; reflexivity.
Qed.

(** A session of typed lines makes the calls in order. *)
Lemma shell_calls T cs : Forall (λ c, typable c = true) cs → ∀ d : D,
  shellLoop range quote nil_row find usage (map (λ c, RLine (call_line c)) cs ++ [RLine "exit"]) (mkShell T d) =
  match run_calls T cs d with
  | (Ok l, d') => (Ok (concat (zip_with render cs l)), mkShell T d')
  | (Panic msg, d') => (Panic msg, mkShell T d')
  | (Exit msg, d') => (Exit msg, mkShell T d')
  | (OutOfFuel, d') => (OutOfFuel, mkShell T d')
  end.
Proof.
  induction 1 as [|c cs Hc _ IH]; intros d; [reflexivity|]. cbn [map app shellLoop].
  assert (call_words c ≠ [] ∧ Forall (λ w, word w = true) (call_words c)) as [Hne Hws].
  { unfold typable in Hc. apply andb_true_iff in Hc as [Hc _]. rewrite forallb_forall in Hc. split; [by destruct c|].
    apply Forall_forall. intros w Hin%list_elem_of_In. by apply Hc. }
  assert (String.eqb (call_line c) "exit" = false) as ->.
  { apply String.eqb_neq. intros E. apply (f_equal (go_split " ")) in E. unfold call_line in E. rewrite split_words in E by done.
    by destruct c. }
  unfold call_line at 1, pbind at 1. rewrite TrimSpace_words, shell_call by done. cbn [run_calls]. unfold pbind at 2.
  destruct (run_call T c d) as [[a|?|?|] d1]; [|done..]. unfold pbind at 1. rewrite IH. unfold pbind.
  by destruct (run_calls T cs d1) as [[l|?|?|] d2].
Qed.
End Session.

(** C21: the shell refines a map of rows.  On a table database behind the measuring
    wrapper, a session of typed reads, inserts, updates and deletes of rows that
    are there prints, line by line, what the map from keys to rows answers, leaves
    the rows of the map, and ends; it needs a storage that refuses no call. *)
Theorem shell_refines_table {D} `{!YcsbDB D} `{!TableDB D} (range : row → list (string * bytes)) (quote : bytes → string)
    (nil_row : row → bool) (find : list string → (string * list string) + error) (usage : list string)
    (T : string) (cs : list tb_call) (d : D) (yw : YWorld) (m : table) :
  (∀ name args, name ∈ ["read"; "scan"; "insert"; "update"; "delete"; "table"] →
     Forall (λ w, word w = true) args → find (name :: args) = inl (name, args)) →
  tb_rel T d m → tb_up d → Forall (call_fits (D := D)) cs → Forall (λ c, typable c = true) cs → calls_present cs m →
  ∃ s', shellLoop range quote nil_row find usage (map (λ c, RLine (call_line c)) cs ++ [RLine "exit"]) (mkShell T (d, yw)) =
      (Ok (concat (zip_with (render range quote nil_row) cs (spec_calls cs m).1)), s') ∧
    sh_table s' = T ∧ tb_rel T (sh_db s').1 (spec_calls cs m).2.
Proof.
  intros Hfind Hr Hup Hfit Htyp Hpres. rewrite (shell_calls range quote nil_row find usage Hfind T cs Htyp (d, yw)).
  pose proof (run_calls_spec (D := D * YWorld) T cs (d, yw) m Hr Hfit) as H.
  destruct (run_calls T cs (d, yw)) as [[l|?|?|] d']; [|done..]. destruct H as [_ H]. destruct (H Hpres) as [Hok Hall].
  destruct (Hok (Hall Hup)) as [-> Hrel]. by eexists.
Qed.

(** The reference database keeps the contract. *)
#[export, refine] Instance mem_table : TableDB MemDB :=
  mkTableDB MemDB _ (λ _, True) (λ _, True) (λ _, True) (λ T d m, ∀ key, d !! (T, key) = m !! key) _ _ _ _ _ _.
Proof.
  - intros T key fields d m Hr. simpl. split_and!; [done|done|]. intros _. unfold mem_row, old_row. by rewrite Hr.
  - by intros.
  - by intros.
  - intros T key values d m Hr _. simpl. split; [done|]. left. unfold MemDB in *. intros key'.
    destruct (decide (key' = key)) as [->|]; [by rewrite !lookup_insert_eq|]. rewrite !lookup_insert_ne by congruence. apply Hr.
  - intros T key values d m Hr _. simpl. split; [done|]. left. unfold MemDB in *. intros key'. unfold mem_row, old_row. rewrite Hr.
    destruct (decide (key' = key)) as [->|]; [by rewrite !lookup_insert_eq|]. rewrite !lookup_insert_ne by congruence. apply Hr.
  - intros T key d m Hr. simpl. split; [done|]. left. unfold MemDB in *. intros key'.
    destruct (decide (key' = key)) as [->|]; [by rewrite !lookup_delete_eq|]. rewrite !lookup_delete_ne by congruence. apply Hr.
Defined.

Definition demo_session : list tb_call :=
  [CallInsert "user1" {["field0" := go_bytes "a=b"]}; CallUpdate "user1" {["field1" := go_bytes "c"]}; CallRead "user1" ["field0"];
   CallDelete "user1"].
Definition demo_find (args : list string) : (string * list string) + error :=
  match args with name :: args => inl (name, args) | [] => inr "no command" end.
Definition demo_quote (b : bytes) : string := "'" +:+ String.string_of_list_byte b +:+ "'".

Lemma shell_refines_table_witness :
  let yw := mkYW (λ k, tm (Z.of_nat k)) 0 false (MHistograms ∅) in
  ∃ s', shellLoop map_to_list demo_quote (λ r, bool_decide (r = ∅)) demo_find []
      [RLine "insert user1 field0=a=b"; RLine "update user1 field1=c"; RLine "read user1 field0"; RLine "delete user1"; RLine "exit"]
      (mkShell "usertable" (∅ : MemDB, yw)) =
    (Ok ["Insert user1 ok"; "Update user1 ok"; "Read user1 ok"; "field0='a=b'"; "Delete user1 ok"], s') ∧
    sh_table s' = "usertable" ∧ ∀ key, (sh_db s').1 !! ("usertable", key) = (∅ : TableDb.table) !! key.
Proof.
  cbv zeta. destruct (shell_refines_table (D := MemDB) map_to_list demo_quote (λ r, bool_decide (r = ∅)) demo_find [] "usertable"
    demo_session ∅ (mkYW (λ k, tm (Z.of_nat k)) 0 false (MHistograms ∅)) ∅) as (s' & Hs & Ht & Hr).
  - done.
  - intros key. reflexivity.
  - exact I.
  - repeat constructor; try (by intros f v _).
  - repeat (constructor; [vm_compute; reflexivity|]). constructor.
  - vm_compute. split_and!; try exact I; by eexists.
  - exists s'. split_and!; [|exact Ht|].
    + etrans; [|etrans; [exact Hs|]]; [f_equal; vm_compute; reflexivity|]. f_equal; vm_compute; reflexivity.
    + assert ((spec_calls demo_session ∅).2 = ∅) as E by (vm_compute; reflexivity). rewrite E in Hr. exact Hr.
Defined.

(** ** Where the commands differ from what they say or mean *)

(** load and run have a flag for the table ("Use the table name instead of the
    default"); the client does not depend on it. *)
Theorem table_flag_unused {P R D} `{!PropsLib P} `{!YcsbDB D} workloads dbs clock files values table table' threads target interval
    dbName tx command (r : nat → R) :
  runClientCommandFunc (P := P) (D := D) workloads dbs clock (mkFlags files values table threads target interval) dbName tx command r =
  runClientCommandFunc workloads dbs clock (mkFlags files values table' threads target interval) dbName tx command r.
Proof.
  unfold runClientCommandFunc, initialGlobal. cbn [fl_propertyFiles fl_propertyValues fl_tableName].
  change (client_properties (mkFlags files values table' threads target interval)) with
    (client_properties (P := P) (mkFlags files values table threads target interval)).
  destruct (match files with [] => _ | _ => _ end) as [p|?|?|]; [|done..]. cbn [obind].
  destruct (set_values values p) as [p'|?|?|]; [|done..]. cbn [obind].
  destruct (InitMeasure _) as [mw|?|?|]; [|done..]. cbn [obind].
  destruct (workloads !! _) as [w|]; [|done]. destruct (w _) as [[c|err]|?|?|]; [|done..]. cbn [obind].
  destruct (dbs !! dbName) as [b|]; [|done]. by destruct (b _) as [[d|err]|?|?|].
Qed.

(** A workload that is not registered is a nil pointer, where a database that is
    not registered is reported. *)
Theorem unregistered_workload_panics {P D} `{!PropsLib P} `{!PropsLaws P} `{!YcsbDB D} workloads
    (dbs : gmap string (Properties → Outcome (D + error))) clock name dbName :
  plain name = true → workloads !! name = None → name ≠ "" →
  initialGlobal (P := P) workloads dbs clock (mkFlags [] (prop_flags [("workload", name)]) "" None None None) dbName id =
  Panic "invalid memory address or nil pointer dereference".
Proof.
  intros Hp Hw Hne. unfold initialGlobal. cbn [fl_propertyFiles fl_propertyValues obind].
  destruct (set_values_spec (P := P) [("workload", name)]) with (p := props_New (P := P)) as (p & -> & Hr); [by repeat constructor|].
  rewrite pl_New in Hr. cbn [fold_left fst snd] in Hr. cbn [obind]. unfold id.
  assert (∃ mw, InitMeasure (props_of p) = Ok mw) as [mw ->].
  { unfold InitMeasure. destruct (pl_absent p "measurementtype") as [-> _]; [by rewrite Hr|]. by eexists. }
  cbn [obind]. cbv zeta. rewrite (pl_string p "workload" name) by (try done; by rewrite Hr, lookup_insert_eq).
  change (workloads !! name) with (workloads !! name : option (Properties → Outcome (core + error))). by rewrite Hw.
Qed.

(** An argument of insert or update without "=" ends the shell. *)
Theorem shell_argument_panics {D} `{!YcsbDB D} range quote nil_row find usage key arg (s : Shell (D := D)) :
  str_has "=" arg = false → find ["insert"; key; arg] = inl ("insert", [key; arg]) →
  (runShellCommand range quote nil_row find usage ["insert"; key; arg] s).1 = Panic "index out of range".
Proof.
  intros Ha Hf. unfold runShellCommand. rewrite Hf. cbn. unfold runShellInsertCommand, runShellWriteCommand. cbn [pair_values].
  assert (SplitN2 "=" arg = [arg]) as ->; [|done]. clear Hf. induction arg as [|c arg IH]; [done|]. simpl in Ha.
  apply orb_false_iff in Ha as [Hc Ha]. cbn [SplitN2]. by rewrite Hc, IH.
Qed.
