(* ===== verification/System.v ===== *)
(** * System: a whole cluster of running nodes

    [Cluster] has the servers of a cluster, [Node] everything that runs in one
    node.  A [System] is a cluster of nodes started by [start_node], each with its
    probe, engine and adjuster; the other nodes' servers are the network of each.
    Every step of a system is one or more steps of the cluster of its servers
    ([sys_step_simulates]), which carries the guarantee on quorum reads over. *)

From S2P Require Import Prelude GoLib Float64 Metrics Hlc Storage Staleness Ring WriteLog.
From S2P Require Import Reconcile GoParse Config Quorum MetricsReader Ccs Adjuster Api.
From S2P Require Import Coordinator Server Cluster Health Node.

Open Scope Z_scope.

Abbreviation Net := (Cluster NodeQuorum).

Record System := mkSystem {
  sy_nodes : gmap string Node;       (* by target *)
  sy_faults : list fault;
}.

Definition servers (y : System) : Net := mkCluster (nd_server <$> sy_nodes y) (sy_faults y).

(** The system after the node at [a] has become [n] and its calls have changed
    the servers of the others to those of [e]. *)
Definition rejoin (a : string) (n : Node) (e : Net) (y : System) : System :=
  mkSystem
    (<[target_of a := n]>
       (map_imap (λ t m, Some (with_server (default (nd_server m) (cl_nodes e !! t)) m)) (sy_nodes y)))
    (cl_faults e).

(** A client's operation at the node [a]. *)
Definition sys_at {A} (a : string) (op : GoM (Server NodeQuorum * Net) A) : GoM System (option A) :=
  λ y w,
    match sy_nodes y !! target_of a with
    | None => (None, y, w)
    | Some n =>
        let '(r, (s', e'), w') := op (nd_server n, others a (servers y)) w in
        (Some r, rejoin a (with_server s' n) e' y, w')
    end.

(** Everything that happens in a cluster of nodes.  [G] restricts the timestamps
    of writes; discovery is assumed to find the other members. *)
Inductive sys_step (U : gset string) (G : string → HLC → Prop) : System → System → Prop :=
  | SPut a sched req y w r y' w' :
      a ∈ U → fair_schedule sched →
      (∀ n, sy_nodes y !! target_of a = Some n → G (preq_Key req) (put_stamp (nd_server n) w)) →
      sys_at a (Server_Put sched req) y w = (r, y', w') → sys_step U G y y'
  | SGet a sched req y w r y' w' :
      a ∈ U → fair_schedule sched →
      sys_at a (Server_Get sched req) y w = (r, y', w') → sys_step U G y y'
  | SProbe a n cl addr y w r p' l' e' w' :
      sy_nodes y !! target_of a = Some n → pb_peers (nd_probe n) !! addr = Some cl →
      checkPeer cl addr (nd_probe n, if nd_listening n then sv_reconciler (nd_server n) else None, others a (servers y)) w
        = (r, (p', l', e'), w') →
      sys_step U G y
        (rejoin a (mkNode (nd_cfg n)
           (if nd_listening n then set_engine l' (sv_store (nd_server n)) (nd_server n) else nd_server n)
           p' (nd_listening n) (nd_adjuster n)) e' y)
  | SAdjust a n reg adj cc aq y w r aq' cc' w' :
      sy_nodes y !! target_of a = Some n → nd_adjuster n = Some (adj, cc) →
      sv_quorumProvider (nd_server n) = QAdaptive aq →
      adjustQuorum adj reg (GetPeerAddresses (sv_coordinator (nd_server n))) (aq, cc) w = (r, (aq', cc'), w') →
      sys_step U G y
        (rejoin a (mkNode (nd_cfg n) (set_quorum_provider (QAdaptive aq') (nd_server n)) (nd_probe n) (nd_listening n)
           (Some (adj, cc'))) (others a (servers y)) y)
  | SEngine a n ev eng y w go st' eng' w' :
      sy_nodes y !! target_of a = Some n → sv_reconciler (nd_server n) = Some eng →
      engine_iter ev (sv_store (nd_server n), eng) w = (go, (st', eng'), w') →
      sys_step U G y
        (rejoin a (with_server (set_engine (Some eng') st' (nd_server n)) n) (others a (servers y)) y)
  | SDiscover a n o1 o2 new y :
      sy_nodes y !! target_of a = Some n → fair_schedule o1 → fair_schedule o2 → list_to_set new = U ∖ {[a]} →
      sys_step U G y
        (rejoin a (with_server (set_coordinator (reconcilePeers (E := Net) o1 o2 new (sv_coordinator (nd_server n)))
                                 (nd_server n)) n) (others a (servers y)) y)
  | SDiscoverProbe a n o1 o2 new y :
      sy_nodes y !! target_of a = Some n → fair_schedule o1 → fair_schedule o2 →
      sys_step U G y
        (rejoin a (mkNode (nd_cfg n) (nd_server n) (Probe_reconcilePeers (E := Net) o1 o2 new (nd_probe n)).1.1
           (nd_listening n) (nd_adjuster n)) (others a (servers y)) y)
  | SFaults fs y : sys_step U G y (mkSystem (sy_nodes y) fs).

(** The nodes of [U] have just been started, each with the others as its peers,
    with fixed quorums of [r] and [q] nodes. *)
Definition initial (U : gset string) (r q : Z) (y : System) : Prop :=
  dom (sy_nodes y) = set_map target_of U ∧
  ∀ a n, sy_nodes y !! target_of a = Some n →
    (∃ getenv ParseFloat w w', start_node (E := Net) getenv ParseFloat tt w = (inl n, tt, w')) ∧
    let cfg := nd_cfg n in
    list_to_set (cfg_Peers cfg) = U ∖ {[a]} ∧ NoDup (cfg_Peers cfg) ∧
    cfg_AdaptiveEnabled cfg = false ∧ cfg_R cfg = r ∧ cfg_W cfg = q.

(** ** A system and the cluster of its servers *)

(** What a node's calls leave of the other servers: the same ones, well-formed,
    with their quorums. *)
Definition follows (e0 e : Net) : Prop :=
  dom (cl_nodes e) = dom (cl_nodes e0) ∧
  ∀ t s, cl_nodes e !! t = Some s →
    server_wf s ∧ ∃ s0, cl_nodes e0 !! t = Some s0 ∧ sv_quorumProvider s = sv_quorumProvider s0.

Lemma follows_refl e : all_wf e → follows e e.
Proof. intros Hwf. split; [done|]. intros t s Hs. split; [by eapply Hwf|]. by exists s. Qed.

Lemma follows_faults e0 e fs : follows e0 e → follows e0 (mkCluster (cl_nodes e) fs).
Proof. done. Qed.

Lemma follows_insert e0 e t s s' fs :
  follows e0 e → cl_nodes e !! t = Some s → server_wf s' → same_setup s s' →
  follows e0 (mkCluster (<[t := s']> (cl_nodes e)) fs).
Proof.
  intros [Hd Hf] Hs Hwf (_ & _ & Hq & _). split; simpl; [by rewrite dom_insert_lookup_L by eauto|].
  intros t' s1. rewrite lookup_insert_Some. intros [[<- <-]|[_ Hs1]]; [|by apply Hf].
  destruct (Hf t s Hs) as (_ & s0 & Hs0 & Hq0). split; [done|]. exists s0. split; [done|congruence].
Qed.

(** A remote call whose handler keeps its server well-formed. *)
Lemma follows_call {A} e0 t (m : GoM (Server NodeQuorum) (option A)) e w :
  (∀ s w, server_wf s → server_wf (m s w).1.2 ∧ same_setup s (m s w).1.2) →
  follows e0 e → follows e0 (call_at t m e w).1.2.
Proof.
  intros Hm Hf. unfold call_at. destruct (cl_nodes e !! t) as [s|] eqn:Es; [|done].
  destruct (Hm s w) as [Hwf Hset]; [by apply (proj2 Hf t s)|].
  destruct (m s w) as [[r s'] w']. simpl in *.
  destruct (default _ _); [destruct r| |destruct r]; try done; by eapply follows_insert.
Qed.

Lemma follows_replicate e0 t req e w : follows e0 e → follows e0 (net_Replicate t req e w).1.2.
Proof.
  apply follows_call. intros s w1 Hwf.
  destruct (server_replicate_spec req s w1 Hwf) as (s' & w' & vv & -> & ? & ? & _). done.
Qed.

Lemma follows_getlocal e0 t req e w : follows e0 e → follows e0 (net_GetLocal t req e w).1.2.
Proof.
  apply follows_call. intros s w1 Hwf. unfold bind, ret. pose proof (getlocal_handler req s w1) as Hs.
  destruct (Server_GetLocal req s w1) as [[r s'] w']. simpl in *. subst s'. done.
Qed.

Lemma follows_health e0 t req e w : follows e0 e → follows e0 (net_HealthCheck t req e w).1.2.
Proof.
  apply follows_call. intros s w1 Hwf. unfold bind, ret.
  destruct (server_healthcheck_spec req s w1 Hwf) as (resp & s' & w' & -> & ? & ? & _). done.
Qed.

(** Invariant of a system. *)
Record sys_inv (U : gset string) (y : System) : Prop := mkSysInv {
  si_mesh : cluster_wf U (servers y);
  si_nodes : ∀ t n, sy_nodes y !! t = Some n → node_inv n;
}.

Lemma servers_lookup y t n : sy_nodes y !! t = Some n → cl_nodes (servers y) !! t = Some (nd_server n).
Proof. intros Hn. simpl. by rewrite lookup_fmap, Hn. Qed.

Lemma servers_rejoin a n' e' y :
  dom (cl_nodes e') = dom (cl_nodes (others a (servers y))) →
  servers (rejoin a n' e' y) = mkCluster (<[target_of a := nd_server n']> (cl_nodes e')) (cl_faults e').
Proof.
  intros Hd. unfold servers, rejoin. simpl. f_equal. rewrite fmap_insert. apply map_eq. intros t.
  destruct (decide (t = target_of a)) as [->|Hne]; [by rewrite !lookup_insert_eq|].
  rewrite !lookup_insert_ne by done. rewrite lookup_fmap, map_lookup_imap.
  assert (t ∈ dom (cl_nodes e') ↔ t ∈ dom (sy_nodes y)) as Ht.
  { rewrite Hd. simpl. rewrite dom_delete_L, dom_fmap_L. set_solver. }
  rewrite !elem_of_dom in Ht.
  destruct (sy_nodes y !! t) as [m|]; simpl.
  - by destruct Ht as [_ [s ->]]; [by eexists|].
  - destruct (cl_nodes e' !! t); [|done]. by destruct Ht as [[? ?] _]; [by eexists|].
Qed.

Lemma others_all_wf U a y : sys_inv U y → all_wf (others a (servers y)).
Proof. intros [Hm _]. intros t s. simpl. rewrite lookup_delete_Some. intros [_ Hs]. by eapply cluster_wf_all. Qed.

(** After a step of node [a], every node satisfies its invariant. *)
Lemma rejoin_nodes U a n n' e' y t m :
  sys_inv U y → sy_nodes y !! target_of a = Some n → node_inv n' → nd_cfg n' = nd_cfg n →
  follows (others a (servers y)) e' →
  sy_nodes (rejoin a n' e' y) !! t = Some m →
  node_inv m ∧ ∃ m0, sy_nodes y !! t = Some m0 ∧ nd_cfg m = nd_cfg m0.
Proof.
  intros Hinv Hn Hi Hcfg Hf. simpl. rewrite lookup_insert_Some.
  intros [[<- <-]|[Hne Hm]]; [split; [done|by exists n]|].
  rewrite map_lookup_imap in Hm. destruct (sy_nodes y !! t) as [m0|] eqn:Em; [|done]. simpl in Hm.
  injection Hm as <-. split; [|by exists m0].
  destruct (cl_nodes e' !! t) as [s|] eqn:Es; simpl.
  - destruct (proj2 Hf t s Es) as (Hwf & s0 & Hs0 & Hq). simpl in Hs0.
    rewrite lookup_delete_ne, lookup_fmap, Em in Hs0 by done. injection Hs0 as <-.
    apply node_inv_server; [by eapply si_nodes|done|done].
  - destruct m0. by eapply (si_nodes U y Hinv t).
Qed.

Lemma sys_at_servers {A} a (op : GoM (Server NodeQuorum * Net) A) y w r y' w' :
  (∀ s e, dom (cl_nodes (op (s, e) w).1.2.2) = dom (cl_nodes e)) →
  sys_at a op y w = (r, y', w') → at_node (target_of a) op (servers y) w = (r, servers y', w').
Proof.
  intros Hdom. unfold sys_at, at_node. simpl. rewrite lookup_fmap.
  destruct (sy_nodes y !! target_of a) as [n|] eqn:En; simpl; [|by intros [= <- <- <-]].
  fold (others a (servers y)). specialize (Hdom (nd_server n) (others a (servers y))).
  change (mkCluster (delete (target_of a) (nd_server <$> sy_nodes y)) (sy_faults y)) with (others a (servers y)).
  destruct (op (nd_server n, others a (servers y)) w) as [[r1 [s' e']] w1]. simpl in Hdom.
  intros [= <- <- <-]. by rewrite servers_rejoin.
Qed.

Lemma call_at_dom {Q A} t (m : GoM (Server Q) (option A)) e w D :
  dom (cl_nodes e) = D → dom (cl_nodes (call_at t m e w).1.2) = D.
Proof.
  intros Hd. unfold call_at. destruct (cl_nodes e !! t) eqn:Es; [|done].
  destruct (m s w) as [[r s'] w'].
  destruct (default _ _); [destruct r| |destruct r]; simpl; try done; by rewrite dom_insert_lookup_L by eauto.
Qed.

Lemma put_dom sched req s (e : Net) w : dom (cl_nodes (Server_Put sched req (s, e) w).1.2.2) = dom (cl_nodes e).
Proof.
  apply (server_put_keeps (λ e', dom (cl_nodes e') = dom (cl_nodes e))); [|done].
  intros t r e' w' He. by apply call_at_dom.
Qed.

Lemma get_dom sched req s (e : Net) w : dom (cl_nodes (Server_Get sched req (s, e) w).1.2.2) = dom (cl_nodes e).
Proof.
  apply (server_get_keeps (λ e', dom (cl_nodes e') = dom (cl_nodes e))); [|done].
  intros t r e' w' He. by apply call_at_dom.
Qed.

(** A node that only changes itself. *)
Lemma servers_local a n' y :
  servers (rejoin a n' (others a (servers y)) y) =
  mkCluster (<[target_of a := nd_server n']> (cl_nodes (servers y))) (cl_faults (servers y)).
Proof. rewrite servers_rejoin by done. simpl. by rewrite insert_delete_eq. Qed.

(** A health check over the network of [a], with [a] put back. *)
Lemma health_others a s t req (c : Net) w :
  cl_nodes c !! target_of a = Some s →
  let e' := (net_HealthCheck t req (others a c) w).1.2 in
  let c' := mkCluster (<[target_of a := s]> (cl_nodes e')) (cl_faults e') in
  (t = target_of a ∧ c' = mkCluster (cl_nodes c) (tail (cl_faults c))) ∨
  (∃ r w', net_HealthCheck t req c w = (r, c', w')).
Proof.
  intros Hs. cbv zeta. simpl. unfold call_pure, call_at, bind, ret. simpl.
  destruct (decide (t = target_of a)) as [->|Hne].
  - left. split; [done|]. rewrite lookup_delete_eq. simpl. rewrite insert_delete_eq, insert_id by done. done.
  - right. rewrite lookup_delete_ne by done. destruct (cl_nodes c !! t) as [s1|] eqn:Es.
    + destruct (Server_HealthCheck req s1 w) as [[r s1'] w1].
      destruct (default _ _); simpl; eexists _, _; f_equal; f_equal; f_equal;
        rewrite ?insert_delete_eq, ?insert_id by done; try done;
        rewrite insert_insert_ne, insert_delete_eq by done; f_equal; by rewrite insert_id.
    + simpl. eexists _, _. by rewrite insert_delete_eq, insert_id by done.
Qed.

Lemma set_engine_same o s : o = sv_reconciler s → set_engine o (sv_store s) s = s.
Proof. intros ->. by destruct s. Qed.

(** Writes to [key] after [ts] that are not older. *)
Definition later (key : string) (ts : HLC) (k : string) (h : HLC) : Prop := k = key → ts ≼h h.

Lemma probe_simulates U key ts a n cl addr y w r p' l' e' w' :
  sy_nodes y !! target_of a = Some n →
  checkPeer cl addr (nd_probe n, if nd_listening n then sv_reconciler (nd_server n) else None, others a (servers y)) w
    = (r, (p', l', e'), w') →
  let n' := mkNode (nd_cfg n)
     (if nd_listening n then set_engine l' (sv_store (nd_server n)) (nd_server n) else nd_server n)
     p' (nd_listening n) (nd_adjuster n) in
  dom (cl_nodes e') = dom (cl_nodes (others a (servers y))) →
  rtc (cluster_step U key ts) (servers y) (servers (rejoin a n' e' y)).
Proof.
  intros Hn Heq n' Hd. pose proof (servers_lookup y _ n Hn) as Hs.
  set (l := if nd_listening n then sv_reconciler (nd_server n) else None) in Heq.
  pose proof (check_peer_spec cl addr (nd_probe n) l (others a (servers y)) w) as Hc. cbv zeta in Hc.
  match type of Hc with context [net_HealthCheck ?t ?rq _ ?w0] =>
    pose proof (health_others a (nd_server n) t rq (servers y) w0 Hs) as Hh;
    destruct (net_HealthCheck t rq (others a (servers y)) w0) as [[res e1] w1] end.
  rewrite Heq in Hc. injection Hc as _ -> Hl <- _. cbv zeta in Hh. cbn [fst snd] in Hh.
  rewrite servers_rejoin by done.
  (* the call, with the calling node unchanged *)
  assert (rtc (cluster_step U key ts) (servers y)
    (mkCluster (<[target_of a := nd_server n]> (cl_nodes e')) (cl_faults e'))) as Hcall.
  { destruct Hh as [[_ ->]|(r1 & w2 & Hr)]; apply rtc_once; [apply StepFaults|by eapply StepHealth]. }
  etransitivity; [exact Hcall|].
  assert (nd_server n' = nd_server n ∨ ∃ eng, sv_reconciler (nd_server n) = Some eng ∧
    nd_server n' = set_reconciler (Some (NotifyHealingEvent addr eng)) (sv_store (nd_server n)) (nd_server n)) as Hn'.
  { unfold n'. simpl. destruct (nd_listening n); [|by left]. subst l' l.
    destruct (_ && _); simpl; [|left; by apply set_engine_same].
    destruct (sv_reconciler (nd_server n)) as [eng|] eqn:Eeng; [right; by exists eng|].
    left. by apply set_engine_same. }
  destruct Hn' as [->|(eng & Heng & ->)]; [reflexivity|].
  apply rtc_once.
  pose proof (StepHealing U key ts (target_of a) (nd_server n) eng addr
    (mkCluster (<[target_of a := nd_server n]> (cl_nodes e')) (cl_faults e'))) as Hstep.
  simpl in Hstep. rewrite insert_insert_eq in Hstep. apply Hstep; [apply lookup_insert_eq|done].
Qed.

(** Every step of the system is a run of the cluster of its servers. *)
Lemma sys_step_simulates U key ts y y' :
  sys_inv U y → sys_step U (later key ts) y y' → rtc (cluster_step U key ts) (servers y) (servers y').
Proof.
  intros Hinv Hstep.
  destruct Hstep as [a sched req y w r y' w' Ha Hf Hts Heq|a sched req y w r y' w' Ha Hf Heq|
    a n cl addr y w r p' l' e' w' Hn Hcl Heq|a n reg adj cc aq y w r aq' cc' w' Hn Hadj Hq Heq|
    a n ev eng y w go st' eng' w' Hn Heng Heq|a n o1 o2 new y Hn Ho1 Ho2 Hnew|a n o1 o2 new y Hn Ho1 Ho2|fs y].
  - apply rtc_once. eapply StepPut; [done|done| |apply (sys_at_servers a _ y w r y' w'); [|done]; intros; apply put_dom].
    intros Hk s Hs. simpl in Hs. rewrite lookup_fmap in Hs.
    destruct (sy_nodes y !! target_of a) as [n|] eqn:En; [|done]. simpl in Hs. injection Hs as <-. by apply (Hts n).
  - apply rtc_once. eapply StepGet; [done|done|apply (sys_at_servers a _ y w r y' w'); [|done]; intros; apply get_dom].
  - eapply probe_simulates; [done|done|].
    pose proof (check_peer_spec cl addr (nd_probe n)
      (if nd_listening n then sv_reconciler (nd_server n) else None) (others a (servers y)) w) as Hc. cbv zeta in Hc.
    match type of Hc with context [net_HealthCheck ?t ?rq ?e ?w0] =>
      pose proof (call_at_dom t (x <- Server_HealthCheck rq ;; ret (Some x)) e w0 _ eq_refl) as Hd;
      change (dom (cl_nodes (net_HealthCheck t rq e w0).1.2) = dom (cl_nodes e)) in Hd;
      destruct (net_HealthCheck t rq e w0) as [[res e1] w1] end.
    rewrite Heq in Hc. injection Hc as _ _ _ -> _. exact Hd.
  - rewrite servers_local. apply rtc_once. apply (StepQuorum U key ts (target_of a) (nd_server n)). by apply servers_lookup.
  - rewrite servers_local. apply rtc_once.
    by eapply (StepEngine U key ts (target_of a) (nd_server n) eng ev (servers y)); [apply servers_lookup|..].
  - rewrite servers_local. apply rtc_once. apply (StepDiscover U key ts a (nd_server n)); [by apply servers_lookup|done..].
  - rewrite servers_local. simpl. rewrite insert_id; [reflexivity|]. by rewrite lookup_fmap, Hn.
  - apply rtc_once, (StepFaults U key ts fs (servers y)).
Qed.

(** A single step is one for some key that it does not write. *)
Lemma sys_step_other_key U G ts y y' : sys_step U G y y' → ∃ key, sys_step U (later key ts) y y'.
Proof.
  destruct 1; [exists (preq_Key req +:+ "'"); eapply SPut; [done..| |done]|exists ""; by econstructor..].
  intros n Hn Hk. exfalso. revert Hk. clear. induction (preq_Key req) as [|c k IH]; simpl; [done|].
  intros [= H]. by apply IH.
Qed.

Lemma sys_step_mesh U G y y' : sys_step U G y y' → sys_inv U y → cluster_wf U (servers y').
Proof.
  intros Hstep Hinv. destruct (sys_step_other_key U G (mkHLC 0 0 "") y y' Hstep) as [key Hs].
  apply (cluster_steps_keep U key (mkHLC 0 0 "") 0 (servers y)); [by apply sys_step_simulates|apply Hinv|].
  exists ∅. split; [apply empty_subseteq|]. split; [rewrite size_empty; lia|].
  intros a Ha. by apply not_elem_of_empty in Ha.
Qed.

(** What a step does to the nodes: one acts, the others only serve calls. *)
Lemma sys_step_acts U G y y' :
  sys_step U G y y' → sys_inv U y →
  sy_nodes y' = sy_nodes y ∨
  ∃ a n n' e', sy_nodes y !! target_of a = Some n ∧ node_inv n' ∧ nd_cfg n' = nd_cfg n ∧
    follows (others a (servers y)) e' ∧ y' = rejoin a n' e' y.
Proof.
  intros Hstep Hinv.
  assert (∀ a n n', sy_nodes y !! target_of a = Some n → nd_cfg n' = nd_cfg n →
    node_step (n, others a (servers y)) (n', others a (servers y)) →
    ∃ a0 n0 n1 e', sy_nodes y !! target_of a0 = Some n0 ∧ node_inv n1 ∧ nd_cfg n1 = nd_cfg n0 ∧
      follows (others a0 (servers y)) e' ∧ rejoin a n' (others a (servers y)) y = rejoin a0 n1 e' y) as Hlocal.
  { intros a n n' Hn Hcfg Hs. exists a, n, n', (others a (servers y)). split; [done|].
    split; [eapply node_step_inv; [exact Hs|by eapply si_nodes]|]. split; [done|]. split; [|done].
    apply follows_refl. by eapply others_all_wf. }
  assert (∀ a, follows (others a (servers y)) (others a (servers y))) as Href.
  { intros a. apply follows_refl. by eapply others_all_wf. }
  destruct Hstep as [a sched req y w r y' w' Ha Hf Hts Heq|a sched req y w r y' w' Ha Hf Heq|
    a n cl addr y w r p' l' e' w' Hn Hcl Heq|a n reg adj cc aq y w r aq' cc' w' Hn Hadj Hq Heq|
    a n ev eng y w go st' eng' w' Hn Heng Heq|a n o1 o2 new y Hn Ho1 Ho2 Hnew|a n o1 o2 new y Hn Ho1 Ho2|fs y];
    [| | |right; eapply Hlocal; [eassumption|reflexivity|]| right; eapply Hlocal; [eassumption|reflexivity|]|right; eapply Hlocal; [eassumption|reflexivity|]|
     right; eapply Hlocal; [eassumption|reflexivity|]|by left].
  - unfold sys_at in Heq. destruct (sy_nodes y !! target_of a) as [n|] eqn:En; [|left; congruence].
    pose proof (server_put_keeps (follows (others a (servers y))) (follows_replicate _) sched req (nd_server n) _ w
      (Href a)) as Hfo.
    destruct (Server_Put sched req (nd_server n, others a (servers y)) w) as [[r1 [s' e']] w1] eqn:Hp.
    injection Heq as <- <- <-. right. exists a, n, (with_server s' n), e'. split_and!; try done.
    eapply node_step_inv; [by eapply NRequest, (NPut sched)|by eapply si_nodes].
  - unfold sys_at in Heq. destruct (sy_nodes y !! target_of a) as [n|] eqn:En; [|left; congruence].
    pose proof (server_get_keeps (follows (others a (servers y))) (follows_getlocal _) sched req (nd_server n) _ w
      (Href a)) as Hfo.
    destruct (Server_Get sched req (nd_server n, others a (servers y)) w) as [[r1 [s' e']] w1] eqn:Hp.
    injection Heq as <- <- <-. right. exists a, n, (with_server s' n), e'. split_and!; try done.
    eapply node_step_inv; [by eapply NRequest, (NGet sched)|by eapply si_nodes].
  - right. exists a, n, (mkNode (nd_cfg n)
      (if nd_listening n then set_engine l' (sv_store (nd_server n)) (nd_server n) else nd_server n)
      p' (nd_listening n) (nd_adjuster n)), e'. split_and!; [done| |done| |done].
    + by eapply (probe_check_inv cl addr n _ w r p' l' e' w'), si_nodes.
    + pose proof (check_peer_spec cl addr (nd_probe n)
        (if nd_listening n then sv_reconciler (nd_server n) else None) (others a (servers y)) w) as Hc. cbv zeta in Hc.
      match type of Hc with context [net_HealthCheck ?t ?rq ?e ?w0] =>
        pose proof (follows_health (others a (servers y)) t rq e w0 (Href a)) as Hfo;
        destruct (net_HealthCheck t rq e w0) as [[res e1] w1] end.
      rewrite Heq in Hc. injection Hc as _ _ _ -> _. exact Hfo.
  - by eapply NBackground, NAdjust.
  - by eapply NBackground, NEngine.
  - by apply NBackground, NDiscover.
  - by apply NBackground, NDiscoverProbe.
Qed.

Lemma sys_step_inv U G y y' :
  sys_step U G y y' → sys_inv U y →
  sys_inv U y' ∧ ∀ t m, sy_nodes y' !! t = Some m → ∃ m0, sy_nodes y !! t = Some m0 ∧ nd_cfg m = nd_cfg m0.
Proof.
  intros Hstep Hinv. pose proof (sys_step_mesh U G y y' Hstep Hinv) as Hmesh.
  destruct (sys_step_acts U G y y' Hstep Hinv) as [Hsame|(a & n & n' & e' & Hn & Hi & Hcfg & Hf & ->)].
  - rewrite Hsame. split; [|by eauto]. split; [done|]. rewrite Hsame. apply (si_nodes U y Hinv).
  - split; [split; [done|]|]; intros t m Hm;
      destruct (rejoin_nodes U a n n' e' y t m Hinv Hn Hi Hcfg Hf Hm) as [? ?]; done.
Qed.

Lemma sys_steps_inv U G y y' :
  rtc (sys_step U G) y y' → sys_inv U y →
  sys_inv U y' ∧ ∀ t m, sy_nodes y' !! t = Some m → ∃ m0, sy_nodes y !! t = Some m0 ∧ nd_cfg m = nd_cfg m0.
Proof.
  induction 1 as [y|y1 y2 y3 Hs _ IH]; intros Hinv; [by eauto|].
  destruct (sys_step_inv U G y1 y2 Hs Hinv) as [Hinv2 Hc2]. destruct (IH Hinv2) as [Hinv3 Hc3]. split; [done|].
  intros t m Hm. destruct (Hc3 t m Hm) as (m2 & Hm2 & ->). by apply Hc2.
Qed.

Lemma sys_steps_simulate U key ts y y' :
  sys_inv U y → rtc (sys_step U (later key ts)) y y' → rtc (cluster_step U key ts) (servers y) (servers y').
Proof.
  intros Hinv Hs. revert Hinv. induction Hs as [y|y1 y2 y3 Hs _ IH]; intros Hinv; [reflexivity|].
  transitivity (servers y2); [by apply sys_step_simulates|]. apply IH. by eapply sys_step_inv.
Qed.

(** ** The start *)

Lemma start_node_shape getenv ParseFloat w n w' :
  start_node (E := Net) getenv ParseFloat tt w = (inl n, tt, w') →
  config_valid (nd_cfg n) ∧ cfg_N (nd_cfg n) = Z.of_nat (length (cfg_Peers (nd_cfg n))) + 1 ∧
  sv_coordinator (nd_server n) =
    NewCoordinator (E := Net) (cfg_NodeID (nd_cfg n)) (cfg_Peers (nd_cfg n)) (cfg_ReplicationTimeout (nd_cfg n)) ∧
  (cfg_AdaptiveEnabled (nd_cfg n) = false → sv_quorumProvider (nd_server n) = QStatic (nd_cfg n)).
Proof.
  unfold start_node. destruct (LoadConfig getenv ParseFloat) as [cfg|err] eqn:Hl; [|done].
  destruct (Config_Validate cfg) as [err|] eqn:Hv; [done|]. apply validate_spec in Hv.
  unfold bind, emit, time_now, ret. simpl. intros [= <- _]. simpl. split_and!; [done|by eapply load_config_size|done|].
  by intros ->.
Qed.

Lemma initial_inv U r q y : initial U r q y → sys_inv U y.
Proof.
  intros [Hd Hn].
  assert (∀ t n, sy_nodes y !! t = Some n → ∃ a, t = target_of a) as Ht.
  { intros t n Hl. apply elem_of_dom_2 in Hl. rewrite Hd in Hl. apply elem_of_map in Hl as (a & -> & _). by exists a. }
  assert (∀ t n, sy_nodes y !! t = Some n → node_inv n) as Hi.
  { intros t n Hl. destruct (Ht t n Hl) as [a ->]. destruct (Hn a n Hl) as ((g & pf & w & w' & Hs) & _ & _ & Had & _).
    eapply start_node_inv; [exact Hs|congruence]. }
  split; [|done]. split; [simpl; by rewrite dom_fmap_L|]. intros a s Hs. simpl in Hs. rewrite lookup_fmap in Hs.
  destruct (sy_nodes y !! target_of a) as [n|] eqn:En; [|done]. simpl in Hs. injection Hs as <-.
  destruct (Hn a n En) as ((g & pf & w & w' & Hs) & Hp & _).
  split; [apply (Hi _ _ En)|]. destruct (start_node_shape _ _ _ _ _ Hs) as (_ & _ & -> & _).
  by rewrite new_coordinator_dom.
Qed.

(** The quorums of a statically configured cluster intersect. *)
Lemma initial_quorums U r q y a : initial U r q y → a ∈ U → Z.of_nat (size U) < 2 ^ 62 →
  Z.of_nat (size U) < r + q ∧ (2 <= size U)%nat.
Proof.
  intros [Hd Hn] Ha Hsz. assert (target_of a ∈ dom (sy_nodes y)) as [n En]%elem_of_dom.
  { rewrite Hd. apply elem_of_map. by exists a. }
  destruct (Hn a n En) as ((g & pf & w & w' & Hs) & Hp & Hnd & _ & HR & HW).
  destruct (start_node_shape _ _ _ _ _ Hs) as (Hv & HN & _ & _).
  assert (size U = S (length (cfg_Peers (nd_cfg n)))) as HU.
  { rewrite <- (size_list_to_set (C := gset string)) by done. rewrite Hp.
    rewrite size_difference by set_solver. rewrite size_singleton.
    assert (size U ≠ 0%nat); [|lia]. intros H0%size_empty_inv. set_solver. }
  pose proof (config_valid_intersection _ Hv) as Hint. destruct Hv as (_ & H3 & _). lia.
Qed.

(** A node of a statically configured system has the quorums of its configuration. *)
Lemma sys_static U r q y0 y t n :
  initial U r q y0 → sys_inv U y →
  (∀ t m, sy_nodes y !! t = Some m → ∃ m0, sy_nodes y0 !! t = Some m0 ∧ nd_cfg m = nd_cfg m0) →
  sy_nodes y !! target_of t = Some n →
  GetR (sv_quorumProvider (nd_server n)) = r ∧ GetW (sv_quorumProvider (nd_server n)) = q.
Proof.
  intros [_ Hn] Hinv Hc Hl. destruct (Hc _ n Hl) as (n0 & Hl0 & Hcfg).
  destruct (Hn t n0 Hl0) as (_ & _ & _ & Had & HR & HW). rewrite <- Hcfg in Had, HR, HW.
  pose proof (ni_quorum n (si_nodes U y Hinv _ n Hl)) as Hq.
  destruct (sv_quorumProvider (nd_server n)) as [c|aq]; simpl in *; [by subst c|].
  destruct Hq as [Hen _]. congruence.
Qed.

(** ** Properties *)


(** *** Three nodes started from their environments *)

Definition env_of (id peers key : string) : string :=
  if bool_decide (key = "NODE_ID") then id
  else if bool_decide (key = "PEERS") then peers
  else if bool_decide (key = "RECONCILIATION_ENABLED") then "true" else "".

Definition started (id peers : string) : option Node :=
  match start_node (E := Net) (env_of id peers) (λ _, None) tt (ticking 0) with
  | (inl n, _, _) => Some n
  | _ => None
  end.

Definition demo_system : System :=
  mkSystem (map_imap (λ _ o, o) (list_to_map [(target_of "a", started "a" "b,c"); (target_of "b", started "b" "a, c");
                                             (target_of "c", started "c" "a,b")])) [].

(** The part of the starting condition that can be evaluated. *)
Definition started_with (U : gset string) (a : string) (n : Node) : bool :=
  bool_decide (list_to_set (cfg_Peers (nd_cfg n)) = U ∖ {[a]}) && bool_decide (NoDup (cfg_Peers (nd_cfg n))) &&
  negb (cfg_AdaptiveEnabled (nd_cfg n)) && (cfg_R (nd_cfg n) =? 2) && (cfg_W (nd_cfg n) =? 2).

Lemma started_start id peers n :
  started id peers = Some n →
  ∃ w', start_node (E := Net) (env_of id peers) (λ _, None) tt (ticking 0) = (inl n, tt, w').
Proof.
  unfold started. destruct (start_node _ _ _ _) as [[[n'|?] []] w']; [|done]. intros [= ->]. by exists w'.
Qed.

Lemma demo_system_lookup a n :
  sy_nodes demo_system !! target_of a = Some n →
  ∃ id peers, (a, id, peers) ∈ [("a", "a", "b,c"); ("b", "b", "a, c"); ("c", "c", "a,b")] ∧ started id peers = Some n.
Proof.
  unfold demo_system. cbn [sy_nodes]. generalize started. intros st. rewrite map_lookup_imap. cbn [list_to_map fst snd foldr].
  destruct (decide (a = "a")) as [->|Ha].
  { rewrite lookup_insert_eq. intros Hn. exists "a", "b,c". split; [set_solver|done]. }
  rewrite lookup_insert_ne by (intros ?%(inj target_of); congruence). destruct (decide (a = "b")) as [->|Hb].
  { rewrite lookup_insert_eq. intros Hn. exists "b", "a, c". split; [set_solver|done]. }
  rewrite lookup_insert_ne by (intros ?%(inj target_of); congruence). destruct (decide (a = "c")) as [->|Hc].
  { rewrite lookup_insert_eq. intros Hn. exists "c", "a,b". split; [set_solver|done]. }
  rewrite lookup_insert_ne by (intros ?%(inj target_of); congruence). by rewrite lookup_empty.
Qed.

Lemma demo_started :
  Forall (λ p, match started p.1.2 p.2 with Some n => started_with (list_to_set ["a"; "b"; "c"]) p.1.1 n = true | None => False end)
    [("a", "a", "b,c"); ("b", "b", "a, c"); ("c", "c", "a,b")].
Proof. repeat constructor; vm_compute; reflexivity. Qed.

Lemma demo_system_initial : initial (list_to_set ["a"; "b"; "c"]) 2 2 demo_system.
Proof.
  split; [apply (bool_decide_unpack _); vm_compute; exact I|]. intros a n Hn.
  destruct (demo_system_lookup a n Hn) as (id & peers & Hin & Hs).
  pose proof demo_started as Hw. rewrite Forall_forall in Hw. specialize (Hw _ Hin). cbn [fst snd] in Hw.
  rewrite Hs in Hw. destruct (started_start id peers n Hs) as [w' Hst]. split; [by eexists _, _, _, _|].
  unfold started_with in Hw. rewrite !andb_true_iff, !bool_decide_eq_true, negb_true_iff, !Z.eqb_eq in Hw.
  destruct Hw as ((((H1 & H2) & H3) & H4) & H5). exact (conj H1 (conj H2 (conj H3 (conj H4 H5)))).
Qed.

