(* ===== verification/NodeMain.v ===== *)
(** * NodeMain: a node as a process (src/cmd/acp-node/main.go)

    [main] from the listeners on: it waits for a signal, cancels the context of the
    goroutines, stops the gRPC server gracefully, closes the metrics server and
    runs its deferred calls.  The requests are served and the goroutines of the
    parts take their turns meanwhile ([Node]).  The gRPC server is a class with the
    laws its documentation gives. *)

From S2P Require Import Prelude GoLib Float64 Metrics Hlc Storage Staleness Reconcile Config Quorum.
From S2P Require Import Ccs Adjuster Api Coordinator Server Cluster ServerSpec Health Node.

Open Scope Z_scope.

(** ** The gRPC server *)

Class RpcServer (G : Type) := mkRpcServer {
  rpc_new : G;
  rpc_pending : G → list request;               (* requests whose handler has not returned *)
  rpc_accept : request → G → option G;
  rpc_finish : request → G → G;
  rpc_stop : G → G;                             (* GracefulStop is called *)
  rpc_stopping : G → bool;
  rpc_stopped : G → bool;                       (* GracefulStop returns *)
  rpc_error : G → bool;                         (* Serve returns with an error *)
}.

(** "GracefulStop stops the gRPC server gracefully.  It stops the server from
    accepting new connections and RPCs and blocks until all the pending RPCs are
    finished."  "Serve will return a non-nil error unless Stop or GracefulStop is
    called." *)
Class GracefulServer (G : Type) `{!RpcServer G} : Prop := mkGracefulServer {
  rpc_new_pending : rpc_pending rpc_new = [];
  rpc_accept_pending rq g g' : rpc_accept rq g = Some g' → rpc_pending g' ≡ₚ rq :: rpc_pending g;
  rpc_accept_stopping rq g : rpc_stopping g = true → rpc_accept rq g = None;
  rpc_finish_pending rq g : rq ∈ rpc_pending g → rpc_pending g ≡ₚ rq :: rpc_pending (rpc_finish rq g);
  rpc_finish_stopping rq g : rpc_stopping (rpc_finish rq g) = rpc_stopping g;
  rpc_stop_pending g : rpc_pending (rpc_stop g) = rpc_pending g;
  rpc_stop_stopping g : rpc_stopping (rpc_stop g) = true;
  rpc_stopped_iff g : rpc_stopped g = true ↔ rpc_stopping g = true ∧ rpc_pending g = [];
  rpc_error_stopping g : rpc_stopping g = true → rpc_error g = false;
}.

(** ** The process *)

(** The deferred calls; [probe.Stop] closes its channel, waits and then closes the
    connections. *)
Inductive deferred := DCancel | DStopProbe | DCloseProbe | DCloseCoordinator | DSync.

(** They run last in, first out. *)
Definition main_defers : list deferred := [DCancel; DStopProbe; DCloseCoordinator; DSync].

Inductive node_pc :=
  | AtListen                                    (* net.Listen *)
  | AtSignal                                    (* <-sigCh *)
  | AtCancel                                    (* cancel() *)
  | AtGracefulStop                              (* grpcServer.GracefulStop() *)
  | AtStopping                                  (* inside it *)
  | AtCloseMetrics                              (* metricsServer.Close() *)
  | Returning (ds : list deferred)
  | Exited (status : Z).

Section Process.
Context {E G : Type} `{!Network E, !RpcServer G}.

Record MainState := mkMain {
  mn_pc : node_pc;
  mn_node : Node * E;
  mn_grpc : G;
  mn_cancelled : bool;                          (* ctx *)
  mn_metrics : bool;                            (* the metrics server is not closed *)
  mn_accepted : list request;
  mn_answered : list request;
}.

Definition start_main (n : Node) (e : E) : MainState := mkMain AtListen (n, e) rpc_new false true [] [].

Definition at_pc (pc : node_pc) (m : MainState) : MainState :=
  mkMain pc (mn_node m) (mn_grpc m) (mn_cancelled m) (mn_metrics m) (mn_accepted m) (mn_answered m).
Definition in_node (st : Node * E) (m : MainState) : MainState :=
  mkMain (mn_pc m) st (mn_grpc m) (mn_cancelled m) (mn_metrics m) (mn_accepted m) (mn_answered m).
Definition on_node (f : Node → Node) (m : MainState) : MainState := in_node (f (mn_node m).1, (mn_node m).2) m.
Definition with_grpc (g : G) (m : MainState) : MainState :=
  mkMain (mn_pc m) (mn_node m) g (mn_cancelled m) (mn_metrics m) (mn_accepted m) (mn_answered m).
Definition main_cancel (m : MainState) : MainState :=
  mkMain (mn_pc m) (mn_node m) (mn_grpc m) true (mn_metrics m) (mn_accepted m) (mn_answered m).
Definition close_metrics (m : MainState) : MainState :=
  mkMain (mn_pc m) (mn_node m) (mn_grpc m) (mn_cancelled m) false (mn_accepted m) (mn_answered m).

Definition with_probe (p : Probe) (n : Node) : Node :=
  mkNode (nd_cfg n) (nd_server n) p (nd_listening n) (nd_adjuster n).
Definition node_stop_probe (n : Node) : Node := with_probe (Probe_Stop_signal (nd_probe n)) n.
Definition node_close_probe (n : Node) : Node := with_probe (Probe_Stop_close (nd_probe n)) n.
Definition node_close_coordinator (n : Node) : Node :=
  with_server (set_coordinator (Coordinator_Close (sv_coordinator (nd_server n))) (nd_server n)) n.

(** One deferred call, and what is left to do; [logger.Sync] has no effect here. *)
Definition run_deferred (d : deferred) (ds : list deferred) (m : MainState) : MainState :=
  match d with
  | DCancel => at_pc (Returning ds) (main_cancel m)
  | DStopProbe => at_pc (Returning (DCloseProbe :: ds)) (on_node node_stop_probe m)
  | DCloseProbe => at_pc (Returning ds) (on_node node_close_probe m)
  | DCloseCoordinator => at_pc (Returning ds) (on_node node_close_coordinator m)
  | DSync => at_pc (Returning ds) m
  end.

(** A step of [main] itself. *)
Inductive main_step : MainState → MainState → Prop :=
  | MListen m : mn_pc m = AtListen → main_step m (at_pc AtSignal m)
  | MSignal m : mn_pc m = AtSignal → main_step m (at_pc AtCancel m)
  | MCancel m : mn_pc m = AtCancel → main_step m (at_pc AtGracefulStop (main_cancel m))
  | MStop m : mn_pc m = AtGracefulStop → main_step m (at_pc AtStopping (with_grpc (rpc_stop (mn_grpc m)) m))
  | MStopped m :
      mn_pc m = AtStopping → rpc_stopped (mn_grpc m) = true → main_step m (at_pc AtCloseMetrics m)
  | MCloseMetrics m :
      mn_pc m = AtCloseMetrics → main_step m (at_pc (Returning main_defers) (close_metrics m))
  | MDefer d ds m : mn_pc m = Returning (d :: ds) → main_step m (run_deferred d ds m)
  | MExit m : mn_pc m = Returning [] → main_step m (at_pc (Exited 0) m).

Definition running (pc : node_pc) : Prop := match pc with Exited _ => False | _ => True end.
Definition serving (pc : node_pc) : Prop := match pc with AtListen | Exited _ => False | _ => True end.

(** A step of the process.  A goroutine may take a turn after the context was
    cancelled, as long as it has not looked at it.  [logger.Fatal] ends the process
    at once. *)
Inductive process_step : MainState → MainState → Prop :=
  | PMain m m' : main_step m m' → process_step m m'
  | PAccept rq g' m :
      serving (mn_pc m) → rpc_accept rq (mn_grpc m) = Some g' →
      process_step m (mkMain (mn_pc m) (mn_node m) g' (mn_cancelled m) (mn_metrics m)
                        (rq :: mn_accepted m) (mn_answered m))
  | PServe rq st' m :
      running (mn_pc m) → rq ∈ rpc_pending (mn_grpc m) → request_step rq (mn_node m) st' →
      process_step m (mkMain (mn_pc m) st' (rpc_finish rq (mn_grpc m)) (mn_cancelled m) (mn_metrics m)
                        (mn_accepted m) (rq :: mn_answered m))
  | PBackground st' m :
      running (mn_pc m) → background_step (mn_node m) st' → process_step m (in_node st' m)
  | PListenFails m : mn_pc m = AtListen → process_step m (at_pc (Exited 1) m)
  | PServeFails m : serving (mn_pc m) → rpc_error (mn_grpc m) = true → process_step m (at_pc (Exited 1) m)
  | PMetricsFail m : serving (mn_pc m) → mn_metrics m = true → process_step m (at_pc (Exited 1) m).
End Process.

Arguments MainState E G : clear implicits.

(** ** Invariant *)

Section Invariant.
Context {E G : Type} `{!Network E, !ReplicaNetwork E, !RpcServer G, !GracefulServer G}.
Implicit Types (m : MainState E G) (n : Node) (c : Coordinator).

Definition conns_open c : Prop := map_Forall (λ _ cn, conn_open cn = true) (co_conns c).

(** Where [main] is: the context was cancelled, [GracefulStop] was called, it has
    returned, the connections of the coordinator are not closed. *)
Definition past_cancel (pc : node_pc) : Prop :=
  match pc with AtListen | AtSignal | AtCancel => False | Exited s => s = 0 | _ => True end.
Definition past_stop (pc : node_pc) : Prop :=
  match pc with AtStopping | AtCloseMetrics | Returning _ => True | Exited s => s = 0 | _ => False end.
Definition past_drain (pc : node_pc) : Prop :=
  match pc with AtCloseMetrics | Returning _ => True | Exited s => s = 0 | _ => False end.
Definition before_close (pc : node_pc) : Prop :=
  match pc with Returning ds => DCloseCoordinator ∈ ds | Exited s => s ≠ 0 | _ => True end.

(** What can be left of the deferred calls. *)
Inductive defers_left : list deferred → Prop :=
  | left_all : defers_left main_defers
  | left_probe : defers_left [DStopProbe; DCloseCoordinator; DSync]
  | left_close_probe : defers_left [DCloseProbe; DCloseCoordinator; DSync]
  | left_coordinator : defers_left [DCloseCoordinator; DSync]
  | left_sync : defers_left [DSync]
  | left_none : defers_left [].

Record main_inv m : Prop := {
  mi_node : node_inv (mn_node m).1;
  mi_count : mn_accepted m ≡ₚ mn_answered m ++ rpc_pending (mn_grpc m);
  mi_cancelled : past_cancel (mn_pc m) → mn_cancelled m = true;
  mi_stopping : past_stop (mn_pc m) → rpc_stopping (mn_grpc m) = true;
  mi_drained : past_drain (mn_pc m) → rpc_pending (mn_grpc m) = [];
  mi_metrics : match mn_pc m with Returning ds => mn_metrics m = false ∧ defers_left ds | _ => True end;
  mi_open : before_close (mn_pc m) → conns_open (sv_coordinator (nd_server (mn_node m).1));
}.

Lemma add_peer_open addr c : conns_open c → conns_open (addPeer addr c).2.
Proof.
  intros Ho. unfold addPeer. destruct (co_peers c !! addr); [done|]. destruct (net_NewClient _); [done|].
  by apply map_Forall_insert_2.
Qed.

Lemma remove_peer_open addr c : conns_open c → conns_open (removePeer addr c).
Proof. intros Ho. unfold removePeer. destruct (co_conns c !! addr); [|done]. by apply map_Forall_delete. Qed.

Lemma reconcile_peers_open o1 o2 new c : conns_open c → conns_open (reconcilePeers o1 o2 new c).
Proof.
  intros Ho. unfold reconcilePeers. apply (fold_left_inv _ conns_open).
  - apply (fold_left_inv _ conns_open); [done|]. intros c' a _ Hc'. case_decide; [done|]. by apply remove_peer_open.
  - intros c' a _ Hc'. destruct (co_peers c' !! a); [done|]. by apply add_peer_open.
Qed.

Lemma new_coordinator_open nodeID addrs timeout : conns_open (NewCoordinator nodeID addrs timeout).
Proof. apply (fold_left_inv _ conns_open); [by intros a cn|]. intros c a _. apply add_peer_open. Qed.

(** No handler changes the coordinator; of the goroutines only discovery does. *)
Lemma request_keeps_coordinator rq n e n' e' :
  request_step rq (n, e) (n', e') → node_inv n → sv_coordinator (nd_server n') = sv_coordinator (nd_server n).
Proof.
  intros Hstep [Hwf _ _ _ _].
  inversion Hstep as [sched req n0 e0 w r s' e1 w' Hf Heq|sched req n0 e0 w r s' e1 w' Hf Heq|
    req n0 e0 w r s' w' Heq|req n0 e0 w r s' w' Heq|req n0 e0 w r s' w' Heq]; subst; clear Hstep.
  - destruct (server_put_spec sched req (nd_server n) e w Hf Hwf) as (resp & s2 & e2 & w2 & acked & Heq2 & _ & (_ & Hc & _) & _).
    rewrite Heq2 in Heq. by simplify_eq.
  - destruct (server_get_spec sched req (nd_server n) e w Hf Hwf) as (resp & e2 & w2 & Heq2 & _).
    rewrite Heq2 in Heq. by simplify_eq.
  - destruct (server_replicate_spec req (nd_server n) w Hwf) as (s2 & w2 & vv & Heq2 & _ & (_ & Hc & _) & _).
    rewrite Heq2 in Heq. by simplify_eq.
  - destruct (server_getlocal_spec req (nd_server n) w) as (resp & w2 & Heq2 & _).
    rewrite Heq2 in Heq. by simplify_eq.
  - destruct (server_healthcheck_spec req (nd_server n) w Hwf) as (resp & s2 & w2 & Heq2 & _ & (_ & Hc & _) & _).
    rewrite Heq2 in Heq. by simplify_eq.
Qed.

Lemma background_keeps_open n e n' e' :
  background_step (n, e) (n', e') → conns_open (sv_coordinator (nd_server n)) → conns_open (sv_coordinator (nd_server n')).
Proof.
  intros Hstep. inversion Hstep; subst; simpl; try done.
  - by destruct (nd_listening n).
  - by apply reconcile_peers_open.
Qed.

Lemma deferred_keeps_inv n :
  node_inv n → node_inv (node_stop_probe n) ∧ node_inv (node_close_probe n) ∧ node_inv (node_close_coordinator n).
Proof.
  assert (∀ c, coord_wf c → coord_wf (Coordinator_Close c)) as Hclose.
  { intros c [H1 H2 H3]. split; simpl; [by rewrite dom_fmap_L|done|].
    intros a cn. rewrite lookup_fmap. destruct (co_conns c !! a) eqn:Ea; [|done]. intros [= <-]. simpl. by eapply H3. }
  intros [[Hc He] Hp Hq Ha Hv]. split_and!; (split; [split|..]); simpl; try done.
  - apply (Hclose _ Hp).
  - by apply Hclose.
Qed.

Lemma main_step_inv m m' : main_step m m' → main_inv m → main_inv m'.
Proof.
  intros Hstep [H1 H2 H3 H4 H5 H6 H7]. destruct (deferred_keeps_inv (mn_node m).1 H1) as (D1 & D2 & D3).
  destruct Hstep as [m Hpc|m Hpc|m Hpc|m Hpc|m Hpc Hs|m Hpc|d ds m Hpc|m Hpc]; rewrite Hpc in *; simpl in *.
  1-3: split; simpl; try done; tauto.
  - split; simpl; rewrite ?rpc_stop_pending, ?rpc_stop_stopping; try done; by intros; apply H3.
  - apply rpc_stopped_iff in Hs as [Hs1 Hs2]. split; simpl; naive_solver.
  - split; simpl; try naive_solver. split; [done|constructor].
  - destruct H6 as [H6 Hl]. inversion Hl; subst; (split; simpl; [done|done|done|auto|auto|by split; [|constructor]|]);
      try (intros _; apply H7; set_solver); set_solver.
  - split; simpl; naive_solver.
Qed.

Lemma process_step_inv m m' : process_step m m' → main_inv m → main_inv m'.
Proof.
  intros Hstep Hinv. pose proof Hinv as [H1 H2 H3 H4 H5 H6 H7].
  destruct Hstep as [m m' Hs|rq g' m Hpc Ha|rq [n' e'] m Hpc Hin Hs|[n' e'] m Hpc Hs|m Hpc|m Hpc He|m Hpc He].
  - by eapply main_step_inv.
  - assert (rpc_stopping (mn_grpc m) = false) as Hns.
    { destruct (rpc_stopping (mn_grpc m)) eqn:E1; [|done]. by rewrite rpc_accept_stopping in Ha. }
    assert (¬ past_stop (mn_pc m)) as Hnp by (intros Hp; apply H4 in Hp; congruence).
    split; simpl; try done.
    + rewrite (rpc_accept_pending rq _ _ Ha), H2. by rewrite <- Permutation_middle.
    + intros Hd. destruct Hnp. by destruct (mn_pc m).
  - destruct (mn_node m) as [n e] eqn:En. pose proof (request_keeps_coordinator _ _ _ _ _ Hs H1) as Hc.
    split; simpl; try done.
    + by eapply request_step_inv.
    + rewrite H2, (rpc_finish_pending rq (mn_grpc m) Hin). by rewrite <- Permutation_middle.
    + by rewrite rpc_finish_stopping.
    + intros Hd. apply H5 in Hd. rewrite Hd in Hin. by apply elem_of_nil in Hin.
    + intros Hb. rewrite Hc. by apply H7.
  - destruct (mn_node m) as [n e] eqn:En. split; simpl; try done.
    + by eapply background_step_inv.
    + intros Hb. eapply background_keeps_open; [exact Hs|]. by apply H7.
  - rewrite Hpc in *. split; simpl; try done; naive_solver.
  - split; simpl; try done. intros _. apply H7. destruct (mn_pc m); try done. simpl in *.
    by rewrite rpc_error_stopping in He by auto.
  - split; simpl; try done. intros _. apply H7. destruct (mn_pc m); try done. simpl in *. destruct H6. congruence.
Qed.

Lemma process_reachable_inv m m' : rtc process_step m m' → main_inv m → main_inv m'.
Proof. induction 1; [done|]. intros Hi. by eapply IHrtc, process_step_inv. Qed.

Lemma start_main_inv getenv ParseFloat w n w' e :
  start_node getenv ParseFloat tt w = (inl n, tt, w') →
  (cfg_AdaptiveEnabled (nd_cfg n) = true → small_config (nd_cfg n)) → main_inv (start_main n e).
Proof.
  intros Hs Hsmall. split; simpl; try done.
  - by eapply start_node_inv.
  - by rewrite rpc_new_pending.
  - intros _. unfold start_node in Hs. destruct (LoadConfig getenv ParseFloat) as [cfg|]; [|done].
    destruct (Config_Validate cfg); [done|]. unfold bind, emit, time_now, ret in Hs. simpl in Hs. injection Hs as <- _.
    apply new_coordinator_open.
Qed.

(** ** Shutting down *)

(** Every handler returns. *)
Lemma request_served rq (st : Node * E) : ∃ st', request_step rq st st'.
Proof.
  destruct st as [n e], rq as [req|req|req|req|req].
  - destruct (Server_Put (λ l, l) req (nd_server n, e) (ticking 0)) as [[r [s' e']] w'] eqn:Heq.
    eexists. by eapply NPut; [apply fair_id|].
  - destruct (Server_Get (λ l, l) req (nd_server n, e) (ticking 0)) as [[r [s' e']] w'] eqn:Heq.
    eexists. by eapply NGet; [apply fair_id|].
  - destruct (Server_Replicate req (nd_server n) (ticking 0)) as [[r s'] w'] eqn:Heq. eexists. by eapply NReplicate.
  - destruct (Server_GetLocal req (nd_server n) (ticking 0)) as [[r s'] w'] eqn:Heq. eexists. by eapply NGetLocal.
  - destruct (Server_HealthCheck req (nd_server n) (ticking 0)) as [[r s'] w'] eqn:Heq. eexists. by eapply NHealthCheck.
Qed.

(** The process can end from [m] with status 0, without taking further requests. *)
Definition can_end m : Prop :=
  ∃ m', rtc process_step m m' ∧ mn_pc m' = Exited 0 ∧ mn_accepted m' = mn_accepted m.

Lemma can_end_step m m' : process_step m m' → mn_accepted m' = mn_accepted m → can_end m' → can_end m.
Proof. intros Hs Ha (m2 & Hr & Hp & Ha2). exists m2. split; [by eapply rtc_l|]. split; [done|congruence]. Qed.

Lemma deferred_accepted d ds m : mn_accepted (run_deferred d ds m) = mn_accepted m.
Proof. by destruct d. Qed.

Lemma can_end_returning ds m : defers_left ds → mn_pc m = Returning ds → can_end m.
Proof.
  assert (∀ m, mn_pc m = Returning [] → can_end m) as H0.
  { intros m0 Hp. exists (at_pc (Exited 0) m0). split; [by apply rtc_once, PMain, MExit|done]. }
  assert (∀ m, mn_pc m = Returning [DSync] → can_end m) as H1.
  { intros m0 Hp. eapply can_end_step; [by eapply PMain, MDefer|by apply deferred_accepted|by apply H0]. }
  assert (∀ m, mn_pc m = Returning [DCloseCoordinator; DSync] → can_end m) as H2.
  { intros m0 Hp. eapply can_end_step; [by eapply PMain, MDefer|by apply deferred_accepted|by apply H1]. }
  assert (∀ m, mn_pc m = Returning [DCloseProbe; DCloseCoordinator; DSync] → can_end m) as H3.
  { intros m0 Hp. eapply can_end_step; [by eapply PMain, MDefer|by apply deferred_accepted|by apply H2]. }
  assert (∀ m, mn_pc m = Returning [DStopProbe; DCloseCoordinator; DSync] → can_end m) as H4.
  { intros m0 Hp. eapply can_end_step; [by eapply PMain, MDefer|by apply deferred_accepted|by apply H3]. }
  intros [] Hp; auto. eapply can_end_step; [by eapply PMain, MDefer|by apply deferred_accepted|by apply H4].
Qed.

Lemma can_end_stopping l : ∀ m,
  rpc_pending (mn_grpc m) ≡ₚ l → mn_pc m = AtStopping → rpc_stopping (mn_grpc m) = true → can_end m.
Proof.
  induction l as [|rq l IH]; intros m Hl Hpc Hs.
  - apply Permutation_nil_r in Hl. eapply can_end_step; [by apply PMain, MStopped, rpc_stopped_iff|done|].
    eapply can_end_step; [by apply PMain, MCloseMetrics|done|]. by eapply can_end_returning; [constructor|].
  - destruct (request_served rq (mn_node m)) as [st' Hst].
    assert (rq ∈ rpc_pending (mn_grpc m)) as Hin by (rewrite Hl; by left).
    eapply can_end_step; [apply (PServe rq st' m); [by rewrite Hpc|done|done]|done|]. apply IH; simpl; [|done|].
    + apply (Permutation_cons_inv (a := rq)). rewrite <- Hl. symmetry. by apply rpc_finish_pending.
    + by rewrite rpc_finish_stopping.
Qed.

(** From the signal on, [main] is never stuck. *)
Lemma signalled_can_end m :
  main_inv m → running (mn_pc m) → mn_pc m ≠ AtListen → mn_pc m ≠ AtSignal → can_end m.
Proof.
  intros [_ _ _ H4 H5 H6 _] Hr Hl Hs.
  assert (∀ m, mn_pc m = AtGracefulStop → can_end m) as Hg.
  { intros m0 Hp. eapply can_end_step; [by apply PMain, MStop|done|].
    eapply can_end_stopping; simpl; [done|done|apply rpc_stop_stopping]. }
  destruct (mn_pc m) eqn:Hpc; try done.
  - eapply can_end_step; [by apply PMain, MCancel|done|]. by apply Hg.
  - by apply Hg.
  - eapply can_end_stopping; [done|done|auto].
  - eapply can_end_step; [by apply PMain, MCloseMetrics|done|]. by eapply can_end_returning; [constructor|].
  - by eapply can_end_returning; [apply H6|].
Qed.
End Invariant.

(** ** Properties *)


(** A server in memory: the pending requests, and whether it is stopping. *)
#[export] Instance PutRequest_eq_dec : EqDecision PutRequest.
Proof. solve_decision. Defined.
#[export] Instance GetRequest_eq_dec : EqDecision GetRequest.
Proof. solve_decision. Defined.
#[export] Instance ReplicateRequest_eq_dec : EqDecision ReplicateRequest.
Proof. solve_decision. Defined.
#[export] Instance HealthRequest_eq_dec : EqDecision HealthRequest.
Proof. solve_decision. Defined.
#[export] Instance request_eq_dec : EqDecision request.
Proof. solve_decision. Defined.

Fixpoint remove_one (rq : request) (l : list request) : list request :=
  match l with [] => [] | r :: l => if decide (r = rq) then l else r :: remove_one rq l end.

#[export] Instance mem_rpc : RpcServer (list request * bool) :=
  mkRpcServer _ ([], false) fst (λ rq g, if g.2 then None else Some (rq :: g.1, false))
    (λ rq g, (remove_one rq g.1, g.2)) (λ g, (g.1, true)) snd (λ g, g.2 && bool_decide (g.1 = [])) (λ _, false).

Lemma remove_one_perm rq l : rq ∈ l → l ≡ₚ rq :: remove_one rq l.
Proof.
  induction l as [|r l IH]; [by intros ?%elem_of_nil|]. cbn [remove_one]. case_decide as Hr; [by subst r|].
  intros [->|Hin]%elem_of_cons; [done|]. rewrite (IH Hin) at 1. constructor.
Qed.

#[export] Instance mem_rpc_graceful : GracefulServer (list request * bool).
Proof.
  split; simpl; try done.
  - intros rq [l []] g'; simpl; [done|]. by intros [= <-].
  - by intros rq [l []].
  - intros rq [l b]. apply remove_one_perm.
  - intros [l b]. simpl. rewrite andb_true_iff, bool_decide_eq_true. done.
Qed.

Definition demo_request : request := RReplicate (mkReplicateRequest "k" [] 1 1 "b" None).

(** A node that listens and has accepted a request. *)
Definition accepted_main (n : Node) (pc : node_pc) : MainState (Cluster AdaptiveQuorum) (list request * bool) :=
  mkMain pc (n, demo_mesh 2 2) ([demo_request], false) false true [demo_request] [].

Lemma reach_accepted n : rtc process_step (start_main n (demo_mesh 2 2)) (accepted_main n AtSignal).
Proof.
  eapply rtc_l; [by apply PMain, MListen|].
  eapply rtc_l; [by apply (PAccept demo_request ([demo_request], false))|]. apply rtc_refl.
Qed.


(** A metrics server that cannot listen ends the node at once, with requests in
    flight and without the deferred calls. *)
Theorem metrics_failure_drops_requests n :
  ∃ m, rtc process_step (start_main n (demo_mesh 2 2)) m ∧
    mn_pc m = Exited 1 ∧ mn_accepted m = [demo_request] ∧ mn_answered m = [] ∧ mn_cancelled m = false.
Proof.
  exists (accepted_main n (Exited 1)). split_and!; try done. eapply rtc_r; [apply reach_accepted|].
  by apply (PMetricsFail (accepted_main n AtSignal)).
Qed.
